(** * Simple Sokoban: rules engine and solution codec

    A shallow embedding of the game core of Simple Sokoban
    ([sok_core.c], [sok_core.h]) and of its solution files ([save.c]),
    with the properties of the move/undo machine, of the level loader and
    of the run-length codec of move histories; and of the helpers of the
    front end ([simplesok.c]) that work on them: the events of the main
    loop, the playback of solutions, the clipboard text of a level and
    the place of the playfield in the window.

    Conventions of the embedding:
    - C integers are [Z]; where a C type can wrap, the wrap is written out.
    - a [char *] string is the list of its characters before the NUL
      terminator; a pointer that the code tests against NULL is an [option].
    - [unsigned char field[64][64]] is a list of 64 lists of 64 cells, cell
      [x][y] being element [y] of element [x]; an access outside
      [0,64) x [0,64) is undefined behaviour in C and makes the embedded
      function return no result.
    - [malloc]/[realloc] may fail: an oracle [alloc_ok] tells which request
      sizes are granted. *)

From Stdlib Require Import ZArith Ascii String List Lia Bool.
From stdpp Require Import base option list.
Import ListNotations.

#[local] Open Scope Z_scope.

(** ** Characters and C strings *)

(** The value of a character, as the [int] it promotes to. *)
Definition code (c : ascii) : Z := Z.of_N (N_of_ascii c).

(** The character with a given value (an [unsigned char] conversion). *)
Definition chr (z : Z) : ascii := ascii_of_N (Z.to_N (z mod 256)).

(** The NUL character that terminates every C string. *)
Definition NUL : ascii := "000"%char.

Definition is_upper (c : ascii) : bool :=
  (code "A"%char <=? code c) && (code c <=? code "Z"%char).

(** [sok_history_getlen]: length of a history string; 0 for NULL. *)
Definition sok_history_getlen (history : option (list ascii)) : Z :=
  match history with
  | None => 0
  | Some h => Z.of_nat (length h)
  end.

(** [sok_history_getpushes]: number of characters in ['A'..'Z']; 0 for NULL. *)
Fixpoint count_pushes (h : list ascii) : Z :=
  match h with
  | [] => 0
  | c :: h' => (if is_upper c then 1 else 0) + count_pushes h'
  end.

Definition sok_history_getpushes (history : option (list ascii)) : Z :=
  match history with
  | None => 0
  | Some h => count_pushes h
  end.

(** ** Solution files ([save.c]) *)

Module Save.

(** [enum solmoves] *)
Definition solmove_u : Z := 0.
Definition solmove_l : Z := 1.
Definition solmove_d : Z := 2.
Definition solmove_r : Z := 3.
Definition solmove_U : Z := 4.
Definition solmove_L : Z := 5.
Definition solmove_D : Z := 6.
Definition solmove_R : Z := 7.
Definition solmove_ERR : Z := 8.

Definition xsb2byte (c : ascii) : Z :=
  match c with
  | "u"%char => solmove_u
  | "l"%char => solmove_l
  | "d"%char => solmove_d
  | "r"%char => solmove_r
  | "U"%char => solmove_U
  | "L"%char => solmove_L
  | "D"%char => solmove_D
  | "R"%char => solmove_R
  | _ => solmove_ERR
  end.

Definition byte2xsb (b : Z) : ascii :=
  match b with
  | 0 => "u"%char
  | 1 => "l"%char
  | 2 => "d"%char
  | 3 => "r"%char
  | 4 => "U"%char
  | 5 => "L"%char
  | 6 => "D"%char
  | 7 => "R"%char
  | _ => "!"%char
  end.

(** The eight move characters of a history. *)
Definition is_move (c : ascii) : bool := negb (xsb2byte c =? solmove_ERR).

(** [fputc] writes its argument converted to [unsigned char]. *)
Definition fputc (v : Z) : Z := v mod 256.

(** The loop of [solution_save] over the string that starts at [solution],
    with the pending run ([lastbyte], [lastbytecount]); the result is the
    bytes written to the file.  Reading at the end of the list reads the
    NUL terminator. *)
Fixpoint save_loop (solution : list ascii) (lastbyte lastbytecount : Z) : list Z :=
  let curbyte := xsb2byte (hd NUL solution) in
  let '(out, lastbyte', lastbytecount') :=
    if (curbyte =? lastbyte) && (lastbytecount <? 15)
    then ([], lastbyte, lastbytecount + 1)
    else ((if 0 <? lastbytecount
           then [fputc (Z.lor (Z.shiftl lastbytecount 4) lastbyte)]
           else []),
          curbyte, 1) in
  if curbyte =? solmove_ERR then out
  else match solution with
       | [] => out
       | _ :: rest => out ++ save_loop rest lastbyte' lastbytecount'
       end.

(** [solution_save]: the bytes written to the solution file, once the save
    directory exists and the file opens; nothing is written for a NULL
    solution. *)
Definition solution_save (solution : option (list ascii)) : option (list Z) :=
  match solution with
  | None => None
  | Some s => Some (save_loop s (-1) 0)
  end.

Section Load.

(** Which allocation sizes [malloc], [realloc] and [strdup] grant. *)
Variable alloc_ok : Z -> bool.

(** The inner [while (rlecounter > 0)] loop of [solution_load]: appends
    [rlecounter] copies of the character of [bytebuff], growing the buffer
    as needed; no result when [realloc] fails or the character is ['!']. *)
Fixpoint load_run (rlecounter : nat) (bytebuff : Z)
    (solution : list ascii) (solution_alloc : Z) : option (list ascii * Z) :=
  match rlecounter with
  | O => Some (solution, solution_alloc)
  | S n =>
      let solutionpos := Z.of_nat (length solution) in
      let grow := solution_alloc <=? solutionpos + 1 in
      let solution_alloc' :=
        if grow then (solution_alloc * 2) mod 2 ^ 64 else solution_alloc in
      if grow && negb (alloc_ok solution_alloc') then None
      else
        let c := byte2xsb bytebuff in
        if Ascii.eqb c "!"%char then None
        else load_run n bytebuff (solution ++ [c]) solution_alloc'
  end.

(** The outer [for (;;)] loop of [solution_load] over the bytes that [getc]
    still has to deliver. *)
Fixpoint load_loop (fd : list Z) (solution : list ascii) (solution_alloc : Z)
    : option (list ascii) :=
  match fd with
  | [] => Some solution
  | bytebuff :: fd' =>
      let rlecounter := Z.shiftr bytebuff 4 in
      let bytebuff := Z.land bytebuff 15 in
      match load_run (Z.to_nat rlecounter) bytebuff solution solution_alloc with
      | None => None
      | Some (solution', solution_alloc') => load_loop fd' solution' solution_alloc'
      end
  end.

(** [solution_load]: [fd] is the content of the first solution file that
    opens (current save directory, then the legacy one), or [None] when
    neither does.  The result is the returned string, [None] for NULL. *)
Definition solution_load (fd : option (list Z)) : option (list ascii) :=
  match fd with
  | None => None
  | Some bytes =>
      if alloc_ok 16 then
        match load_loop bytes [] 16 with
        | None => None
        | Some solution =>
            (* strdup *)
            if alloc_ok (Z.of_nat (length solution) + 1) then Some solution else None
        end
      else None
  end.

End Load.

(** A byte of a solution file that makes [solution_load] give up: a run of
    at least one character whose code is none of the eight moves. *)
Definition corrupt_byte (b : Z) : Prop :=
  0 < Z.shiftr b 4 /\ 7 < Z.land b 15.

(** A byte that carries a run of 1 to 15 copies of a move. *)
Definition run_byte (b : Z) : Prop :=
  1 <= Z.shiftr b 4 <= 15 /\ 0 <= Z.land b 15 <= 7.

End Save.

(** The alphabet of a history, as the format of the solution files is
    described: the four directions, in lower case for a step and in upper
    case for a push. *)
Definition history_alphabet : list ascii := list_ascii_of_string "uldrULDR".

(** ** The playfield ([sok_core.h]) *)

Definition field_floor : Z := 1.
Definition field_atom : Z := 2.
Definition field_goal : Z := 4.
Definition field_wall : Z := 8.

Definition sokmove_pushed : Z := 1.
Definition sokmove_ongoal : Z := 2.
Definition sokmove_solved : Z := 4.

(** [enum errorslist] of [sok_core.c] *)
Definition ERR_UNDEFINED : Z := -1.
Definition ERR_LEVEL_TOO_HIGH : Z := -2.
Definition ERR_LEVEL_TOO_LARGE : Z := -3.
Definition ERR_LEVEL_TOO_SMALL : Z := -4.
Definition ERR_MEM_ALLOC_FAILED : Z := -5.
Definition ERR_NO_LEVEL_DATA_FOUND : Z := -6.
Definition ERR_TOO_MANY_LEVELS_IN_SET : Z := -7.
Definition ERR_UNABLE_TO_OPEN_FILE : Z := -8.
Definition ERR_PLAYER_POS_UNDEFINED : Z := -9.

(** [struct sokgame]; the [comment] text is not part of the embedding. *)
Record sokgame := mkgame {
  field_width : Z;                 (* unsigned short *)
  field_height : Z;                (* unsigned short *)
  field : list (list Z);           (* unsigned char field[64][64] *)
  positionx : Z;
  positiony : Z;
  level : Z;                       (* unsigned short *)
  crc64 : Z;                       (* uint64_t *)
  crc32_106 : Z;                   (* unsigned long *)
  solution : option (list ascii)   (* char *, NULL when there is none *)
}.

(** [struct sokgamestates]; [history] is never NULL in a state of the
    embedding: the call that loses the buffer has no successor state. *)
Record sokgamestates := mkstates {
  angle : Z;
  history : list ascii;
  historyallocsize : Z             (* size_t *)
}.

Inductive SOKMOVE :=
| sokmoveNONE
| sokmoveUP
| sokmoveLEFT
| sokmoveDOWN
| sokmoveRIGHT.

Definition set_field (g : sokgame) (f : list (list Z)) : sokgame :=
  mkgame (field_width g) (field_height g) f (positionx g) (positiony g)
         (level g) (crc64 g) (crc32_106 g) (solution g).

Definition set_position (g : sokgame) (x y : Z) : sokgame :=
  mkgame (field_width g) (field_height g) (field g) x y
         (level g) (crc64 g) (crc32_106 g) (solution g).

(** *** Cells *)

Definition in_field (x y : Z) : bool :=
  (0 <=? x) && (x <? 64) && (0 <=? y) && (y <? 64).

(** Reading [field[x][y]]. *)
Definition field_get (f : list (list Z)) (x y : Z) : option Z :=
  if in_field x y then
    match f !! Z.to_nat x with
    | Some column => column !! Z.to_nat y
    | None => None
    end
  else None.

(** The field with [v] stored in [field[x][y]]. *)
Definition field_put (f : list (list Z)) (x y v : Z) : list (list Z) :=
  alter (fun column => <[Z.to_nat y := v]> column) (Z.to_nat x) f.

(** [field[x][y] = g(field[x][y])], as done by [|=] and [&=]. *)
Definition field_modify (g : Z -> Z) (f : list (list Z)) (x y : Z)
    : option (list (list Z)) :=
  match field_get f x y with
  | None => None
  | Some v => Some (field_put f x y (g v))
  end.

(** [c & flag] as a C condition.  No cell operation of the game leaves the
    range of [unsigned char]: [|=] with a flag and [&= ~flag] never produce
    a bit above bit 3 that was not there (see [flag_ops_byte]). *)
Definition has_flag (c flag : Z) : bool := negb (Z.land c flag =? 0).

Definition set_flag (flag : Z) (c : Z) : Z := Z.lor c flag.
Definition clear_flag (flag : Z) (c : Z) : Z := Z.land c (Z.lnot flag).

(** ** Solved check *)

(** The inner loop of [sok_checksolution] on row [y], from column [x], for
    [n] columns: [Some true] when it meets a goal without atom. *)
Fixpoint scan_row (f : list (list Z)) (y x : Z) (n : nat) : option bool :=
  match n with
  | O => Some false
  | S n' =>
      match field_get f x y with
      | None => None
      | Some c =>
          if has_flag c field_goal && negb (has_flag c field_atom) then Some true
          else scan_row f y (x + 1) n'
      end
  end.

(** The outer loop, from row [y], for [n] rows of [w] columns. *)
Fixpoint scan_rows (f : list (list Z)) (w : Z) (y : Z) (n : nat) : option bool :=
  match n with
  | O => Some false
  | S n' =>
      match scan_row f y 0 (Z.to_nat w) with
      | None => None
      | Some true => Some true
      | Some false => scan_rows f w (y + 1) n'
      end
  end.

(** [sok_checksolution]: the returned value, and the arguments
    [(levcrc64, solution)] of the call to [solution_save] when there is one.
    [states] is [None] for a NULL pointer. *)
Definition sok_checksolution (game : sokgame) (states : option sokgamestates)
    : option (Z * option (Z * list ascii)) :=
  match scan_rows (field game) (field_width game) 0 (Z.to_nat (field_height game)) with
  | None => None
  | Some true => Some (0, None)
  | Some false =>
      match states with
      | None => Some (0, None)
      | Some st =>
          if sok_history_getpushes (Some (history st)) =? 0 then Some (0, None)
          else
            let bestscorelen := sok_history_getlen (solution game) in
            let bestscorepushes := sok_history_getpushes (solution game) in
            let myscorelen := sok_history_getlen (Some (history st)) in
            let myscorepushes := sok_history_getpushes (Some (history st)) in
            let betterflag :=
              (bestscorelen <? 1) || (myscorelen <? bestscorelen)
              || ((bestscorelen =? myscorelen) && (myscorepushes <? bestscorepushes)) in
            Some (1, if betterflag then Some (crc64 game, history st) else None)
      end
  end.

(** ** Moves *)

Inductive move_result :=
| MoveUB     (* an access outside the field or the history buffer *)
| MoveNoMem  (* ERR_MEM_ALLOC_FAILED is returned; states->history is NULL *)
| MoveRet (res : Z) (game : sokgame) (states : sokgamestates)
          (saved : option (Z * list ascii)).

(** The [switch (dir)] of [sok_move]: [(vectorx, vectory, angle, historychar)]. *)
Definition move_vector (dir : SOKMOVE) : Z * Z * Z * ascii :=
  match dir with
  | sokmoveNONE
  | sokmoveUP => (0, -1, 0, "u"%char)
  | sokmoveRIGHT => (1, 0, 90, "r"%char)
  | sokmoveDOWN => (0, 1, 180, "d"%char)
  | sokmoveLEFT => (-1, 0, 270, "l"%char)
  end.

Section Moves.

Variable alloc_ok : Z -> bool.

(** The end of [sok_move], from [if (validitycheck == 0)] on: [game]
    already carries the field after a push. *)
Definition sok_move_commit (game : sokgame) (states : sokgamestates)
    (validitycheck alreadysolved res vectorx vectory : Z) (historychar : ascii)
    : move_result :=
  let movescount := sok_history_getlen (Some (history states)) in
  if (validitycheck =? 0) && negb (movescount + 1 <? historyallocsize states)
  then MoveUB
  else
    let game' :=
      if validitycheck =? 0
      then set_position game (positionx game + vectorx) (positiony game + vectory)
      else game in
    let states' :=
      if validitycheck =? 0
      then mkstates (angle states) (history states ++ [historychar])
                    (historyallocsize states)
      else states in
    if alreadysolved =? 0 then
      match sok_checksolution game' (Some states') with
      | None => MoveUB
      | Some (solved, saved) =>
          MoveRet (if solved =? 0 then res else Z.lor res sokmove_solved)
                  game' states' saved
      end
    else MoveRet res game' states' None.

Definition sok_move (game : sokgame) (dir : SOKMOVE) (validitycheck : Z)
    (states : sokgamestates) : move_result :=
  let movescount := sok_history_getlen (Some (history states)) in
  let grow := historyallocsize states <=? movescount + 3 in
  let allocsize :=
    if grow then (historyallocsize states * 2) mod 2 ^ 64
    else historyallocsize states in
  if grow && negb (alloc_ok allocsize) then MoveNoMem
  else
    match sok_checksolution game None with
    | None => MoveUB
    | Some (alreadysolved, _) =>
        let x := positionx game in
        let y := positiony game in
        let '(vectorx, vectory, angle', historychar) := move_vector dir in
        let states1 := mkstates angle' (history states) allocsize in
        let denied := MoveRet (-1) game states1 None in
        if y <? 1 then denied
        else
          match field_get (field game) (x + vectorx) (y + vectory) with
          | None => MoveUB
          | Some c =>
              if has_flag c field_wall then denied
              else if has_flag c field_atom then
                if negb (alreadysolved =? 0) then denied
                else if (y + vectory <? 1) || (62 <? y + vectory)
                        || (x + vectorx <? 1) || (62 <? x + vectorx) then denied
                else
                  match field_get (field game) (x + vectorx * 2) (y + vectory * 2) with
                  | None => MoveUB
                  | Some c2 =>
                      if has_flag c2 (Z.lor field_wall field_atom) then denied
                      else
                        let res :=
                          Z.lor sokmove_pushed
                                (if has_flag c2 field_goal then sokmove_ongoal else 0) in
                        if validitycheck =? 0 then
                          match field_modify (clear_flag field_atom) (field game)
                                             (x + vectorx) (y + vectory) with
                          | None => MoveUB
                          | Some f1 =>
                              match field_modify (set_flag field_atom) f1
                                                 (x + vectorx * 2) (y + vectory * 2) with
                              | None => MoveUB
                              | Some f2 =>
                                  sok_move_commit (set_field game f2) states1
                                    validitycheck alreadysolved res vectorx vectory
                                    (chr (code historychar - 32))
                              end
                          end
                        else
                          sok_move_commit game states1 validitycheck alreadysolved
                                          res vectorx vectory historychar
                  end
              else
                sok_move_commit game states1 validitycheck alreadysolved
                                0 vectorx vectory historychar
          end
    end.

End Moves.

(** [sok_newstates]/[sok_resetstates], when [malloc] succeeds. *)
Definition sok_newstates : sokgamestates := mkstates 0 [] 64.

(** The [switch] of [sok_undo] on the last history character:
    [(movex, movey, angle)]; any other character moves nothing and keeps
    the angle. *)
Definition undo_vector (c : ascii) (angle0 : Z) : Z * Z * Z :=
  match c with
  | "u"%char | "U"%char => (0, 1, 0)
  | "r"%char | "R"%char => (-1, 0, 90)
  | "d"%char | "D"%char => (0, -1, 180)
  | "l"%char | "L"%char => (1, 0, 270)
  | _ => (0, 0, angle0)
  end.

(** [sok_undo]; no result for an access outside the field. *)
Definition sok_undo (game : sokgame) (states : sokgamestates)
    : option (sokgame * sokgamestates) :=
  let movescount := sok_history_getlen (Some (history states)) in
  if movescount <? 1 then Some (game, states)
  else
    let c := List.last (history states) NUL in
    let '(movex, movey, angle') := undo_vector c (angle states) in
    let moved :=
      if is_upper c then
        match field_modify (clear_flag field_atom) (field game)
                           (positionx game - movex) (positiony game - movey) with
        | None => None
        | Some f1 =>
            field_modify (set_flag field_atom) f1 (positionx game) (positiony game)
        end
      else Some (field game) in
    match moved with
    | None => None
    | Some f =>
        Some (set_position (set_field game f)
                           (positionx game + movex) (positiony game + movey),
              mkstates angle' (removelast (history states)) (historyallocsize states))
    end.

(** ** The level loader *)

(** [readbytefrommem]: the byte read (-1 for the NUL that ends the buffer)
    and the buffer after it.  The list holds the bytes before the final NUL. *)
Definition readbytefrommem (mem : list Z) : Z * list Z :=
  match mem with
  | [] => (-1, [])
  | b :: rest => (if b =? 0 then -1 else b, rest)
  end.

Definition INT_MAX : Z := 2147483647.

(** [readRLEbyte], entered with [rleprefix]: [(result, bytebuff, memory)].
    A repeat count beyond [INT_MAX] overflows an [int]: no result. *)
Fixpoint readRLEbyte (mem : list Z) (rleprefix : Z) : option (Z * Z * list Z) :=
  let '(bytebuff, mem') := readbytefrommem mem in
  if bytebuff <? 0 then Some (-1, bytebuff, mem')
  else if (code "0"%char <=? bytebuff) && (bytebuff <=? code "9"%char) then
    let rleprefix' :=
      (if 0 <? rleprefix then rleprefix * 10 else 0) + (bytebuff - code "0"%char) in
    if INT_MAX <? rleprefix' then None
    else match mem with
         | [] => None
         | _ :: rest => readRLEbyte rest rleprefix'
         end
  else Some (if rleprefix <? 0 then 1 else rleprefix, bytebuff, mem').

(** The comment loop of [loadlevelfromfile]: skips to the end of the line;
    the last byte read (a newline, or a negative value at the end of the
    buffer) and the memory after it. *)
Fixpoint skip_comment (mem : list Z) : Z * list Z :=
  let '(bytebuff, mem') := readbytefrommem mem in
  if bytebuff =? 13 then
    match mem with [] => (bytebuff, mem') | _ :: rest => skip_comment rest end
  else if bytebuff =? 10 then (bytebuff, mem')
  else if bytebuff <? 0 then (bytebuff, mem')
  else match mem with [] => (bytebuff, mem') | _ :: rest => skip_comment rest end.

(** The local variables of [loadlevelfromfile] while it reads a level. *)
Record scan := mkscan {
  s_game : sokgame;
  s_x : Z;                 (* unsigned short *)
  s_y : Z;                 (* unsigned short *)
  s_started : Z;           (* leveldatastarted *)
  s_eof : bool;            (* endoffile != 0 *)
  s_bytebuff : Z;
  s_mem : list Z
}.

Inductive scan_result :=
| ScanUB
| ScanErr (err : Z) (st : scan)
| ScanOk (st : scan).

Definition ushort (z : Z) : Z := z mod 65536.

Definition set_size (g : sokgame) (w h : Z) : sokgame :=
  mkgame w h (field g) (positionx g) (positiony g)
         (level g) (crc64 g) (crc32_106 g) (solution g).

(** [game->field[x + 1][y + 1] |= flag] *)
Definition mark_cell (flag : Z) (st : scan) : option scan :=
  match field_modify (set_flag flag) (field (s_game st)) (s_x st + 1) (s_y st + 1) with
  | None => None
  | Some f =>
      Some (mkscan (set_field (s_game st) f) (s_x st) (s_y st)
                   (s_started st) (s_eof st) (s_bytebuff st) (s_mem st))
  end.

(** [game->positionx = x; game->positiony = y] *)
Definition put_player (st : scan) : scan :=
  mkscan (set_position (s_game st) (s_x st) (s_y st)) (s_x st) (s_y st)
         (s_started st) (s_eof st) (s_bytebuff st) (s_mem st).

(** [x += 1] *)
Definition next_column (st : scan) : scan :=
  mkscan (s_game st) (ushort (s_x st + 1)) (s_y st)
         (s_started st) (s_eof st) (s_bytebuff st) (s_mem st).

(** The [switch (bytebuff)] of [loadlevelfromfile].  The text of a comment
    line goes to buffers that no field of the level depends on: it is
    skipped, not kept. *)
Definition scan_symbol (st : scan) : option scan :=
  let b := s_bytebuff st in
  if (b =? code " "%char) || (b =? code "-"%char) || (b =? code "_"%char) then
    next_column <$> mark_cell field_floor st
  else if b =? code "#"%char then
    next_column <$> mark_cell field_wall st
  else if b =? code "@"%char then
    (fun st1 => next_column (put_player st1)) <$> mark_cell field_floor st
  else if b =? code "*"%char then
    match mark_cell field_goal st with
    | None => None
    | Some st1 => next_column <$> mark_cell field_atom st1
    end
  else if b =? code "$"%char then
    next_column <$> mark_cell field_atom st
  else if b =? code "+"%char then
    next_column <$> mark_cell field_goal (put_player st)
  else if b =? code "."%char then
    next_column <$> mark_cell field_goal st
  else if (b =? 10) || (b =? code "|"%char) then
    Some (mkscan (s_game st) 0
                 (if s_started st =? 0 then s_y st else ushort (s_y st + 1))
                 (s_started st) (s_eof st) (s_bytebuff st) (s_mem st))
  else if b =? 13 then Some st
  else
    let '(bytebuff, mem') := skip_comment (s_mem st) in
    Some (mkscan (s_game st) (s_x st) (s_y st)
                 (if s_started st =? 0 then s_started st else -1)
                 (s_eof st || (bytebuff <? 0)) bytebuff mem').

(** The loop [for (; rleprefix > 0; rleprefix--)], for [n] more rounds. *)
Fixpoint scan_run (n : nat) (st : scan) : scan_result :=
  match n with
  | O => ScanOk st
  | S n' =>
      match scan_symbol st with
      | None => ScanUB
      | Some st1 =>
          if (s_started st1 <? 0) || s_eof st1 then ScanOk st1
          else
            let x := s_x st1 in
            let y := s_y st1 in
            let started := if 0 <? x then 1 else s_started st1 in
            let g := s_game st1 in
            let w := if field_width g <? x then x else field_width g in
            let h := if (field_height g <=? y) && (0 <? x)
                     then ushort (y + 1) else field_height g in
            let st2 := mkscan (set_size g w h) x y started
                              (s_eof st1) (s_bytebuff st1) (s_mem st1) in
            if 62 <=? x then ScanErr ERR_LEVEL_TOO_LARGE
                                     (mkscan g x y started (s_eof st1)
                                             (s_bytebuff st1) (s_mem st1))
            else if 62 <=? y then ScanErr ERR_LEVEL_TOO_HIGH
                                          (mkscan g x y started (s_eof st1)
                                                  (s_bytebuff st1) (s_mem st1))
            else scan_run n' st2
      end
  end.

(** The outer [for (;;)] loop.  Every round reads at least one byte, so
    [fuel] beyond the length of the buffer is never used up. *)
Fixpoint scan_level (fuel : nat) (st : scan) : scan_result :=
  match fuel with
  | O => ScanUB
  | S fuel' =>
      match readRLEbyte (s_mem st) (-1) with
      | None => ScanUB
      | Some (rleprefix, bytebuff, mem') =>
          let st0 := mkscan (s_game st) (s_x st) (s_y st) (s_started st)
                            (s_eof st || (rleprefix <? 0)) bytebuff mem' in
          if s_eof st0 then ScanOk st0
          else
            match scan_run (Z.to_nat rleprefix) st0 with
            | ScanOk st1 =>
                if (s_started st1 <? 0) || s_eof st1 then ScanOk st1
                else scan_level fuel' st1
            | r => r
            end
      end
  end.

(** [floodFillField]: [fuel] bounds the depth of the recursion. *)
Fixpoint floodFillField (fuel : nat) (f : list (list Z)) (x y : Z)
    : option (list (list Z)) :=
  match fuel with
  | O => None
  | S n =>
      if in_field x y then
        match field_get f x y with
        | None => None
        | Some c =>
            if c =? field_floor then
              match field_modify (fun _ => 0) f x y with
              | None => None
              | Some f0 =>
                  match floodFillField n f0 (x + 1) y with
                  | None => None
                  | Some f1 =>
                      match floodFillField n f1 (x - 1) y with
                      | None => None
                      | Some f2 =>
                          match floodFillField n f2 x (y + 1) with
                          | None => None
                          | Some f3 => floodFillField n f3 x (y - 1)
                          end
                      end
                  end
              end
            else Some f
        end
      else Some f
  end.

(** The recursion nests at most once per floor cell. *)
Definition flood_fuel : nat := 4097.

(** [field[x][y] = field[x + 1][y + 1]] for [n] columns from [x]. *)
Fixpoint shift_row (f : list (list Z)) (y x : Z) (n : nat)
    : option (list (list Z)) :=
  match n with
  | O => Some f
  | S n' =>
      match field_get f (x + 1) (y + 1) with
      | None => None
      | Some v =>
          match field_modify (fun _ => v) f x y with
          | None => None
          | Some f' => shift_row f' y (x + 1) n'
          end
      end
  end.

Fixpoint shift_rows (f : list (list Z)) (y : Z) (n : nat)
    : option (list (list Z)) :=
  match n with
  | O => Some f
  | S n' =>
      match shift_row f y 0 63 with
      | None => None
      | Some f' => shift_rows f' (y + 1) n'
      end
  end.

(** The first part of [loadlevelfromfile], up to the flood fill: the level
    as read, and its field with the floor around the level removed. *)
Inductive prepared :=
| PrepUB
| PrepErr (err : Z) (st : scan)
| PrepOk (st : scan) (filled : list (list Z)).

Definition load_prepare_fuel (scan_fuel fill_fuel : nat) (game : sokgame)
    (mem : list Z) : prepared :=
  let game0 := mkgame 0 0 (replicate 64 (replicate 64 field_floor)) (-1) (-1)
                      (level game) (crc64 game) (crc32_106 game) None in
  match scan_level scan_fuel (mkscan game0 0 0 0 false 0 mem) with
  | ScanUB => PrepUB
  | ScanErr err st => PrepErr err st
  | ScanOk st =>
      let g := s_game st in
      if positionx g <? 0 then PrepErr ERR_PLAYER_POS_UNDEFINED st
      else if field_height g <? 1 then PrepErr ERR_LEVEL_TOO_SMALL st
      else if field_width g <? 1 then PrepErr ERR_LEVEL_TOO_SMALL st
      else if s_started st =? 0 then PrepErr ERR_NO_LEVEL_DATA_FOUND st
      else
        match floodFillField fill_fuel (field g) 63 63 with
        | None => PrepUB
        | Some filled => PrepOk st filled
        end
  end.

(** Both loops get all the fuel they can use: see [load_prepare_enough]. *)
Definition load_prepare (game : sokgame) (mem : list Z) : prepared :=
  load_prepare_fuel (S (length mem)) flood_fuel game mem.

Section Loader.

(** The checksums of [crc32.h] and [crc64.h], whose code is not part of
    the sources at hand: [crc32_feed crc b] feeds the one byte [b]. *)
Variable crc32_init : Z.
Variable crc32_feed : Z -> Z -> Z.
Variable crc32_finish : Z -> Z.
Variable crc64_fn : Z -> list Z -> Z.

(** [for (x = 0; x < field_height; x++) crc32_feed(.., &field[x][y], 1)] *)
Fixpoint crc32_row (f : list (list Z)) (crc y x : Z) (n : nat) : option Z :=
  match n with
  | O => Some crc
  | S n' =>
      match field_get f x y with
      | None => None
      | Some c => crc32_row f (crc32_feed crc c) y (x + 1) n'
      end
  end.

(** [for (y = 0; y < field_width; y++)] around it: [n] more rounds. *)
Fixpoint crc32_rows (f : list (list Z)) (h : Z) (crc y : Z) (n : nat) : option Z :=
  match n with
  | O => Some crc
  | S n' =>
      match crc32_row f crc y 0 (Z.to_nat h) with
      | None => None
      | Some crc' => crc32_rows f h crc' (y + 1) n'
      end
  end.

(** [for (x = 0; x < field_width; x++) crc64(.., &field[x][y], 1)] *)
Fixpoint crc64_row (f : list (list Z)) (crc y x : Z) (n : nat) : option Z :=
  match n with
  | O => Some crc
  | S n' =>
      match field_get f x y with
      | None => None
      | Some c => crc64_row f (crc64_fn crc [c]) y (x + 1) n'
      end
  end.

Fixpoint crc64_rows (f : list (list Z)) (w : Z) (crc y : Z) (n : nat) : option Z :=
  match n with
  | O => Some crc
  | S n' =>
      match crc64_row f crc y 0 (Z.to_nat w) with
      | None => None
      | Some crc' => crc64_rows f w crc' (y + 1) n'
      end
  end.

Definition set_crcs (g : sokgame) (c32 c64 : Z) : sokgame :=
  mkgame (field_width g) (field_height g) (field g) (positionx g) (positiony g)
         (level g) c64 c32 (solution g).

(** [loadlevelfromfile]: the returned value, the game structure and the
    memory pointer after the call.  [game] is the structure as [malloc]
    left it. *)
Definition loadlevelfromfile (game : sokgame) (mem : list Z)
    : option (Z * sokgame * list Z) :=
  match load_prepare game mem with
  | PrepUB => None
  | PrepErr err st => Some (err, s_game st, s_mem st)
  | PrepOk st filled =>
      let g := s_game st in
      match shift_rows filled 0 63 with
      | None => None
      | Some f =>
          match crc32_rows f (field_height g) crc32_init 0
                           (Z.to_nat (field_width g)) with
          | None => None
          | Some c32 =>
              let playerpos := [positionx g mod 256; positiony g mod 256] in
              match crc64_rows f (field_width g) (crc64_fn 0 playerpos) 0
                               (Z.to_nat (field_height g)) with
              | None => None
              | Some c64 =>
                  Some (if s_eof st then 1 else 0,
                        set_crcs (set_field g f) (crc32_finish c32) c64,
                        s_mem st)
              end
          end
      end
  end.

(** The legacy checksum as the specification words it: the same loops,
    run on the field before it is shifted. *)
Definition legacy_hash_before_shift (game : sokgame) (mem : list Z) : option Z :=
  match load_prepare game mem with
  | PrepOk st filled =>
      crc32_finish <$> crc32_rows filled (field_height (s_game st)) crc32_init 0
                                  (Z.to_nat (field_width (s_game st)))
  | _ => None
  end.

End Loader.

(** ** Loading a set of levels *)

(** [isGz] of [gz.c] *)
Definition isGz (memgz : list Z) (memgzlen : Z) : bool :=
  negb (memgzlen <? 16)
  && (nth 0 memgz 0 =? 31) && (nth 1 memgz 0 =? 139)
  && ((nth 2 memgz 0 =? 0) || (nth 2 memgz 0 =? 8)).

(** What [sok_loadfile] leaves behind: the returned value, the caller's
    array of [maxlevels] pointers (a slot is [None] until it is written)
    and the heap of game structures, where a pointer is an index and a
    freed structure is [None]. *)
Record loaded := mkloaded {
  l_ret : Z;
  l_gamelist : list (option nat);
  l_heap : list (option sokgame)
}.

(** The state of the loop of [sok_loadfile] when it is left. *)
Record load_exit := mkexit {
  e_errflag : Z;
  e_level : Z;                       (* unsigned short *)
  e_game : option nat;               (* the local pointer [game] *)
  e_gamelist : list (option nat);
  e_heap : list (option sokgame)
}.

(** [sok_freegame] *)
Definition sok_freegame (game : option nat) (heap : list (option sokgame))
    : option (list (option sokgame)) :=
  match game with
  | None => Some heap
  | Some p =>
      match heap !! p with
      | Some (Some _) => Some (<[p := None]> heap)
      | _ => None
      end
  end.

(** [sok_freefile], from index [x] for [n] slots. *)
Fixpoint sok_freefile (gamelist : list (option nat)) (x : nat) (n : nat)
    (heap : list (option sokgame)) : option (list (option sokgame)) :=
  match n with
  | O => Some heap
  | S n' =>
      match gamelist !! x with
      | Some (Some p) =>
          match sok_freegame (Some p) heap with
          | None => None
          | Some heap' => sok_freefile gamelist (S x) n' heap'
          end
      | _ => None
      end
  end.

Definition set_level_solution (g : sokgame) (lev : Z) (sol : option (list ascii))
    : sokgame :=
  mkgame (field_width g) (field_height g) (field g) (positionx g) (positiony g)
         lev (crc64 g) (crc32_106 g) sol.

Section LoadFile.

Variable crc32_init : Z.
Variable crc32_feed : Z -> Z -> Z.
Variable crc32_finish : Z -> Z.
Variable crc64_fn : Z -> list Z -> Z.

(** Allocations of [solution_load]. *)
Variable alloc_ok : Z -> bool.

(** [sok_allocgame] in round [level] of the loop: [None] when [malloc]
    fails, else the content of the new structure. *)
Variable game_alloc : Z -> option sokgame.

(** The solution file of a level, by its CRC64, as [solution_load] opens it. *)
Variable solfile : Z -> option (list Z).

(** [ungz] of [gz.c]: the inflated buffer, [None] for NULL. *)
Variable ungz : list Z -> option (list Z).

(** The loop [for (level = 0; !errflag; level++)].  A round that goes on
    to the next has read at least one byte, so [fuel] beyond the length
    of the buffer is never used up. *)
Fixpoint load_games (fuel : nat) (maxlevels level : Z) (mem : list Z)
    (gamelist : list (option nat)) (heap : list (option sokgame))
    : option load_exit :=
  match fuel with
  | O => None
  | S fuel' =>
      match game_alloc level with
      | None => Some (mkexit ERR_MEM_ALLOC_FAILED level None gamelist heap)
      | Some fresh =>
          let game := length heap in
          match loadlevelfromfile crc32_init crc32_feed crc32_finish crc64_fn
                                  fresh mem with
          | None => None
          | Some (errflag, g, mem') =>
              if errflag <? 0 then
                Some (mkexit (if level =? 0 then errflag else 0) level (Some game)
                             gamelist (heap ++ [Some g]))
              else if maxlevels <=? level then
                Some (mkexit ERR_TOO_MANY_LEVELS_IN_SET level (Some game)
                             gamelist (heap ++ [Some g]))
              else
                let g' := set_level_solution g (ushort (level + 1))
                            (Save.solution_load alloc_ok (solfile (crc64 g))) in
                if (Z.to_nat level <? length gamelist)%nat then
                  let gamelist' := <[Z.to_nat level := Some game]> gamelist in
                  let heap' := heap ++ [Some g'] in
                  if errflag =? 0 then
                    load_games fuel' maxlevels (ushort (level + 1)) mem' gamelist' heap'
                  else
                    Some (mkexit errflag (ushort (level + 1)) None gamelist' heap')
                else None
          end
      end
  end.

(** [sok_loadfile] on the buffer [memptr] ([None] for a file that cannot
    be read, or a NULL pointer); its length is [filelen]. *)
Definition sok_loadfile (maxlevels : Z) (memptr : option (list Z)) : option loaded :=
  let gamelist0 := replicate (Z.to_nat maxlevels) None in
  let unable := Some (mkloaded ERR_UNABLE_TO_OPEN_FILE gamelist0 []) in
  match memptr with
  | None => unable
  | Some mem =>
      let filelen := Z.of_nat (length mem) in
      if filelen =? 0 then unable
      else
        let inflated := if isGz mem filelen then ungz mem else Some mem in
        match inflated with
        | None => unable
        | Some mem1 =>
            match load_games (S (length mem1)) maxlevels 0 mem1 gamelist0 [] with
            | None => None
            | Some e =>
                match sok_freegame (e_game e) (e_heap e) with
                | None => None
                | Some heap1 =>
                    if e_errflag e <? 0 then
                      match sok_freefile (e_gamelist e) 0 (Z.to_nat (e_level e)) heap1 with
                      | None => None
                      | Some heap2 =>
                          Some (mkloaded (e_errflag e) (e_gamelist e) heap2)
                      end
                    else Some (mkloaded (e_level e) (e_gamelist e) heap1)
                end
            end
        end
  end.

End LoadFile.

(** The bytes of a level text. *)
Definition mem_of_string (s : string) : list Z :=
  map code (list_ascii_of_string s).

(** ** Notions used by the properties *)

(** A goal cell without atom. *)
Definition unfilled_goal (c : Z) : bool :=
  has_flag c field_goal && negb (has_flag c field_atom).

(** Every goal cell of the level area holds an atom. *)
Definition goals_filled (game : sokgame) : Prop :=
  forall x y c,
    0 <= x < field_width game -> 0 <= y < field_height game ->
    field_get (field game) x y = Some c ->
    has_flag c field_goal = true -> has_flag c field_atom = true.

(** A game structure as C lays it out: a full field, and a level area
    that fits in it. *)
Definition field_wf (f : list (list Z)) : Prop :=
  length f = 64%nat /\ Forall (fun column => length column = 64%nat) f.

Definition game_wf (game : sokgame) : Prop :=
  field_wf (field game)
  /\ 0 <= field_width game <= 64 /\ 0 <= field_height game <= 64.

Section Play.

Variable alloc_ok : Z -> bool.

(** Playing a sequence of moves for real, every one of them accepted. *)
Fixpoint play (game : sokgame) (states : sokgamestates) (dirs : list SOKMOVE)
    : option (sokgame * sokgamestates) :=
  match dirs with
  | [] => Some (game, states)
  | dir :: dirs' =>
      match sok_move alloc_ok game dir 0 states with
      | MoveRet res game' states' _ =>
          if 0 <=? res then play game' states' dirs' else None
      | _ => None
      end
  end.

End Play.

(** [n] calls of [sok_undo] in a row. *)
Fixpoint undo_times (n : nat) (game : sokgame) (states : sokgamestates)
    : option (sokgame * sokgamestates) :=
  match n with
  | O => Some (game, states)
  | S n' =>
      match sok_undo game states with
      | None => None
      | Some (game', states') => undo_times n' game' states'
      end
  end.

(** The cells that the loops of the legacy checksum visit, in their order:
    [y] below the width outside, [x] below the height inside. *)
Definition legacy_cells (f : list (list Z)) (w h : Z) : list Z :=
  flat_map (fun y => map (fun x => default 0 (field_get f x y)) (seqZ 0 h)) (seqZ 0 w).

(** A field that is empty but for the given cells. *)
Definition field_of (cells : list (Z * Z * Z)) : list (list Z) :=
  fold_right (fun '(x, y, v) f => field_put f x y v)
             (replicate 64 (replicate 64 0)) cells.

(** The number of cells that are plain floor: what bounds the flood fill. *)
Fixpoint count_floor_column (column : list Z) : nat :=
  match column with
  | [] => 0
  | c :: column' => (if c =? field_floor then 1 else 0) + count_floor_column column'
  end.

Fixpoint count_floor (f : list (list Z)) : nat :=
  match f with
  | [] => 0
  | column :: f' => count_floor_column column + count_floor f'
  end.

(** The error codes that reading one level can give. *)
Definition parse_error (err : Z) : Prop :=
  err < 0 /\ err <> ERR_TOO_MANY_LEVELS_IN_SET /\ err <> ERR_MEM_ALLOC_FAILED.

(** The first [level] slots of the array point to the [level] structures of
    the heap, all of them allocated. *)
Definition stored (level : Z) (gamelist : list (option nat))
    (heap : list (option sokgame)) : Prop :=
  0 <= level
  /\ length heap = Z.to_nat level
  /\ (forall i, (i < Z.to_nat level)%nat -> gamelist !! i = Some (Some i))
  /\ Forall (fun cell => cell <> None) heap.

(** *** Sample levels *)

(** The level of the text ["@$."]: player, atom and goal on row 0. *)
Definition row0_text : string := "@$.".

Definition row0_field : list (list Z) := field_of [(1, 0, 3); (2, 0, 5)].

(** The same three cells on row 1, below a wall: the text is ["#"], a
    newline, then ["@$."]. *)
Definition row1_text : string := String "#" (String "010" "@$.").

Definition row1_field : list (list Z) := field_of [(0, 0, 9); (1, 1, 3); (2, 1, 5)].

Definition row1_game : sokgame := mkgame 3 2 row1_field 0 1 1 0 0 None.

(** [row1_game] after the push to the right that solves it. *)
Definition row1_solved : sokgame :=
  mkgame 3 2 (field_of [(0, 0, 9); (1, 1, 1); (2, 1, 7)]) 1 1 1 0 0 None.

(** An empty field with the player in the middle. *)
Definition open_game : sokgame := mkgame 10 10 (field_of []) 5 5 1 0 0 None.

(** Two levels in one text: ["@$."], a comment line, and ["@$."] again. *)
Definition two_levels_text : string :=
  String.append row0_text
    (String "010" (String ";" (String "010" row0_text))).

(** Stand-ins for the checksums where their values do not matter. *)
Definition feed_bytes (crc b : Z) : Z := crc * 256 + b.
Definition no_crc64 (crc : Z) (s : list Z) : Z := 0.

(** ** Replaying a history ([sok_play]) *)

(** The [switch] of [sok_play] on the character to play. *)
Definition play_move (c : ascii) : SOKMOVE :=
  match c with
  | "u"%char | "U"%char => sokmoveUP
  | "r"%char | "R"%char => sokmoveRIGHT
  | "d"%char | "D"%char => sokmoveDOWN
  | "l"%char | "L"%char => sokmoveLEFT
  | _ => sokmoveLEFT
  end.

(** What [sok_play] leaves: the game, the states and the solutions that the
    moves have saved on their way.  When [realloc] fails in a move, the
    history pointer is NULL from there on: the result tells the game and
    the moves not played yet, and follows the code no further. *)
Inductive play_result :=
| PlayUB
| PlayNoMem (game : sokgame) (rest : list ascii)
| PlayDone (game : sokgame) (states : sokgamestates)
           (saved : list (Z * list ascii)).

Section Replay.

Variable alloc_ok : Z -> bool.

(** The [while] loop over the characters of [playfile]; the value that
    [sok_move] returns is not looked at. *)
Fixpoint sok_play_loop (game : sokgame) (states : sokgamestates)
    (playfile : list ascii) (saved : list (Z * list ascii)) : play_result :=
  match playfile with
  | [] => PlayDone game states saved
  | c :: rest =>
      match sok_move alloc_ok game (play_move c) 0 states with
      | MoveUB => PlayUB
      | MoveNoMem => PlayNoMem game rest
      | MoveRet _ game' states' sv =>
          sok_play_loop game' states' rest
                        (saved ++ match sv with Some s => [s] | None => [] end)
      end
  end.

(** [sok_play]; [playfile] is [None] for NULL. *)
Definition sok_play (game : sokgame) (states : sokgamestates)
    (playfile : option (list ascii)) : play_result :=
  match playfile with
  | None => PlayDone game states []
  | Some p => sok_play_loop game states p []
  end.

End Replay.

(** ** Notions for the play properties *)

(** The history and its terminator fit the buffer, with room for one more
    move, and the size of the buffer can still be doubled. *)
Definition history_fits (states : sokgamestates) : Prop :=
  Z.of_nat (length (history states)) + 2 <= historyallocsize states < 2 ^ 62.

(** The number of cells of a column, and of a field, that carry [flag]. *)
Fixpoint count_flag_column (flag : Z) (column : list Z) : nat :=
  match column with
  | [] => 0
  | c :: column' => ((if has_flag c flag then 1 else 0) + count_flag_column flag column')%nat
  end.

Fixpoint count_flag (flag : Z) (f : list (list Z)) : nat :=
  match f with
  | [] => 0
  | column :: f' => (count_flag_column flag column + count_flag flag f')%nat
  end.

(** ** The game events of the main loop ([simplesok.c]) *)

(** [loadlevel]: the level is copied from the list and the states are
    reset ([sok_resetstates], when [malloc] succeeds). *)
Definition loadlevel (fromgame : sokgame) : sokgame * sokgamestates :=
  (fromgame, sok_newstates).

(** The key presses that change the game: a move key, backspace and the
    restart key. *)
Inductive game_event :=
| EvMove (dir : SOKMOVE)
| EvUndo
| EvRestart.

Section Session.

Variable alloc_ok : Z -> bool.

(** What [main] does to the game on one event.  A move is first tried as a
    dry run, whose result only drives the animation, and then made for
    real; backspace calls [sok_undo]; the restart key loads the level
    again.  No result when a call has none, or loses the history buffer. *)
Definition game_step (level0 : sokgame) (ev : game_event)
    (game : sokgame) (states : sokgamestates) : option (sokgame * sokgamestates) :=
  match ev with
  | EvMove sokmoveNONE => Some (game, states)
  | EvMove movedir =>
      match sok_move alloc_ok game movedir 1 states with
      | MoveRet _ game1 states1 _ =>
          match sok_move alloc_ok game1 movedir 0 states1 with
          | MoveRet _ game2 states2 _ => Some (game2, states2)
          | _ => None
          end
      | _ => None
      end
  | EvUndo => sok_undo game states
  | EvRestart => Some (loadlevel level0)
  end.

(** A run of events on the level [level0], from its start. *)
Fixpoint session_from (level0 : sokgame) (events : list game_event)
    (game : sokgame) (states : sokgamestates) : option (sokgame * sokgamestates) :=
  match events with
  | [] => Some (game, states)
  | ev :: events' =>
      match game_step level0 ev game states with
      | None => None
      | Some (game', states') => session_from level0 events' game' states'
      end
  end.

Definition session (level0 : sokgame) (events : list game_event)
    : option (sokgame * sokgamestates) :=
  session_from level0 events (loadlevel level0).1 (loadlevel level0).2.

End Session.

(** Played on the level from fresh states, the text [h] is made of move
    characters, is accepted move by move, and gives [game]. *)
Definition replays (alloc_ok : Z -> bool) (level0 : sokgame) (h : list ascii)
    (game : sokgame) : Prop :=
  Forall (fun c => Save.is_move c = true) h
  /\ exists st' saved,
       sok_play_loop alloc_ok level0 sok_newstates h [] = PlayDone game st' saved
       /\ history st' = h.

(** ** Notions for the loader properties *)

(** What holds of the local variables of [loadlevelfromfile] each time the
    loop over the symbols starts a round: the cursor and the sizes are in
    range, the player (once there is one) stands inside the level area,
    and nothing has been counted before the first cell. *)
Definition scan_inv (st : scan) : Prop :=
  let g := s_game st in
  0 <= s_x st <= 61 /\ 0 <= s_y st <= 61
  /\ s_x st <= field_width g <= 61
  /\ 0 <= field_height g <= 62
  /\ (0 < s_x st -> s_y st < field_height g)
  /\ ((positionx g = -1 /\ positiony g = -1)
      \/ (0 <= positionx g < field_width g /\ 0 <= positiony g < field_height g))
  /\ (s_started st = 0 ->
      field_width g = 0 /\ field_height g = 0 /\ positionx g = -1 /\ s_y st = 0)
  /\ (s_started st = 0 \/ s_started st = 1 \/ s_started st = -1)
  /\ (0 < field_width g <-> 0 < field_height g).

(** [sok_strerr] *)
Definition sok_strerr (errid : Z) : string :=
  if errid =? ERR_LEVEL_TOO_HIGH then "Level height too high"
  else if errid =? ERR_LEVEL_TOO_LARGE then "Level width too large"
  else if errid =? ERR_LEVEL_TOO_SMALL then "Level dimensions too small"
  else if errid =? ERR_MEM_ALLOC_FAILED then "Memory allocation failed - out of memory?"
  else if errid =? ERR_NO_LEVEL_DATA_FOUND then "No level data found in file"
  else if errid =? ERR_TOO_MANY_LEVELS_IN_SET then "Too many levels in set"
  else if errid =? ERR_UNABLE_TO_OPEN_FILE then "Failed to open file"
  else if errid =? ERR_UNDEFINED then "Undefined error"
  else if errid =? ERR_PLAYER_POS_UNDEFINED then "Player position not defined"
  else "Unknown error".

(** A level as [sok_loadfile] stores it in slot [i] of the list. *)
Definition level_ok (alloc_ok : Z -> bool) (solfile : Z -> option (list Z))
    (i : nat) (g : sokgame) : Prop :=
  level g = Z.of_nat i + 1
  /\ 1 <= field_width g <= 61 /\ 1 <= field_height g <= 62
  /\ 0 <= positionx g < field_width g /\ 0 <= positiony g < field_height g
  /\ field_wf (field g)
  /\ solution g = Save.solution_load alloc_ok (solfile (crc64 g)).

(** The first [n] slots of the list point to [n] levels of the heap, each
    of them as it should be. *)
Definition levels_ok (alloc_ok : Z -> bool) (solfile : Z -> option (list Z))
    (n : Z) (gamelist : list (option nat)) (heap : list (option sokgame)) : Prop :=
  0 <= n
  /\ forall i, (i < Z.to_nat n)%nat ->
       gamelist !! i = Some (Some i)
       /\ exists g, heap !! i = Some (Some g) /\ level_ok alloc_ok solfile i g.

(** A byte that [readRLEbyte] takes for a digit of a repeat count. *)
Definition is_digit (b : Z) : bool :=
  (code "0"%char <=? b) && (b <=? code "9"%char).

(** The number of digits that a text starts with. *)
Fixpoint digits_ahead (mem : list Z) : nat :=
  match mem with
  | [] => 0
  | b :: rest => if is_digit b then S (digits_ahead rest) else 0
  end.

(** The text has nowhere more than nine digits in a row: no repeat count
    can overflow an [int]. *)
Fixpoint short_runs (mem : list Z) : bool :=
  match mem with
  | [] => true
  | _ :: rest => (digits_ahead mem <=? 9)%nat && short_runs rest
  end.

(** ** Copying a level to the clipboard ([simplesok.c]) *)

(** One digit of the [x] conversion of [sprintf]. *)
Definition hexdigit (n : Z) : ascii :=
  nth (Z.to_nat n) (list_ascii_of_string "0123456789abcdef") "0"%char.

(** The [k] last hexadecimal digits of [n]. *)
Fixpoint hex_digits (k : nat) (n : Z) : list ascii :=
  match k with
  | O => []
  | S k' => hex_digits k' (n / 16) ++ [hexdigit (n mod 16)]
  end.

(** The conversion of a [uint64_t] with the format ["%016" PRIx64]. *)
Definition hex16 (n : Z) : list ascii := hex_digits 16 (n mod 2 ^ 64).

(** The [switch] of [dumplevel2clipboard] on the cell [x], [y]. *)
Definition dump_cell (game : sokgame) (x y : Z) : option ascii :=
  match field_get (field game) x y with
  | None => None
  | Some c =>
      let v := Z.land c (Z.lnot field_floor) in
      let player := (positionx game =? x) && (positiony game =? y) in
      Some (if v =? field_wall then "#"%char
            else if v =? Z.lor field_atom field_goal then "*"%char
            else if v =? field_atom then "$"%char
            else if v =? field_goal then (if player then "+"%char else "."%char)
            else if player then "@"%char else " "%char)
  end.

(** The loop over [x], from [x] for [n] cells of row [y]. *)
Fixpoint dump_row (game : sokgame) (y x : Z) (n : nat) : option (list ascii) :=
  match n with
  | O => Some []
  | S n' =>
      match dump_cell game x y with
      | None => None
      | Some c => cons c <$> dump_row game y (x + 1) n'
      end
  end.

(** The loop over [y], from [y] for [n] rows: every row ends in a newline. *)
Fixpoint dump_rows (game : sokgame) (y : Z) (n : nat) : option (list ascii) :=
  match n with
  | O => Some []
  | S n' =>
      match dump_row game y 0 (Z.to_nat (field_width game)) with
      | None => None
      | Some row =>
          (fun rows => row ++ ["010"%char] ++ rows) <$> dump_rows game (y + 1) n'
      end
  end.

Inductive dump_result :=
| DumpUB                           (* a cell outside the field, or a text beyond the buffer *)
| DumpNoMem                        (* [malloc] fails: nothing is copied *)
| DumpText (txt : list ascii).     (* the text given to [SDL_SetClipboardText] *)

(** [dumplevel2clipboard]: the text that goes to the clipboard. *)
Definition dumplevel2clipboard (alloc_ok : Z -> bool) (game : sokgame)
    (history : option (list ascii)) : dump_result :=
  let solutionlen := sok_history_getlen (solution game) in
  let playfieldsize := (field_width game + 1) * field_height game in
  let size := solutionlen + playfieldsize + 4096 in
  if INT_MAX <? playfieldsize then DumpUB       (* the product is an [int] *)
  else if alloc_ok size then
    match dump_rows game 0 (Z.to_nat (field_height game)) with
    | None => DumpUB
    | Some rows =>
        let header :=
          list_ascii_of_string "; Level id: " ++ hex16 (crc64 game)
          ++ ["010"; "010"]%char in
        let trailer :=
          match history with
          | Some (c :: h) =>
              list_ascii_of_string "; Solution" ++ ["010"%char]
              ++ list_ascii_of_string "; " ++ (c :: h) ++ ["010"%char]
          | _ => list_ascii_of_string "; No solution available" ++ ["010"%char]
          end in
        let txt := header ++ rows ++ ["010"%char] ++ trailer in
        if Z.of_nat (length txt) <? size then DumpText txt else DumpUB
    end
  else DumpNoMem.

(** ** Notions for reading the text of a level *)

(** The bytes that stand for a cell of a level. *)
Definition cell_symbol (b : Z) : bool :=
  (b =? code " "%char) || (b =? code "-"%char) || (b =? code "_"%char)
  || (b =? code "#"%char) || (b =? code "@"%char) || (b =? code "*"%char)
  || (b =? code "$"%char) || (b =? code "+"%char) || (b =? code "."%char).

(** The bytes that end a row. *)
Definition row_end (b : Z) : bool := (b =? 10) || (b =? code "|"%char).

(** The text of a level that is written without repeat counts, comments
    and carriage returns. *)
Definition plain_symbol (b : Z) : bool := cell_symbol b || row_end b.

(** The cells that the loop over the symbols has not reached when it
    stands at column [x] of row [y]. *)
Definition ahead (x y i j : Z) : bool := (y + 1 <? j) || ((j =? y + 1) && (x <? i)).

(** The values of a cell that was marked by at most one symbol. *)
Definition raw_cell (c : Z) : bool :=
  (c =? 1) || (c =? 3) || (c =? 5) || (c =? 7) || (c =? 9).

(** What holds of the field while the symbols are read: every cell was
    marked at most once, the marked cells lie in the level area and behind
    the cursor, and the player stands on a cell marked by its symbol. *)
Definition raw_inv (st : scan) : Prop :=
  let g := s_game st in
  (forall i j c, field_get (field g) i j = Some c ->
     raw_cell c = true
     /\ (c <> 1 -> 1 <= i <= field_width g /\ 1 <= j <= field_height g)
     /\ (ahead (s_x st) (s_y st) i j = true -> c = 1))
  /\ (0 <= positionx g ->
      (positiony g < s_y st \/ (positiony g = s_y st /\ positionx g < s_x st))
      /\ (field_get (field g) (positionx g + 1) (positiony g + 1) = Some 1
          \/ field_get (field g) (positionx g + 1) (positiony g + 1) = Some 5)).

(** The flags that the symbol [b] of a cell sets. *)
Definition symbol_flags (b : Z) : Z :=
  if b =? code "#"%char then field_wall
  else if b =? code "*"%char then Z.lor field_goal field_atom
  else if b =? code "$"%char then field_atom
  else if (b =? code "+"%char) || (b =? code "."%char) then field_goal
  else field_floor.

(** The symbols that put the player on their cell. *)
Definition player_symbol (b : Z) : bool := (b =? code "@"%char) || (b =? code "+"%char).

(** The symbol that stands for a cell marked [c]. *)
Definition raw_symbol (c : Z) (player : bool) : ascii :=
  if c =? 9 then "#"%char
  else if c =? 7 then "*"%char
  else if c =? 3 then "$"%char
  else if c =? 5 then (if player then "+"%char else "."%char)
  else if player then "@"%char else " "%char.

(** The local variables of [loadlevelfromfile] when it has read the rows
    of a level of width [w], with the player at [px], [py] and the marks
    [raw], up to column [x] of row [y], from a text without empty rows:
    the cells not yet read are as [memset] left them. *)
Definition rescan (raw : list (list Z)) (w px py x y : Z) (st : scan) : Prop :=
  let g := s_game st in
  s_x st = x /\ s_y st = y /\ s_eof st = false
  /\ s_started st = (if (0 <? x) || (0 <? y) then 1 else 0)
  /\ field_width g = (if 0 <? y then w else x)
  /\ field_height g = (if 0 <? x then y + 1 else y)
  /\ (if (py <? y) || ((py =? y) && (px <? x))
      then positionx g = px /\ positiony g = py
      else positionx g = -1 /\ positiony g = -1)
  /\ field_wf (field g)
  /\ forall i j c, field_get raw i j = Some c ->
       field_get (field g) i j = Some (if ahead x y i j then field_floor else c).

(** The text that [dumplevel2clipboard] makes of the level of [row0_text]
    when its checksum is 0 and no move has been made. *)
Definition row0_dump : list ascii :=
  list_ascii_of_string "; Level id: 0000000000000000" ++ ["010"; "010"]%char
  ++ list_ascii_of_string row0_text ++ ["010"; "010"]%char
  ++ list_ascii_of_string "; No solution available" ++ ["010"%char].

(** ** A solution pasted from the clipboard ([simplesok.c]) *)

(** The characters that the [switch] of [trimstr] passes over. *)
Definition trim_blank (c : ascii) : bool :=
  (code c =? code " "%char) || (code c =? 9) || (code c =? 13) || (code c =? 10).

(** The loop of [trimstr] from index [x]: the value of [lastrealchar]. *)
Fixpoint trimstr_scan (str : list ascii) (x lastrealchar : Z) : Z :=
  match str with
  | [] => lastrealchar
  | c :: rest => trimstr_scan rest (x + 1) (if trim_blank c then lastrealchar else x)
  end.

(** [trimstr] on a string that is not NULL (NULL is left alone): the
    terminator is written behind the last character that is not blank.
    The index is an [int]: no result for a longer string. *)
Definition trimstr (str : list ascii) : option (list ascii) :=
  if INT_MAX <? Z.of_nat (length str) then None
  else Some (take (Z.to_nat (trimstr_scan str 0 (-1) + 1)) str).

(** The letters of the [switch] of [isLegalSokoSolution]. *)
Definition solution_letter (c : ascii) : bool :=
  match c with
  | "u"%char | "U"%char | "r"%char | "R"%char
  | "d"%char | "D"%char | "l"%char | "L"%char => true
  | _ => false
  end.

(** The loop of [isLegalSokoSolution]. *)
Fixpoint legal_loop (solstr : list ascii) : Z :=
  match solstr with
  | [] => 1
  | c :: rest =>
      if is_digit (code c) then
        match rest with
        | [] => 0
        | _ => legal_loop rest
        end
      else if solution_letter c then legal_loop rest
      else 0
  end.

(** [isLegalSokoSolution]; [None] stands for NULL. *)
Definition isLegalSokoSolution (solstr : option (list ascii)) : Z :=
  match solstr with
  | None => 0
  | Some s => if Z.of_nat (length s) <? 1 then 0 else legal_loop s
  end.

Inductive unrle_result :=
| UnrleUB                           (* a repeat count overflows an [int] *)
| UnrleNoMem                        (* [malloc] or [realloc] fails: NULL *)
| UnrleText (res : list ascii).     (* the string returned *)

(** [res[reslen] = c], where [res] holds the cells written so far. *)
Definition store (res : list ascii) (reslen : Z) (c : ascii) : list ascii :=
  if reslen =? Z.of_nat (length res) then res ++ [c]
  else <[Z.to_nat reslen := c]> res.

Section UnRLE.

Variable alloc_ok : Z -> bool.

(** The loop [for (; rlecnt > 0; rlecnt--)] of [unRLE], for [n] rounds:
    the buffer, [reslen] (an [unsigned int]) and [resalloc] (a [size_t]). *)
Fixpoint unrle_run (n : nat) (c : ascii) (res : list ascii) (reslen resalloc : Z)
    : option (list ascii * Z * Z) :=
  match n with
  | O => Some (res, reslen, resalloc)
  | S n' =>
      let grow := resalloc <? (reslen + 4) mod 2 ^ 32 in
      let resalloc' := if grow then (resalloc * 2) mod 2 ^ 64 else resalloc in
      if grow && negb (alloc_ok resalloc') then None
      else unrle_run n' c (store res reslen c) ((reslen + 1) mod 2 ^ 32) resalloc'
  end.

(** The loop over the characters of [xsb]. *)
Fixpoint unrle_loop (xsb : list ascii) (rlecnt : Z) (res : list ascii)
    (reslen resalloc : Z) : unrle_result :=
  match xsb with
  | [] => UnrleText (take (Z.to_nat reslen) res)
  | c :: rest =>
      if is_digit (code c) then
        let cnt := (if rlecnt =? -1 then 0 else rlecnt) * 10 in
        let cnt' := cnt + (code c - code "0"%char) in
        if (INT_MAX <? cnt) || (INT_MAX <? cnt') then UnrleUB
        else unrle_loop rest cnt' res reslen resalloc
      else
        match unrle_run (Z.to_nat (if rlecnt =? -1 then 1 else rlecnt)) c
                        res reslen resalloc with
        | None => UnrleNoMem
        | Some (res', reslen', resalloc') => unrle_loop rest (-1) res' reslen' resalloc'
        end
  end.

(** [unRLE] *)
Definition unRLE (xsb : list ascii) : unrle_result :=
  if alloc_ok 16 then unrle_loop xsb (-1) [] 0 16 else UnrleNoMem.

End UnRLE.

(** ** Playing back a solution ([simplesok.c]) *)

(** [s[i]] for a string [s]: its characters, then the terminator; beyond
    it, or before the string, nothing that may be read. *)
Definition char_at (s : list ascii) (i : Z) : option ascii :=
  if i <? 0 then None
  else match s !! Z.to_nat i with
       | Some c => Some c
       | None => if i =? Z.of_nat (length s) then Some NUL else None
       end.

(** The [switch] of [process_autoplayback]. *)
Definition playback_move (c : ascii) : SOKMOVE :=
  match c with
  | "u"%char | "U"%char => sokmoveUP
  | "r"%char | "R"%char => sokmoveRIGHT
  | "d"%char | "D"%char => sokmoveDOWN
  | "l"%char | "L"%char => sokmoveLEFT
  | _ => sokmoveNONE
  end.

(** [process_autoplayback]: the move and the new value of [playsolution]. *)
Definition process_autoplayback (playsolution : Z) (playsource : list ascii)
    : option (SOKMOVE * Z) :=
  match char_at playsource (playsolution - 1) with
  | None => None
  | Some c =>
      if INT_MAX <=? playsolution then None
      else
        match char_at playsource playsolution with
        | None => None
        | Some c' =>
            Some (playback_move c,
                  if code c' =? 0 then 0 else playsolution + 1)
        end
  end.

(** The calls of [process_autoplayback] that the main loop makes while
    [playsolution] is positive and the playback runs: the moves it is
    told to make. *)
Fixpoint autoplay (fuel : nat) (playsolution : Z) (playsource : list ascii)
    : option (list SOKMOVE) :=
  match fuel with
  | O => None
  | S fuel' =>
      if 0 <? playsolution then
        match process_autoplayback playsolution playsource with
        | None => None
        | Some (movedir, playsolution') =>
            cons movedir <$> autoplay fuel' playsolution' playsource
        end
      else Some []
  end.

(** ** Notions for the clipboard properties *)

(** One more digit [d] behind the repeat count [rlecnt] (-1: none yet). *)
Definition count_digit (rlecnt : Z) (d : ascii) : Z :=
  (if rlecnt =? -1 then 0 else rlecnt) * 10 + (code d - code "0"%char).

(** The repeat count that the digits [ds] stand for: 1 without digits. *)
Definition run_count (ds : list ascii) : Z :=
  let v := fold_left count_digit ds (-1) in
  if v =? -1 then 1 else v.

(** The text that [xsb] stands for when it is read with the repeat count
    [rlecnt] in hand. *)
Fixpoint expand (xsb : list ascii) (rlecnt : Z) : list ascii :=
  match xsb with
  | [] => []
  | c :: rest =>
      if is_digit (code c) then expand rest (count_digit rlecnt c)
      else replicate (Z.to_nat (if rlecnt =? -1 then 1 else rlecnt)) c
           ++ expand rest (-1)
  end.

(** No repeat count of [xsb] leaves the range of [int]. *)
Fixpoint counts_fit (xsb : list ascii) (rlecnt : Z) : bool :=
  match xsb with
  | [] => true
  | c :: rest =>
      if is_digit (code c) then
        (count_digit rlecnt c <=? INT_MAX) && counts_fit rest (count_digit rlecnt c)
      else counts_fit rest (-1)
  end.

(** ** Trimming a comment ([sok_core.c]) *)

Definition is_space (c : ascii) : bool := code c =? code " "%char.

(** The first loop of [trim] from index [x]: [firstrealchar] and
    [lastrealchar]. *)
Fixpoint trim_scan (comment : list ascii) (x firstrealchar lastrealchar : Z) : Z * Z :=
  match comment with
  | [] => (firstrealchar, lastrealchar)
  | c :: rest =>
      trim_scan rest (x + 1)
                (if (firstrealchar <? 0) && negb (is_space c) then x else firstrealchar)
                (if negb (is_space c) then x else lastrealchar)
  end.

(** The loop [comment[x] = comment[x + firstrealchar]], for [n] rounds
    from [x], on the characters of the buffer. *)
Fixpoint trim_copy (comment : list ascii) (firstrealchar x : Z) (n : nat)
    : option (list ascii) :=
  match n with
  | O => Some comment
  | S n' =>
      match comment !! Z.to_nat (x + firstrealchar) with
      | None => None
      | Some c =>
          trim_copy (<[Z.to_nat x := c]> comment) firstrealchar (x + 1) n'
      end
  end.

(** [trim] on a string that is not NULL, in a buffer with room for one
    character more than the string (the terminator that is written may
    come right behind the old one).  The indices are [int]s: no result
    for a longer string. *)
Definition trim (comment : list ascii) : option (list ascii) :=
  if INT_MAX <? Z.of_nat (length comment) then None
  else
    let '(firstrealchar, lastrealchar) := trim_scan comment 0 (-1) 0 in
    let cut := take (Z.to_nat (lastrealchar + 1)) comment in
    if 0 <? firstrealchar then
      match trim_copy cut firstrealchar 0
                      (Z.to_nat (1 + lastrealchar - firstrealchar)) with
      | None => None
      | Some moved => Some (take (Z.to_nat (1 + lastrealchar - firstrealchar)) moved)
      end
    else Some cut.

(** ** Notions for the repeat counts of a level text *)

(** The value of the digits [ds] of a repeat count, as [readRLEbyte] adds
    them up from [rleprefix]. *)
Definition rle_digit (rleprefix b : Z) : Z :=
  (if 0 <? rleprefix then rleprefix * 10 else 0) + (b - code "0"%char).

Definition rle_value (ds : list Z) : Z := fold_left rle_digit ds (-1).

(** What the caller of [loadlevelfromfile] looks at: after an error, the
    place where the reading stopped is of no use. *)
Definition load_outcome (r : option (Z * sokgame * list Z))
    : option (Z * sokgame * list Z) :=
  (fun '(ret, g, rest) => (ret, g, if ret <? 0 then [] else rest)) <$> r.

(** The state [st] with the rest of the text replaced. *)
Definition set_mem (st : scan) (mem : list Z) : scan :=
  mkscan (s_game st) (s_x st) (s_y st) (s_started st) (s_eof st) (s_bytebuff st) mem.

(** Two results of the loop over the symbols that differ at most in the
    place where an error has stopped it. *)
Definition same_result (r1 r2 : scan_result) : Prop :=
  match r1, r2 with
  | ScanUB, ScanUB => True
  | ScanErr e1 st1, ScanErr e2 st2 => e1 = e2 /\ s_game st1 = s_game st2
  | ScanOk st1, ScanOk st2 => st1 = st2
  | _, _ => False
  end.

(** A symbol of a level text with the digits of its repeat count, if any:
    the digits are digits, the symbol stands for a cell or ends a row, and
    the count is in the range of [int]. *)
Definition rle_token (tok : list Z * Z) : Prop :=
  Forall (fun d => is_digit d = true) tok.1
  /\ plain_symbol tok.2 = true
  /\ rle_value tok.1 <= INT_MAX.

(** The number of rounds that the digits [ds] ask for: one without digits. *)
Definition token_count (ds : list Z) : Z :=
  if rle_value ds <? 0 then 1 else rle_value ds.

(** The text of a run of tokens. *)
Definition token_text (toks : list (list Z * Z)) : list Z :=
  concat (map (fun tok => tok.1 ++ [tok.2]) toks).

(** ** Placing the playfield in the window ([simplesok.c]) *)

(** An [int] computed without overflow. *)
Definition int_of (z : Z) : option Z :=
  if (- INT_MAX - 1 <=? z) && (z <=? INT_MAX) then Some z else None.

(** The body shared by [getoffseth] and [getoffsetv]: [size] and [pos] are
    the width and the column of the player, or the height and the row;
    [win] is the size of the window.  Every product, sum and difference is
    one of [int]s. *)
Definition getoffset (size pos win tilesize : Z) : option Z :=
  field_px ← int_of (size * tilesize);
  if field_px <=? win then int_of (win ÷ 2 - field_px ÷ 2)
  else
    pos_px ← int_of (pos * tilesize);
    centre ← int_of (pos_px + tilesize ÷ 2);
    if win ÷ 2 <? centre then
      res ← int_of (win ÷ 2 - centre);
      shown ← int_of (field_px + res);
      if shown <? win then int_of (win - field_px) else Some res
    else Some 0.

(** [getoffseth]; [tilesize] is an [unsigned short]. *)
Definition getoffseth (game : sokgame) (winw tilesize : Z) : option Z :=
  getoffset (field_width game) (positionx game) winw tilesize.

(** [getoffsetv]; [tilesize] is an [int]. *)
Definition getoffsetv (game : sokgame) (winh tilesize : Z) : option Z :=
  getoffset (field_height game) (positiony game) winh tilesize.

(** ** The buffer of the comment lines ([sok_core.c]) *)

(** The comment loop of [loadlevelfromfile] with its buffer [commentbuf],
    an array of 128 characters that is not initialised: [None] as long as
    nothing was written to it, else the string that it holds.  The result
    is the buffer, the last byte read and the text after the line. *)
Fixpoint comment_loop (mem : list Z) (commentbuf : option (list Z))
    (commentbuflen : Z) : option (list Z) * Z * list Z :=
  let '(bytebuff, mem') := readbytefrommem mem in
  if bytebuff =? 13 then
    match mem with
    | [] => (commentbuf, bytebuff, mem')
    | _ :: rest => comment_loop rest commentbuf commentbuflen
    end
  else if bytebuff =? 10 then (commentbuf, bytebuff, mem')
  else if bytebuff <? 0 then (commentbuf, bytebuff, mem')
  else
    match mem with
    | [] => (commentbuf, bytebuff, mem')
    | _ :: rest =>
        if commentbuflen <? 127 then
          let written := take (Z.to_nat commentbuflen) (default [] commentbuf) in
          comment_loop rest (Some (written ++ [bytebuff])) (commentbuflen + 1)
        else comment_loop rest commentbuf commentbuflen
    end.

(** The characters of a comment line: the bytes up to the newline or the
    end of the text, without the carriage returns. *)
Fixpoint comment_line (mem : list Z) : list Z :=
  match mem with
  | [] => []
  | b :: rest =>
      if b =? 13 then comment_line rest
      else if (b =? 10) || (b <=? 0) then []
      else b :: comment_line rest
  end.

(** ** A level of 61 rows *)

(** The player on the first row and a wall on each of the 60 rows below;
    no newline behind the last row. *)
Definition tall_text : list Z :=
  code "@"%char :: concat (replicate 60 [10; code "#"%char]).

(** The level that [loadlevelfromfile] makes of [tall_text], with the
    stand-ins for the checksums. *)
Definition tall_level : sokgame :=
  Eval vm_compute in
    match loadlevelfromfile 0 feed_bytes (fun crc => crc) no_crc64 open_game tall_text with
    | Some (_, g, _) => g
    | None => open_game
    end.

(** The text that [dumplevel2clipboard] makes of it. *)
Definition tall_dump : list ascii :=
  Eval vm_compute in
    match dumplevel2clipboard (fun _ => true) tall_level None with
    | DumpText txt => txt
    | _ => []
    end.

(** * Properties *)

(** ** The codec of solution files *)

Ltac split_cases H :=
  repeat (destruct H as [-> | H]); [.. | subst].

(** The characters that [xsb2byte] knows are the eight letters of the
    alphabet, and no other. *)
Lemma is_move_alphabet c :
  Save.is_move c = true <-> In c history_alphabet.
Proof.
  split.
  - destruct c as [[] [] [] [] [] [] [] []]; intros H; try discriminate H;
      cbn; auto 10.
  - cbn. intros H. repeat (destruct H as [<- | H]; [reflexivity |]). destruct H.
Qed.

Lemma is_move_foreign c :
  ~ In c history_alphabet -> Save.is_move c = false.
Proof.
  intros H. destruct (Save.is_move c) eqn:E; [| reflexivity].
  by apply is_move_alphabet in E.
Qed.

Lemma alphabet_moves h :
  Forall (fun c => In c history_alphabet) h ->
  Forall (fun c => Save.is_move c = true) h.
Proof.
  intros H. eapply Forall_impl; [exact H |]. intros c. apply is_move_alphabet.
Qed.

Lemma xsb2byte_move c :
  Save.is_move c = true ->
  0 <= Save.xsb2byte c <= 7 /\ Save.byte2xsb (Save.xsb2byte c) = c.
Proof.
  destruct c as [[] [] [] [] [] [] [] []]; cbv; intros H; try discriminate H;
    (split; [split; discriminate | reflexivity]).
Qed.

Lemma byte2xsb_move b :
  0 <= b <= 7 -> Ascii.eqb (Save.byte2xsb b) "!"%char = false.
Proof.
  intros H.
  assert (b = 0 \/ b = 1 \/ b = 2 \/ b = 3 \/ b = 4 \/ b = 5 \/ b = 6 \/ b = 7)
    as Hb by lia.
  split_cases Hb; reflexivity.
Qed.

Lemma byte2xsb_other b : ~ 0 <= b <= 7 -> Save.byte2xsb b = "!"%char.
Proof.
  intros H. destruct b as [| p | p]; [lia | | reflexivity].
  do 4 (try destruct p as [p | p |]); try reflexivity; lia.
Qed.

(** The byte of a run gives back its length and its code. *)
Lemma nibble_pack cnt lb :
  1 <= cnt <= 15 -> 0 <= lb <= 7 ->
  Z.shiftr (Save.fputc (Z.lor (Z.shiftl cnt 4) lb)) 4 = cnt
  /\ Z.land (Save.fputc (Z.lor (Z.shiftl cnt 4) lb)) 15 = lb.
Proof.
  intros Hc Hl.
  assert (cnt = 1 \/ cnt = 2 \/ cnt = 3 \/ cnt = 4 \/ cnt = 5 \/ cnt = 6 \/ cnt = 7
          \/ cnt = 8 \/ cnt = 9 \/ cnt = 10 \/ cnt = 11 \/ cnt = 12 \/ cnt = 13
          \/ cnt = 14 \/ cnt = 15) as Hc' by lia.
  assert (lb = 0 \/ lb = 1 \/ lb = 2 \/ lb = 3 \/ lb = 4 \/ lb = 5 \/ lb = 6 \/ lb = 7)
    as Hl' by lia.
  clear Hc Hl. split_cases Hc'; split_cases Hl'; split; reflexivity.
Qed.

Lemma save_loop_nil lb cnt :
  Save.save_loop [] lb cnt =
  if (Save.solmove_ERR =? lb) && (cnt <? 15) then []
  else if 0 <? cnt then [Save.fputc (Z.lor (Z.shiftl cnt 4) lb)] else [].
Proof. cbn. destruct (_ && _); reflexivity. Qed.

Lemma save_loop_cons c s lb cnt :
  Save.is_move c = true ->
  Save.save_loop (c :: s) lb cnt =
  if (Save.xsb2byte c =? lb) && (cnt <? 15) then Save.save_loop s lb (cnt + 1)
  else (if 0 <? cnt then [Save.fputc (Z.lor (Z.shiftl cnt 4) lb)] else [])
       ++ Save.save_loop s (Save.xsb2byte c) 1.
Proof.
  intros Hc. unfold Save.is_move in Hc. apply negb_true_iff in Hc.
  cbn [Save.save_loop hd].
  destruct ((Save.xsb2byte c =? lb) && (cnt <? 15)); rewrite Hc; reflexivity.
Qed.

Lemma save_loop_run_bytes s : forall lb cnt,
  Forall (fun c => Save.is_move c = true) s ->
  cnt = 0 \/ (1 <= cnt <= 15 /\ 0 <= lb <= 7) ->
  Forall Save.run_byte (Save.save_loop s lb cnt).
Proof.
  assert (forall cnt lb, 1 <= cnt <= 15 -> 0 <= lb <= 7 ->
            Save.run_byte (Save.fputc (Z.lor (Z.shiftl cnt 4) lb))) as Hrun.
  { intros cnt lb Hc Hl. unfold Save.run_byte.
    destruct (nibble_pack cnt lb Hc Hl) as [-> ->]. lia. }
  induction s as [| c s IH]; intros lb cnt Hs Hinv.
  - rewrite save_loop_nil. destruct (_ && _); [constructor |].
    destruct (0 <? cnt) eqn:E0; [| constructor].
    apply Z.ltb_lt in E0. destruct Hinv as [-> | [Hc Hl]]; [lia |].
    constructor; [by apply Hrun | constructor].
  - inversion Hs as [| ? ? Hc Hs']; subst.
    destruct (xsb2byte_move c Hc) as [Hr _].
    rewrite save_loop_cons by done.
    destruct ((Save.xsb2byte c =? lb) && (cnt <? 15)) eqn:E.
    + apply andb_true_iff in E as [E1 E2]. apply Z.eqb_eq in E1. apply Z.ltb_lt in E2.
      apply IH; [done | right; lia].
    + apply Forall_app. split; [| apply IH; [done | right; lia]].
      destruct (0 <? cnt) eqn:E0; [| constructor].
      apply Z.ltb_lt in E0. destruct Hinv as [-> | [Hcn Hl]]; [lia |].
      constructor; [by apply Hrun | constructor].
Qed.

Section Codec.

Variable alloc_ok : Z -> bool.

Lemma load_loop_skip pre : forall b post acc al,
  Z.shiftr b 4 = 0 ->
  Save.load_loop alloc_ok (pre ++ b :: post) acc al
  = Save.load_loop alloc_ok (pre ++ post) acc al.
Proof.
  induction pre as [| p pre IH]; intros b post acc al Hb.
  - cbn [app Save.load_loop]. rewrite Hb. reflexivity.
  - cbn [app Save.load_loop].
    destruct (Save.load_run alloc_ok _ _ acc al) as [[acc' al'] |]; [| reflexivity].
    by apply IH.
Qed.

Hypothesis alloc_always : forall n, alloc_ok n = true.

Lemma load_run_moves n b sol al :
  0 <= b <= 7 ->
  exists al',
    Save.load_run alloc_ok n b sol al = Some (sol ++ replicate n (Save.byte2xsb b), al').
Proof.
  intros Hb. revert sol al. induction n as [| n IH]; intros sol al.
  - exists al. simpl. by rewrite app_nil_r.
  - cbn [Save.load_run]. rewrite alloc_always, andb_false_r, byte2xsb_move by done.
    destruct (IH (sol ++ [Save.byte2xsb b])
                 (if al <=? Z.of_nat (length sol) + 1 then (al * 2) mod 2 ^ 64 else al))
      as [al' ->].
    exists al'. by rewrite <- app_assoc.
Qed.

Lemma load_run_corrupt n b sol al :
  ~ 0 <= b <= 7 -> Save.load_run alloc_ok (S n) b sol al = None.
Proof.
  intros Hb. cbn [Save.load_run].
  rewrite alloc_always, andb_false_r, byte2xsb_other by done. reflexivity.
Qed.

Lemma load_save_loop s : forall lb cnt acc al,
  Forall (fun c => Save.is_move c = true) s ->
  cnt = 0 \/ (1 <= cnt <= 15 /\ 0 <= lb <= 7) ->
  Save.load_loop alloc_ok (Save.save_loop s lb cnt) acc al
  = Some (acc ++ replicate (Z.to_nat cnt) (Save.byte2xsb lb) ++ s).
Proof.
  induction s as [| c s IH]; intros lb cnt acc al Hs Hinv.
  - rewrite save_loop_nil.
    destruct ((Save.solmove_ERR =? lb) && (cnt <? 15)) eqn:E.
    + apply andb_true_iff in E as [E _]. apply Z.eqb_eq in E.
      unfold Save.solmove_ERR in E.
      destruct Hinv as [-> | [_ ?]]; [| lia]. simpl. by rewrite app_nil_r.
    + destruct (0 <? cnt) eqn:E0.
      * apply Z.ltb_lt in E0. destruct Hinv as [-> | [Hc Hl]]; [lia |].
        cbn [Save.load_loop]. destruct (nibble_pack cnt lb Hc Hl) as [-> ->].
        destruct (load_run_moves (Z.to_nat cnt) lb acc al Hl) as [al' ->].
        simpl. by rewrite app_nil_r.
      * apply Z.ltb_ge in E0. destruct Hinv as [-> | [Hc Hl]]; [| lia].
        simpl. by rewrite app_nil_r.
  - inversion Hs as [| ? ? Hc Hs']; subst.
    destruct (xsb2byte_move c Hc) as [Hr Hbc].
    rewrite save_loop_cons by done.
    destruct ((Save.xsb2byte c =? lb) && (cnt <? 15)) eqn:E.
    + apply andb_true_iff in E as [E1 E2]. apply Z.eqb_eq in E1. apply Z.ltb_lt in E2.
      rewrite IH; [| done | right; lia].
      replace (Z.to_nat (cnt + 1)) with (S (Z.to_nat cnt)) by lia.
      rewrite replicate_S_end, <- E1, Hbc, <- app_assoc. reflexivity.
    + destruct (0 <? cnt) eqn:E0.
      * apply Z.ltb_lt in E0. destruct Hinv as [-> | [Hcn Hl]]; [lia |].
        cbn [app Save.load_loop]. destruct (nibble_pack cnt lb Hcn Hl) as [-> ->].
        destruct (load_run_moves (Z.to_nat cnt) lb acc al Hl) as [al' ->].
        rewrite IH; [| done | right; lia]. simpl. rewrite Hbc, <- app_assoc. reflexivity.
      * apply Z.ltb_ge in E0. destruct Hinv as [-> | [Hcn Hl]]; [| lia].
        cbn [app]. rewrite IH; [| done | right; lia]. simpl. by rewrite Hbc.
Qed.

Lemma load_loop_corrupt fd : forall acc al,
  Save.load_loop alloc_ok fd acc al = None <-> Exists Save.corrupt_byte fd.
Proof.
  induction fd as [| b fd IH]; intros acc al.
  - simpl. split; [discriminate | intros H; inversion H].
  - cbn [Save.load_loop]. rewrite Exists_cons.
    assert (0 <= Z.land b 15) as Hlo by (apply Z.land_nonneg; lia).
    destruct (Z_le_gt_dec (Z.land b 15) 7) as [Hv | Hv].
    + destruct (load_run_moves (Z.to_nat (Z.shiftr b 4)) (Z.land b 15) acc al) as [al' ->];
        [lia |].
      rewrite IH. unfold Save.corrupt_byte. intuition lia.
    + destruct (Z.to_nat (Z.shiftr b 4)) as [| n] eqn:En.
      * cbn [Save.load_run]. rewrite IH. unfold Save.corrupt_byte. intuition lia.
      * rewrite load_run_corrupt by lia. unfold Save.corrupt_byte.
        split; [intros _; left; lia | reflexivity].
Qed.

End Codec.

(** C1. Round trip of the history codec: for every history [h] over the
    alphabet of the eight letters u, l, d, r, U, L, D, R, [solution_save]
    writes bytes (each one a run of 1 to 15 copies of one move,
    [(run_length << 4) | code]) from which [solution_load] reads back
    exactly [h], as long as its allocations are granted. *)
Theorem solution_roundtrip (alloc_ok : Z -> bool) (h : list ascii) :
  (forall n, alloc_ok n = true) ->
  Forall (fun c => In c history_alphabet) h ->
  exists bytes,
    Save.solution_save (Some h) = Some bytes
    /\ Forall Save.run_byte bytes
    /\ Save.solution_load alloc_ok (Some bytes) = Some h.
Proof.
  intros Hal Hh%alphabet_moves. exists (Save.save_loop h (-1) 0). split; [reflexivity |].
  split; [apply save_loop_run_bytes; auto |].
  unfold Save.solution_load.
  rewrite Hal, (load_save_loop alloc_ok Hal h (-1) 0 [] 16 Hh) by auto.
  simpl. by rewrite Hal.
Qed.

Lemma solution_roundtrip_witness :
  exists bytes,
    Save.solution_save (Some (list_ascii_of_string "uldrULDRllllllllllllllllldDDrr"))
    = Some bytes
    /\ Forall Save.run_byte bytes
    /\ Save.solution_load (fun _ => true) (Some bytes)
       = Some (list_ascii_of_string "uldrULDRllllllllllllllllldDDrr").
Proof.
  apply (solution_roundtrip (fun _ => true)
           (list_ascii_of_string "uldrULDRllllllllllllllllldDDrr")).
  - reflexivity.
  - simpl. repeat (constructor; [cbn; auto 10 |]). constructor.
Defined.

(** C10. A byte of a solution file whose run length (high nibble) is 0 is
    read and adds nothing, whatever its low nibble: the file decodes as if
    the byte were not there.  With all allocations granted, decoding gives
    no result exactly when some byte pairs a run length of at least 1 with
    a code above 7. *)
Theorem zero_run_byte_ignored (alloc_ok : Z -> bool) :
  (forall pre b post,
      Z.shiftr b 4 = 0 ->
      Save.solution_load alloc_ok (Some (pre ++ b :: post))
      = Save.solution_load alloc_ok (Some (pre ++ post)))
  /\ ((forall n, alloc_ok n = true) ->
      forall fd,
        Save.solution_load alloc_ok (Some fd) = None <-> Exists Save.corrupt_byte fd).
Proof.
  split.
  - intros pre b post Hb. unfold Save.solution_load.
    by rewrite load_loop_skip.
  - intros Hal fd. unfold Save.solution_load. rewrite Hal.
    rewrite <- (load_loop_corrupt alloc_ok Hal fd [] 16).
    destruct (Save.load_loop alloc_ok fd [] 16); [| done].
    rewrite Hal. split; discriminate.
Qed.

Lemma zero_run_byte_ignored_witness :
  Save.solution_load (fun _ => true) (Some ([20] ++ 15 :: [35]))
  = Save.solution_load (fun _ => true) (Some ([20] ++ [35]))
  /\ (Save.solution_load (fun _ => true) (Some [20; 159; 35]) = None
      <-> Exists Save.corrupt_byte [20; 159; 35]).
Proof.
  split.
  - apply (proj1 (zero_run_byte_ignored (fun _ => true)) [20] 15 [35]). reflexivity.
  - apply (proj2 (zero_run_byte_ignored (fun _ => true))). reflexivity.
Defined.

(** ** Cells of the field *)

Lemma byte_mask c : 0 <= c < 256 <-> Z.land c 255 = c.
Proof.
  change 255 with (Z.ones 8). rewrite Z.land_ones by lia. change (2 ^ 8) with 256.
  split; [intros H; apply Z.mod_small; lia | intros <-; apply Z.mod_pos_bound; lia].
Qed.

(** Setting and clearing a flag keep a cell an [unsigned char]. *)
Lemma flag_ops_byte c flag :
  0 <= c < 256 -> 0 <= flag < 256 ->
  0 <= set_flag flag c < 256 /\ 0 <= clear_flag flag c < 256.
Proof.
  rewrite !byte_mask. intros Hc Hf. unfold set_flag, clear_flag. split.
  - by rewrite Z.land_lor_distr_l, Hc, Hf.
  - by rewrite <- Z.land_assoc, (Z.land_comm (Z.lnot flag)), Z.land_assoc, Hc.
Qed.

Lemma field_get_Some f x y :
  field_wf f -> in_field x y = true -> is_Some (field_get f x y).
Proof.
  intros [Hl Hc] Hin. unfold field_get. rewrite Hin. unfold in_field in Hin.
  destruct (lookup_lt_is_Some_2 f (Z.to_nat x)) as [col Hcol]; [lia |].
  rewrite Hcol. apply lookup_lt_is_Some.
  rewrite Forall_forall in Hc. rewrite (Hc col); [lia |].
  by eapply list_elem_of_lookup_2.
Qed.

Lemma field_get_in f x y c : field_get f x y = Some c -> in_field x y = true.
Proof. unfold field_get. by destruct (in_field x y). Qed.

Lemma to_nat_inj_field x y x' y' :
  in_field x y = true -> in_field x' y' = true ->
  (x, y) <> (x', y') -> Z.to_nat x <> Z.to_nat x' \/ Z.to_nat y <> Z.to_nat y'.
Proof.
  unfold in_field. intros Hin Hin' Hne.
  destruct (Z.eq_dec x x') as [-> | ?]; [| left; lia].
  destruct (Z.eq_dec y y') as [-> | ?]; [done | right; lia].
Qed.

Lemma field_get_put f x y v c :
  field_get f x y = Some c -> field_get (field_put f x y v) x y = Some v.
Proof.
  unfold field_get, field_put. destruct (in_field x y); [| done].
  rewrite list_lookup_alter_eq.
  destruct (f !! Z.to_nat x) as [col |]; [| done]. cbn. intros Hc.
  apply list_lookup_insert_eq. by eapply lookup_lt_Some.
Qed.

Lemma field_get_put_ne f x y x' y' v :
  in_field x y = true -> (x, y) <> (x', y') ->
  field_get (field_put f x y v) x' y' = field_get f x' y'.
Proof.
  intros Hin Hne. unfold field_get, field_put.
  destruct (in_field x' y') eqn:Hin'; [| done].
  destruct (to_nat_inj_field _ _ _ _ Hin Hin' Hne) as [Hx | Hy].
  - by rewrite list_lookup_alter_ne.
  - destruct (decide (Z.to_nat x = Z.to_nat x')) as [-> | Hx];
      [| by rewrite list_lookup_alter_ne].
    rewrite list_lookup_alter_eq. destruct (f !! Z.to_nat x') as [col |]; [| done].
    cbn. by apply list_lookup_insert_ne.
Qed.

Lemma field_put_put f x y v w :
  field_put (field_put f x y v) x y w = field_put f x y w.
Proof.
  unfold field_put. rewrite list_alter_alter_eq. apply list_alter_ext; [| done].
  intros col _. cbn. apply list_insert_insert_eq.
Qed.

Lemma field_put_comm f x y x' y' v w :
  in_field x y = true -> in_field x' y' = true -> (x, y) <> (x', y') ->
  field_put (field_put f x y v) x' y' w = field_put (field_put f x' y' w) x y v.
Proof.
  intros Hin Hin' Hne. unfold field_put.
  destruct (decide (Z.to_nat x = Z.to_nat x')) as [Hx | Hx].
  - rewrite Hx, !list_alter_alter_eq. apply list_alter_ext; [| done].
    intros col _. cbn. apply list_insert_insert_ne.
    destruct (to_nat_inj_field _ _ _ _ Hin Hin' Hne); congruence.
  - by apply list_alter_alter_ne.
Qed.

Lemma field_put_id f x y c : field_get f x y = Some c -> field_put f x y c = f.
Proof.
  unfold field_get, field_put. destruct (in_field x y); [| done].
  destruct (f !! Z.to_nat x) as [col |] eqn:Hcol; [| done]. intros Hc.
  replace f with (alter (fun col => col) (Z.to_nat x) f) at 2
    by (by apply list_alter_id).
  apply list_alter_ext; [| done].
  intros col' Hcol'. rewrite Hcol in Hcol'. injection Hcol' as <-.
  by apply list_insert_id.
Qed.

Lemma field_put_wf f x y v : field_wf f -> field_wf (field_put f x y v).
Proof.
  intros [Hl Hc]. unfold field_put. split; [by rewrite length_alter |].
  apply Forall_forall. intros col Hin.
  apply list_elem_of_lookup in Hin as [i Hi].
  rewrite list_lookup_alter in Hi. rewrite Forall_forall in Hc.
  case_decide.
  - subst i. destruct (f !! Z.to_nat x) as [col0 |] eqn:H0; [| done].
    cbn in Hi. injection Hi as <-.
    rewrite length_insert. apply Hc. by eapply list_elem_of_lookup_2.
  - apply Hc. by eapply list_elem_of_lookup_2.
Qed.

(** ** The solved check *)

Lemma scan_row_false f y : forall n x,
  scan_row f y x n = Some false ->
  forall x', x <= x' < x + Z.of_nat n ->
    exists c, field_get f x' y = Some c /\ unfilled_goal c = false.
Proof.
  induction n as [| n IH]; intros x Hs x' Hx; [lia |].
  cbn [scan_row] in Hs. destruct (field_get f x y) as [c |] eqn:Hc; [| discriminate].
  fold (unfilled_goal c) in Hs. destruct (unfilled_goal c) eqn:Hu; [discriminate |].
  destruct (Z.eq_dec x' x) as [-> | Hne]; [eauto |].
  apply (IH (x + 1)); [done | lia].
Qed.

Lemma scan_row_true f y : forall n x,
  scan_row f y x n = Some true ->
  exists x' c, x <= x' < x + Z.of_nat n
               /\ field_get f x' y = Some c /\ unfilled_goal c = true.
Proof.
  induction n as [| n IH]; intros x Hs; [discriminate |].
  cbn [scan_row] in Hs. destruct (field_get f x y) as [c |] eqn:Hc; [| discriminate].
  fold (unfilled_goal c) in Hs. destruct (unfilled_goal c) eqn:Hu.
  - exists x, c. repeat split; [lia | lia | done | done].
  - destruct (IH (x + 1) Hs) as (x' & c' & Hx & Hg & Hu').
    exists x', c'. repeat split; [lia | lia | done | done].
Qed.

Lemma scan_row_defined f y : forall n x,
  field_wf f -> 0 <= y < 64 -> 0 <= x -> x + Z.of_nat n <= 64 ->
  is_Some (scan_row f y x n).
Proof.
  induction n as [| n IH]; intros x Hl Hy Hx Hn; [by eexists |].
  cbn [scan_row].
  destruct (field_get_Some f x y Hl) as [c ->].
  { unfold in_field. lia. }
  destruct (_ && _); [by eexists |]. apply IH; done || lia.
Qed.

Lemma scan_rows_false f w : forall n y,
  scan_rows f w y n = Some false ->
  forall x' y', 0 <= x' < w -> y <= y' < y + Z.of_nat n ->
    exists c, field_get f x' y' = Some c /\ unfilled_goal c = false.
Proof.
  induction n as [| n IH]; intros y Hs x' y' Hx Hy; [lia |].
  cbn [scan_rows] in Hs.
  destruct (scan_row f y 0 (Z.to_nat w)) as [[] |] eqn:Hr; try discriminate.
  destruct (Z.eq_dec y' y) as [-> | Hne].
  - apply (scan_row_false _ _ _ _ Hr). lia.
  - apply (IH (y + 1)); [done | done | lia].
Qed.

Lemma scan_rows_true f w : forall n y,
  scan_rows f w y n = Some true ->
  exists x' y' c, 0 <= x' < w /\ y <= y' < y + Z.of_nat n
                  /\ field_get f x' y' = Some c /\ unfilled_goal c = true.
Proof.
  induction n as [| n IH]; intros y Hs; [discriminate |].
  cbn [scan_rows] in Hs.
  destruct (scan_row f y 0 (Z.to_nat w)) as [[] |] eqn:Hr; try discriminate.
  - destruct (scan_row_true _ _ _ _ Hr) as (x' & c & Hx & Hg & Hu).
    exists x', y, c. repeat split; try done; lia.
  - destruct (IH (y + 1) Hs) as (x' & y' & c & Hx & Hy & Hg & Hu).
    exists x', y', c. repeat split; try done; lia.
Qed.

Lemma scan_rows_defined f w : forall n y,
  field_wf f -> 0 <= w <= 64 -> 0 <= y -> y + Z.of_nat n <= 64 ->
  is_Some (scan_rows f w y n).
Proof.
  induction n as [| n IH]; intros y Hl Hw Hy Hn; [by eexists |].
  cbn [scan_rows].
  destruct (scan_row_defined f y (Z.to_nat w) 0 Hl) as [b ->]; [lia | lia | lia |].
  destruct b; [by eexists |]. apply IH; done || lia.
Qed.

Lemma count_pushes_nonneg h : 0 <= count_pushes h.
Proof. induction h as [| c h IH]; simpl; [lia | destruct (is_upper c); lia]. Qed.

Lemma count_pushes_zero h :
  count_pushes h = 0 <-> ~ Exists (fun c => is_upper c = true) h.
Proof.
  induction h as [| c h IH]; simpl.
  - split; [intros _ H; inversion H | done].
  - pose proof (count_pushes_nonneg h). rewrite Exists_cons.
    destruct (is_upper c); split; intros; try lia; intuition (try lia; try discriminate).
Qed.

Lemma scan_goals_filled game :
  scan_rows (field game) (field_width game) 0 (Z.to_nat (field_height game)) = Some false
  -> goals_filled game.
Proof.
  intros Hs x y c Hx Hy Hc Hg.
  destruct (scan_rows_false _ _ _ _ Hs x y) as (c' & Hc' & Hu); [lia | lia |].
  rewrite Hc in Hc'. injection Hc' as <-. unfold unfilled_goal in Hu.
  rewrite Hg in Hu. simpl in Hu. by apply negb_false_iff in Hu.
Qed.

Lemma scan_goals_unfilled game :
  scan_rows (field game) (field_width game) 0 (Z.to_nat (field_height game)) = Some true
  -> ~ goals_filled game.
Proof.
  intros Hs Hf.
  destruct (scan_rows_true _ _ _ _ Hs) as (x & y & c & Hx & Hy & Hc & Hu).
  unfold unfilled_goal in Hu. apply andb_true_iff in Hu as [Hg Ha].
  rewrite (Hf x y c) in Ha; [discriminate | lia | lia | done | done].
Qed.

(** C4. [sok_checksolution] on a game and its states reports solved exactly
    when every goal cell of the level area holds an atom and the history
    has at least one push (an upper-case character); it gives a result on
    every well-formed game. *)
Theorem checksolution_solved_iff (game : sokgame) (states : sokgamestates) :
  (game_wf game -> is_Some (sok_checksolution game (Some states)))
  /\ forall r saved,
       sok_checksolution game (Some states) = Some (r, saved) ->
       (r <> 0 <->
        goals_filled game /\ Exists (fun c => is_upper c = true) (history states)).
Proof.
  split.
  - intros (Hl & Hw & Hh). unfold sok_checksolution.
    destruct (scan_rows_defined (field game) (field_width game)
                (Z.to_nat (field_height game)) 0 Hl) as [b ->]; [lia | lia | lia |].
    destruct b; [by eexists |]. destruct (_ =? 0); by eexists.
  - intros r saved Hr. unfold sok_checksolution in Hr.
    destruct (scan_rows _ _ _ _) as [[] |] eqn:Hs; [| | discriminate].
    + injection Hr as <- <-. apply scan_goals_unfilled in Hs. tauto.
    + apply scan_goals_filled in Hs. cbn [sok_history_getpushes] in Hr.
      destruct (count_pushes (history states) =? 0) eqn:Hp.
      * injection Hr as <- <-. apply Z.eqb_eq, count_pushes_zero in Hp. tauto.
      * injection Hr as <- <-. apply Z.eqb_neq in Hp. rewrite count_pushes_zero in Hp.
        split; [intros _ | done]. split; [done |].
        destruct (decide (Exists (fun c => is_upper c = true) (history states))); tauto.
Qed.

(** ** Moves and their undoing *)

Lemma testbit_2 n : 0 <= n -> Z.testbit 2 n = (n =? 1).
Proof.
  intros Hn. change 2 with (2 ^ 1). rewrite Z.pow2_bits_eqb by lia. apply Z.eqb_sym.
Qed.

Lemma has_atom_bit c : has_flag c field_atom = true -> Z.testbit c 1 = true.
Proof.
  unfold has_flag, field_atom. intros H. apply negb_true_iff, Z.eqb_neq in H.
  destruct (Z.testbit c 1) eqn:Hb; [done |]. exfalso. apply H.
  apply Z.bits_inj'. intros n Hn. rewrite Z.land_spec, Z.bits_0, testbit_2 by done.
  destruct (Z.eqb_spec n 1) as [-> | ?]; [by rewrite Hb | apply andb_false_r].
Qed.

Lemma no_atom_bit c :
  has_flag c (Z.lor field_wall field_atom) = false -> Z.testbit c 1 = false.
Proof.
  unfold has_flag. intros H. apply negb_false_iff, Z.eqb_eq in H.
  apply (f_equal (fun z => Z.testbit z 1)) in H.
  rewrite Z.land_spec, Z.bits_0 in H.
  change (Z.testbit (Z.lor field_wall field_atom) 1) with true in H.
  by rewrite andb_true_r in H.
Qed.

Lemma set_clear_atom c :
  has_flag c field_atom = true ->
  set_flag field_atom (clear_flag field_atom c) = c.
Proof.
  intros H. apply has_atom_bit in H. unfold set_flag, clear_flag, field_atom.
  apply Z.bits_inj'. intros n Hn.
  rewrite Z.lor_spec, Z.land_spec, Z.lnot_spec, testbit_2 by done.
  destruct (Z.eqb_spec n 1) as [-> | ?]; [by rewrite H, orb_true_r |].
  by rewrite andb_true_r, orb_false_r.
Qed.

Lemma clear_set_atom c :
  has_flag c (Z.lor field_wall field_atom) = false ->
  clear_flag field_atom (set_flag field_atom c) = c.
Proof.
  intros H. apply no_atom_bit in H. unfold set_flag, clear_flag, field_atom.
  apply Z.bits_inj'. intros n Hn.
  rewrite Z.land_spec, Z.lor_spec, Z.lnot_spec, testbit_2 by done.
  destruct (Z.eqb_spec n 1) as [-> | ?]; [by rewrite H |].
  by rewrite orb_false_r, andb_true_r.
Qed.

Ltac case_hyp H :=
  match type of H with
  | context [match ?x with _ => _ end] => let E := fresh "E" in destruct x eqn:E
  end.

Section MoveFacts.
Variable alloc_ok : Z -> bool.

Lemma sok_move_commit_auth g st alreadysolved res vx vy ch r g' st' sv :
  sok_move_commit g st 0 alreadysolved res vx vy ch = MoveRet r g' st' sv ->
  g' = set_position g (positionx g + vx) (positiony g + vy)
  /\ st' = mkstates (angle st) (history st ++ [ch]) (historyallocsize st)
  /\ (r = res \/ r = Z.lor res sokmove_solved).
Proof.
  unfold sok_move_commit. intros H. cbn [Z.eqb andb] in H.
  repeat (case_hyp H; try discriminate H); injection H as <- <- <- <-; auto.
Qed.

Lemma sok_move_commit_dry g st v alreadysolved res vx vy ch r g' st' sv :
  v <> 0 ->
  sok_move_commit g st v alreadysolved res vx vy ch = MoveRet r g' st' sv ->
  g' = g /\ st' = st /\ (r = res \/ r = Z.lor res sokmove_solved).
Proof.
  unfold sok_move_commit. intros Hv H. apply Z.eqb_neq in Hv. rewrite Hv in H.
  cbn [andb] in H.
  repeat (case_hyp H; try discriminate H); injection H as <- <- <- <-; auto.
Qed.

Lemma checksolution_null g r sv :
  sok_checksolution g None = Some (r, sv) -> r = 0 /\ sv = None.
Proof.
  unfold sok_checksolution. intros H.
  repeat (case_hyp H; try discriminate H); injection H as <- <-; auto.
Qed.

Lemma field_modify_Some g f x y f' :
  field_modify g f x y = Some f' ->
  exists c, field_get f x y = Some c /\ f' = field_put f x y (g c).
Proof.
  unfold field_modify. destruct (field_get f x y) as [c |]; [| discriminate].
  intros [= <-]. eauto.
Qed.

Lemma sok_move_accepted g dir st r g' st' sv :
  sok_move alloc_ok g dir 0 st = MoveRet r g' st' sv -> 0 <= r ->
  let '(vx, vy, a, ch) := move_vector dir in
  let x := positionx g in
  let y := positiony g in
  exists f',
    g' = set_position (set_field g f') (x + vx) (y + vy)
    /\ angle st' = a
    /\ ((f' = field g /\ history st' = history st ++ [ch] /\ Z.land r 1 = 0)
        \/ exists c1 c2,
             field_get (field g) (x + vx) (y + vy) = Some c1
             /\ has_flag c1 field_atom = true
             /\ field_get (field g) (x + vx * 2) (y + vy * 2) = Some c2
             /\ has_flag c2 (Z.lor field_wall field_atom) = false
             /\ f' = field_put (field_put (field g) (x + vx) (y + vy)
                                           (clear_flag field_atom c1))
                                (x + vx * 2) (y + vy * 2) (set_flag field_atom c2)
             /\ history st' = history st ++ [chr (code ch - 32)]
             /\ Z.land r 1 = 1).
Proof.
  intros H Hr. unfold sok_move in H.
  destruct (_ && negb _) in H; [discriminate |].
  destruct (sok_checksolution g None) as [[a0 sv0] |] eqn:Hcs; [| discriminate].
  apply checksolution_null in Hcs as [-> ->].
  assert (forall vx vy : Z, (vx, vy) <> (0, 0) ->
            (positionx g + vx, positiony g + vy)
            <> (positionx g + vx * 2, positiony g + vy * 2)) as Hne.
  { intros vx vy Hv [= Hx Hy]. apply Hv. f_equal; lia. }
  assert (forall res, res = 0 \/ res = 1 \/ res = 3 ->
            forall r, r = res \/ r = Z.lor res sokmove_solved ->
                      Z.land r 1 = Z.land res 1) as Hres.
  { intros res Hres r0 [-> | ->]; [done |].
    destruct Hres as [-> | [-> | ->]]; reflexivity. }
  destruct (move_vector dir) as [[[vx vy] a] ch] eqn:Hv. cbv zeta in H |- *.
  assert ((vx, vy) <> (0, 0)) as Hvec.
  { destruct dir; injection Hv as <- <- <- <-; discriminate. }
  specialize (Hne vx vy Hvec). clear Hv Hvec.
  destruct (positiony g <? 1); [injection H as <- <- <- <-; lia |].
  destruct (field_get (field g) (positionx g + vx) (positiony g + vy))
    as [c1 |] eqn:Hc1; [| discriminate].
  destruct (has_flag c1 field_wall); [injection H as <- <- <- <-; lia |].
  destruct (has_flag c1 field_atom) eqn:Hatom.
  - cbn [Z.eqb negb] in H.
    destruct (_ || _) in H; [injection H as <- <- <- <-; lia |].
    destruct (field_get (field g) (positionx g + vx * 2) (positiony g + vy * 2))
      as [c2 |] eqn:Hc2; [| discriminate].
    destruct (has_flag c2 (Z.lor field_wall field_atom)) eqn:Hfree;
      [injection H as <- <- <- <-; lia |].
    destruct (field_modify (clear_flag field_atom) _ _ _) as [f1 |] eqn:Hf1;
      [| discriminate].
    destruct (field_modify (set_flag field_atom) f1 _ _) as [f2 |] eqn:Hf2;
      [| discriminate].
    apply field_modify_Some in Hf1 as (c1' & Hc1' & ->).
    rewrite Hc1 in Hc1'. injection Hc1' as <-.
    apply field_modify_Some in Hf2 as (c2' & Hc2' & ->).
    rewrite field_get_put_ne, Hc2 in Hc2'
      by (try done; by eapply field_get_in).
    injection Hc2' as <-.
    apply sok_move_commit_auth in H as (-> & -> & Hrr).
    eexists. split; [reflexivity |]. split; [reflexivity |]. right.
    exists c1, c2. repeat split; try done.
    rewrite (Hres (Z.lor sokmove_pushed
                         (if has_flag c2 field_goal then sokmove_ongoal else 0))); [| | done].
    + by destruct (has_flag c2 field_goal).
    + destruct (has_flag c2 field_goal); cbn; auto.
  - apply sok_move_commit_auth in H as (-> & -> & Hrr).
    exists (field g). split; [reflexivity |]. split; [reflexivity |]. left.
    repeat split. by rewrite (Hres 0) by auto.
Qed.


Lemma undo_push_field f x1 y1 x2 y2 c1 c2 :
  field_get f x1 y1 = Some c1 -> has_flag c1 field_atom = true ->
  field_get f x2 y2 = Some c2 -> has_flag c2 (Z.lor field_wall field_atom) = false ->
  (x1, y1) <> (x2, y2) ->
  exists f1,
    field_modify (clear_flag field_atom)
      (field_put (field_put f x1 y1 (clear_flag field_atom c1))
                 x2 y2 (set_flag field_atom c2)) x2 y2 = Some f1
    /\ field_modify (set_flag field_atom) f1 x1 y1 = Some f.
Proof.
  intros H1 Ha H2 Hf Hne.
  pose proof (field_get_in _ _ _ _ H1) as Hin1.
  pose proof (field_get_in _ _ _ _ H2) as Hin2.
  eexists. split.
  - unfold field_modify. erewrite field_get_put; [reflexivity |].
    rewrite field_get_put_ne by done. exact H2.
  - rewrite clear_set_atom, field_put_put by done.
    unfold field_modify.
    rewrite field_get_put_ne by (try done; congruence).
    erewrite field_get_put by exact H1.
    rewrite set_clear_atom by done.
    rewrite field_put_comm, field_put_put by (try done; congruence).
    f_equal.
    rewrite (field_put_id f x1 y1) by done.
    by apply field_put_id.
Qed.

Lemma sok_undo_snoc g s h c :
  history s = h ++ [c] ->
  sok_undo g s =
  let '(movex, movey, a) := undo_vector c (angle s) in
  match (if is_upper c then
           match field_modify (clear_flag field_atom) (field g)
                              (positionx g - movex) (positiony g - movey) with
           | None => None
           | Some f1 =>
               field_modify (set_flag field_atom) f1 (positionx g) (positiony g)
           end
         else Some (field g)) with
  | None => None
  | Some f =>
      Some (set_position (set_field g f) (positionx g + movex) (positiony g + movey),
            mkstates a h (historyallocsize s))
  end.
Proof.
  intros Hh. unfold sok_undo. rewrite Hh. cbn [sok_history_getlen].
  rewrite length_app, last_last, removelast_last. cbn [length].
  destruct (Z.ltb_spec (Z.of_nat (length h + 1)) 1); [lia | reflexivity].
Qed.

Lemma game_restored g f0 x0 y0 f x y :
  f = field g -> x = positionx g -> y = positiony g ->
  set_position (set_field (set_position (set_field g f0) x0 y0) f) x y = g.
Proof. intros -> -> ->. by destruct g. Qed.

(** Undoing an accepted move gives back the game before it. *)
Lemma sok_undo_move g dir st r g1 st1 sv st1' :
  sok_move alloc_ok g dir 0 st = MoveRet r g1 st1 sv -> 0 <= r ->
  history st1' = history st1 ->
  exists st2, sok_undo g1 st1' = Some (g, st2) /\ history st2 = history st.
Proof.
  intros H Hr Hh. pose proof (sok_move_accepted _ _ _ _ _ _ _ H Hr) as Hacc.
  destruct dir; cbn [move_vector] in Hacc; cbv zeta in Hacc;
    destruct Hacc as (f' & -> & Ha & [(-> & Hhist & _)
                      | (c1 & c2 & Hc1 & Hat & Hc2 & Hfree & -> & Hhist & _)]);
    rewrite Hhist in Hh;
    rewrite (sok_undo_snoc _ _ _ _ Hh).
  all: repeat match goal with
       | |- context [chr ?z] =>
           let v := eval vm_compute in (chr z) in change (chr z) with v
       | |- context [is_upper ?c] =>
           let v := eval vm_compute in (is_upper c) in change (is_upper c) with v
       end.
  all: cbn [undo_vector set_position set_field positionx positiony field].
  all: try (eexists; split;
            [apply f_equal; apply (f_equal2 pair);
             [apply game_restored; [reflexivity | lia | lia] | reflexivity] | reflexivity]).
  all: match goal with
       | |- context [field_modify (clear_flag field_atom) _ ?a ?b] =>
           destruct (undo_push_field _ _ _ _ _ c1 c2 Hc1 Hat Hc2 Hfree)
             as (f1 & Hf1 & Hf2); [intros Heq; injection Heq; intros; lia |];
           match type of Hf1 with
           | field_modify _ _ ?a' ?b' = _ =>
               replace a with a' by lia; replace b with b' by lia
           end;
           rewrite Hf1, Hf2
       end.
  all: eexists; split;
       [apply f_equal; apply (f_equal2 pair);
        [apply game_restored; [reflexivity | lia | lia] | reflexivity] | reflexivity].
Qed.

Lemma undo_times_snoc n : forall g s g1 s1 g2 s2,
  undo_times n g s = Some (g1, s1) -> sok_undo g1 s1 = Some (g2, s2) ->
  undo_times (S n) g s = Some (g2, s2).
Proof.
  induction n as [| n IH]; intros g s g1 s1 g2 s2 Hn Hu.
  - injection Hn as -> ->. cbn. by rewrite Hu.
  - cbn [undo_times] in Hn |- *.
    destruct (sok_undo g s) as [[g' s'] |]; [| discriminate].
    exact (IH _ _ _ _ _ _ Hn Hu).
Qed.

Lemma play_undo dirs : forall g st gN stN,
  play alloc_ok g st dirs = Some (gN, stN) ->
  exists st0,
    undo_times (length dirs) gN stN = Some (g, st0) /\ history st0 = history st.
Proof.
  induction dirs as [| d dirs IH]; intros g st gN stN Hp.
  - injection Hp as <- <-. by exists st.
  - cbn [play] in Hp.
    destruct (sok_move alloc_ok g d 0 st) as [| | r g1 st1 sv] eqn:Hm; try discriminate.
    destruct (Z.leb_spec 0 r) as [Hr |]; [| discriminate].
    destruct (IH _ _ _ _ Hp) as (st1' & Hu & Hh).
    destruct (sok_undo_move _ _ _ _ _ _ _ st1' Hm Hr Hh) as (st2 & Hu2 & Hh2).
    exists st2. split; [| done]. cbn [length].
    exact (undo_times_snoc _ _ _ _ _ _ _ Hu Hu2).
Qed.

End MoveFacts.


(** What [sok_checksolution] returns on a state, and what it saves. *)
Lemma checksolution_states game states r saved :
  sok_checksolution game (Some states) = Some (r, saved) ->
  (r = 0 \/ r = 1)
  /\ (r <> 0 <->
      goals_filled game /\ Exists (fun c => is_upper c = true) (history states))
  /\ (saved <> None <->
      r <> 0
      /\ (sok_history_getlen (solution game) < 1
          \/ sok_history_getlen (Some (history states))
             < sok_history_getlen (solution game)
          \/ (sok_history_getlen (solution game)
              = sok_history_getlen (Some (history states))
              /\ sok_history_getpushes (Some (history states))
                 < sok_history_getpushes (solution game))))
  /\ (forall s, saved = Some s -> s = (crc64 game, history states)).
Proof.
  intros Hr. unfold sok_checksolution in Hr.
  destruct (scan_rows _ _ _ _) as [[] |] eqn:Hs; [| | discriminate].
  - injection Hr as <- <-. apply scan_goals_unfilled in Hs.
    split; [auto |]. split; [tauto |]. split; [| done]. split; [done | tauto].
  - apply scan_goals_filled in Hs. cbn [sok_history_getpushes] in Hr.
    destruct (count_pushes (history states) =? 0) eqn:Hp.
    + injection Hr as <- <-. apply Z.eqb_eq, count_pushes_zero in Hp.
      split; [auto |]. split; [tauto |]. split; [| done]. split; [done | tauto].
    + apply Z.eqb_neq in Hp. rewrite count_pushes_zero in Hp.
      assert (Exists (fun c => is_upper c = true) (history states)) as Hex.
      { destruct (decide (Exists (fun c => is_upper c = true) (history states))); tauto. }
      injection Hr as <- <-. split; [auto |]. split; [done |].
      cbn [sok_history_getlen sok_history_getpushes].
      destruct (_ || _) eqn:Hb.
      * split; [| by intros s [= <-]]. split; [intros _ | done]. split; [done |]. lia.
      * split; [| done]. split; [done |]. intros [_ Hbetter]. lia.
Qed.

Section MoveTheorems.
Variable alloc_ok : Z -> bool.

Lemma play_app ds1 : forall ds2 g st,
  play alloc_ok g st (ds1 ++ ds2) =
  match play alloc_ok g st ds1 with
  | Some (g1, st1) => play alloc_ok g1 st1 ds2
  | None => None
  end.
Proof.
  induction ds1 as [| d ds1 IH]; intros ds2 g st; [reflexivity |].
  cbn [app play]. destruct (sok_move alloc_ok g d 0 st) as [| | r g1 st1 sv]; try reflexivity.
  destruct (0 <=? r); [apply IH | reflexivity].
Qed.

Lemma sok_undo_empty g st : history st = [] -> sok_undo g st = Some (g, st).
Proof. intros H. unfold sok_undo. rewrite H. reflexivity. Qed.

Lemma sok_undo_history g st g' st' :
  sok_undo g st = Some (g', st') ->
  (history st = [] /\ g' = g /\ st' = st) \/ exists c, history st = history st' ++ [c].
Proof.
  intros H. destruct (history st) as [| c h] eqn:Hh.
  - rewrite sok_undo_empty in H by done. injection H as <- <-. by left.
  - right. exists (List.last (history st) NUL).
    destruct (exists_last (l:=history st)) as (h' & c' & Hsnoc); [by rewrite Hh |].
    rewrite (sok_undo_snoc g st h' c' Hsnoc) in H.
    destruct (undo_vector c' (angle st)) as [[mx my] a].
    destruct (if is_upper c' then _ else _) in H; [| discriminate].
    injection H as <- <-. cbn [history]. rewrite <- Hh, Hsnoc. by rewrite last_last.
Qed.

(** C5. After any sequence of accepted moves played for real, as many calls
    of [sok_undo] as there were moves give back the game (its field and
    position) as it was, and the history as it was; this holds from every
    intermediate point of the sequence, so the moves are undone in reverse
    order.  A call of [sok_undo] on a non-empty history removes exactly
    its last character, and on an empty history it changes nothing. *)
Theorem undo_restores (g : sokgame) (st : sokgamestates) :
  (forall ds1 ds2 gN stN,
      play alloc_ok g st (ds1 ++ ds2) = Some (gN, stN) ->
      exists g1 st1 st1',
        play alloc_ok g st ds1 = Some (g1, st1)
        /\ undo_times (length ds2) gN stN = Some (g1, st1')
        /\ history st1' = history st1)
  /\ (forall g' st',
         sok_undo g st = Some (g', st') ->
         (history st = [] /\ g' = g /\ st' = st)
         \/ exists c, history st = history st' ++ [c])
  /\ (history st = [] -> sok_undo g st = Some (g, st)).
Proof.
  split; [| split].
  - intros ds1 ds2 gN stN Hp. rewrite play_app in Hp.
    destruct (play alloc_ok g st ds1) as [[g1 st1] |]; [| discriminate].
    destruct (play_undo alloc_ok ds2 g1 st1 gN stN Hp) as (st1' & Hu & Hh).
    by exists g1, st1, st1'.
  - apply sok_undo_history.
  - apply sok_undo_empty.
Qed.

Lemma checksolution_history g a h al a' al' :
  sok_checksolution g (Some (mkstates a h al))
  = sok_checksolution g (Some (mkstates a' h al')).
Proof. reflexivity. Qed.



(** C9. [sokmoveNONE] moves like [sokmoveUP]: the vector is (0,-1), every
    call returns what the call with [sokmoveUP] returns, and an accepted
    real move takes the player one row up and appends ['u'] or ['U']. *)
Theorem move_none_is_up (g : sokgame) (st : sokgamestates) :
  move_vector sokmoveNONE = (0, -1, 0, "u"%char)
  /\ (forall v, sok_move alloc_ok g sokmoveNONE v st = sok_move alloc_ok g sokmoveUP v st)
  /\ forall r g' st' sv,
       sok_move alloc_ok g sokmoveNONE 0 st = MoveRet r g' st' sv -> 0 <= r ->
       positionx g' = positionx g /\ positiony g' = positiony g - 1
       /\ (history st' = history st ++ ["u"%char]
           \/ history st' = history st ++ ["U"%char]).
Proof.
  split; [reflexivity |]. split; [reflexivity |].
  intros r g' st' sv H Hr.
  pose proof (sok_move_accepted alloc_ok _ _ _ _ _ _ _ H Hr) as Hacc.
  cbn [move_vector] in Hacc. cbv zeta in Hacc.
  destruct Hacc as (f' & -> & _ & [(_ & Hh & _) | (c1 & c2 & _ & _ & _ & _ & _ & Hh & _)]).
  - unfold set_position, set_field. cbn [positionx positiony].
    split; [lia | split; [lia | by left]].
  - unfold set_position, set_field. cbn [positionx positiony].
    split; [lia | split; [lia | by right]].
Qed.

End MoveTheorems.

(** ** The legacy checksum *)

Lemma seqZ_of_to_nat m h : seqZ m (Z.of_nat (Z.to_nat h)) = seqZ m h.
Proof. unfold seqZ. by rewrite Nat2Z.id. Qed.

Lemma seqZ_succ m n : seqZ m (Z.of_nat (S n)) = m :: seqZ (m + 1) (Z.of_nat n).
Proof.
  rewrite seqZ_cons by lia. f_equal. f_equal; lia.
Qed.

(** Errors of the level reader are negative. *)
Lemma scan_run_err n : forall st err st',
  scan_run n st = ScanErr err st' -> parse_error err.
Proof.
  induction n as [| n IH]; intros st err st' H; [discriminate |].
  cbn [scan_run] in H.
  destruct (scan_symbol st) as [st1 |]; [| discriminate].
  destruct (_ || _); [discriminate |].
  destruct (62 <=? s_x st1); [injection H as <- _; by cbv |].
  destruct (62 <=? s_y st1); [injection H as <- _; by cbv |].
  by eapply IH.
Qed.

Lemma scan_level_err fuel : forall st err st',
  scan_level fuel st = ScanErr err st' -> parse_error err.
Proof.
  induction fuel as [| fuel IH]; intros st err st' H; [discriminate |].
  cbn [scan_level] in H.
  destruct (readRLEbyte (s_mem st) (-1)) as [[[rle b] mem'] |]; [| discriminate].
  cbn [s_eof] in H. destruct (s_eof st || (rle <? 0)); [discriminate |].
  destruct (scan_run (Z.to_nat rle) _) as [| err1 st1 | st1] eqn:Hr; [discriminate | |].
  - injection H as <- _. by eapply scan_run_err.
  - destruct (_ || _); [discriminate |]. by eapply IH.
Qed.

Lemma load_prepare_err game mem err st :
  load_prepare game mem = PrepErr err st -> parse_error err.
Proof.
  unfold load_prepare, load_prepare_fuel. intros H.
  destruct (scan_level _ _) as [| err1 st1 | st1] eqn:Hs; [discriminate | |].
  - injection H as <- _. by eapply scan_level_err.
  - repeat (case_hyp H; try discriminate H); injection H as <- _; by cbv.
Qed.

Section LegacyHash.
Variable crc32_init : Z.
Variable crc32_feed : Z -> Z -> Z.
Variable crc32_finish : Z -> Z.
Variable crc64_fn : Z -> list Z -> Z.

Lemma crc32_row_fold f y : forall n x crc crc',
  crc32_row crc32_feed f crc y x n = Some crc' ->
  crc' = fold_left crc32_feed
           (map (fun x => default 0 (field_get f x y)) (seqZ x (Z.of_nat n))) crc
  /\ forall x', x <= x' < x + Z.of_nat n -> is_Some (field_get f x' y).
Proof.
  induction n as [| n IH]; intros x crc crc' H.
  - injection H as <-. split; [reflexivity | lia].
  - cbn [crc32_row] in H. destruct (field_get f x y) as [c |] eqn:Hc; [| discriminate].
    destruct (IH _ _ _ H) as [-> Hdef]. split.
    + rewrite seqZ_succ. cbn [map fold_left]. by rewrite Hc.
    + intros x' Hx'. destruct (Z.eq_dec x' x) as [-> | ?]; [by rewrite Hc |].
      apply Hdef. lia.
Qed.

Lemma crc32_rows_fold f h : forall n y crc crc',
  crc32_rows crc32_feed f h crc y n = Some crc' ->
  crc' = fold_left crc32_feed
           (flat_map (fun y => map (fun x => default 0 (field_get f x y)) (seqZ 0 h))
                     (seqZ y (Z.of_nat n))) crc
  /\ forall x' y', 0 <= x' < h -> y <= y' < y + Z.of_nat n ->
                   is_Some (field_get f x' y').
Proof.
  induction n as [| n IH]; intros y crc crc' H.
  - injection H as <-. split; [reflexivity | lia].
  - cbn [crc32_rows] in H.
    destruct (crc32_row crc32_feed f crc y 0 (Z.to_nat h)) as [crc1 |] eqn:Hrow;
      [| discriminate].
    apply crc32_row_fold in Hrow as [-> Hdef1]. rewrite seqZ_of_to_nat in *.
    destruct (IH _ _ _ H) as [-> Hdef]. split.
    + rewrite seqZ_succ. cbn [flat_map]. by rewrite fold_left_app.
    + intros x' y' Hx' Hy'. destruct (Z.eq_dec y' y) as [-> | ?].
      * apply Hdef1. lia.
      * apply Hdef; lia.
Qed.

(** C6 (amended). For every level that [loadlevelfromfile] returns, the
    legacy checksum [crc32_106] is the checksum of the cells of the field
    after the shift by (-1,-1), the one the level keeps, visited with [y]
    below the width outside and [x] below the height inside; only cells
    are fed, so the player position has no part in it. *)
Theorem legacy_hash_after_shift (game : sokgame) (mem : list Z)
    (ret : Z) (g : sokgame) (rest : list Z) :
  loadlevelfromfile crc32_init crc32_feed crc32_finish crc64_fn game mem
  = Some (ret, g, rest) ->
  0 <= ret ->
  (exists st filled,
      load_prepare game mem = PrepOk st filled
      /\ shift_rows filled 0 63 = Some (field g))
  /\ crc32_106 g
     = crc32_finish
         (fold_left crc32_feed
                    (legacy_cells (field g) (field_width g) (field_height g))
                    crc32_init)
  /\ forall x y, 0 <= y < field_width g -> 0 <= x < field_height g ->
                 is_Some (field_get (field g) x y).
Proof.
  unfold loadlevelfromfile. intros H Hret.
  destruct (load_prepare game mem) as [| err st | st filled] eqn:Hp; [discriminate | |].
  - injection H as <- _ _. apply load_prepare_err in Hp as [? _]. lia.
  - destruct (shift_rows filled 0 63) as [f |] eqn:Hshift; [| discriminate].
    destruct (crc32_rows _ f _ _ _ _) as [c32 |] eqn:H32; [| discriminate].
    destruct (crc64_rows _ f _ _ _ _) as [c64 |]; [| discriminate].
    injection H as <- <- <-. cbn [set_crcs set_field field crc32_106 field_width field_height].
    apply crc32_rows_fold in H32 as [-> Hdef]. rewrite seqZ_of_to_nat in *.
    split; [by exists st, filled |]. split; [reflexivity |].
    intros x y Hy Hx. apply Hdef; lia.
Qed.
End LegacyHash.

(** ** Fuel: the loops of the loader end *)

Lemma count_floor_column_insert column : forall (j : nat) (c v : Z),
  column !! j = Some c ->
  (count_floor_column (<[j := v]> column) + (if (c =? field_floor)%Z then 1 else 0)
   = count_floor_column column + (if (v =? field_floor)%Z then 1 else 0))%nat.
Proof.
  induction column as [| c0 column IH]; intros j c v Hj; [done |].
  destruct j as [| j].
  - injection Hj as ->. change (<[0%nat := v]> (c :: column)) with (v :: column).
    cbn [count_floor_column]. destruct (v =? field_floor), (c =? field_floor); lia.
  - change (<[S j := v]> (c0 :: column)) with (c0 :: <[j := v]> column).
    cbn [count_floor_column]. specialize (IH j c v Hj). lia.
Qed.

Lemma count_floor_alter g f : forall (i : nat) (column : list Z),
  f !! i = Some column ->
  (count_floor (alter g i f) + count_floor_column column
   = count_floor f + count_floor_column (g column))%nat.
Proof.
  induction f as [| col0 f IH]; intros i column Hi; [done |].
  destruct i as [| i].
  - injection Hi as ->. change (alter g 0%nat (column :: f)) with (g column :: f).
    cbn [count_floor]. lia.
  - change (alter g (S i) (col0 :: f)) with (col0 :: alter g i f).
    cbn [count_floor]. specialize (IH i column Hi). lia.
Qed.

Lemma count_floor_column_bound column :
  (count_floor_column column <= length column)%nat.
Proof.
  induction column as [| c column IH]; cbn -[Z.eqb]; [lia |].
  destruct (c =? field_floor); lia.
Qed.

Lemma count_floor_bound f :
  Forall (fun column => length column = 64%nat) f ->
  (count_floor f <= 64 * length f)%nat.
Proof.
  induction 1 as [| column f Hc _ IH]; cbn; [lia |].
  pose proof (count_floor_column_bound column). lia.
Qed.

Lemma count_floor_wf f : field_wf f -> (count_floor f < flood_fuel)%nat.
Proof.
  intros [Hl Hc]. pose proof (count_floor_bound f Hc). unfold flood_fuel. lia.
Qed.

(** Clearing a floor cell takes one off the count. *)
Lemma count_floor_clear f x y :
  field_get f x y = Some field_floor ->
  S (count_floor (field_put f x y 0)) = count_floor f.
Proof.
  unfold field_get, field_put. destruct (in_field x y); [| done].
  destruct (f !! Z.to_nat x) as [column |] eqn:Hcol; [| done]. intros Hc.
  pose proof (count_floor_alter (fun column => <[Z.to_nat y := 0]> column)
                f _ _ Hcol) as Ha.
  pose proof (count_floor_column_insert column _ _ 0 Hc) as Hi.
  cbv beta in Ha.
  change (field_floor =? field_floor) with true in Hi.
  change (0 =? field_floor) with false in Hi. cbv iota in Hi. lia.
Qed.

Lemma flood_count fuel : forall f x y f',
  floodFillField fuel f x y = Some f' -> (count_floor f' <= count_floor f)%nat.
Proof.
  induction fuel as [| fuel IH]; intros f x y f' H; [discriminate |].
  cbn [floodFillField] in H.
  destruct (in_field x y); [| injection H as <-; lia].
  destruct (field_get f x y) as [c |] eqn:Hc; [| discriminate].
  destruct (Z.eqb_spec c field_floor) as [-> | _]; [| injection H as <-; lia].
  unfold field_modify in H. rewrite Hc in H.
  pose proof (count_floor_clear f x y Hc) as Hclear.
  destruct (floodFillField fuel _ (x + 1) y) as [f1 |] eqn:H1; [| discriminate].
  destruct (floodFillField fuel f1 (x - 1) y) as [f2 |] eqn:H2; [| discriminate].
  destruct (floodFillField fuel f2 x (y + 1)) as [f3 |] eqn:H3; [| discriminate].
  apply IH in H1, H2, H3, H. lia.
Qed.

(** Fuel above the number of floor cells is never used. *)
Lemma flood_fuel_more fuel : forall k f x y,
  (count_floor f < fuel)%nat ->
  floodFillField (fuel + k) f x y = floodFillField fuel f x y.
Proof.
  induction fuel as [| fuel IH]; intros k f x y Hcount; [lia |].
  cbn [floodFillField Nat.add].
  destruct (in_field x y); [| done].
  destruct (field_get f x y) as [c |] eqn:Hc; [| done].
  destruct (Z.eqb_spec c field_floor) as [-> | _]; [| done].
  unfold field_modify. rewrite Hc.
  pose proof (count_floor_clear f x y Hc) as Hclear.
  rewrite IH by lia.
  destruct (floodFillField fuel _ (x + 1) y) as [f1 |] eqn:H1; [| done].
  apply flood_count in H1 as Hc1. rewrite IH by lia.
  destruct (floodFillField fuel f1 (x - 1) y) as [f2 |] eqn:H2; [| done].
  apply flood_count in H2 as Hc2. rewrite IH by lia.
  destruct (floodFillField fuel f2 x (y + 1)) as [f3 |] eqn:H3; [| done].
  apply flood_count in H3 as Hc3. apply IH. lia.
Qed.

(** On a field of 64 x 64 cells the flood fill ends, within its fuel. *)
Lemma flood_defined fuel : forall f x y,
  field_wf f -> (count_floor f < fuel)%nat ->
  exists f', floodFillField fuel f x y = Some f' /\ field_wf f'.
Proof.
  induction fuel as [| fuel IH]; intros f x y Hwf Hcount; [lia |].
  cbn [floodFillField].
  destruct (in_field x y) eqn:Hin; [| by exists f].
  destruct (field_get_Some f x y Hwf Hin) as [c Hc]. rewrite Hc.
  destruct (Z.eqb_spec c field_floor) as [-> | _]; [| by exists f].
  unfold field_modify. rewrite Hc.
  pose proof (count_floor_clear f x y Hc) as Hclear.
  destruct (IH (field_put f x y 0) (x + 1) y) as (f1 & H1 & Hwf1);
    [by apply field_put_wf | lia |].
  rewrite H1. apply flood_count in H1.
  destruct (IH f1 (x - 1) y) as (f2 & H2 & Hwf2); [done | lia |].
  rewrite H2. apply flood_count in H2.
  destruct (IH f2 x (y + 1)) as (f3 & H3 & Hwf3); [done | lia |].
  rewrite H3. apply flood_count in H3.
  apply IH; [done | lia].
Qed.

(** *** The reader never runs out of text *)

Lemma readRLEbyte_length mem : forall r rle b mem',
  readRLEbyte mem r = Some (rle, b, mem') ->
  (length mem' <= length mem)%nat /\ (0 <= rle -> (length mem' < length mem)%nat).
Proof.
  induction mem as [| c mem IH]; intros r rle b mem' H.
  - cbn in H. injection H as <- <- <-. split; [done | lia].
  - cbn [readRLEbyte readbytefrommem] in H.
    destruct (_ <? 0).
    { injection H as <- <- <-. cbn. split; lia. }
    destruct (_ && _).
    + destruct (INT_MAX <? _); [discriminate |].
      apply IH in H as [? ?]. cbn. split; lia.
    + injection H as <- <- <-. cbn. split; lia.
Qed.

Lemma skip_comment_length mem :
  (length (skip_comment mem).2 <= length mem)%nat.
Proof.
  induction mem as [| c mem IH]; [done |].
  cbn [skip_comment readbytefrommem].
  assert (length (skip_comment mem).2 <= length (c :: mem))%nat as Hrec
    by (etrans; [exact IH | cbn; lia]).
  destruct (_ =? 13); [exact Hrec |].
  destruct (_ =? 10); [simpl; lia |].
  destruct (_ <? 0); [simpl; lia | exact Hrec].
Qed.

Lemma mark_cell_mem flag st st1 :
  mark_cell flag st = Some st1 -> s_mem st1 = s_mem st.
Proof.
  unfold mark_cell. destruct (field_modify _ _ _ _); [| done]. by intros [= <-].
Qed.

Lemma scan_symbol_length st st1 :
  scan_symbol st = Some st1 -> (length (s_mem st1) <= length (s_mem st))%nat.
Proof.
  unfold scan_symbol. intros H.
  pose proof (skip_comment_length (s_mem st)) as Hskip.
  destruct (skip_comment (s_mem st)) as [b mem']. simpl in Hskip.
  repeat match type of H with
         | (if ?c then _ else _) = _ => destruct c
         | _ <$> mark_cell ?flag ?s = _ =>
             let E := fresh "E" in
             destruct (mark_cell flag s) eqn:E; [apply mark_cell_mem in E |];
             cbn in H; [| discriminate H]
         | match mark_cell ?flag ?s with _ => _ end = _ =>
             let E := fresh "E" in
             destruct (mark_cell flag s) eqn:E; [apply mark_cell_mem in E |];
             [| discriminate H]
         end;
    injection H as <-; cbn [s_mem next_column put_player] in *;
    repeat match goal with
           | E : s_mem _ = _ |- _ => rewrite E; clear E
           end; lia.
Qed.

Lemma scan_run_length n : forall st st1,
  scan_run n st = ScanOk st1 -> (length (s_mem st1) <= length (s_mem st))%nat.
Proof.
  induction n as [| n IH]; intros st st1 H; [by injection H as <- |].
  cbn [scan_run] in H.
  destruct (scan_symbol st) as [st0 |] eqn:Hs; [| discriminate].
  apply scan_symbol_length in Hs.
  destruct (_ || _); [injection H as <-; done |].
  destruct (62 <=? _); [discriminate |]. destruct (62 <=? _); [discriminate |].
  apply IH in H. cbn in H. lia.
Qed.

Lemma scan_level_fuel n : forall k st,
  (length (s_mem st) <= n)%nat ->
  scan_level (S n + k) st = scan_level (S n) st.
Proof.
  induction n as [| n IH]; intros k st Hlen.
  - cbn [scan_level Nat.add].
    destruct (s_mem st) as [| c mem] eqn:Hmem; [| cbn in Hlen; lia].
    cbn. by rewrite orb_true_r.
  - cbn [scan_level Nat.add].
    destruct (readRLEbyte (s_mem st) (-1)) as [[[rle b] mem'] |] eqn:Hr; [| done].
    apply readRLEbyte_length in Hr as [_ Hr]. cbn [s_eof].
    destruct (s_eof st); cbn [orb]; [done |].
    destruct (Z.ltb_spec rle 0); [done |].
    destruct (scan_run (Z.to_nat rle) _) as [| err1 st1 | st1] eqn:Hrun; try done.
    apply scan_run_length in Hrun. cbn in Hrun.
    destruct (_ || _); [done |].
    apply (IH k st1). specialize (Hr ltac:(lia)). lia.
Qed.

Lemma scan_level_length fuel : forall st0 st,
  scan_level fuel st0 = ScanOk st ->
  (length (s_mem st) <= length (s_mem st0))%nat
  /\ (s_eof st = false -> (length (s_mem st) < length (s_mem st0))%nat).
Proof.
  induction fuel as [| fuel IH]; intros st0 st H; [discriminate |].
  cbn [scan_level] in H.
  destruct (readRLEbyte (s_mem st0) (-1)) as [[[rle b] mem'] |] eqn:Hr; [| discriminate].
  apply readRLEbyte_length in Hr as [Hle Hlt]. cbn [s_eof] in H.
  destruct (s_eof st0 || (rle <? 0)) eqn:Heof.
  { injection H as <-. cbn [s_eof s_mem]. split; [done | discriminate]. }
  apply orb_false_iff in Heof as [_ Hrle]. apply Z.ltb_ge in Hrle.
  specialize (Hlt Hrle).
  destruct (scan_run (Z.to_nat rle) _) as [| err1 st1 | st1] eqn:Hrun; try discriminate.
  apply scan_run_length in Hrun. cbn in Hrun.
  destruct (_ || _).
  - injection H as <-. split; lia.
  - apply IH in H as [H1 H2]. split; lia.
Qed.

(** *** The field keeps its 64 x 64 cells while a level is read *)

Lemma mark_cell_wf flag st st1 :
  mark_cell flag st = Some st1 ->
  field_wf (field (s_game st)) -> field_wf (field (s_game st1)).
Proof.
  unfold mark_cell, field_modify.
  destruct (field_get _ _ _); [| done]. intros [= <-] Hwf. cbn.
  by apply field_put_wf.
Qed.

Lemma scan_symbol_wf st st1 :
  scan_symbol st = Some st1 ->
  field_wf (field (s_game st)) -> field_wf (field (s_game st1)).
Proof.
  unfold scan_symbol. intros H Hwf.
  destruct (skip_comment (s_mem st)) as [b mem'].
  assert (field_wf (field (s_game (put_player st)))) as Hwf' by exact Hwf.
  repeat match type of H with
         | (if ?c then _ else _) = _ => destruct c
         | _ <$> mark_cell ?flag ?s = _ =>
             let E := fresh "E" in
             destruct (mark_cell flag s) eqn:E; cbn in H; [| discriminate H]
         | match mark_cell ?flag ?s with _ => _ end = _ =>
             let E := fresh "E" in
             destruct (mark_cell flag s) eqn:E; [| discriminate H]
         end;
    injection H as <-; cbn [s_game next_column put_player set_position field];
    eauto using mark_cell_wf.
Qed.

Lemma scan_run_wf n : forall st st1,
  scan_run n st = ScanOk st1 ->
  field_wf (field (s_game st)) -> field_wf (field (s_game st1)).
Proof.
  induction n as [| n IH]; intros st st1 H Hwf; [by injection H as <- |].
  cbn [scan_run] in H.
  destruct (scan_symbol st) as [st0 |] eqn:Hs; [| discriminate].
  apply scan_symbol_wf in Hs; [| done].
  destruct (_ || _); [injection H as <-; done |].
  destruct (62 <=? _); [discriminate |]. destruct (62 <=? _); [discriminate |].
  apply IH in H; done.
Qed.

Lemma scan_level_wf fuel : forall st st1,
  scan_level fuel st = ScanOk st1 ->
  field_wf (field (s_game st)) -> field_wf (field (s_game st1)).
Proof.
  induction fuel as [| fuel IH]; intros st st1 H Hwf; [discriminate |].
  cbn [scan_level] in H.
  destruct (readRLEbyte (s_mem st) (-1)) as [[[rle b] mem'] |]; [| discriminate].
  cbn [s_eof] in H. destruct (s_eof st || (rle <? 0)); [by injection H as <- |].
  destruct (scan_run (Z.to_nat rle) _) as [| err1 st0 | st0] eqn:Hrun; try discriminate.
  apply scan_run_wf in Hrun; [| done].
  destruct (_ || _); [by injection H as <- |]. by eapply IH.
Qed.

Lemma field_wf_replicate v : field_wf (replicate 64 (replicate 64 v)).
Proof.
  split; [by rewrite length_replicate |].
  apply Forall_replicate. by rewrite length_replicate.
Qed.

(** The first part of the loader uses neither all the fuel of the reader
    nor all the fuel of the flood fill: more of either changes nothing. *)
Theorem load_prepare_enough (game : sokgame) (mem : list Z) (k1 k2 : nat) :
  load_prepare_fuel (S (length mem) + k1) (flood_fuel + k2) game mem
  = load_prepare game mem.
Proof.
  unfold load_prepare, load_prepare_fuel.
  rewrite scan_level_fuel by done.
  destruct (scan_level _ _) as [| err st | st] eqn:Hscan; [reflexivity | reflexivity |].
  apply scan_level_wf in Hscan; [| apply field_wf_replicate].
  apply count_floor_wf in Hscan.
  rewrite (flood_fuel_more flood_fuel k2 _ 63 63 Hscan). reflexivity.
Qed.

Section GamesFuel.
Variable crc32_init : Z.
Variable crc32_feed : Z -> Z -> Z.
Variable crc32_finish : Z -> Z.
Variable crc64_fn : Z -> list Z -> Z.
Variable alloc_ok : Z -> bool.
Variable game_alloc : Z -> option sokgame.
Variable solfile : Z -> option (list Z).

Lemma load_prepare_consumes game mem st filled :
  load_prepare game mem = PrepOk st filled ->
  s_eof st = false -> (length (s_mem st) < length mem)%nat.
Proof.
  unfold load_prepare, load_prepare_fuel. intros H.
  destruct (scan_level _ _) as [| err st1 | st1] eqn:Hscan; try discriminate.
  apply scan_level_length in Hscan as [_ Hlt]. cbn [s_mem] in Hlt.
  repeat (case_hyp H; try discriminate H). by injection H as <- _.
Qed.

Lemma loadlevelfromfile_consumes game mem g rest :
  loadlevelfromfile crc32_init crc32_feed crc32_finish crc64_fn game mem
  = Some (0, g, rest) ->
  (length rest < length mem)%nat.
Proof.
  unfold loadlevelfromfile. intros H.
  destruct (load_prepare game mem) as [| err st | st filled] eqn:Hp; [discriminate | |].
  - assert (err = 0) as -> by congruence.
    apply load_prepare_err in Hp as [? _]. lia.
  - repeat (case_hyp H; try discriminate H).
    assert (s_mem st = rest) as <- by congruence.
    by eapply load_prepare_consumes.
Qed.

(** The loop over the levels does not use all its fuel either. *)
Theorem load_games_enough n : forall k maxlevels level mem gamelist heap,
  (length mem <= n)%nat ->
  load_games crc32_init crc32_feed crc32_finish crc64_fn alloc_ok game_alloc solfile
             (S n + k) maxlevels level mem gamelist heap
  = load_games crc32_init crc32_feed crc32_finish crc64_fn alloc_ok game_alloc solfile
               (S n) maxlevels level mem gamelist heap.
Proof.
  induction n as [| n IH]; intros k M level mem gl heap Hlen;
    cbn [load_games Nat.add];
    (destruct (game_alloc level) as [fresh |]; [| done]);
    (destruct (loadlevelfromfile _ _ _ _ fresh mem) as [[[errflag g] mem'] |] eqn:Hload;
     [| done]);
    (destruct (errflag <? 0); [done |]);
    (destruct (M <=? level); [done |]);
    (destruct (_ <? _)%nat; [| done]);
    (destruct (Z.eqb_spec errflag 0) as [-> | _]; [| done]);
    apply loadlevelfromfile_consumes in Hload.
  - lia.
  - apply (IH k). lia.
Qed.

End GamesFuel.

(** ** Sets with too many levels *)

Lemma sok_freefile_all gamelist : forall n x heap,
  (forall i, (x <= i < x + n)%nat ->
             gamelist !! i = Some (Some i) /\ exists g, heap !! i = Some (Some g)) ->
  exists heap',
    sok_freefile gamelist x n heap = Some heap'
    /\ length heap' = length heap
    /\ (forall i, (x <= i < x + n)%nat -> heap' !! i = Some None)
    /\ (forall j, ~ (x <= j < x + n)%nat -> heap' !! j = heap !! j).
Proof.
  induction n as [| n IH]; intros x heap Hslots.
  - exists heap. repeat split; try done; lia.
  - cbn [sok_freefile sok_freegame].
    destruct (Hslots x) as [-> [g Hg]]; [lia |]. rewrite Hg.
    destruct (IH (S x) (<[x := None]> heap)) as (heap' & -> & Hlen & Hfreed & Hrest).
    { intros i Hi. destruct (Hslots i) as [Hgl [g' Hg']]; [lia |].
      split; [done |]. exists g'. rewrite list_lookup_insert_ne by lia. done. }
    exists heap'. split; [done |]. split; [by rewrite Hlen, length_insert |]. split.
    + intros i Hi. destruct (decide (i = x)) as [-> | ?].
      * rewrite Hrest by lia. apply list_lookup_insert_eq. by eapply lookup_lt_Some.
      * apply Hfreed. lia.
    + intros j Hj. rewrite Hrest by lia. apply list_lookup_insert_ne. lia.
Qed.

Section TooMany.
Variable crc32_init : Z.
Variable crc32_feed : Z -> Z -> Z.
Variable crc32_finish : Z -> Z.
Variable crc64_fn : Z -> list Z -> Z.
Variable alloc_ok : Z -> bool.
Variable game_alloc : Z -> option sokgame.
Variable solfile : Z -> option (list Z).
Variable ungz : list Z -> option (list Z).

#[local] Abbreviation games_loop :=
  (load_games crc32_init crc32_feed crc32_finish crc64_fn alloc_ok game_alloc solfile).
#[local] Abbreviation load_level :=
  (loadlevelfromfile crc32_init crc32_feed crc32_finish crc64_fn).

Lemma loadlevelfromfile_ret game mem ret g rest :
  load_level game mem = Some (ret, g, rest) ->
  parse_error ret \/ ret = 0 \/ ret = 1.
Proof.
  unfold loadlevelfromfile. intros H.
  destruct (load_prepare game mem) as [| err st | st filled] eqn:Hp; [discriminate | |].
  - injection H as <- _ _. left. by eapply load_prepare_err.
  - repeat (case_hyp H; try discriminate H); injection H as <- _ _; auto.
Qed.

Lemma load_games_never_too_many fuel : forall maxlevels level mem gamelist heap e,
  65535 < maxlevels -> 0 <= level <= 65535 ->
  games_loop fuel maxlevels level mem gamelist heap = Some e ->
  e_errflag e <> ERR_TOO_MANY_LEVELS_IN_SET.
Proof.
  induction fuel as [| fuel IH]; intros M level mem gl heap e HM Hlevel H;
    [discriminate |].
  cbn [load_games] in H.
  destruct (game_alloc level) as [fresh |]; [| by injection H as <-].
  destruct (load_level fresh mem) as [[[errflag g] mem'] |] eqn:Hload;
    [| discriminate].
  apply loadlevelfromfile_ret in Hload.
  destruct (Z.ltb_spec errflag 0).
  { injection H as <-. cbn. destruct (level =? 0); [| done].
    destruct Hload as [(_ & ? & _) | ?]; [done | lia]. }
  destruct (Z.leb_spec M level); [lia |].
  destruct (_ <? _)%nat; [| discriminate].
  destruct (errflag =? 0) eqn:He.
  - eapply IH; [done | | exact H]. unfold ushort.
    pose proof (Z.mod_pos_bound (level + 1) 65536). lia.
  - injection H as <-. cbn. destruct Hload as [(? & _) | [-> | ->]]; [lia | done | done].
Qed.

Lemma load_games_too_many fuel : forall maxlevels level mem gamelist heap e,
  maxlevels <= 65535 -> stored level gamelist heap -> level <= Z.max 0 maxlevels ->
  games_loop fuel maxlevels level mem gamelist heap = Some e ->
  e_errflag e = ERR_TOO_MANY_LEVELS_IN_SET ->
  exists g heap0,
    stored (e_level e) (e_gamelist e) heap0
    /\ e_heap e = heap0 ++ [Some g]
    /\ e_game e = Some (length heap0)
    /\ Z.to_nat (e_level e) = Z.to_nat maxlevels.
Proof.
  induction fuel as [| fuel IH]; intros M level mem gl heap e HM Hst Hle H Herr;
    [discriminate |].
  cbn [load_games] in H.
  destruct (game_alloc level) as [fresh |]; [| by injection H as <-].
  destruct (load_level fresh mem) as [[[errflag g] mem'] |] eqn:Hload;
    [| discriminate].
  apply loadlevelfromfile_ret in Hload.
  destruct (Z.ltb_spec errflag 0).
  { injection H as <-. cbn in Herr. destruct (level =? 0); [| done].
    destruct Hload as [(_ & ? & _) | ?]; [done | lia]. }
  destruct (Z.leb_spec M level).
  { injection H as <-. cbn. exists g, heap. pose proof Hst as (? & _).
    split; [exact Hst |]. repeat split. lia. }
  destruct (Nat.ltb_spec (Z.to_nat level) (length gl)); [| discriminate].
  destruct Hst as (Hl0 & Hlen & Hgl & Hlive).
  destruct (errflag =? 0) eqn:He.
  - eapply IH; [done | | | exact H | done].
    + unfold ushort. rewrite Z.mod_small by lia.
      split; [lia |]. split; [rewrite length_app; cbn; lia |]. split.
      * intros i Hi. destruct (decide (i = Z.to_nat level)) as [-> | ?].
        -- rewrite Hlen. by apply list_lookup_insert_eq.
        -- rewrite list_lookup_insert_ne by done. apply Hgl. lia.
      * apply Forall_app. split; [done |]. by constructor.
    + unfold ushort. rewrite Z.mod_small by lia. lia.
  - injection H as <-. cbn in Herr.
    destruct Hload as [(? & _) | [-> | ->]]; [lia | done | done].
Qed.

Lemma load_games_level fuel : forall maxlevels level mem gamelist heap e,
  0 <= level <= 65535 ->
  games_loop fuel maxlevels level mem gamelist heap = Some e ->
  0 <= e_level e <= 65535.
Proof.
  induction fuel as [| fuel IH]; intros M level mem gl heap e Hl H; [discriminate |].
  cbn [load_games] in H.
  assert (0 <= ushort (level + 1) <= 65535) as Hu
    by (unfold ushort; pose proof (Z.mod_pos_bound (level + 1) 65536); lia).
  repeat (case_hyp H; try discriminate H);
    try (injection H as <-; by cbn); by eapply IH.
Qed.

(** What is left to free after the exit for too many levels is freed, and
    nothing else is left. *)
Lemma too_many_exit_frees e g heap0 :
  stored (e_level e) (e_gamelist e) heap0 ->
  e_heap e = heap0 ++ [Some g] ->
  e_game e = Some (length heap0) ->
  exists heap1 heap2,
    sok_freegame (e_game e) (e_heap e) = Some heap1
    /\ sok_freefile (e_gamelist e) 0 (Z.to_nat (e_level e)) heap1 = Some heap2
    /\ Forall (fun cell => cell = None) heap2
    /\ length heap2 = S (Z.to_nat (e_level e)).
Proof.
  intros (Hl0 & Hlen & Hgl & Hlive) Hheap Hgame.
  rewrite Hgame, Hheap. cbn [sok_freegame].
  rewrite lookup_app_r, Nat.sub_diag by lia. cbn [lookup list_lookup].
  rewrite insert_app_r_alt, Nat.sub_diag by lia. cbn [insert list_insert].
  destruct (sok_freefile_all (e_gamelist e) (Z.to_nat (e_level e)) 0 (heap0 ++ [None]))
    as (heap' & Hff' & Hlen' & Hfreed & Hrest).
  { intros i Hi. split; [apply Hgl; lia |].
    rewrite lookup_app_l by lia.
    destruct (lookup_lt_is_Some_2 heap0 i) as [cell Hcell]; [lia |].
    rewrite Forall_forall in Hlive. pose proof (Hlive cell) as Hc.
    destruct cell as [g' |]; [by exists g' |].
    exfalso. apply Hc; [by eapply list_elem_of_lookup_2 | done]. }
  exists (heap0 ++ [None]), heap'. split; [done |]. split; [done |]. split.
  - apply Forall_lookup. intros i cell Hi.
    destruct (Nat.lt_ge_cases i (Z.to_nat (e_level e))) as [Hlt | Hge].
    + rewrite Hfreed in Hi by lia. by injection Hi as <-.
    + rewrite Hrest in Hi by lia.
      apply lookup_lt_Some in Hi as Hbound. rewrite length_app in Hbound. cbn in Hbound.
      rewrite lookup_app_r in Hi by lia.
      replace (i - length heap0)%nat with 0%nat in Hi by lia. by injection Hi as <-.
  - rewrite Hlen', length_app. cbn. lia.
Qed.

(** A run that stores more than [m] levels meets, with room for [m] only,
    the exit for too many levels. *)
Lemma load_games_capacity fuel : forall M m level mem glM glm heap eM,
  M <= 65535 -> 0 <= level <= Z.max 0 m ->
  games_loop fuel M level mem glM heap = Some eM ->
  0 <= e_errflag eM -> m < e_level eM ->
  length glm = Z.to_nat m ->
  exists e, games_loop fuel m level mem glm heap = Some e
            /\ e_errflag e = ERR_TOO_MANY_LEVELS_IN_SET.
Proof.
  induction fuel as [| fuel IH];
    intros M m level mem glM glm heap eM HM Hlevel H Hok Hmore Hlen; [discriminate |].
  cbn [load_games] in H |- *.
  destruct (game_alloc level) as [fresh |]; [| injection H as <-; cbn in Hok; done].
  destruct (load_level fresh mem) as [[[errflag g] mem'] |] eqn:Hload; [| discriminate].
  apply loadlevelfromfile_ret in Hload.
  destruct (Z.ltb_spec errflag 0).
  { injection H as <-. cbn in Hok, Hmore.
    destruct (Z.eqb_spec level 0); lia. }
  destruct (Z.leb_spec M level); [injection H as <-; cbn in Hok; done |].
  destruct (Z.leb_spec m level); [by eexists |].
  destruct (Nat.ltb_spec (Z.to_nat level) (length glM)); [| discriminate].
  destruct (Nat.ltb_spec (Z.to_nat level) (length glm)); [| lia].
  assert (ushort (level + 1) = level + 1) as Hu
    by (unfold ushort; apply Z.mod_small; lia).
  rewrite Hu in H |- *.
  destruct (errflag =? 0).
  - eapply IH; [exact HM | lia | exact H | done | done |].
    by rewrite length_insert.
  - injection H as <-. cbn in Hmore. lia.
Qed.

(** C7 (amended). When [sok_loadfile] reports [ERR_TOO_MANY_LEVELS_IN_SET],
    it has read [maxlevels] levels and one more, and it has freed every one
    of these structures: no level is left for the caller.  It does report
    this error whenever the same buffer, loaded with room for more levels
    (at most 65535), gives more than [maxlevels] levels. *)
Theorem too_many_levels_frees_all (maxlevels : Z) (memptr : option (list Z)) :
  (forall res,
      sok_loadfile crc32_init crc32_feed crc32_finish crc64_fn alloc_ok game_alloc
                   solfile ungz maxlevels memptr = Some res ->
      l_ret res = ERR_TOO_MANY_LEVELS_IN_SET ->
      Forall (fun cell => cell = None) (l_heap res)
      /\ length (l_heap res) = S (Z.to_nat maxlevels))
  /\ (forall capacity res,
         capacity <= 65535 ->
         sok_loadfile crc32_init crc32_feed crc32_finish crc64_fn alloc_ok game_alloc
                      solfile ungz capacity memptr = Some res ->
         0 <= l_ret res -> maxlevels < l_ret res ->
         exists res',
           sok_loadfile crc32_init crc32_feed crc32_finish crc64_fn alloc_ok
                        game_alloc solfile ungz maxlevels memptr = Some res'
           /\ l_ret res' = ERR_TOO_MANY_LEVELS_IN_SET).
Proof.
  assert (forall m, stored 0 (replicate (Z.to_nat m) None) []) as Hst0.
  { intros m. split; [lia |]. split; [done |].
    split; [intros i Hi; cbn in Hi; lia | constructor]. }
  split.
  - unfold sok_loadfile. intros res H Hret.
    destruct memptr as [mem |]; [| by injection H as <-].
    destruct (_ =? 0); [by injection H as <- |].
    destruct (if isGz mem _ then _ else _) as [mem1 |]; [| by injection H as <-].
    destruct (load_games _ _ _ _ _ _) as [e |] eqn:Hloop; [| discriminate].
    destruct (Z.le_gt_cases maxlevels 65535) as [HM | HM].
    + destruct (Z.ltb_spec (e_errflag e) 0) as [Hneg | Hpos].
      2: { destruct (sok_freegame _ _); [| discriminate]. injection H as <-.
           cbn in Hret. apply load_games_level in Hloop; [| lia].
           rewrite Hret in Hloop. cbv in Hloop. tauto. }
      assert (e_errflag e = ERR_TOO_MANY_LEVELS_IN_SET) as Herr.
      { destruct (sok_freegame _ _); [| discriminate].
        destruct (sok_freefile _ _ _ _); [| discriminate]. by injection H as <-. }
      assert (0 <= Z.max 0 maxlevels) as Hmax by lia.
      destruct (load_games_too_many _ _ _ _ _ _ _ HM (Hst0 maxlevels) Hmax Hloop Herr)
        as (g & heap0 & Hst & Hheap & Hgame & Hlevel).
      destruct (too_many_exit_frees e g heap0 Hst Hheap Hgame)
        as (heap1 & heap2 & Hf1 & Hf2 & Hnone & Hlen).
      rewrite Hf1, Hf2 in H. injection H as <-. cbn. split; [done | lia].
    + exfalso.
      assert (e_errflag e = ERR_TOO_MANY_LEVELS_IN_SET) as Herr.
      { destruct (sok_freegame _ _); [| discriminate].
        destruct (Z.ltb_spec (e_errflag e) 0).
        - destruct (sok_freefile _ _ _ _); [| discriminate]. by injection H as <-.
        - injection H as <-. cbn in Hret. apply load_games_level in Hloop; [| lia].
          rewrite Hret in Hloop. cbv in Hloop. tauto. }
      eapply load_games_never_too_many; [| | exact Hloop | exact Herr]; lia.
  - unfold sok_loadfile. intros M resM HM H Hok Hmore.
    destruct memptr as [mem |]; [| injection H as <-; cbn in Hok; done].
    destruct (_ =? 0); [injection H as <-; cbn in Hok; done |].
    destruct (if isGz mem _ then _ else _) as [mem1 |];
      [| injection H as <-; cbn in Hok; done].
    destruct (load_games _ _ _ _ _ _) as [eM |] eqn:Hloop; [| discriminate].
    destruct (sok_freegame (e_game eM) (e_heap eM)) as [heapM |]; [| discriminate].
    destruct (Z.ltb_spec (e_errflag eM) 0) as [Hneg | Hpos].
    { destruct (sok_freefile _ _ _ _); [| discriminate]. injection H as <-.
      cbn in Hok. lia. }
    injection H as <-. cbn in Hok, Hmore.
    assert (0 <= e_level eM <= 65535) as Hbound
      by (eapply load_games_level; [| exact Hloop]; lia).
    destruct (load_games_capacity _ M maxlevels 0 mem1 _
                (replicate (Z.to_nat maxlevels) None) [] eM HM ltac:(lia) Hloop Hpos Hmore)
      as (e & He & Herr); [by rewrite length_replicate |].
    rewrite He.
    assert (maxlevels <= 65535) as Hm by lia.
    assert (0 <= Z.max 0 maxlevels) as Hmax by lia.
    destruct (load_games_too_many _ _ _ _ _ _ _ Hm (Hst0 maxlevels) Hmax He Herr)
      as (g & heap0 & Hst & Hheap & Hgame & Hlevel).
    destruct (too_many_exit_frees e g heap0 Hst Hheap Hgame)
      as (heap1 & heap2 & Hf1 & Hf2 & Hnone & Hlen).
    rewrite Hf1, Herr, Hf2. cbn. eexists. split; [reflexivity | reflexivity].
Qed.

End TooMany.

(** ** The sample levels *)

Section Samples.
Variable crc32_init : Z.
Variable crc32_feed : Z -> Z -> Z.
Variable crc32_finish : Z -> Z.
Variable crc64_fn : Z -> list Z -> Z.

Lemma load_row0 game :
  loadlevelfromfile crc32_init crc32_feed crc32_finish crc64_fn game
                    (mem_of_string row0_text)
  = Some (1,
          mkgame 3 1 row0_field 0 0 (level game)
                 (crc64_fn (crc64_fn (crc64_fn (crc64_fn 0 [0; 0]) [0]) [3]) [5])
                 (crc32_finish (crc32_feed (crc32_feed (crc32_feed crc32_init 0) 0) 0))
                 None,
          []).
Proof. vm_compute. reflexivity. Qed.

Lemma load_row1 game :
  loadlevelfromfile crc32_init crc32_feed crc32_finish crc64_fn game
                    (mem_of_string row1_text)
  = Some (1,
          mkgame 3 2 row1_field 0 1 (level game)
                 (crc64_fn (crc64_fn (crc64_fn (crc64_fn (crc64_fn (crc64_fn
                    (crc64_fn 0 [0; 1]) [9]) [0]) [0]) [0]) [3]) [5])
                 (crc32_finish (crc32_feed (crc32_feed (crc32_feed
                    (crc32_feed (crc32_feed (crc32_feed crc32_init 9) 0) 0) 3) 0) 0))
                 None,
          []).
Proof. vm_compute. reflexivity. Qed.

Variable alloc_ok : Z -> bool.


(** C3 (amended). Parsing ["@$."] gives a level of width 3 and height 1,
    the player at (0,0), an atom at (1,0) and a goal at (2,0); on fresh
    states the real move to the right is denied, because the player stands
    on row 0: the game and the empty history stay as they were, and only
    the facing angle changes. *)
Theorem single_row_level_move_denied (game : sokgame) :
  exists g,
    loadlevelfromfile crc32_init crc32_feed crc32_finish crc64_fn game
                      (mem_of_string row0_text) = Some (1, g, [])
    /\ field_width g = 3 /\ field_height g = 1
    /\ positionx g = 0 /\ positiony g = 0
    /\ (exists c, field_get (field g) 1 0 = Some c /\ has_flag c field_atom = true)
    /\ (exists c, field_get (field g) 2 0 = Some c /\ has_flag c field_goal = true)
    /\ sok_move alloc_ok g sokmoveRIGHT 0 sok_newstates
       = MoveRet (-1) g (mkstates 90 [] 64) None.
Proof.
  eexists. split; [apply load_row0 |].
  repeat (split; [reflexivity |]).
  split; [exists 3; split; reflexivity |].
  split; [exists 5; split; reflexivity |].
  reflexivity.
Qed.

(** C2, on the game that [row1_push_solves] leaves: the level is solved, the
    cell to the right of the player holds the atom, and yet the real move
    to the right pushes the atom off its goal. *)
Theorem push_on_solved_level :
  (exists saved, sok_checksolution row1_solved (Some (mkstates 90 ["R"%char] 64))
                 = Some (1, saved))
  /\ field_get (field row1_solved) (positionx row1_solved + 1) (positiony row1_solved)
     = Some (Z.lor (Z.lor field_floor field_atom) field_goal)
  /\ sok_move alloc_ok row1_solved sokmoveRIGHT 0 (mkstates 90 ["R"%char] 64)
     = MoveRet sokmove_pushed
               (mkgame 3 2 (field_of [(0, 0, 9); (1, 1, 1); (2, 1, 5); (3, 1, 2)])
                       2 1 1 0 0 None)
               (mkstates 90 ["R"%char; "R"%char] 64) None.
Proof.
  split; [eexists; vm_compute; reflexivity |].
  split; vm_compute; reflexivity.
Qed.

End Samples.

(** C3 as stated fails: the move to the right on the level of ["@$."] is
    not an accepted push. *)
Lemma single_row_level_not_solved :
  ~ exists ret g rest r g' st' sv,
      loadlevelfromfile 0 (fun _ _ => 0) (fun c => c) (fun _ _ => 0)
                        open_game (mem_of_string row0_text) = Some (ret, g, rest)
      /\ sok_move (fun _ => true) g sokmoveRIGHT 0 sok_newstates = MoveRet r g' st' sv
      /\ 0 <= r
      /\ Z.land r sokmove_pushed <> 0
      /\ Z.land r sokmove_solved <> 0
      /\ history st' = ["R"%char].
Proof.
  intros (ret & g & rest & r & g' & st' & sv & Hload & Hmove & Hr & _).
  rewrite load_row0 in Hload. injection Hload as <- <- <-.
  vm_compute in Hmove. injection Hmove as <- _ _ _. lia.
Qed.


(** ** Instances on the sample levels *)


(** C6 as stated fails: on the level of [row1_text] the checksum of the
    field before the shift is not the one that the level gets. *)
Lemma legacy_hash_not_before_shift :
  exists g,
    loadlevelfromfile 0 feed_bytes (fun crc => crc) no_crc64 open_game
                      (mem_of_string row1_text) = Some (1, g, [])
    /\ legacy_hash_before_shift 0 feed_bytes (fun crc => crc) open_game
                                (mem_of_string row1_text)
       = Some (feed_bytes (feed_bytes (feed_bytes (feed_bytes (feed_bytes
                 (feed_bytes 0 0) 0) 0) 9) 0) 0)
    /\ crc32_106 g
       = feed_bytes (feed_bytes (feed_bytes (feed_bytes (feed_bytes
            (feed_bytes 0 9) 0) 0) 3) 0) 0
    /\ legacy_hash_before_shift 0 feed_bytes (fun crc => crc) open_game
                                (mem_of_string row1_text)
       <> Some (crc32_106 g).
Proof.
  eexists. split; [apply load_row1 |].
  assert (legacy_hash_before_shift 0 feed_bytes (fun crc => crc) open_game
                                   (mem_of_string row1_text) = Some 589824) as ->
    by (vm_compute; reflexivity).
  split; [reflexivity |]. split; [reflexivity |]. discriminate.
Qed.

Lemma legacy_hash_after_shift_witness :
  crc32_106 (mkgame 3 2 row1_field 0 1 1 0 9895604846592 None)
  = feed_bytes (feed_bytes (feed_bytes (feed_bytes (feed_bytes
       (feed_bytes 0 9) 0) 0) 3) 0) 0.
Proof.
  apply (proj1 (proj2 (legacy_hash_after_shift 0 feed_bytes (fun crc => crc) no_crc64
                  open_game (mem_of_string row1_text) 1
                  (mkgame 3 2 row1_field 0 1 1 0 9895604846592 None) []
                  ltac:(vm_compute; reflexivity) ltac:(lia)))).
Defined.

(** C7 as stated fails: with room for one level and two in the text, the
    level that was read first is freed when the error is reported. *)
Lemma too_many_levels_not_kept :
  exists res,
    sok_loadfile 0 feed_bytes (fun crc => crc) no_crc64 (fun _ => true)
                 (fun _ => Some open_game) (fun _ => None) (fun _ => None)
                 1 (Some (mem_of_string two_levels_text)) = Some res
    /\ l_ret res = ERR_TOO_MANY_LEVELS_IN_SET
    /\ l_gamelist res !! 0%nat = Some (Some 0%nat)
    /\ l_heap res !! 0%nat = Some None.
Proof. eexists. split; [vm_compute; reflexivity |]. repeat split. Qed.

Lemma too_many_levels_frees_all_witness :
  (Forall (fun cell : option sokgame => cell = None) [None; None]
   /\ length [None; None : option sokgame] = S (Z.to_nat 1))
  /\ exists res',
       sok_loadfile 0 feed_bytes (fun crc => crc) no_crc64 (fun _ => true)
                    (fun _ => Some open_game) (fun _ => None) (fun _ => None)
                    1 (Some (mem_of_string two_levels_text)) = Some res'
       /\ l_ret res' = ERR_TOO_MANY_LEVELS_IN_SET.
Proof.
  split.
  - apply (proj1 (too_many_levels_frees_all 0 feed_bytes (fun crc => crc) no_crc64
                    (fun _ => true) (fun _ => Some open_game) (fun _ => None)
                    (fun _ => None) 1 (Some (mem_of_string two_levels_text)))
                 (mkloaded ERR_TOO_MANY_LEVELS_IN_SET [Some 0%nat] [None; None])).
    + vm_compute. reflexivity.
    + reflexivity.
  - apply (proj2 (too_many_levels_frees_all 0 feed_bytes (fun crc => crc) no_crc64
                    (fun _ => true) (fun _ => Some open_game) (fun _ => None)
                    (fun _ => None) 1 (Some (mem_of_string two_levels_text)))
                 2
                 (mkloaded 2 [Some 0%nat; Some 1%nat]
                           [Some (mkgame 3 1 row0_field 0 0 1 0 0 None);
                            Some (mkgame 3 1 row0_field 0 0 2 0 0 None)])).
    + lia.
    + vm_compute. reflexivity.
    + cbn. lia.
    + cbn. lia.
Defined.

Lemma checksolution_solved_iff_witness :
  is_Some (sok_checksolution row1_solved (Some (mkstates 90 ["R"%char] 64)))
  /\ (1 <> 0 <->
      goals_filled row1_solved
      /\ Exists (fun c => is_upper c = true) (history (mkstates 90 ["R"%char] 64))).
Proof.
  split.
  - apply (proj1 (checksolution_solved_iff row1_solved (mkstates 90 ["R"%char] 64))).
    split; [split; [reflexivity | repeat constructor] | cbn; lia].
  - apply (proj2 (checksolution_solved_iff row1_solved (mkstates 90 ["R"%char] 64))
                 1 (Some (0, ["R"%char]))).
    vm_compute. reflexivity.
Defined.

Lemma undo_restores_witness :
  (exists g1 st1 st1',
      play (fun _ => true) row1_game sok_newstates [] = Some (g1, st1)
      /\ undo_times (length [sokmoveRIGHT; sokmoveLEFT])
                    (set_position row1_solved 0 1)
                    (mkstates 270 ["R"%char; "l"%char] 64) = Some (g1, st1')
      /\ history st1' = history st1)
  /\ ((history sok_newstates = [] /\ row1_game = row1_game
       /\ sok_newstates = sok_newstates)
      \/ exists c, history sok_newstates = history sok_newstates ++ [c])
  /\ sok_undo row1_game sok_newstates = Some (row1_game, sok_newstates).
Proof.
  split; [| split].
  - apply (proj1 (undo_restores (fun _ => true) row1_game sok_newstates)
                 [] [sokmoveRIGHT; sokmoveLEFT]).
    vm_compute. reflexivity.
  - apply (proj1 (proj2 (undo_restores (fun _ => true) row1_game sok_newstates))).
    vm_compute. reflexivity.
  - apply (proj2 (proj2 (undo_restores (fun _ => true) row1_game sok_newstates))).
    reflexivity.
Defined.


Lemma move_none_is_up_witness :
  positionx (set_position open_game 5 4) = positionx open_game
  /\ positiony (set_position open_game 5 4) = positiony open_game - 1
  /\ (history (mkstates 0 ["u"%char] 64) = history sok_newstates ++ ["u"%char]
      \/ history (mkstates 0 ["u"%char] 64) = history sok_newstates ++ ["U"%char]).
Proof.
  apply (proj2 (proj2 (move_none_is_up (fun _ => true) open_game sok_newstates))
               0 (set_position open_game 5 4) (mkstates 0 ["u"%char] 64) None).
  - vm_compute. reflexivity.
  - lia.
Defined.

(** ** More on moves *)

Section MoveMore.
Variable alloc_ok : Z -> bool.

Lemma sok_move_commit_res g st v a0 res vx vy ch r g' st' sv :
  sok_move_commit g st v a0 res vx vy ch = MoveRet r g' st' sv ->
  r = res \/ r = Z.lor res sokmove_solved.
Proof.
  unfold sok_move_commit. intros H.
  repeat (case_hyp H; try discriminate H); injection H as <- <- <- <-; auto.
Qed.

Lemma sok_move_denied_frame g dir v st r g' st' sv :
  sok_move alloc_ok g dir v st = MoveRet r g' st' sv -> r < 0 ->
  r = -1 /\ g' = g /\ history st' = history st /\ sv = None.
Proof.
  intros H Hr. unfold sok_move in H.
  destruct (_ && negb _) in H; [discriminate |].
  destruct (sok_checksolution g None) as [[a0 sv0] |] eqn:Hcs; [| discriminate].
  destruct (move_vector dir) as [[[vx vy] a] ch]. cbv zeta in H.
  assert (forall g1 st1 res ch1, res = 0 \/ res = 1 \/ res = 3 ->
            sok_move_commit g1 st1 v a0 res vx vy ch1 = MoveRet r g' st' sv -> False)
    as Hcommit.
  { intros g1 st1 res ch1 Hres Hc. apply sok_move_commit_res in Hc.
    destruct Hres as [-> | [-> | ->]], Hc as [-> | ->]; vm_compute in Hr; discriminate Hr. }
  repeat (case_hyp H; try discriminate H);
    try (injection H as <- <- <- <-; done);
    exfalso; eapply Hcommit; try exact H; cbn; auto.
Qed.

Lemma sok_move_commit_real g st res vx vy ch r g' st' sv :
  sok_move_commit g st 0 0 res vx vy ch = MoveRet r g' st' sv ->
  g' = set_position g (positionx g + vx) (positiony g + vy)
  /\ st' = mkstates (angle st) (history st ++ [ch]) (historyallocsize st)
  /\ Z.of_nat (length (history st)) + 1 < historyallocsize st
  /\ exists solved,
       sok_checksolution g' (Some st') = Some (solved, sv)
       /\ r = if solved =? 0 then res else Z.lor res sokmove_solved.
Proof.
  unfold sok_move_commit. intros H. cbn [Z.eqb andb sok_history_getlen] in H.
  destruct (Z.ltb_spec (Z.of_nat (length (history st)) + 1) (historyallocsize st));
    [| discriminate]. cbn [negb] in H.
  destruct (sok_checksolution _ _) as [[solved sv0] |] eqn:Hs; [| discriminate].
  injection H as <- <- <- <-. eauto 10.
Qed.

(** Everything that an accepted real move does. *)
Lemma sok_move_real g dir st r g' st' sv :
  sok_move alloc_ok g dir 0 st = MoveRet r g' st' sv -> 0 <= r ->
  let '(vx, vy, a, ch) := move_vector dir in
  let x := positionx g in
  let y := positiony g in
  exists c1 res ch' f' solved A',
    1 <= y
    /\ field_get (field g) (x + vx) (y + vy) = Some c1
    /\ has_flag c1 field_wall = false
    /\ g' = set_position (set_field g f') (x + vx) (y + vy)
    /\ st' = mkstates a (history st ++ [ch']) A'
    /\ (A' = historyallocsize st \/ A' = (historyallocsize st * 2) mod 2 ^ 64)
    /\ Z.of_nat (length (history st)) + 1 < A'
    /\ sok_checksolution g' (Some st') = Some (solved, sv)
    /\ r = (if solved =? 0 then res else Z.lor res sokmove_solved)
    /\ ((has_flag c1 field_atom = false /\ f' = field g /\ ch' = ch /\ res = 0)
        \/ (has_flag c1 field_atom = true
            /\ 1 <= x + vx <= 62 /\ 1 <= y + vy <= 62
            /\ exists c2,
                 field_get (field g) (x + vx * 2) (y + vy * 2) = Some c2
                 /\ has_flag c2 (Z.lor field_wall field_atom) = false
                 /\ f' = field_put (field_put (field g) (x + vx) (y + vy)
                                              (clear_flag field_atom c1))
                                   (x + vx * 2) (y + vy * 2) (set_flag field_atom c2)
                 /\ ch' = chr (code ch - 32)
                 /\ res = Z.lor sokmove_pushed
                            (if has_flag c2 field_goal then sokmove_ongoal else 0))).
Proof.
  intros H Hr. unfold sok_move in H. cbn [sok_history_getlen] in H.
  set (A' := if historyallocsize st <=? _ then _ else _) in H.
  assert (A' = historyallocsize st \/ A' = (historyallocsize st * 2) mod 2 ^ 64) as HA.
  { subst A'. destruct (_ <=? _); auto. }
  destruct (_ && negb _) in H; [discriminate |].
  destruct (sok_checksolution g None) as [[a0 sv0] |] eqn:Hcs; [| discriminate].
  apply checksolution_null in Hcs as [-> ->].
  assert (forall vx vy : Z, (vx, vy) <> (0, 0) ->
            (positionx g + vx, positiony g + vy)
            <> (positionx g + vx * 2, positiony g + vy * 2)) as Hne.
  { intros vx vy Hv [= Hx Hy]. apply Hv. f_equal; lia. }
  destruct (move_vector dir) as [[[vx vy] a] ch] eqn:Hv. cbv zeta in H |- *.
  assert ((vx, vy) <> (0, 0)) as Hvec.
  { destruct dir; injection Hv as <- <- <- <-; discriminate. }
  specialize (Hne vx vy Hvec). clear Hv Hvec.
  destruct (Z.ltb_spec (positiony g) 1) as [| Hy]; [injection H as <- <- <- <-; lia |].
  destruct (field_get (field g) (positionx g + vx) (positiony g + vy))
    as [c1 |] eqn:Hc1; [| discriminate].
  destruct (has_flag c1 field_wall) eqn:Hwall; [injection H as <- <- <- <-; lia |].
  destruct (has_flag c1 field_atom) eqn:Hatom.
  - cbn [Z.eqb negb] in H.
    destruct (_ || _) eqn:Hrange in H; [injection H as <- <- <- <-; lia |].
    destruct (field_get (field g) (positionx g + vx * 2) (positiony g + vy * 2))
      as [c2 |] eqn:Hc2; [| discriminate].
    destruct (has_flag c2 (Z.lor field_wall field_atom)) eqn:Hfree;
      [injection H as <- <- <- <-; lia |].
    destruct (field_modify (clear_flag field_atom) _ _ _) as [f1 |] eqn:Hf1;
      [| discriminate].
    destruct (field_modify (set_flag field_atom) f1 _ _) as [f2 |] eqn:Hf2;
      [| discriminate].
    apply field_modify_Some in Hf1 as (c1' & Hc1' & ->).
    rewrite Hc1 in Hc1'. injection Hc1' as <-.
    apply field_modify_Some in Hf2 as (c2' & Hc2' & ->).
    rewrite field_get_put_ne, Hc2 in Hc2'
      by (try done; by eapply field_get_in).
    injection Hc2' as <-.
    apply sok_move_commit_real in H as (-> & -> & Hfit & solved & Hs & ->).
    cbn [history historyallocsize angle] in *.
    eexists c1, _, _, _, solved, A'.
    do 9 (split; [done || reflexivity || eassumption |]).
    right. split; [done |].
    split; [lia |]. split; [lia |].
    exists c2. repeat split; done.
  - apply sok_move_commit_real in H as (-> & -> & Hfit & solved & Hs & ->).
    cbn [history historyallocsize angle] in *.
    eexists c1, 0, ch, (field g), solved, A'.
    do 9 (split; [done || reflexivity || eassumption |]).
    left. done.
Qed.

End MoveMore.

(** *** Flags as bits *)

Lemma has_flag_pow2 c k : 0 <= k -> has_flag c (2 ^ k) = Z.testbit c k.
Proof.
  intros Hk. unfold has_flag. destruct (Z.testbit c k) eqn:Hb.
  - apply negb_true_iff, Z.eqb_neq. intros H0.
    apply (f_equal (fun z => Z.testbit z k)) in H0.
    rewrite Z.land_spec, Hb, Z.pow2_bits_true, Z.bits_0 in H0 by lia. discriminate.
  - apply negb_false_iff, Z.eqb_eq. apply Z.bits_inj'. intros n Hn.
    rewrite Z.land_spec, Z.bits_0, Z.pow2_bits_eqb by lia.
    destruct (Z.eqb_spec k n) as [<- | ?]; [by rewrite Hb | apply andb_false_r].
Qed.

Lemma has_flag_set c j k :
  0 <= j -> 0 <= k ->
  has_flag (set_flag (2 ^ j) c) (2 ^ k) = (k =? j) || has_flag c (2 ^ k).
Proof.
  intros Hj Hk. rewrite !has_flag_pow2 by done. unfold set_flag.
  rewrite Z.lor_spec, Z.pow2_bits_eqb by done.
  rewrite (Z.eqb_sym j k). apply orb_comm.
Qed.

Lemma has_flag_clear c j k :
  0 <= j -> 0 <= k ->
  has_flag (clear_flag (2 ^ j) c) (2 ^ k) = negb (k =? j) && has_flag c (2 ^ k).
Proof.
  intros Hj Hk. rewrite !has_flag_pow2 by done. unfold clear_flag.
  rewrite Z.land_spec, Z.lnot_spec, Z.pow2_bits_eqb by done.
  rewrite (Z.eqb_sym j k). apply andb_comm.
Qed.

Lemma has_flag_lor c a b :
  has_flag c (Z.lor a b) = has_flag c a || has_flag c b.
Proof.
  unfold has_flag. rewrite Z.land_lor_distr_r.
  destruct (Z.eqb_spec (Z.land c a) 0) as [-> | Ha]; cbn.
  - by rewrite Z.lor_0_l.
  - apply negb_true_iff, Z.eqb_neq. rewrite Z.lor_eq_0_iff. tauto.
Qed.

(** The four flags, each with its bit. *)
Lemma flag_bits :
  field_floor = 2 ^ 0 /\ field_atom = 2 ^ 1 /\ field_goal = 2 ^ 2 /\ field_wall = 2 ^ 3.
Proof. done. Qed.

(** Moving an atom touches no other flag of a cell. *)
Lemma atom_ops_keep c flag :
  flag = field_floor \/ flag = field_goal \/ flag = field_wall ->
  has_flag (set_flag field_atom c) flag = has_flag c flag
  /\ has_flag (clear_flag field_atom c) flag = has_flag c flag.
Proof.
  intros [-> | [-> | ->]].
  all: change field_atom with (2 ^ 1).
  - change field_floor with (2 ^ 0). by rewrite has_flag_set, has_flag_clear.
  - change field_goal with (2 ^ 2). by rewrite has_flag_set, has_flag_clear.
  - change field_wall with (2 ^ 3). by rewrite has_flag_set, has_flag_clear.
Qed.

Lemma atom_ops_atom c :
  has_flag (set_flag field_atom c) field_atom = true
  /\ has_flag (clear_flag field_atom c) field_atom = false.
Proof. change field_atom with (2 ^ 1). by rewrite has_flag_set, has_flag_clear. Qed.

(** *** Counting the cells with a flag *)

Lemma count_flag_column_insert flag column : forall (j : nat) (c v : Z),
  column !! j = Some c ->
  (count_flag_column flag (<[j := v]> column) + (if has_flag c flag then 1 else 0)
   = count_flag_column flag column + (if has_flag v flag then 1 else 0))%nat.
Proof.
  induction column as [| c0 column IH]; intros j c v Hj; [done |].
  destruct j as [| j].
  - injection Hj as ->. change (<[0%nat := v]> (c :: column)) with (v :: column).
    cbn [count_flag_column]. destruct (has_flag v flag), (has_flag c flag); lia.
  - change (<[S j := v]> (c0 :: column)) with (c0 :: <[j := v]> column).
    cbn [count_flag_column]. specialize (IH j c v Hj). lia.
Qed.

Lemma count_flag_alter flag g f : forall (i : nat) (column : list Z),
  f !! i = Some column ->
  (count_flag flag (alter g i f) + count_flag_column flag column
   = count_flag flag f + count_flag_column flag (g column))%nat.
Proof.
  induction f as [| col0 f IH]; intros i column Hi; [done |].
  destruct i as [| i].
  - injection Hi as ->. change (alter g 0%nat (column :: f)) with (g column :: f).
    cbn [count_flag]. lia.
  - change (alter g (S i) (col0 :: f)) with (col0 :: alter g i f).
    cbn [count_flag]. specialize (IH i column Hi). lia.
Qed.

Lemma count_flag_put flag f x y c v :
  field_get f x y = Some c ->
  (count_flag flag (field_put f x y v) + (if has_flag c flag then 1 else 0)
   = count_flag flag f + (if has_flag v flag then 1 else 0))%nat.
Proof.
  unfold field_get, field_put. destruct (in_field x y); [| done].
  destruct (f !! Z.to_nat x) as [column |] eqn:Hcol; [| done]. intros Hc.
  pose proof (count_flag_alter flag (fun column => <[Z.to_nat y := v]> column)
                f _ _ Hcol) as Ha.
  pose proof (count_flag_column_insert flag column _ _ v Hc) as Hi.
  cbv beta in Ha. lia.
Qed.

Lemma count_pushes_app h1 h2 :
  count_pushes (h1 ++ h2) = count_pushes h1 + count_pushes h2.
Proof.
  induction h1 as [| c h1 IH]; cbn [app count_pushes]; [lia |]. rewrite IH. lia.
Qed.

Lemma move_vector_char dir :
  let '(vx, vy, a, ch) := move_vector dir in
  is_upper ch = false /\ is_upper (chr (code ch - 32)) = true
  /\ Save.is_move ch = true /\ Save.is_move (chr (code ch - 32)) = true
  /\ move_vector (play_move ch) = move_vector dir
  /\ move_vector (play_move (chr (code ch - 32))) = move_vector dir.
Proof. by destruct dir. Qed.

Lemma checksolution_defined game states :
  game_wf game -> is_Some (sok_checksolution game states).
Proof.
  intros (Hl & Hw & Hh). unfold sok_checksolution.
  destruct (scan_rows_defined (field game) (field_width game)
              (Z.to_nat (field_height game)) 0 Hl) as [b ->]; [lia | lia | lia |].
  destruct b; [by eexists |]. destruct states; [| by eexists].
  destruct (_ =? 0); by eexists.
Qed.

Section MoveTheorems2.
Variable alloc_ok : Z -> bool.

Lemma sok_move_commit_returns g st v a0 res vx vy ch :
  sok_move_commit g st v a0 res vx vy ch <> MoveNoMem.
Proof.
  unfold sok_move_commit. repeat (case_match; try discriminate).
Qed.

Lemma sok_move_nomem g dir v st :
  sok_move alloc_ok g dir v st = MoveNoMem <->
  historyallocsize st <= sok_history_getlen (Some (history st)) + 3
  /\ alloc_ok ((historyallocsize st * 2) mod 2 ^ 64) = false.
Proof.
  unfold sok_move.
  destruct (Z.leb_spec (historyallocsize st) (sok_history_getlen (Some (history st)) + 3))
    as [Hg | Hg]; cbn [andb].
  - destruct (alloc_ok _) eqn:Ha; cbn [negb]; [| by split].
    split; [| by intros [_ ?]]. intros H. exfalso. revert H.
    destruct (sok_checksolution g None) as [[a0 sv0] |]; [| discriminate].
    destruct (move_vector dir) as [[[vx vy] a] ch]. cbv zeta.
    repeat (case_match; try discriminate); apply sok_move_commit_returns.
  - split; [| intros [? _]; lia]. intros H. exfalso. revert H.
    destruct (sok_checksolution g None) as [[a0 sv0] |]; [| discriminate].
    destruct (move_vector dir) as [[[vx vy] a] ch]. cbv zeta.
    repeat (case_match; try discriminate); apply sok_move_commit_returns.
Qed.

(** [sok_move] returns a negative value in two ways.  It gives up with
    [ERR_MEM_ALLOC_FAILED], the pointer to the history being lost, exactly
    when the buffer has at most three bytes more than the history has
    characters and [realloc] refuses the doubled size.  Every other
    negative value is -1: the move is denied, whether it is a dry run or
    not, the game and the history are as they were and no solution is
    saved; only the facing angle and the size of the buffer can have
    changed. *)
Theorem denied_move_changes_nothing (g : sokgame) (dir : SOKMOVE) (v : Z)
    (st : sokgamestates) :
  (sok_move alloc_ok g dir v st = MoveNoMem <->
   historyallocsize st <= sok_history_getlen (Some (history st)) + 3
   /\ alloc_ok ((historyallocsize st * 2) mod 2 ^ 64) = false)
  /\ forall r g' st' sv,
       sok_move alloc_ok g dir v st = MoveRet r g' st' sv -> r < 0 ->
       r = -1 /\ g' = g /\ history st' = history st /\ sv = None.
Proof.
  split; [apply sok_move_nomem |]. intros r g' st' sv. apply sok_move_denied_frame.
Qed.

(** An accepted real move makes the history one character longer, and the
    number of pushes grows by one exactly when the pushed flag is returned. *)
Theorem move_scores (g : sokgame) (dir : SOKMOVE) (st : sokgamestates) (r : Z)
    (g' : sokgame) (st' : sokgamestates) (sv : option (Z * list ascii)) :
  sok_move alloc_ok g dir 0 st = MoveRet r g' st' sv -> 0 <= r ->
  sok_history_getlen (Some (history st'))
  = sok_history_getlen (Some (history st)) + 1
  /\ sok_history_getpushes (Some (history st'))
     = sok_history_getpushes (Some (history st)) + Z.land r sokmove_pushed.
Proof.
  intros H Hr. pose proof (sok_move_real alloc_ok _ _ _ _ _ _ _ H Hr) as Hreal.
  pose proof (move_vector_char dir) as Hch.
  destruct (move_vector dir) as [[[vx vy] a] ch]. cbv zeta in Hreal.
  destruct Hch as (Hlow & Hup & _).
  destruct Hreal as (c1 & res & ch' & f' & solved & A' & _ & _ & _ & _ & -> & _ & _
                     & Hs & -> & Hcase).
  apply checksolution_states in Hs as (H01 & _).
  cbn [history sok_history_getlen sok_history_getpushes].
  rewrite length_app, count_pushes_app. cbn [length count_pushes].
  split; [lia |].
  destruct Hcase as [(_ & _ & -> & ->) | (_ & _ & _ & c2 & _ & _ & _ & -> & ->)].
  - rewrite Hlow. by destruct H01 as [-> | ->].
  - rewrite Hup. destruct H01 as [-> | ->], (has_flag c2 field_goal); reflexivity.
Qed.

(** What the flags of an accepted real move tell: pushed, that the cell
    the player enters held an atom; on-goal, that this atom was pushed onto
    a goal cell; solved, that after the move every goal of the level area
    holds an atom (the history then has a push). *)
Theorem move_flags (g : sokgame) (dir : SOKMOVE) (st : sokgamestates) (r : Z)
    (g' : sokgame) (st' : sokgamestates) (sv : option (Z * list ascii)) :
  sok_move alloc_ok g dir 0 st = MoveRet r g' st' sv -> 0 <= r ->
  let '(vx, vy, _, _) := move_vector dir in
  let x := positionx g in
  let y := positiony g in
  (Z.land r sokmove_pushed <> 0 <->
   exists c1, field_get (field g) (x + vx) (y + vy) = Some c1
              /\ has_flag c1 field_atom = true)
  /\ (Z.land r sokmove_ongoal <> 0 <->
      Z.land r sokmove_pushed <> 0
      /\ exists c2, field_get (field g') (x + vx * 2) (y + vy * 2) = Some c2
                    /\ has_flag c2 field_goal = true
                    /\ has_flag c2 field_atom = true)
  /\ (Z.land r sokmove_solved <> 0 <->
      goals_filled g' /\ Exists (fun c => is_upper c = true) (history st')).
Proof.
  intros H Hr. pose proof (sok_move_real alloc_ok _ _ _ _ _ _ _ H Hr) as Hreal.
  destruct (move_vector dir) as [[[vx vy] a] ch]. cbv zeta in Hreal |- *.
  destruct Hreal as (c1 & res & ch' & f' & solved & A' & _ & Hc1 & _ & -> & -> & _ & _
                     & Hs & -> & Hcase).
  apply checksolution_states in Hs as (H01 & Hsolved & _).
  rewrite <- Hsolved. clear Hsolved.
  cbn [field set_position set_field].
  destruct Hcase as [(Hat & -> & -> & ->)
                    | (Hat & Hx & Hy & c2 & Hc2 & Hfree & -> & -> & ->)].
  - split; [| split].
    + split; [by destruct H01 as [-> | ->] |].
      intros (c & Hc & Hca). rewrite Hc1 in Hc. injection Hc as <-. congruence.
    + split; [by destruct H01 as [-> | ->] |]. intros [Hp _].
      by destruct H01 as [-> | ->].
    + by destruct H01 as [-> | ->].
  - assert (field_get
              (field_put (field_put (field g) (positionx g + vx) (positiony g + vy)
                                    (clear_flag field_atom c1))
                         (positionx g + vx * 2) (positiony g + vy * 2)
                         (set_flag field_atom c2))
              (positionx g + vx * 2) (positiony g + vy * 2)
            = Some (set_flag field_atom c2)) as Hget.
    { eapply field_get_put. rewrite field_get_put_ne; [exact Hc2 | |].
      - by eapply field_get_in.
      - intros [= Hx' Hy'].
        assert (vx = 0 /\ vy = 0) as [-> ->] by lia.
        rewrite !Z.mul_0_l in Hc2. rewrite Hc1 in Hc2. injection Hc2 as <-.
        rewrite has_flag_lor, Hat, orb_true_r in Hfree. discriminate. }
    rewrite Hget.
    split; [| split].
    + split; [eauto |]. intros _.
      destruct H01 as [-> | ->], (has_flag c2 field_goal); done.
    + split.
      * intros Hog. split.
        { destruct H01 as [-> | ->], (has_flag c2 field_goal); done. }
        eexists. split; [reflexivity |].
        rewrite (proj1 (atom_ops_keep c2 field_goal ltac:(auto))).
        rewrite (proj1 (atom_ops_atom c2)). split; [| done].
        destruct (has_flag c2 field_goal); [done |].
        destruct H01 as [-> | ->]; done.
      * intros (_ & c & [= <-] & Hg & _).
        rewrite (proj1 (atom_ops_keep c2 field_goal ltac:(auto))) in Hg.
        rewrite Hg. destruct H01 as [-> | ->]; done.
    + by destruct H01 as [-> | ->], (has_flag c2 field_goal).
Qed.

End MoveTheorems2.

Section MoveTheorems3.
Variable alloc_ok : Z -> bool.

Lemma sok_move_commit_states g st v a0 res vx vy ch r g' st' sv :
  sok_move_commit g st v a0 res vx vy ch = MoveRet r g' st' sv ->
  angle st' = angle st
  /\ historyallocsize st' = historyallocsize st
  /\ (history st' = history st
      \/ (history st' = history st ++ [ch]
          /\ Z.of_nat (length (history st)) + 1 < historyallocsize st)).
Proof.
  unfold sok_move_commit. intros H. cbn [sok_history_getlen] in H.
  destruct (v =? 0); cbn [andb] in H.
  - destruct (Z.ltb_spec (Z.of_nat (length (history st)) + 1) (historyallocsize st));
      [| discriminate]. cbn [negb] in H.
    repeat (case_hyp H; try discriminate H); injection H as <- <- <- <-; cbn; auto.
  - repeat (case_hyp H; try discriminate H); injection H as <- <- <- <-; auto.
Qed.

(** The states that a call of [sok_move] leaves. *)
Lemma sok_move_states g dir v st r g' st' sv :
  sok_move alloc_ok g dir v st = MoveRet r g' st' sv ->
  angle st' = (move_vector dir).1.2
  /\ historyallocsize st'
     = (if historyallocsize st <=? Z.of_nat (length (history st)) + 3
        then (historyallocsize st * 2) mod 2 ^ 64 else historyallocsize st)
  /\ (history st' = history st
      \/ exists c, history st' = history st ++ [c]
                   /\ Z.of_nat (length (history st)) + 1 < historyallocsize st').
Proof.
  intros H. unfold sok_move in H. cbn [sok_history_getlen] in H.
  set (A' := if historyallocsize st <=? _ then _ else _) in *.
  destruct (_ && negb _) in H; [discriminate |].
  destruct (sok_checksolution g None) as [[a0 sv0] |] eqn:Hcs; [| discriminate].
  destruct (move_vector dir) as [[[vx vy] a] ch]. cbv zeta in H. cbn [fst snd].
  assert (forall g1 res ch1,
            sok_move_commit g1 (mkstates a (history st) A') v a0 res vx vy ch1
            = MoveRet r g' st' sv ->
            angle st' = a /\ historyallocsize st' = A'
            /\ (history st' = history st
                \/ exists c, history st' = history st ++ [c]
                             /\ Z.of_nat (length (history st)) + 1
                                < historyallocsize st')) as Hcommit.
  { intros g1 res ch1 Hc. apply sok_move_commit_states in Hc as (Ha & HA & Hh).
    cbn [angle history historyallocsize] in *. rewrite HA.
    split; [done |]. split; [done |]. destruct Hh as [? | [? ?]]; eauto. }
  repeat (case_hyp H; try discriminate H);
    try (injection H as <- <- <- <-; cbn; auto; fail);
    eapply Hcommit; exact H.
Qed.

Lemma sok_undo_states g st g' st' :
  sok_undo g st = Some (g', st') ->
  historyallocsize st' = historyallocsize st
  /\ (length (history st') <= length (history st))%nat.
Proof.
  unfold sok_undo. intros H.
  destruct (_ <? 1); [by injection H as <- <- |].
  destruct (undo_vector _ _) as [[mx my] a].
  destruct (if is_upper _ then _ else _); [| discriminate].
  injection H as <- <-. cbn [history historyallocsize]. split; [done |].
  destruct (history st) as [| c h] using rev_ind; [done |].
  rewrite removelast_last, length_app. lia.
Qed.

Lemma history_fits_move g dir v st r g' st' sv :
  history_fits st -> Z.of_nat (length (history st)) + 3 < 2 ^ 61 ->
  sok_move alloc_ok g dir v st = MoveRet r g' st' sv ->
  history_fits st'.
Proof.
  intros [Hlo Hhi] Hlen H.
  apply sok_move_states in H as (_ & HA & Hh). unfold history_fits.
  rewrite HA. clear HA.
  assert (length (history st') <= length (history st) + 1)%nat as Hl.
  { destruct Hh as [-> | (c & -> & _)]; [lia |]. rewrite length_app. cbn. lia. }
  destruct (Z.leb_spec (historyallocsize st) (Z.of_nat (length (history st)) + 3)).
  - rewrite Z.mod_small by lia. lia.
  - lia.
Qed.

Lemma history_fits_undo g st g' st' :
  history_fits st -> sok_undo g st = Some (g', st') -> history_fits st'.
Proof.
  intros [Hlo Hhi] H. apply sok_undo_states in H as [HA Hl].
  unfold history_fits. rewrite HA. lia.
Qed.

Lemma history_fits_new : history_fits sok_newstates.
Proof. unfold history_fits. cbn. lia. Qed.

(** The history buffer is never overrun: fresh states have room for the
    history, its terminator and one more move, and every call of
    [sok_move] and of [sok_undo] keeps it so (as long as the history stays
    below 2^61 moves). *)
Theorem history_buffer_kept :
  history_fits sok_newstates
  /\ (forall g dir v st r g' st' sv,
         history_fits st -> Z.of_nat (length (history st)) + 3 < 2 ^ 61 ->
         sok_move alloc_ok g dir v st = MoveRet r g' st' sv ->
         history_fits st')
  /\ (forall g st g' st',
         history_fits st -> sok_undo g st = Some (g', st') -> history_fits st').
Proof.
  split; [apply history_fits_new |].
  split; [apply history_fits_move | apply history_fits_undo].
Qed.

(** No access outside the field or the history buffer: on a game of 64 x 64
    cells whose player stands off the border columns and the last row, with
    a history that fits its buffer, [sok_move] returns (or reports that
    [realloc] failed). *)
Theorem sok_move_in_bounds (g : sokgame) (dir : SOKMOVE) (v : Z)
    (st : sokgamestates) :
  game_wf g -> 1 <= positionx g <= 62 -> positiony g <= 62 -> history_fits st ->
  sok_move alloc_ok g dir v st <> MoveUB.
Proof.
  intros Hwf Hx Hy [Hlo Hhi]. unfold sok_move. cbn [sok_history_getlen].
  set (A' := if historyallocsize st <=? _ then _ else _).
  assert (Z.of_nat (length (history st)) + 1 < A') as HA.
  { subst A'. destruct (_ <=? _); [| lia]. rewrite Z.mod_small by lia. lia. }
  destruct (_ && negb _); [done |].
  destruct (checksolution_defined g None Hwf) as [[a0 sv0] Hcs]. rewrite Hcs.
  apply checksolution_null in Hcs as [-> ->].
  assert (forall f1 res vx vy ch a,
            field_wf f1 ->
            sok_move_commit (set_field g f1) (mkstates a (history st) A') v 0 res vx vy ch
            <> MoveUB) as Hcommit.
  { intros f1 res vx vy ch a Hf1. unfold sok_move_commit. cbn [sok_history_getlen history
      historyallocsize].
    destruct (Z.ltb_spec (Z.of_nat (length (history st)) + 1) A'); [| lia].
    rewrite andb_false_r. cbn [Z.eqb].
    match goal with
    | |- context [sok_checksolution ?g1 ?s1] =>
        destruct (checksolution_defined g1 s1) as [[solved sv1] ->]; [| done]
    end.
    destruct Hwf as (_ & Hw & Hh). destruct (v =? 0); (split; [exact Hf1 | done]). }
  assert (set_field g (field g) = g) as Hg by (by destruct g).
  assert (vx_vy : forall vx vy a ch, move_vector dir = (vx, vy, a, ch) ->
            -1 <= vx <= 1 /\ -1 <= vy <= 1).
  { intros vx vy a ch Hv. destruct dir; injection Hv as <- <- <- <-; lia. }
  destruct (move_vector dir) as [[[vx vy] a] ch] eqn:Hv. cbv zeta.
  destruct (vx_vy _ _ _ _ eq_refl) as [Hvx Hvy].
  destruct (Z.ltb_spec (positiony g) 1); [done |].
  destruct (field_get_Some (field g) (positionx g + vx) (positiony g + vy))
    as [c1 Hc1]; [apply Hwf | unfold in_field; lia |].
  rewrite Hc1. destruct (has_flag c1 field_wall); [done |].
  destruct (has_flag c1 field_atom).
  - cbn [Z.eqb negb]. destruct (_ || _) eqn:Hrange; [done |].
    destruct (field_get_Some (field g) (positionx g + vx * 2) (positiony g + vy * 2))
      as [c2 Hc2]; [apply Hwf | unfold in_field; lia |].
    rewrite Hc2. destruct (has_flag c2 _); [done |].
    destruct (v =? 0) eqn:Hv0.
    + unfold field_modify. rewrite Hc1.
      rewrite field_get_put_ne, Hc2.
      * apply Z.eqb_eq in Hv0 as ->. apply Hcommit.
        apply field_put_wf, field_put_wf, Hwf.
      * unfold in_field. lia.
      * intros [= ? ?]. destruct dir; injection Hv as <- <- <- <-; lia.
    + rewrite <- Hg at 1. apply Hcommit, Hwf.
  - rewrite <- Hg at 1. apply Hcommit, Hwf.
Qed.

End MoveTheorems3.

Section MoveTheorems4.
Variable alloc_ok : Z -> bool.

Lemma push_cells_differ (f : list (list Z)) x y vx vy c1 c2 :
  field_get f (x + vx) (y + vy) = Some c1 -> has_flag c1 field_atom = true ->
  field_get f (x + vx * 2) (y + vy * 2) = Some c2 ->
  has_flag c2 (Z.lor field_wall field_atom) = false ->
  (x + vx, y + vy) <> (x + vx * 2, y + vy * 2).
Proof.
  intros Hc1 Hat Hc2 Hfree [= Hx Hy].
  assert (vx = 0 /\ vy = 0) as [-> ->] by lia.
  rewrite !Z.mul_0_l in Hc2. rewrite Hc1 in Hc2. injection Hc2 as <-.
  rewrite has_flag_lor, Hat, orb_true_r in Hfree. discriminate.
Qed.

(** Real moves neither make nor lose atoms, and they leave walls, goals
    and floor where they are: the number of cells with an atom stays the
    same, and every cell keeps its three other flags; the field keeps its
    size. *)
Theorem moves_keep_atoms (g : sokgame) (dir : SOKMOVE) (st : sokgamestates)
    (r : Z) (g' : sokgame) (st' : sokgamestates) (sv : option (Z * list ascii)) :
  sok_move alloc_ok g dir 0 st = MoveRet r g' st' sv ->
  count_flag field_atom (field g') = count_flag field_atom (field g)
  /\ (forall x y c flag,
         flag = field_floor \/ flag = field_goal \/ flag = field_wall ->
         field_get (field g) x y = Some c ->
         exists c', field_get (field g') x y = Some c'
                    /\ has_flag c' flag = has_flag c flag)
  /\ field_width g' = field_width g /\ field_height g' = field_height g
  /\ (field_wf (field g) -> field_wf (field g')).
Proof.
  intros H. destruct (Z.lt_ge_cases r 0) as [Hr | Hr].
  { apply sok_move_denied_frame in H as (_ & -> & _); [| done].
    split; [done |]. split; [eauto |]. done. }
  pose proof (sok_move_real alloc_ok _ _ _ _ _ _ _ H Hr) as Hreal.
  destruct (move_vector dir) as [[[vx vy] a] ch]. cbv zeta in Hreal.
  destruct Hreal as (c1 & res & ch' & f' & solved & A' & _ & Hc1 & _ & -> & _ & _ & _
                     & _ & _ & Hcase).
  cbn [field field_width field_height set_position set_field].
  destruct Hcase as [(_ & -> & _) | (Hat & _ & _ & c2 & Hc2 & Hfree & -> & _)].
  { split; [done |]. split; [eauto |]. done. }
  pose proof (push_cells_differ _ _ _ _ _ _ _ Hc1 Hat Hc2 Hfree) as Hne.
  pose proof (field_get_in _ _ _ _ Hc1) as Hin1.
  pose proof (field_get_in _ _ _ _ Hc2) as Hin2.
  split; [| split; [| split; [done | split; [done |]]]].
  - pose proof (count_flag_put field_atom (field g) _ _ c1 (clear_flag field_atom c1) Hc1)
      as Hn1.
    assert (field_get (field_put (field g) (positionx g + vx) (positiony g + vy)
                                 (clear_flag field_atom c1))
                      (positionx g + vx * 2) (positiony g + vy * 2) = Some c2) as Hc2'.
    { by rewrite field_get_put_ne. }
    pose proof (count_flag_put field_atom _ _ _ c2 (set_flag field_atom c2) Hc2') as Hn2.
    rewrite has_flag_lor in Hfree. apply orb_false_iff in Hfree as [_ Hno].
    rewrite Hat, (proj2 (atom_ops_atom c1)) in Hn1.
    rewrite Hno, (proj1 (atom_ops_atom c2)) in Hn2. lia.
  - intros x y c flag Hflag Hc.
    destruct (decide ((positionx g + vx * 2, positiony g + vy * 2) = (x, y)))
      as [[= <- <-] | Hne2].
    + rewrite Hc2 in Hc. injection Hc as <-. eexists. split.
      * eapply field_get_put. by rewrite field_get_put_ne.
      * by apply atom_ops_keep.
    + rewrite field_get_put_ne by done.
      destruct (decide ((positionx g + vx, positiony g + vy) = (x, y)))
        as [[= <- <-] | Hne1].
      * rewrite Hc1 in Hc. injection Hc as <-. eexists. split.
        -- by eapply field_get_put.
        -- by apply atom_ops_keep.
      * rewrite field_get_put_ne by done. eauto.
  - intros Hwf. by apply field_put_wf, field_put_wf.
Qed.

(** After an accepted real move the player stands on a cell that holds
    neither a wall nor an atom. *)
Theorem player_cell_free (g : sokgame) (dir : SOKMOVE) (st : sokgamestates)
    (r : Z) (g' : sokgame) (st' : sokgamestates) (sv : option (Z * list ascii)) :
  sok_move alloc_ok g dir 0 st = MoveRet r g' st' sv -> 0 <= r ->
  exists c, field_get (field g') (positionx g') (positiony g') = Some c
            /\ has_flag c field_wall = false /\ has_flag c field_atom = false.
Proof.
  intros H Hr. pose proof (sok_move_real alloc_ok _ _ _ _ _ _ _ H Hr) as Hreal.
  destruct (move_vector dir) as [[[vx vy] a] ch]. cbv zeta in Hreal.
  destruct Hreal as (c1 & res & ch' & f' & solved & A' & _ & Hc1 & Hwall & -> & _ & _ & _
                     & _ & _ & Hcase).
  cbn [field positionx positiony set_position set_field].
  destruct Hcase as [(Hat & -> & _) | (Hat & _ & _ & c2 & Hc2 & Hfree & -> & _)].
  { eauto. }
  pose proof (push_cells_differ _ _ _ _ _ _ _ Hc1 Hat Hc2 Hfree) as Hne.
  exists (clear_flag field_atom c1). split; [| split].
  - rewrite field_get_put_ne; [by eapply field_get_put | by eapply field_get_in | done].
  - by rewrite (proj2 (atom_ops_keep c1 field_wall ltac:(auto))).
  - apply atom_ops_atom.
Qed.

(** The best solution is only replaced by a better one: a real move asks
    for the history to be saved exactly when it solves the level and the
    level has no solution yet, or a longer one, or one of the same length
    with more pushes; what it saves is the new history, under the CRC64
    of the level. *)
Theorem best_solution_saved (g : sokgame) (dir : SOKMOVE) (st : sokgamestates)
    (r : Z) (g' : sokgame) (st' : sokgamestates) (sv : option (Z * list ascii)) :
  sok_move alloc_ok g dir 0 st = MoveRet r g' st' sv -> 0 <= r ->
  (sv <> None <->
   Z.land r sokmove_solved <> 0
   /\ (sok_history_getlen (solution g) < 1
       \/ sok_history_getlen (Some (history st')) < sok_history_getlen (solution g)
       \/ (sok_history_getlen (solution g) = sok_history_getlen (Some (history st'))
           /\ sok_history_getpushes (Some (history st'))
              < sok_history_getpushes (solution g))))
  /\ (forall s, sv = Some s -> s = (crc64 g, history st')).
Proof.
  intros H Hr. pose proof (sok_move_real alloc_ok _ _ _ _ _ _ _ H Hr) as Hreal.
  destruct (move_vector dir) as [[[vx vy] a] ch]. cbv zeta in Hreal.
  destruct Hreal as (c1 & res & ch' & f' & solved & A' & _ & _ & _ & -> & -> & _ & _
                     & Hs & -> & Hcase).
  apply checksolution_states in Hs as (H01 & _ & Hsaved & Hwhat).
  cbn [solution crc64 set_position set_field history] in *.
  split; [| exact Hwhat]. rewrite Hsaved.
  assert (res = 0 \/ res = 1 \/ res = 3) as Hres.
  { destruct Hcase as [(_ & _ & _ & ->) | (_ & _ & _ & c2 & _ & _ & _ & _ & ->)];
      [auto |]. destruct (has_flag c2 field_goal); auto. }
  assert (solved <> 0 <->
          Z.land (if solved =? 0 then res else Z.lor res sokmove_solved) sokmove_solved
          <> 0) as ->; [| done].
  destruct H01 as [-> | ->], Hres as [-> | [-> | ->]]; done.
Qed.

End MoveTheorems4.

(** ** Replaying the history *)

Section ReplayFacts.
Variable alloc_ok : Z -> bool.

Lemma sok_move_vector_only g d1 d2 v st :
  move_vector d1 = move_vector d2 ->
  sok_move alloc_ok g d1 v st = sok_move alloc_ok g d2 v st.
Proof. intros H. unfold sok_move. by rewrite H. Qed.

Lemma sok_move_dry_frame g dir v st r g' st' sv :
  v <> 0 -> sok_move alloc_ok g dir v st = MoveRet r g' st' sv ->
  g' = g /\ history st' = history st.
Proof.
  intros Hv H. unfold sok_move in H.
  destruct (_ && negb _) in H; [discriminate |].
  destruct (sok_checksolution g None) as [[a0 sv0] |] eqn:Hcs; [| discriminate].
  destruct (move_vector dir) as [[[vx vy] a] ch]. cbv zeta in H.
  rewrite (proj2 (Z.eqb_neq v 0) Hv) in H.
  repeat (case_hyp H; try discriminate H);
    try (injection H as <- <- <- <-; done);
    apply sok_move_commit_dry in H as (-> & -> & _); done.
Qed.

Lemma sok_move_commit_history_only g a h A A0 res vx vy ch r g1 st1 sv :
  sok_move_commit g (mkstates a h A) 0 0 res vx vy ch = MoveRet r g1 st1 sv ->
  Z.of_nat (length h) + 1 < A0 ->
  sok_move_commit g (mkstates a h A0) 0 0 res vx vy ch
  = MoveRet r g1 (mkstates a (h ++ [ch]) A0) sv
  /\ history st1 = h ++ [ch].
Proof.
  unfold sok_move_commit. cbn [sok_history_getlen history historyallocsize angle Z.eqb andb].
  intros H HA0.
  destruct (Z.ltb_spec (Z.of_nat (length h) + 1) A); [| discriminate].
  destruct (Z.ltb_spec (Z.of_nat (length h) + 1) A0); [| lia]. cbn [negb] in *.
  rewrite (checksolution_history _ a (h ++ [ch]) A0 a A).
  destruct (sok_checksolution _ _) as [[solved sv0] |]; [| discriminate].
  by injection H as <- <- <- <-.
Qed.

Hypothesis alloc_granted : forall n, alloc_ok n = true.

(** An accepted real move depends on the states through the history only. *)
Lemma sok_move_history_only g dir st st0 r g1 st1 sv :
  history st0 = history st -> history_fits st0 ->
  sok_move alloc_ok g dir 0 st = MoveRet r g1 st1 sv -> 0 <= r ->
  exists st1',
    sok_move alloc_ok g dir 0 st0 = MoveRet r g1 st1' sv
    /\ history st1' = history st1.
Proof.
  intros Hh [Hlo Hhi] H Hr.
  unfold sok_move in H |- *. cbn [sok_history_getlen] in H |- *. rewrite Hh in *.
  set (A0 := if historyallocsize st0 <=? _ then _ else _).
  set (A := if historyallocsize st <=? _ then _ else _) in H.
  assert (Z.of_nat (length (history st)) + 1 < A0) as HA.
  { subst A0. destruct (historyallocsize st0 <=? _); [| lia]. rewrite Z.mod_small by lia. lia. }
  rewrite alloc_granted, andb_false_r in H |- *.
  destruct (sok_checksolution g None) as [[a0 sv0] |] eqn:Hcs; [| discriminate].
  apply checksolution_null in Hcs as [-> ->].
  destruct (move_vector dir) as [[[vx vy] a] ch]. cbv zeta in H |- *.
  assert (forall g2 res ch1,
            sok_move_commit g2 (mkstates a (history st) A) 0 0 res vx vy ch1
            = MoveRet r g1 st1 sv ->
            exists st1',
              sok_move_commit g2 (mkstates a (history st) A0) 0 0 res vx vy ch1
              = MoveRet r g1 st1' sv
              /\ history st1' = history st1) as Hcommit.
  { intros g2 res ch1 Hc.
    destruct (sok_move_commit_history_only _ _ _ _ A0 _ _ _ _ _ _ _ _ Hc HA) as [-> ->].
    eauto. }
  destruct (positiony g <? 1); [injection H as <- <- <- <-; lia |].
  destruct (field_get (field g) (positionx g + vx) (positiony g + vy))
    as [c1 |]; [| discriminate].
  destruct (has_flag c1 field_wall); [injection H as <- <- <- <-; lia |].
  destruct (has_flag c1 field_atom).
  - cbn [Z.eqb negb] in H |- *.
    destruct (_ || _); [injection H as <- <- <- <-; lia |].
    destruct (field_get (field g) (positionx g + vx * 2) (positiony g + vy * 2))
      as [c2 |]; [| discriminate].
    destruct (has_flag c2 _); [injection H as <- <- <- <-; lia |].
    destruct (field_modify (clear_flag field_atom) _ _ _) as [f1 |]; [| discriminate].
    destruct (field_modify (set_flag field_atom) f1 _ _) as [f2 |]; [| discriminate].
    by apply Hcommit.
  - by apply Hcommit.
Qed.

Lemma sok_play_loop_app p1 : forall p2 g st acc,
  sok_play_loop alloc_ok g st (p1 ++ p2) acc
  = match sok_play_loop alloc_ok g st p1 acc with
    | PlayDone g1 st1 acc1 => sok_play_loop alloc_ok g1 st1 p2 acc1
    | PlayNoMem g1 rest => PlayNoMem g1 (rest ++ p2)
    | PlayUB => PlayUB
    end.
Proof.
  induction p1 as [| c p1 IH]; intros p2 g st acc; [reflexivity |].
  cbn [app sok_play_loop].
  destruct (sok_move alloc_ok g (play_move c) 0 st) as [| | r g1 st1 sv]; try reflexivity.
  apply IH.
Qed.

(** Playing a text makes the history longer by at most its length. *)
Lemma sok_play_loop_history p : forall g st acc gN stN accN,
  sok_play_loop alloc_ok g st p acc = PlayDone gN stN accN ->
  exists rec, history stN = history st ++ rec /\ (length rec <= length p)%nat.
Proof.
  induction p as [| c p IH]; intros g st acc gN stN accN H.
  - injection H as <- <- <-. exists []. by rewrite app_nil_r.
  - cbn [sok_play_loop] in H.
    destruct (sok_move alloc_ok g (play_move c) 0 st) as [| | r g1 st1 sv] eqn:Hm;
      try discriminate.
    destruct (IH _ _ _ _ _ _ H) as (rec & -> & Hl).
    apply sok_move_states in Hm as (_ & _ & [-> | (x & -> & _)]).
    + exists rec. split; [done | cbn; lia].
    + exists (x :: rec). rewrite <- app_assoc. split; [done | cbn; lia].
Qed.

End ReplayFacts.

Section ReplayInvariant.
Variable alloc_ok : Z -> bool.
Hypothesis alloc_granted : forall n, alloc_ok n = true.
Variable level0 : sokgame.

#[local] Abbreviation replays := (replays alloc_ok level0).

Lemma sok_play_loop_fits p : forall g st acc gN stN accN,
  history_fits st ->
  Z.of_nat (length (history st)) + Z.of_nat (length p) + 3 < 2 ^ 61 ->
  sok_play_loop alloc_ok g st p acc = PlayDone gN stN accN ->
  history_fits stN.
Proof.
  induction p as [| c p IH]; intros g st acc gN stN accN Hfit Hlen H.
  - by injection H as <- <- <-.
  - cbn [sok_play_loop] in H. cbn [length] in Hlen.
    destruct (sok_move alloc_ok g (play_move c) 0 st) as [| | r g1 st1 sv] eqn:Hm;
      try discriminate.
    eapply IH; [| | exact H].
    + eapply history_fits_move; [exact Hfit | lia | exact Hm].
    + apply sok_move_states in Hm as (_ & _ & [-> | (x & -> & _)]);
        [| rewrite length_app; cbn [length]]; lia.
Qed.

Lemma replays_nil : replays [] level0.
Proof. split; [constructor |]. by eexists _, _. Qed.

Lemma replays_move g dir st r g1 st1 sv :
  replays (history st) g ->
  Z.of_nat (length (history st)) + 3 < 2 ^ 61 ->
  sok_move alloc_ok g dir 0 st = MoveRet r g1 st1 sv ->
  replays (history st1) g1.
Proof.
  intros [Hmoves (st' & saved & Hplay & Hh)] Hlen Hm.
  destruct (Z.lt_ge_cases r 0) as [Hr | Hr].
  { apply sok_move_denied_frame in Hm as (_ & -> & -> & _); [| done].
    split; [done |]. by exists st', saved. }
  assert (history_fits st') as Hfit.
  { eapply sok_play_loop_fits; [apply history_fits_new | | exact Hplay].
    cbn [history sok_newstates length]. lia. }
  destruct (sok_move_history_only alloc_ok alloc_granted _ _ _ st' _ _ _ _ Hh Hfit Hm Hr)
    as (st1' & Hm' & Hh').
  pose proof (sok_move_real alloc_ok _ _ _ _ _ _ _ Hm Hr) as Hreal.
  pose proof (move_vector_char dir) as Hch.
  destruct (move_vector dir) as [[[vx vy] a] ch] eqn:Hv. cbv zeta in Hreal.
  destruct Hch as (_ & _ & Hm1 & Hm2 & Hp1 & Hp2).
  destruct Hreal as (c1 & res & ch' & f' & solved & A' & _ & _ & _ & _ & Hst1 & _ & _
                     & _ & _ & Hcase).
  assert (Save.is_move ch' = true /\ move_vector (play_move ch') = move_vector dir)
    as [Hmove Hback].
  { rewrite Hv. destruct Hcase as [(_ & _ & -> & _) | (_ & _ & _ & c2 & _ & _ & _ & -> & _)];
      done. }
  assert (history st1 = history st ++ [ch']) as Hrec by (by rewrite Hst1).
  rewrite Hrec. split; [apply Forall_app; split; [done | by constructor] |].
  eexists st1', _. rewrite sok_play_loop_app, Hplay. cbn [sok_play_loop].
  rewrite (sok_move_vector_only alloc_ok _ _ dir _ _ Hback), Hm'.
  split; [reflexivity | congruence].
Qed.

Lemma replays_undo g st g' st2 :
  replays (history st) g ->
  Z.of_nat (length (history st)) + 3 < 2 ^ 61 ->
  sok_undo g st = Some (g', st2) ->
  replays (history st2) g' /\ (length (history st2) <= length (history st))%nat.
Proof.
  intros [Hmoves (st' & saved & Hplay & Hh)] Hlen Hu.
  destruct (history st) as [| c0 h0] eqn:Hhist using rev_ind.
  { rewrite sok_undo_empty in Hu by done. injection Hu as <- <-.
    rewrite Hhist. split; [| done]. split; [done |]. by exists st', saved. }
  clear IHh0. rename h0 into h', c0 into c.
  rewrite sok_play_loop_app in Hplay.
  destruct (sok_play_loop alloc_ok level0 sok_newstates h' [])
    as [| | gp stp accp] eqn:Hpre; try discriminate.
  cbn [sok_play_loop] in Hplay.
  destruct (sok_move alloc_ok gp (play_move c) 0 stp) as [| | r g1 st1 sv] eqn:Hm;
    try discriminate.
  injection Hplay as -> -> _.
  destruct (sok_play_loop_history alloc_ok _ _ _ _ _ _ _ Hpre) as (rec & Hrec & Hl).
  cbn [history sok_newstates app] in Hrec.
  assert (0 <= r /\ history stp = h') as [Hr Hstp].
  { pose proof (sok_move_states alloc_ok _ _ _ _ _ _ _ _ Hm) as (_ & _ & Hcases).
    rewrite Hh, Hrec in Hcases.
    destruct Hcases as [Heq | (x & Heq & _)].
    - apply (f_equal length) in Heq. rewrite length_app in Heq. cbn in Heq. lia.
    - apply app_inj_tail in Heq as [<- _]. split; [| done].
      destruct (Z.lt_ge_cases r 0) as [Hneg |]; [| done].
      apply sok_move_denied_frame in Hm as (_ & _ & Hsame & _); [| done].
      rewrite Hh, Hrec in Hsame. apply (f_equal length) in Hsame.
      rewrite length_app in Hsame. cbn in Hsame. lia. }
  assert (history st = history st') as Hst by congruence.
  destruct (sok_undo_move alloc_ok _ _ _ _ _ _ _ st Hm Hr Hst) as (st2' & Hu' & Hh2).
  rewrite Hu' in Hu. injection Hu as <- <-. rewrite Hh2, Hstp.
  split; [| rewrite length_app; lia].
  split; [by apply Forall_app in Hmoves as [? _] |]. by exists stp, accp.
Qed.

Lemma replays_session events : forall g st gN stN,
  replays (history st) g ->
  Z.of_nat (length (history st)) + Z.of_nat (length events) + 3 < 2 ^ 61 ->
  session_from alloc_ok level0 events g st = Some (gN, stN) ->
  replays (history stN) gN.
Proof.
  induction events as [| ev events IH]; intros g st gN stN Hinv Hlen H.
  - by injection H as <- <-.
  - cbn [session_from] in H. cbn [length] in Hlen.
    destruct (game_step alloc_ok level0 ev g st) as [[g1 st1] |] eqn:Hstep;
      [| discriminate].
    assert (replays (history st1) g1
            /\ (length (history st1) <= length (history st) + 1)%nat) as [Hinv1 Hl1].
    { destruct ev as [dir | |]; cbn [game_step] in Hstep.
      - assert (forall d,
                  match sok_move alloc_ok g d 1 st with
                  | MoveRet _ game1 states1 _ =>
                      match sok_move alloc_ok game1 d 0 states1 with
                      | MoveRet _ game2 states2 _ => Some (game2, states2)
                      | _ => None
                      end
                  | _ => None
                  end = Some (g1, st1) ->
                  replays (history st1) g1
                  /\ (length (history st1) <= length (history st) + 1)%nat) as Hmove.
        { intros d Hd.
          destruct (sok_move alloc_ok g d 1 st) as [| | r0 g0 st0 sv0] eqn:Hdry;
            try discriminate.
          apply sok_move_dry_frame in Hdry as [-> Hh0]; [| done].
          destruct (sok_move alloc_ok g d 0 st0) as [| | r2 g2 st2 sv2] eqn:Hreal;
            try discriminate.
          injection Hd as <- <-. split.
          - eapply replays_move; [| | exact Hreal]; rewrite Hh0; [done | lia].
          - apply sok_move_states in Hreal as (_ & _ & [-> | (x & -> & _)]);
              rewrite Hh0; [| rewrite length_app; cbn [length]]; lia. }
        destruct dir; try exact (Hmove _ Hstep).
        injection Hstep as <- <-. split; [done | lia].
      - destruct (replays_undo _ _ _ _ Hinv ltac:(lia) Hstep). split; [done | lia].
      - injection Hstep as <- <-. split; [apply replays_nil | cbn; lia]. }
    eapply IH; [exact Hinv1 | lia | exact H].
Qed.

End ReplayInvariant.

(** ** More on the codec of solution files *)

Lemma save_loop_stop c rest lb cnt :
  Save.is_move c = false ->
  Save.save_loop (c :: rest) lb cnt = Save.save_loop [] lb cnt.
Proof.
  intros Hc. unfold Save.is_move in Hc. apply negb_false_iff in Hc.
  cbn [Save.save_loop hd]. rewrite Hc.
  change (Save.xsb2byte NUL) with Save.solmove_ERR.
  apply Z.eqb_eq in Hc. rewrite Hc.
  by destruct ((Save.solmove_ERR =? lb) && (cnt <? 15)).
Qed.

Lemma save_loop_prefix m : forall c rest lb cnt,
  Forall (fun c => Save.is_move c = true) m -> Save.is_move c = false ->
  Save.save_loop (m ++ c :: rest) lb cnt = Save.save_loop m lb cnt.
Proof.
  induction m as [| x m IH]; intros c rest lb cnt Hm Hc.
  - by apply save_loop_stop.
  - inversion Hm as [| ? ? Hx Hm']; subst. cbn [app].
    rewrite !save_loop_cons by done. by rewrite !IH.
Qed.

Lemma save_loop_size s : forall lb cnt,
  Forall (fun c => Save.is_move c = true) s -> 0 <= cnt <= 15 ->
  (cnt = 0 \/ 0 <= lb <= 7) ->
  Z.of_nat (length (Save.save_loop s lb cnt))
  <= Z.of_nat (length s) + (if 0 <? cnt then 1 else 0)
  /\ Z.of_nat (length s) + cnt <= 15 * Z.of_nat (length (Save.save_loop s lb cnt)).
Proof.
  induction s as [| c s IH]; intros lb cnt Hs Hcnt Hlb.
  - rewrite save_loop_nil.
    destruct ((Save.solmove_ERR =? lb) && (cnt <? 15)) eqn:E.
    + apply andb_true_iff in E as [E _]. apply Z.eqb_eq in E. unfold Save.solmove_ERR in E.
      destruct (Z.ltb_spec 0 cnt); cbn [length]; lia.
    + destruct (Z.ltb_spec 0 cnt); cbn [length]; lia.
  - inversion Hs as [| ? ? Hc Hs']; subst.
    destruct (xsb2byte_move c Hc) as [Hr _].
    rewrite save_loop_cons by done. cbn [length].
    destruct ((Save.xsb2byte c =? lb) && (cnt <? 15)) eqn:E.
    + apply andb_true_iff in E as [E1 E2]. apply Z.ltb_lt in E2.
      destruct (IH lb (cnt + 1) Hs') as [IH1 IH2]; [lia | right; lia |].
      destruct (Z.ltb_spec 0 (cnt + 1)); [| lia].
      destruct (Z.ltb_spec 0 cnt); lia.
    + destruct (IH (Save.xsb2byte c) 1 Hs') as [IH1 IH2]; [lia | right; lia |].
      change (0 <? 1) with true in IH1. cbv iota in IH1.
      rewrite length_app. destruct (Z.ltb_spec 0 cnt); cbn [length]; lia.
Qed.

Lemma codec_roundtrip alloc_ok h :
  (forall n, alloc_ok n = true) ->
  Forall (fun c => Save.is_move c = true) h ->
  Save.solution_load alloc_ok (Save.solution_save (Some h)) = Some h.
Proof.
  intros Hal Hh. unfold Save.solution_load, Save.solution_save.
  rewrite Hal, (load_save_loop alloc_ok Hal h (-1) 0 [] 16 Hh) by auto.
  simpl. by rewrite Hal.
Qed.

(** [solution_save] writes the moves that come before the first character
    that is none of the eight letters u, l, d, r, U, L, D, R, and nothing
    of what follows it: the file is the one of that prefix, and
    [solution_load] reads the prefix back. *)
Theorem save_stops_at_foreign_char (alloc_ok : Z -> bool) (m : list ascii)
    (c : ascii) (rest : list ascii) :
  (forall n, alloc_ok n = true) ->
  Forall (fun c => In c history_alphabet) m -> ~ In c history_alphabet ->
  Save.solution_save (Some (m ++ c :: rest)) = Save.solution_save (Some m)
  /\ Save.solution_load alloc_ok (Save.solution_save (Some (m ++ c :: rest))) = Some m.
Proof.
  intros Hal Hm%alphabet_moves Hc%is_move_foreign.
  assert (Save.solution_save (Some (m ++ c :: rest)) = Save.solution_save (Some m)) as ->.
  { unfold Save.solution_save. by rewrite save_loop_prefix. }
  split; [done | by apply codec_roundtrip].
Qed.

(** The file of a history over the eight letters u, l, d, r, U, L, D, R
    is never longer than the history, and one byte holds at most 15
    moves. *)
Theorem solution_file_size (h : list ascii) (bytes : list Z) :
  Forall (fun c => In c history_alphabet) h ->
  Save.solution_save (Some h) = Some bytes ->
  (length bytes <= length h)%nat /\ (length h <= 15 * length bytes)%nat.
Proof.
  intros Hh%alphabet_moves [= <-].
  destruct (save_loop_size h (-1) 0 Hh) as [H1 H2]; [lia | auto |].
  change (0 <? 0) with false in H1. cbv iota in H1. lia.
Qed.

(** ** The history is a record of the game *)

Section ReplayTheorems.
Variable alloc_ok : Z -> bool.

(** Whatever the player does on a level (moves that are accepted or
    denied, undos, restarts), the history always tells how to get to the
    current position: played by [sok_play] on the level as it was loaded,
    it gives the current game, with the same history. *)
Theorem history_replays (level0 : sokgame) (events : list game_event)
    (g : sokgame) (st : sokgamestates) :
  (forall n, alloc_ok n = true) ->
  Z.of_nat (length events) + 3 < 2 ^ 61 ->
  session alloc_ok level0 events = Some (g, st) ->
  exists st' saved,
    sok_play alloc_ok level0 sok_newstates (Some (history st)) = PlayDone g st' saved
    /\ history st' = history st.
Proof.
  intros Hal Hlen H.
  apply (replays_session alloc_ok Hal level0) in H as [_ H]; [done | | ].
  - apply replays_nil.
  - cbn. lia.
Qed.

(** Saving the game and loading it again gives the game back: the history
    written by [solution_save] and read by [solution_load], played on the
    level loaded afresh, leads to the game that was saved. *)
Theorem saved_game_restores (level0 : sokgame) (events : list game_event)
    (g : sokgame) (st : sokgamestates) :
  (forall n, alloc_ok n = true) ->
  Z.of_nat (length events) + 3 < 2 ^ 61 ->
  session alloc_ok level0 events = Some (g, st) ->
  exists st' saved,
    sok_play alloc_ok (loadlevel level0).1 (loadlevel level0).2
             (Save.solution_load alloc_ok (Save.solution_save (Some (history st))))
    = PlayDone g st' saved
    /\ history st' = history st.
Proof.
  intros Hal Hlen H.
  apply (replays_session alloc_ok Hal level0) in H as [Hmoves H].
  - by rewrite codec_roundtrip.
  - apply replays_nil.
  - cbn. lia.
Qed.

End ReplayTheorems.

(** ** The shape of a loaded level *)

Lemma mark_cell_shape flag st st1 :
  mark_cell flag st = Some st1 ->
  exists f, st1 = mkscan (set_field (s_game st) f) (s_x st) (s_y st)
                         (s_started st) (s_eof st) (s_bytebuff st) (s_mem st).
Proof.
  unfold mark_cell. destruct (field_modify _ _ _ _) as [f |]; [| done].
  intros [= <-]. by exists f.
Qed.

(** The cursor, the sizes and the player after one symbol. *)
Lemma scan_symbol_shape st st1 :
  scan_symbol st = Some st1 ->
  let g := s_game st in
  let g1 := s_game st1 in
  field_width g1 = field_width g /\ field_height g1 = field_height g
  /\ level g1 = level g /\ crc64 g1 = crc64 g /\ crc32_106 g1 = crc32_106 g
  /\ solution g1 = solution g
  /\ ((s_x st1 = ushort (s_x st + 1) /\ s_y st1 = s_y st
       /\ s_started st1 = s_started st /\ s_eof st1 = s_eof st
       /\ ((positionx g1 = positionx g /\ positiony g1 = positiony g)
           \/ (positionx g1 = s_x st /\ positiony g1 = s_y st)))
      \/ (positionx g1 = positionx g /\ positiony g1 = positiony g
          /\ ((s_x st1 = 0 /\ s_started st1 = s_started st /\ s_eof st1 = s_eof st
               /\ s_y st1 = (if s_started st =? 0 then s_y st else ushort (s_y st + 1)))
              \/ st1 = st
              \/ (s_x st1 = s_x st /\ s_y st1 = s_y st /\ field g1 = field g
                  /\ s_started st1 = (if s_started st =? 0 then 0 else -1))))).
Proof.
  unfold scan_symbol. intros H.
  destruct (skip_comment (s_mem st)) as [b mem'].
  repeat match type of H with
         | (if ?c then _ else _) = _ => destruct c
         | _ <$> mark_cell ?flag ?s = _ =>
             let E := fresh "E" in
             destruct (mark_cell flag s) eqn:E;
             [apply mark_cell_shape in E as [? ->] |]; cbn in H; [| discriminate H]
         | match mark_cell ?flag ?s with _ => _ end = _ =>
             let E := fresh "E" in
             destruct (mark_cell flag s) eqn:E;
             [apply mark_cell_shape in E as [? ->] |]; [| discriminate H]
         end;
    injection H as <-;
    cbn [s_game s_x s_y s_started s_eof next_column put_player set_position set_field
         field_width field_height positionx positiony level crc64 crc32_106 solution field];
    repeat (split; [reflexivity |]); auto 10.
  right. do 2 (split; [reflexivity |]). right; right.
  do 3 (split; [reflexivity |]). by destruct (Z.eqb_spec (s_started st) 0) as [-> |].
Qed.

Ltac case_if :=
  repeat match goal with
         | |- context [if ?c then _ else _] => destruct c eqn:?
         | H : context [if ?c then _ else _] |- _ => destruct c eqn:?
         end.

Lemma scan_run_inv n : forall st,
  scan_inv st -> 0 <= s_started st -> s_eof st = false ->
  match scan_run n st with
  | ScanUB => True
  | ScanErr err st1 => err = ERR_LEVEL_TOO_LARGE \/ err = ERR_LEVEL_TOO_HIGH
  | ScanOk st1 => scan_inv st1
  end.
Proof.
  induction n as [| n IH]; intros st Hinv Hst Heof; [done |].
  cbn [scan_run].
  destruct (scan_symbol st) as [st1 |] eqn:Hs; [| done].
  apply scan_symbol_shape in Hs. cbv zeta in Hs.
  destruct Hs as (Hw & Hh & _ & _ & _ & _ & Hcase).
  pose proof Hinv as (Hx & Hy & Hxw & Hhr & Hxy & Hpos & Hst0 & Hst01 & Hwh).
  destruct ((s_started st1 <? 0) || s_eof st1) eqn:Hbreak.
  { destruct Hcase as [(Hx1 & Hy1 & Hs1 & He1 & Hp)
                      | (Hpx & Hpy & [(Hx1 & Hs1 & He1 & Hy1)
                                     | [-> | (Hx1 & Hy1 & Hf1 & Hs1)]])];
      try (rewrite Hs1, He1, Heof in Hbreak; lia).
    - rewrite Heof in Hbreak. lia.
    - unfold scan_inv. rewrite Hw, Hh, Hx1, Hy1, Hpx, Hpy, Hs1.
      destruct (Z.eqb_spec (s_started st) 0); repeat split; try tauto; try lia. }
  apply orb_false_iff in Hbreak as [Hs1 He1]. apply Z.ltb_ge in Hs1.
  destruct (Z.leb_spec 62 (s_x st1)); [auto |].
  destruct (Z.leb_spec 62 (s_y st1)); [auto |].
  apply IH; cbn [s_started s_eof]; [| case_if; lia | done].
  unfold scan_inv.
  cbn [s_game s_x s_y s_started set_size field_width field_height positionx positiony].
  rewrite Hw, Hh. unfold ushort in *.
  destruct Hcase as [(Hx1 & Hy1 & Hs1' & _ & Hp)
                    | (Hpx & Hpy & [(Hx1 & Hs1' & _ & Hy1)
                                   | [-> | (Hx1 & Hy1 & Hf1 & Hs1')]])].
  - rewrite Z.mod_small in Hx1 by lia. rewrite Hx1, Hy1 in *.
    destruct Hp as [[-> ->] | [-> ->]]; case_if; rewrite ?Z.mod_small by lia;
      repeat split; try lia.
  - rewrite Hpx, Hpy, Hx1, Hs1' in *.
    destruct (Z.eqb_spec (s_started st) 0);
      [| rewrite Z.mod_small in Hy1 by lia]; rewrite Hy1 in *;
      case_if; rewrite ?Z.mod_small by lia; repeat split; try lia.
  - case_if; rewrite ?Z.mod_small by lia; repeat split; try lia.
  - rewrite Hpx, Hpy, Hx1, Hy1, Hs1' in *.
    destruct (Z.eqb_spec (s_started st) 0); [| lia].
    case_if; rewrite ?Z.mod_small by lia; repeat split; try lia.
Qed.

Lemma scan_level_inv fuel : forall st,
  scan_inv st -> 0 <= s_started st ->
  match scan_level fuel st with
  | ScanUB => True
  | ScanErr err st1 => err = ERR_LEVEL_TOO_LARGE \/ err = ERR_LEVEL_TOO_HIGH
  | ScanOk st1 => scan_inv st1
  end.
Proof.
  induction fuel as [| fuel IH]; intros st Hinv Hst; [done |].
  cbn [scan_level].
  destruct (readRLEbyte (s_mem st) (-1)) as [[[rle b] mem'] |]; [| done].
  cbn [s_eof]. destruct (s_eof st || (rle <? 0)) eqn:Heof; [exact Hinv |].
  pose proof (scan_run_inv (Z.to_nat rle)
                (mkscan (s_game st) (s_x st) (s_y st) (s_started st)
                        false b mem') Hinv Hst eq_refl) as Hrun.
  destruct (scan_run _ _) as [| err st1 | st1]; [done | done |].
  destruct ((s_started st1 <? 0) || s_eof st1) eqn:Hbreak; [done |].
  apply orb_false_iff in Hbreak as [Hs1 _]. apply Z.ltb_ge in Hs1. by apply IH.
Qed.

Lemma scan_inv_start game mem :
  scan_inv (mkscan (mkgame 0 0 (replicate 64 (replicate 64 field_floor)) (-1) (-1)
                           (level game) (crc64 game) (crc32_106 game) None)
                   0 0 0 false 0 mem).
Proof. unfold scan_inv. cbn. repeat split; try lia; auto. Qed.

(** What the first part of the loader hands on. *)
Lemma load_prepare_shape game mem :
  match load_prepare game mem with
  | PrepUB => True
  | PrepErr err st =>
      err = ERR_LEVEL_TOO_LARGE \/ err = ERR_LEVEL_TOO_HIGH
      \/ err = ERR_PLAYER_POS_UNDEFINED
  | PrepOk st filled =>
      let g := s_game st in
      1 <= field_width g <= 61 /\ 1 <= field_height g <= 62
      /\ 0 <= positionx g < field_width g /\ 0 <= positiony g < field_height g
      /\ field_wf (field g) /\ field_wf filled
  end.
Proof.
  unfold load_prepare, load_prepare_fuel.
  pose proof (scan_level_inv (S (length mem)) _ (scan_inv_start game mem)) as Hinv.
  cbn [s_started] in Hinv. specialize (Hinv ltac:(lia)).
  destruct (scan_level _ _) as [| err st | st] eqn:Hscan; [done | tauto |].
  apply scan_level_wf in Hscan; [| apply field_wf_replicate].
  destruct Hinv as (Hx & Hy & Hxw & Hhr & Hxy & Hpos & Hst0 & Hst01 & Hwh).
  destruct (Z.ltb_spec (positionx (s_game st)) 0); [auto |].
  destruct (Z.ltb_spec (field_height (s_game st)) 1); [exfalso; lia |].
  destruct (Z.ltb_spec (field_width (s_game st)) 1); [exfalso; lia |].
  destruct (Z.eqb_spec (s_started st) 0); [exfalso; lia |].
  destruct (flood_defined flood_fuel (field (s_game st)) 63 63 Hscan) as (f' & -> & Hwf');
    [by apply count_floor_wf |].
  cbv zeta. do 4 (split; [lia |]). by split.
Qed.

Lemma shift_row_wf y : forall n f x f',
  shift_row f y x n = Some f' -> field_wf f -> field_wf f'.
Proof.
  induction n as [| n IH]; intros f x f' H Hwf; [by injection H as <- |].
  cbn [shift_row] in H. destruct (field_get f _ _) as [v |]; [| discriminate].
  unfold field_modify in H. destruct (field_get f x y); [| discriminate].
  eapply IH; [exact H | by apply field_put_wf].
Qed.

Lemma shift_rows_wf n : forall f y f',
  shift_rows f y n = Some f' -> field_wf f -> field_wf f'.
Proof.
  induction n as [| n IH]; intros f y f' H Hwf; [by injection H as <- |].
  cbn [shift_rows] in H. destruct (shift_row f y 0 63) as [f1 |] eqn:Hrow; [| discriminate].
  eapply IH; [exact H | by eapply shift_row_wf].
Qed.

Lemma scan_run_keeps n : forall st st1,
  scan_run n st = ScanOk st1 ->
  level (s_game st1) = level (s_game st)
  /\ crc64 (s_game st1) = crc64 (s_game st)
  /\ solution (s_game st1) = solution (s_game st).
Proof.
  induction n as [| n IH]; intros st st1 H; [by injection H as <- |].
  cbn [scan_run] in H.
  destruct (scan_symbol st) as [st0 |] eqn:Hs; [| discriminate].
  apply scan_symbol_shape in Hs. cbv zeta in Hs.
  destruct Hs as (_ & _ & Hl & Hc & _ & Hsol & _).
  destruct (_ || _); [by injection H as <- |].
  destruct (62 <=? _); [discriminate |]. destruct (62 <=? _); [discriminate |].
  apply IH in H. cbn in H. by rewrite <- Hl, <- Hc, <- Hsol.
Qed.

Lemma scan_level_keeps fuel : forall st st1,
  scan_level fuel st = ScanOk st1 ->
  level (s_game st1) = level (s_game st)
  /\ crc64 (s_game st1) = crc64 (s_game st)
  /\ solution (s_game st1) = solution (s_game st).
Proof.
  induction fuel as [| fuel IH]; intros st st1 H; [discriminate |].
  cbn [scan_level] in H.
  destruct (readRLEbyte (s_mem st) (-1)) as [[[rle b] mem'] |]; [| discriminate].
  cbn [s_eof] in H. destruct (s_eof st || (rle <? 0)); [by injection H as <- |].
  destruct (scan_run (Z.to_nat rle) _) as [| err1 st0 | st0] eqn:Hrun; try discriminate.
  apply scan_run_keeps in Hrun. cbn in Hrun.
  destruct (_ || _); [by injection H as <- |].
  apply IH in H. destruct H as (-> & -> & ->). done.
Qed.

Section LoaderShape.
Variable crc32_init : Z.
Variable crc32_feed : Z -> Z -> Z.
Variable crc32_finish : Z -> Z.
Variable crc64_fn : Z -> list Z -> Z.

#[local] Abbreviation load_level :=
  (loadlevelfromfile crc32_init crc32_feed crc32_finish crc64_fn).

Lemma loadlevelfromfile_shape game mem ret g rest :
  load_level game mem = Some (ret, g, rest) ->
  (ret = 0 \/ ret = 1 \/ ret = ERR_LEVEL_TOO_LARGE \/ ret = ERR_LEVEL_TOO_HIGH
   \/ ret = ERR_PLAYER_POS_UNDEFINED)
  /\ (0 <= ret ->
      1 <= field_width g <= 61 /\ 1 <= field_height g <= 62
      /\ 0 <= positionx g < field_width g /\ 0 <= positiony g < field_height g
      /\ field_wf (field g)
      /\ solution g = None /\ level g = level game).
Proof.
  unfold loadlevelfromfile. intros H.
  pose proof (load_prepare_shape game mem) as Hshape.
  destruct (load_prepare game mem) as [| err st | st filled] eqn:Hp; [discriminate | |].
  - injection H as <- _ _. split; [tauto |].
    unfold ERR_LEVEL_TOO_LARGE, ERR_LEVEL_TOO_HIGH, ERR_PLAYER_POS_UNDEFINED in Hshape. lia.
  - destruct (shift_rows filled 0 63) as [f |] eqn:Hshift; [| discriminate].
    destruct (crc32_rows _ f _ _ _ _) as [c32 |]; [| discriminate].
    destruct (crc64_rows _ f _ _ _ _) as [c64 |]; [| discriminate].
    injection H as <- <- <-.
    cbn [set_crcs set_field field field_width field_height positionx positiony
         solution level].
    cbv zeta in Hshape. destruct Hshape as (Hw & Hh & Hx & Hy & _ & Hfilled).
    split; [destruct (s_eof st); auto |]. intros _.
    do 4 (split; [done |]). split; [by eapply shift_rows_wf |].
    unfold load_prepare, load_prepare_fuel in Hp.
    destruct (scan_level _ _) as [| err1 st1 | st1] eqn:Hscan; try discriminate.
    apply scan_level_keeps in Hscan as (Hl & _ & Hsol). cbn in Hl, Hsol.
    repeat (case_hyp Hp; try discriminate Hp). injection Hp as <- _. done.
Qed.

(** [loadlevelfromfile] returns 0, 1 or one of three error codes: a level
    is never reported as too small or as without level data, because a
    text without player is turned down first. *)
Theorem loader_return_values (game : sokgame) (mem : list Z) (ret : Z)
    (g : sokgame) (rest : list Z) :
  load_level game mem = Some (ret, g, rest) ->
  (ret = 0 \/ ret = 1 \/ ret = ERR_LEVEL_TOO_LARGE \/ ret = ERR_LEVEL_TOO_HIGH
   \/ ret = ERR_PLAYER_POS_UNDEFINED)
  /\ ret <> ERR_LEVEL_TOO_SMALL /\ ret <> ERR_NO_LEVEL_DATA_FOUND.
Proof.
  intros H. apply loadlevelfromfile_shape in H as [H _]. split; [done |].
  unfold ERR_LEVEL_TOO_LARGE, ERR_LEVEL_TOO_HIGH, ERR_PLAYER_POS_UNDEFINED,
    ERR_LEVEL_TOO_SMALL, ERR_NO_LEVEL_DATA_FOUND in *. lia.
Qed.

(** A level that is loaded is at least 1 and at most 61 cells wide, at
    least 1 and at most 62 cells high, has its player inside this area and
    a field of 64 x 64 cells; it has no solution yet and keeps the level
    number of the structure it was read into. *)
Theorem loaded_level_shape (game : sokgame) (mem : list Z) (ret : Z)
    (g : sokgame) (rest : list Z) :
  load_level game mem = Some (ret, g, rest) -> 0 <= ret ->
  1 <= field_width g <= 61 /\ 1 <= field_height g <= 62
  /\ 0 <= positionx g < field_width g /\ 0 <= positiony g < field_height g
  /\ field_wf (field g)
  /\ solution g = None /\ level g = level game.
Proof. intros H. by apply loadlevelfromfile_shape in H as [_ H]. Qed.

End LoaderShape.

(** ** What [sok_loadfile] returns *)

Section LoadFileFacts.
Variable crc32_init : Z.
Variable crc32_feed : Z -> Z -> Z.
Variable crc32_finish : Z -> Z.
Variable crc64_fn : Z -> list Z -> Z.
Variable alloc_ok : Z -> bool.
Variable game_alloc : Z -> option sokgame.
Variable solfile : Z -> option (list Z).

#[local] Abbreviation games_loop :=
  (load_games crc32_init crc32_feed crc32_finish crc64_fn alloc_ok game_alloc solfile).
#[local] Abbreviation load_level :=
  (loadlevelfromfile crc32_init crc32_feed crc32_finish crc64_fn).
#[local] Abbreviation good := (levels_ok alloc_ok solfile).

Ltac err_lia :=
  unfold ERR_UNDEFINED, ERR_LEVEL_TOO_HIGH, ERR_LEVEL_TOO_LARGE, ERR_LEVEL_TOO_SMALL,
    ERR_MEM_ALLOC_FAILED, ERR_NO_LEVEL_DATA_FOUND, ERR_TOO_MANY_LEVELS_IN_SET,
    ERR_UNABLE_TO_OPEN_FILE, ERR_PLAYER_POS_UNDEFINED in *; lia.

(** The exits of the loop over the levels. *)
Lemma load_games_exit fuel : forall maxlevels level mem gamelist heap e,
  maxlevels <= 65535 -> good level gamelist heap -> length heap = Z.to_nat level ->
  level <= Z.max 0 maxlevels ->
  games_loop fuel maxlevels level mem gamelist heap = Some e ->
  (e_errflag e < 0 ->
   e_errflag e = ERR_MEM_ALLOC_FAILED \/ e_errflag e = ERR_TOO_MANY_LEVELS_IN_SET
   \/ e_errflag e = ERR_LEVEL_TOO_LARGE \/ e_errflag e = ERR_LEVEL_TOO_HIGH
   \/ e_errflag e = ERR_PLAYER_POS_UNDEFINED)
  /\ (0 <= e_errflag e -> 1 <= e_level e <= maxlevels)
  /\ exists heap0,
       good (e_level e) (e_gamelist e) heap0
       /\ length heap0 = Z.to_nat (e_level e)
       /\ ((e_game e = None /\ e_heap e = heap0)
           \/ exists g, e_game e = Some (length heap0)
                        /\ e_heap e = heap0 ++ [Some g]).
Proof.
  induction fuel as [| fuel IH]; intros M level mem gl heap e HM Hgood Hlen Hle H;
    [discriminate |].
  cbn [load_games] in H.
  destruct (game_alloc level) as [fresh |].
  2: { injection H as <-; cbn. split; [auto |]. split; [err_lia |]. exists heap. auto. }
  destruct (load_level fresh mem) as [[[errflag g] mem'] |] eqn:Hload; [| discriminate].
  apply loadlevelfromfile_shape in Hload as [Hret Hshape].
  pose proof Hgood as [Hl0 Hslots].
  destruct (Z.ltb_spec errflag 0).
  { injection H as <-. cbn.
    split; [| split; [| exists heap; split; [done |]; split; [done |]; right; by exists g]].
    - intros Hneg. destruct (Z.eqb_spec level 0) as [-> | Hne]; [| lia].
      destruct Hret as [-> | [-> | Hret]]; [lia | lia | tauto].
    - destruct (Z.eqb_spec level 0) as [-> | Hne]; lia. }
  destruct (Z.leb_spec M level).
  { injection H as <-; cbn. split; [auto |]. split; [err_lia |].
    exists heap. split; [done |]. split; [done |]. right. by exists g. }
  destruct (Nat.ltb_spec (Z.to_nat level) (length gl)); [| discriminate].
  assert (ushort (level + 1) = level + 1) as Hu
    by (unfold ushort; apply Z.mod_small; lia).
  rewrite Hu in H.
  assert (good (level + 1) (<[Z.to_nat level := Some (length heap)]> gl)
               (heap ++ [Some (set_level_solution g (level + 1)
                            (Save.solution_load alloc_ok (solfile (crc64 g))))])) as Hgood'.
  { split; [lia |]. intros i Hi.
    destruct (decide (i = Z.to_nat level)) as [-> | Hne].
    - rewrite Hlen. split; [by apply list_lookup_insert_eq |].
      eexists. split.
      + rewrite lookup_app_r by lia. by rewrite Hlen, Nat.sub_diag.
      + destruct (Hshape ltac:(lia)) as (Hw & Hh & Hx & Hy & Hwf & _).
        unfold level_ok, set_level_solution. cbn.
        split; [lia |]. do 4 (split; [done |]). by split.
    - rewrite list_lookup_insert_ne by done.
      destruct (Hslots i) as [Hgl (g0 & Hg0 & Hok)]; [lia |].
      split; [done |]. exists g0. split; [| done].
      rewrite lookup_app_l; [done |]. by eapply lookup_lt_Some. }
  assert (length (heap ++ [Some (set_level_solution g (level + 1)
                     (Save.solution_load alloc_ok (solfile (crc64 g))))])
          = Z.to_nat (level + 1)) as Hlen'.
  { rewrite length_app. cbn. lia. }
  destruct (errflag =? 0).
  - eapply IH in H; [exact H | done | exact Hgood' | done | lia].
  - injection H as <-. cbn.
    split; [destruct Hret as [-> | [-> | ?]]; err_lia |]. split; [lia |].
    eexists. split; [exact Hgood' |]. split; [done |]. by left.
Qed.

(** When the loop is left, [sok_freegame] frees the structure that was
    not stored, if there is one, and the stored ones are all there. *)
Lemma exit_freegame n gl heap0 game heap :
  good n gl heap0 -> length heap0 = Z.to_nat n ->
  (game = None /\ heap = heap0)
  \/ (exists g, game = Some (length heap0) /\ heap = heap0 ++ [Some g]) ->
  exists heap1,
    sok_freegame game heap = Some heap1
    /\ good n gl heap1
    /\ (forall i cell, heap1 !! i = Some cell -> (Z.to_nat n <= i)%nat -> cell = None).
Proof.
  intros [Hn Hslots] Hlen [[-> ->] | (g & -> & ->)]; cbn [sok_freegame].
  - exists heap0. split; [done |]. split; [done |].
    intros i cell Hi Hge. apply lookup_lt_Some in Hi. lia.
  - rewrite lookup_app_r, Nat.sub_diag by lia. cbn [lookup list_lookup].
    rewrite insert_app_r_alt, Nat.sub_diag by lia. cbn [insert list_insert].
    eexists. split; [done |]. split.
    + split; [done |]. intros i Hi. destruct (Hslots i Hi) as [Hgl (g0 & Hg0 & Hok)].
      split; [done |]. exists g0. split; [| done].
      rewrite lookup_app_l; [done |]. by eapply lookup_lt_Some.
    + intros i cell Hi Hge. apply lookup_lt_Some in Hi as Hb.
      rewrite length_app in Hb. cbn in Hb.
      rewrite lookup_app_r in Hi by lia.
      replace (i - length heap0)%nat with 0%nat in Hi by lia. by injection Hi as <-.
Qed.

Variable ungz : list Z -> option (list Z).

(** What [sok_loadfile] returns is a number of levels between 1 and
    [maxlevels], never 0, or one of six error codes, each of which
    [sok_strerr] knows; when it is an error, every level structure that was
    allocated has been freed. *)
Theorem sok_loadfile_return (maxlevels : Z) (memptr : option (list Z)) (res : loaded) :
  maxlevels <= 65535 ->
  sok_loadfile crc32_init crc32_feed crc32_finish crc64_fn alloc_ok game_alloc
               solfile ungz maxlevels memptr = Some res ->
  1 <= l_ret res <= maxlevels
  \/ ((l_ret res = ERR_UNABLE_TO_OPEN_FILE \/ l_ret res = ERR_MEM_ALLOC_FAILED
       \/ l_ret res = ERR_TOO_MANY_LEVELS_IN_SET \/ l_ret res = ERR_LEVEL_TOO_LARGE
       \/ l_ret res = ERR_LEVEL_TOO_HIGH \/ l_ret res = ERR_PLAYER_POS_UNDEFINED)
      /\ sok_strerr (l_ret res) <> "Unknown error"%string
      /\ Forall (fun cell => cell = None) (l_heap res)).
Proof.
  intros HM H.
  assert (forall r,
            r = ERR_UNABLE_TO_OPEN_FILE \/ r = ERR_MEM_ALLOC_FAILED
            \/ r = ERR_TOO_MANY_LEVELS_IN_SET \/ r = ERR_LEVEL_TOO_LARGE
            \/ r = ERR_LEVEL_TOO_HIGH \/ r = ERR_PLAYER_POS_UNDEFINED ->
            sok_strerr r <> "Unknown error"%string) as Hknown.
  { intros r [-> | [-> | [-> | [-> | [-> | ->]]]]]; discriminate. }
  assert (forall heap, heap = [] ->
            (ERR_UNABLE_TO_OPEN_FILE = ERR_UNABLE_TO_OPEN_FILE
             \/ ERR_UNABLE_TO_OPEN_FILE = ERR_MEM_ALLOC_FAILED
             \/ ERR_UNABLE_TO_OPEN_FILE = ERR_TOO_MANY_LEVELS_IN_SET
             \/ ERR_UNABLE_TO_OPEN_FILE = ERR_LEVEL_TOO_LARGE
             \/ ERR_UNABLE_TO_OPEN_FILE = ERR_LEVEL_TOO_HIGH
             \/ ERR_UNABLE_TO_OPEN_FILE = ERR_PLAYER_POS_UNDEFINED)
            /\ sok_strerr ERR_UNABLE_TO_OPEN_FILE <> "Unknown error"%string
            /\ Forall (fun cell : option sokgame => cell = None) heap) as Hunable.
  { intros heap ->. split; [auto |]. split; [discriminate | constructor]. }
  unfold sok_loadfile in H.
  destruct memptr as [mem |]; [| injection H as <-; right; by apply Hunable].
  destruct (_ =? 0); [injection H as <-; right; by apply Hunable |].
  destruct (if isGz mem _ then _ else _) as [mem1 |];
    [| injection H as <-; right; by apply Hunable].
  destruct (load_games _ _ _ _ _ _) as [e |] eqn:Hloop; [| discriminate].
  apply load_games_exit in Hloop as (Hneg & Hpos & heap0 & Hgood & Hlen & Hgame);
    [| done | | done | lia].
  2: { split; [lia |]. intros i Hi. cbn in Hi. lia. }
  destruct (exit_freegame _ _ _ _ _ Hgood Hlen Hgame) as (heap1 & Hfg & Hgood1 & Hrest).
  rewrite Hfg in H.
  destruct (Z.ltb_spec (e_errflag e) 0) as [Herr | Hok].
  - destruct (sok_freefile_all (e_gamelist e) (Z.to_nat (e_level e)) 0 heap1)
      as (heap2 & Hff & Hlen2 & Hfreed & Hkept).
    { intros i Hi. destruct Hgood1 as [_ Hslots].
      destruct (Hslots i) as [Hgl (g & Hg & _)]; [lia |]. split; [done |]. by exists g. }
    rewrite Hff in H. injection H as <-. cbn. right.
    split; [specialize (Hneg Herr); tauto |].
    split; [apply Hknown; specialize (Hneg Herr); tauto |].
    apply Forall_lookup. intros i cell Hi.
    destruct (Nat.lt_ge_cases i (Z.to_nat (e_level e))) as [Hlt | Hge].
    + rewrite Hfreed in Hi by lia. by injection Hi as <-.
    + rewrite Hkept in Hi by lia. by eapply Hrest.
  - injection H as <-. cbn. left. by apply Hpos.
Qed.

(** When [sok_loadfile] returns a number of levels, the first slots of the
    list, as many as that, point to level structures that are numbered from
    1 on in the order of the file; each one has a size between 1 x 1 and
    61 x 62, its player inside, a field of 64 x 64 cells, and for solution
    what [solution_load] finds under its CRC64. *)
Theorem sok_loadfile_levels (maxlevels : Z) (memptr : option (list Z)) (res : loaded) :
  maxlevels <= 65535 ->
  sok_loadfile crc32_init crc32_feed crc32_finish crc64_fn alloc_ok game_alloc
               solfile ungz maxlevels memptr = Some res ->
  0 <= l_ret res ->
  levels_ok alloc_ok solfile (l_ret res) (l_gamelist res) (l_heap res).
Proof.
  intros HM H Hret. unfold sok_loadfile in H.
  destruct memptr as [mem |]; [| injection H as <-; cbn in Hret; err_lia].
  destruct (_ =? 0); [injection H as <-; cbn in Hret; err_lia |].
  destruct (if isGz mem _ then _ else _) as [mem1 |];
    [| injection H as <-; cbn in Hret; err_lia].
  destruct (load_games _ _ _ _ _ _) as [e |] eqn:Hloop; [| discriminate].
  apply load_games_exit in Hloop as (Hneg & Hpos & heap0 & Hgood & Hlen & Hgame);
    [| done | | done | lia].
  2: { split; [lia |]. intros i Hi. cbn in Hi. lia. }
  destruct (exit_freegame _ _ _ _ _ Hgood Hlen Hgame) as (heap1 & Hfg & Hgood1 & Hrest).
  rewrite Hfg in H.
  destruct (Z.ltb_spec (e_errflag e) 0) as [Herr | Hok].
  - destruct (sok_freefile _ _ _ _); [| discriminate]. injection H as <-.
    cbn in Hret. lia.
  - by injection H as <-.
Qed.

End LoadFileFacts.

(** ** The loader reads any text *)

Lemma short_runs_suffix mem : forall mem',
  mem' `suffix_of` mem -> short_runs mem = true -> short_runs mem' = true.
Proof.
  induction mem as [| b mem IH]; intros mem' Hsuf Hshort.
  - apply suffix_nil_inv in Hsuf as ->. done.
  - destruct mem' as [| b' mem']; [done |].
    apply suffix_cons_inv in Hsuf as [-> | Hsuf]; [done |].
    cbn [short_runs] in Hshort. apply andb_true_iff in Hshort as [_ Hshort]. by apply IH.
Qed.

Lemma short_runs_head mem : short_runs mem = true -> (digits_ahead mem <= 9)%nat.
Proof.
  destruct mem as [| b mem]; [cbn; lia |]. cbn [short_runs]. intros H.
  apply andb_true_iff in H as [H _]. by apply Nat.leb_le in H.
Qed.

(** A count of at most nine digits is read without overflow. *)
Lemma readRLEbyte_short mem : forall (k : nat) r,
  (digits_ahead mem <= k)%nat -> (k <= 9)%nat -> r < 10 ^ (9 - Z.of_nat k) ->
  is_Some (readRLEbyte mem r).
Proof.
  induction mem as [| b mem IH]; intros k r Hd Hk Hr; [by eexists |].
  cbn [readRLEbyte readbytefrommem]. cbn [digits_ahead] in Hd. unfold is_digit in Hd.
  destruct (_ <? 0); [by eexists |].
  destruct ((code "0" <=? (if b =? 0 then -1 else b))
            && ((if b =? 0 then -1 else b) <=? code "9")) eqn:Hdig; [| by eexists].
  assert (b <> 0) as Hb.
  { intros ->. cbn in Hdig. discriminate. }
  rewrite (proj2 (Z.eqb_neq b 0) Hb) in Hdig |- *. rewrite Hdig in Hd.
  destruct k as [| k]; [lia |].
  apply andb_true_iff in Hdig as [Hlo Hhi].
  apply Z.leb_le in Hlo, Hhi. change (code "0") with 48 in *. change (code "9") with 57 in *.
  assert (10 ^ (9 - Z.of_nat k) = 10 * 10 ^ (9 - Z.of_nat (S k))) as Hpow.
  { rewrite <- Z.pow_succ_r by lia. f_equal. lia. }
  assert (0 < 10 ^ (9 - Z.of_nat (S k))) as Hpos by (apply Z.pow_pos_nonneg; lia).
  assert (10 ^ (9 - Z.of_nat k) <= 10 ^ 9) as Hmax by (apply Z.pow_le_mono_r; lia).
  set (r' := (if 0 <? r then r * 10 else 0) + (b - 48)).
  assert (r' < 10 ^ (9 - Z.of_nat k)) as Hr'.
  { subst r'. destruct (Z.ltb_spec 0 r); lia. }
  destruct (Z.ltb_spec INT_MAX r') as [Hover |].
  { unfold INT_MAX in Hover. change (10 ^ 9) with 1000000000 in Hmax. lia. }
  apply (IH k); [lia | lia | done].
Qed.

Lemma readRLEbyte_safe mem :
  short_runs mem = true -> is_Some (readRLEbyte mem (-1)).
Proof.
  intros H. apply short_runs_head in H.
  apply (readRLEbyte_short mem 9); [done | done |]. cbn. lia.
Qed.

(** *** What is left of the text is a suffix of it *)

Lemma readRLEbyte_suffix mem : forall r rle b mem',
  readRLEbyte mem r = Some (rle, b, mem') -> mem' `suffix_of` mem.
Proof.
  induction mem as [| c mem IH]; intros r rle b mem' H.
  - cbn in H. by injection H as <- <- <-.
  - cbn [readRLEbyte readbytefrommem] in H.
    destruct (_ <? 0); [injection H as <- <- <-; by apply suffix_cons_r |].
    destruct (_ && _).
    + destruct (INT_MAX <? _); [discriminate |].
      apply IH in H. by apply suffix_cons_r.
    + injection H as <- <- <-. by apply suffix_cons_r.
Qed.

Lemma skip_comment_suffix mem : (skip_comment mem).2 `suffix_of` mem.
Proof.
  induction mem as [| c mem IH]; [done |].
  cbn [skip_comment readbytefrommem].
  assert ((skip_comment mem).2 `suffix_of` (c :: mem)) as Hrec by (by apply suffix_cons_r).
  destruct (_ =? 13); [exact Hrec |].
  destruct (_ =? 10); [by apply suffix_cons_r |].
  destruct (_ <? 0); [by apply suffix_cons_r | exact Hrec].
Qed.

Lemma scan_symbol_suffix st st1 :
  scan_symbol st = Some st1 -> s_mem st1 `suffix_of` s_mem st.
Proof.
  unfold scan_symbol. intros H.
  pose proof (skip_comment_suffix (s_mem st)) as Hskip.
  destruct (skip_comment (s_mem st)) as [b mem']. simpl in Hskip.
  repeat match type of H with
         | (if ?c then _ else _) = _ => destruct c
         | _ <$> mark_cell ?flag ?s = _ =>
             let E := fresh "E" in
             destruct (mark_cell flag s) eqn:E; [apply mark_cell_mem in E |];
             cbn in H; [| discriminate H]
         | match mark_cell ?flag ?s with _ => _ end = _ =>
             let E := fresh "E" in
             destruct (mark_cell flag s) eqn:E; [apply mark_cell_mem in E |];
             [| discriminate H]
         end;
    injection H as <-; cbn [s_mem next_column put_player] in *;
    repeat match goal with
           | E : s_mem _ = _ |- _ => rewrite E; clear E
           end; done.
Qed.

Lemma scan_run_suffix n : forall st st1,
  scan_run n st = ScanOk st1 -> s_mem st1 `suffix_of` s_mem st.
Proof.
  induction n as [| n IH]; intros st st1 H; [by injection H as <- |].
  cbn [scan_run] in H.
  destruct (scan_symbol st) as [st0 |] eqn:Hs; [| discriminate].
  apply scan_symbol_suffix in Hs.
  destruct (_ || _); [injection H as <-; done |].
  destruct (62 <=? _); [discriminate |]. destruct (62 <=? _); [discriminate |].
  apply IH in H. cbn in H. by etrans.
Qed.

(** *** No access outside the field while a level is read *)

Lemma mark_cell_defined flag st :
  field_wf (field (s_game st)) -> 0 <= s_x st <= 62 -> 0 <= s_y st <= 62 ->
  exists st1, mark_cell flag st = Some st1
              /\ field_wf (field (s_game st1))
              /\ s_x st1 = s_x st /\ s_y st1 = s_y st.
Proof.
  intros Hwf Hx Hy. unfold mark_cell, field_modify.
  destruct (field_get_Some (field (s_game st)) (s_x st + 1) (s_y st + 1) Hwf) as [c ->].
  { unfold in_field. lia. }
  eexists. split; [reflexivity |]. cbn. split; [by apply field_put_wf | done].
Qed.

Lemma scan_symbol_defined st :
  scan_inv st -> field_wf (field (s_game st)) -> is_Some (scan_symbol st).
Proof.
  intros (Hx & Hy & _) Hwf. unfold scan_symbol.
  assert (forall flag, exists st1, mark_cell flag st = Some st1
                                   /\ field_wf (field (s_game st1))
                                   /\ s_x st1 = s_x st /\ s_y st1 = s_y st) as Hmark.
  { intros flag. apply mark_cell_defined; [done | lia | lia]. }
  assert (forall flag, is_Some (mark_cell flag (put_player st))) as Hmark'.
  { intros flag. destruct (mark_cell_defined flag (put_player st)) as (st1 & -> & _);
      [done | cbn; lia | cbn; lia | by eexists]. }
  destruct (skip_comment (s_mem st)) as [b mem'].
  repeat match goal with
         | |- is_Some (if ?c then _ else _) => destruct c
         end; try (by eexists).
  - destruct (Hmark field_floor) as (st1 & -> & _). by eexists.
  - destruct (Hmark field_wall) as (st1 & -> & _). by eexists.
  - destruct (Hmark field_floor) as (st1 & -> & _). by eexists.
  - destruct (Hmark field_goal) as (st1 & -> & Hwf1 & Hx1 & Hy1).
    destruct (mark_cell_defined field_atom st1) as (st2 & -> & _); [done | lia | lia |].
    by eexists.
  - destruct (Hmark field_atom) as (st1 & -> & _). by eexists.
  - destruct (Hmark' field_goal) as [st1 ->]. by eexists.
  - destruct (Hmark field_goal) as (st1 & -> & _). by eexists.
Qed.

Lemma scan_run_safe n : forall st,
  scan_inv st -> 0 <= s_started st -> s_eof st = false ->
  field_wf (field (s_game st)) ->
  scan_run n st <> ScanUB.
Proof.
  induction n as [| n IH]; intros st Hinv Hst Heof Hwf; [done |].
  pose proof (scan_run_inv 1 st Hinv Hst Heof) as Hstep.
  cbn [scan_run] in Hstep |- *.
  destruct (scan_symbol_defined st Hinv Hwf) as [st1 Hs]. rewrite Hs in Hstep |- *.
  apply scan_symbol_wf in Hs as Hwf1; [| done].
  destruct ((s_started st1 <? 0) || s_eof st1) eqn:Hbreak; [done |].
  destruct (62 <=? s_x st1); [done |]. destruct (62 <=? s_y st1); [done |].
  apply orb_false_iff in Hbreak as [Hs1 He1]. apply Z.ltb_ge in Hs1.
  apply IH; cbn [s_started s_eof s_game set_size field]; [done | | done | done].
  destruct (0 <? s_x st1); lia.
Qed.

Lemma scan_level_safe fuel : forall st,
  scan_inv st -> 0 <= s_started st -> field_wf (field (s_game st)) ->
  short_runs (s_mem st) = true -> (length (s_mem st) < fuel)%nat ->
  scan_level fuel st <> ScanUB.
Proof.
  induction fuel as [| fuel IH]; intros st Hinv Hst Hwf Hshort Hfuel; [lia |].
  cbn [scan_level].
  destruct (readRLEbyte_safe _ Hshort) as [[[rle b] mem'] Hr]. rewrite Hr.
  apply readRLEbyte_length in Hr as Hlen. apply readRLEbyte_suffix in Hr as Hsuf.
  cbn [s_eof]. destruct (s_eof st || (rle <? 0)) eqn:Heof; [done |].
  apply orb_false_iff in Heof as [_ Hrle]. apply Z.ltb_ge in Hrle.
  pose proof (scan_run_inv (Z.to_nat rle) (mkscan (s_game st) (s_x st) (s_y st)
                (s_started st) false b mem') Hinv Hst eq_refl) as Hinv1.
  pose proof (scan_run_safe (Z.to_nat rle) (mkscan (s_game st) (s_x st) (s_y st)
                (s_started st) false b mem') Hinv Hst eq_refl Hwf) as Hsafe.
  destruct (scan_run _ _) as [| err st1 | st1] eqn:Hrun; [done | done |].
  destruct ((s_started st1 <? 0) || s_eof st1) eqn:Hbreak; [done |].
  apply orb_false_iff in Hbreak as [Hs1 _]. apply Z.ltb_ge in Hs1.
  apply scan_run_wf in Hrun as Hwf1; [| done].
  apply scan_run_length in Hrun as Hlen1. apply scan_run_suffix in Hrun as Hsuf1.
  cbn [s_mem] in Hlen1, Hsuf1.
  apply IH; [done | done | done | | ].
  - eapply short_runs_suffix; [| exact Hshort]. by etrans.
  - destruct Hlen as [_ Hlt]. specialize (Hlt Hrle). lia.
Qed.

Lemma shift_row_defined y : forall n f x,
  field_wf f -> 0 <= y < 63 -> 0 <= x -> x + Z.of_nat n <= 63 ->
  is_Some (shift_row f y x n).
Proof.
  induction n as [| n IH]; intros f x Hwf Hy Hx Hn; [by eexists |].
  cbn [shift_row].
  destruct (field_get_Some f (x + 1) (y + 1) Hwf) as [v ->]; [unfold in_field; lia |].
  unfold field_modify.
  destruct (field_get_Some f x y Hwf) as [c ->]; [unfold in_field; lia |].
  apply IH; [by apply field_put_wf | done | lia | lia].
Qed.

Lemma shift_rows_defined n : forall f y,
  field_wf f -> 0 <= y -> y + Z.of_nat n <= 63 -> is_Some (shift_rows f y n).
Proof.
  induction n as [| n IH]; intros f y Hwf Hy Hn; [by eexists |].
  cbn [shift_rows].
  destruct (shift_row_defined y 63 f 0 Hwf) as [f1 Hrow]; [lia | lia | lia |].
  rewrite Hrow. apply IH; [by eapply shift_row_wf | lia | lia].
Qed.

Section LoaderTotal.
Variable crc32_init : Z.
Variable crc32_feed : Z -> Z -> Z.
Variable crc32_finish : Z -> Z.
Variable crc64_fn : Z -> list Z -> Z.

Lemma crc32_row_defined f y : forall n x crc,
  field_wf f -> 0 <= y < 64 -> 0 <= x -> x + Z.of_nat n <= 64 ->
  is_Some (crc32_row crc32_feed f crc y x n).
Proof.
  induction n as [| n IH]; intros x crc Hwf Hy Hx Hn; [by eexists |].
  cbn [crc32_row].
  destruct (field_get_Some f x y Hwf) as [c ->]; [unfold in_field; lia |].
  apply IH; done || lia.
Qed.

Lemma crc32_rows_defined f h : forall n y crc,
  field_wf f -> 0 <= h <= 64 -> 0 <= y -> y + Z.of_nat n <= 64 ->
  is_Some (crc32_rows crc32_feed f h crc y n).
Proof.
  induction n as [| n IH]; intros y crc Hwf Hh Hy Hn; [by eexists |].
  cbn [crc32_rows].
  destruct (crc32_row_defined f y (Z.to_nat h) 0 crc Hwf) as [crc' ->]; [lia | lia | lia |].
  apply IH; done || lia.
Qed.

Lemma crc64_row_defined f y : forall n x crc,
  field_wf f -> 0 <= y < 64 -> 0 <= x -> x + Z.of_nat n <= 64 ->
  is_Some (crc64_row crc64_fn f crc y x n).
Proof.
  induction n as [| n IH]; intros x crc Hwf Hy Hx Hn; [by eexists |].
  cbn [crc64_row].
  destruct (field_get_Some f x y Hwf) as [c ->]; [unfold in_field; lia |].
  apply IH; done || lia.
Qed.

Lemma crc64_rows_defined f w : forall n y crc,
  field_wf f -> 0 <= w <= 64 -> 0 <= y -> y + Z.of_nat n <= 64 ->
  is_Some (crc64_rows crc64_fn f w crc y n).
Proof.
  induction n as [| n IH]; intros y crc Hwf Hw Hy Hn; [by eexists |].
  cbn [crc64_rows].
  destruct (crc64_row_defined f y (Z.to_nat w) 0 crc Hwf) as [crc' ->]; [lia | lia | lia |].
  apply IH; done || lia.
Qed.

Lemma loadlevelfromfile_defined game mem :
  short_runs mem = true ->
  is_Some (loadlevelfromfile crc32_init crc32_feed crc32_finish crc64_fn game mem).
Proof.
  intros Hshort. unfold loadlevelfromfile.
  pose proof (load_prepare_shape game mem) as Hshape.
  destruct (load_prepare game mem) as [| err st | st filled] eqn:Hp.
  - exfalso. unfold load_prepare, load_prepare_fuel in Hp.
    pose proof (scan_level_safe (S (length mem)) _ (scan_inv_start game mem)) as Hsafe.
    cbn [s_started s_game field s_mem] in Hsafe.
    specialize (Hsafe ltac:(lia) (field_wf_replicate _) Hshort ltac:(lia)).
    destruct (scan_level _ _) as [| err st | st] eqn:Hscan; [done | done |].
    apply scan_level_wf in Hscan; [| apply field_wf_replicate].
    destruct (flood_defined flood_fuel (field (s_game st)) 63 63 Hscan) as (f' & Hf & _);
      [by apply count_floor_wf |].
    rewrite Hf in Hp. repeat (case_hyp Hp; try discriminate Hp).
  - by eexists.
  - cbv zeta in Hshape. destruct Hshape as (Hw & Hh & Hx & Hy & _ & Hfilled).
    destruct (shift_rows_defined 63 filled 0 Hfilled) as [f Hshift]; [lia | lia |].
    rewrite Hshift. apply shift_rows_wf in Hshift; [| done].
    destruct (crc32_rows_defined f (field_height (s_game st))
                (Z.to_nat (field_width (s_game st))) 0 crc32_init Hshift) as [c32 ->];
      [lia | lia | lia |].
    destruct (crc64_rows_defined f (field_width (s_game st))
                (Z.to_nat (field_height (s_game st))) 0
                (crc64_fn 0 [positionx (s_game st) mod 256; positiony (s_game st) mod 256])
                Hshift) as [c64 ->]; [lia | lia | lia |].
    by eexists.
Qed.

(** On every text that has nowhere more than nine digits in a row (so
    that no repeat count overflows an [int]), the loops of
    [loadlevelfromfile] end and every access to the field stays inside
    its 64 x 64 cells: the call returns.  The buffers that take the text
    of the comment lines are not looked at here. *)
Theorem loader_reads_any_text (game : sokgame) (mem : list Z) :
  short_runs mem = true ->
  is_Some (loadlevelfromfile crc32_init crc32_feed crc32_finish crc64_fn game mem).
Proof. apply loadlevelfromfile_defined. Qed.

End LoaderTotal.

Lemma scan_level_suffix fuel : forall st0 st,
  scan_level fuel st0 = ScanOk st -> s_mem st `suffix_of` s_mem st0.
Proof.
  induction fuel as [| fuel IH]; intros st0 st H; [discriminate |].
  cbn [scan_level] in H.
  destruct (readRLEbyte (s_mem st0) (-1)) as [[[rle b] mem'] |] eqn:Hr; [| discriminate].
  apply readRLEbyte_suffix in Hr. cbn [s_eof] in H.
  destruct (s_eof st0 || (rle <? 0)); [by injection H as <- |].
  destruct (scan_run (Z.to_nat rle) _) as [| err1 st1 | st1] eqn:Hrun; try discriminate.
  apply scan_run_suffix in Hrun. cbn in Hrun.
  destruct (_ || _).
  - injection H as <-. by etrans.
  - apply IH in H. etrans; [exact H |]. by etrans.
Qed.

Section LoadFileTotal.
Variable crc32_init : Z.
Variable crc32_feed : Z -> Z -> Z.
Variable crc32_finish : Z -> Z.
Variable crc64_fn : Z -> list Z -> Z.
Variable alloc_ok : Z -> bool.
Variable game_alloc : Z -> option sokgame.
Variable solfile : Z -> option (list Z).
Variable ungz : list Z -> option (list Z).

#[local] Abbreviation games_loop :=
  (load_games crc32_init crc32_feed crc32_finish crc64_fn alloc_ok game_alloc solfile).
#[local] Abbreviation load_level :=
  (loadlevelfromfile crc32_init crc32_feed crc32_finish crc64_fn).

Lemma loadlevelfromfile_suffix game mem ret g rest :
  load_level game mem = Some (ret, g, rest) -> 0 <= ret -> rest `suffix_of` mem.
Proof.
  unfold loadlevelfromfile. intros H Hret.
  destruct (load_prepare game mem) as [| err st | st filled] eqn:Hp; [discriminate | |].
  - injection H as <- _ _. apply load_prepare_err in Hp as [? _]. lia.
  - assert (s_mem st = rest) as <-.
    { repeat (case_hyp H; try discriminate H); congruence. }
    clear H. unfold load_prepare, load_prepare_fuel in Hp.
    destruct (scan_level _ _) as [| err1 st1 | st1] eqn:Hscan; try discriminate.
    apply scan_level_suffix in Hscan. cbn [s_mem] in Hscan.
    repeat (case_hyp Hp; try discriminate Hp). by injection Hp as <- _.
Qed.

Lemma load_games_defined fuel : forall maxlevels level mem gamelist heap,
  maxlevels <= 65535 -> 0 <= level -> length gamelist = Z.to_nat maxlevels ->
  short_runs mem = true -> (length mem < fuel)%nat ->
  is_Some (games_loop fuel maxlevels level mem gamelist heap).
Proof.
  induction fuel as [| fuel IH]; intros M level mem gl heap HM Hlevel Hgl Hshort Hfuel;
    [lia |].
  cbn [load_games].
  destruct (game_alloc level) as [fresh |]; [| by eexists].
  destruct (loadlevelfromfile_defined crc32_init crc32_feed crc32_finish crc64_fn
              fresh mem Hshort) as [[[errflag g] mem'] Hload].
  rewrite Hload.
  destruct (Z.ltb_spec errflag 0); [by eexists |].
  destruct (Z.leb_spec M level); [by eexists |].
  destruct (Nat.ltb_spec (Z.to_nat level) (length gl)); [| lia].
  destruct (Z.eqb_spec errflag 0) as [-> | _]; [| by eexists].
  apply loadlevelfromfile_suffix in Hload as Hsuf; [| done].
  apply loadlevelfromfile_consumes in Hload.
  apply IH; [done | | by rewrite length_insert | | lia].
  - unfold ushort. pose proof (Z.mod_pos_bound (level + 1) 65536). lia.
  - by eapply short_runs_suffix.
Qed.

(** [sok_loadfile] returns on every buffer: it reads the text to its end
    or to the first error without an access outside the field of a level,
    the list of the caller or a freed structure, as long as the text has
    nowhere more than nine digits in a row.  The buffers that take the
    text of the comment lines are not looked at here. *)
Theorem sok_loadfile_reads_any_text (maxlevels : Z) (mem : list Z) :
  maxlevels <= 65535 ->
  (forall text,
      (if isGz mem (Z.of_nat (length mem)) then ungz mem else Some mem) = Some text ->
      short_runs text = true) ->
  is_Some (sok_loadfile crc32_init crc32_feed crc32_finish crc64_fn alloc_ok game_alloc
                        solfile ungz maxlevels (Some mem)).
Proof.
  intros HM Hshort. unfold sok_loadfile.
  destruct (_ =? 0); [by eexists |].
  destruct (if isGz mem _ then _ else _) as [mem1 |]; [| by eexists].
  specialize (Hshort mem1 eq_refl).
  destruct (load_games_defined (S (length mem1)) maxlevels 0 mem1
              (replicate (Z.to_nat maxlevels) None) [] HM) as [e Hloop];
    [lia | apply length_replicate | done | lia |].
  rewrite Hloop.
  apply load_games_exit in Hloop as (Hneg & Hpos & heap0 & Hgood & Hlen & Hgame);
    [| done | | done | lia].
  2: { split; [lia |]. intros i Hi. cbn in Hi. lia. }
  destruct (exit_freegame _ _ _ _ _ _ _ Hgood Hlen Hgame) as (heap1 & -> & Hgood1 & Hrest).
  destruct (e_errflag e <? 0); [| by eexists].
  destruct (sok_freefile_all (e_gamelist e) (Z.to_nat (e_level e)) 0 heap1)
    as (heap2 & -> & _).
  { intros i Hi. destruct Hgood1 as [_ Hslots].
    destruct (Hslots i) as [Hgl (g & Hg & _)]; [lia |]. split; [done |]. by exists g. }
  by eexists.
Qed.

End LoadFileTotal.

(** ** The cells of a level as its text marks them *)

Lemma field_get_replicate v i j c :
  field_get (replicate 64 (replicate 64 v)) i j = Some c -> c = v.
Proof.
  unfold field_get. destruct (in_field i j); [| done].
  destruct (replicate 64 _ !! Z.to_nat i) as [col |] eqn:Hcol; [| done].
  apply lookup_replicate in Hcol as [-> _]. intros H.
  by apply lookup_replicate in H as [-> _].
Qed.

Lemma mark_cell_put flag st st1 :
  mark_cell flag st = Some st1 ->
  exists c0, field_get (field (s_game st)) (s_x st + 1) (s_y st + 1) = Some c0
    /\ st1 = mkscan (set_field (s_game st)
                       (field_put (field (s_game st)) (s_x st + 1) (s_y st + 1)
                                  (Z.lor c0 flag)))
                    (s_x st) (s_y st) (s_started st) (s_eof st) (s_bytebuff st)
                    (s_mem st).
Proof.
  unfold mark_cell, field_modify.
  destruct (field_get _ _ _) as [c0 |]; [| done].
  intros [= <-]. by exists c0.
Qed.

(** The field, the cursor and the player after one symbol. *)
Lemma scan_symbol_cells st st1 :
  scan_symbol st = Some st1 ->
  let g := s_game st in
  let g1 := s_game st1 in
  (field g1 = field g /\ positionx g1 = positionx g /\ positiony g1 = positiony g
   /\ ((s_x st1 = 0
        /\ s_y st1 = (if s_started st =? 0 then s_y st else ushort (s_y st + 1)))
       \/ (s_x st1 = s_x st /\ s_y st1 = s_y st)))
  \/ (exists c0 v,
        field_get (field g) (s_x st + 1) (s_y st + 1) = Some c0
        /\ field g1 = field_put (field g) (s_x st + 1) (s_y st + 1) v
        /\ s_x st1 = ushort (s_x st + 1) /\ s_y st1 = s_y st
        /\ s_started st1 = s_started st /\ s_eof st1 = s_eof st
        /\ ((positionx g1 = positionx g /\ positiony g1 = positiony g
             /\ (v = Z.lor c0 field_floor \/ v = Z.lor c0 field_wall
                 \/ v = Z.lor c0 field_atom \/ v = Z.lor c0 field_goal
                 \/ v = Z.lor (Z.lor c0 field_goal) field_atom))
            \/ (positionx g1 = s_x st /\ positiony g1 = s_y st
                /\ (v = Z.lor c0 field_floor \/ v = Z.lor c0 field_goal)))).
Proof.
  unfold scan_symbol. intros H.
  destruct (skip_comment (s_mem st)) as [b mem'].
  repeat match type of H with
         | (if ?c then _ else _) = _ => destruct c
         | _ <$> mark_cell ?flag ?s = _ =>
             let E := fresh "E" in
             destruct (mark_cell flag s) eqn:E;
             [apply mark_cell_put in E as (? & ? & ->) |]; cbn in H; [| discriminate H]
         | match mark_cell ?flag ?s with _ => _ end = _ =>
             let E := fresh "E" in
             destruct (mark_cell flag s) eqn:E;
             [apply mark_cell_put in E as (? & ? & ->) |]; [| discriminate H]
         end;
    injection H as <-;
    cbn [s_game s_x s_y s_started s_eof next_column put_player set_position set_field
         field_width field_height positionx positiony level crc64 crc32_106 solution field]
      in *;
    try (right; eexists _, _; split; [eassumption |];
         do 5 (split; [reflexivity |]); auto 10; fail);
    try (left; auto 10; fail).
  right. erewrite field_get_put in H1 by eassumption. injection H1 as <-.
  rewrite field_put_put. eexists _, _. split; [eassumption |].
  do 5 (split; [reflexivity |]). auto 10.
Qed.

Lemma ahead_spec x y i j :
  ahead x y i j = true <-> y + 1 < j \/ (j = y + 1 /\ x < i).
Proof. unfold ahead. lia. Qed.

Lemma raw_cell_spec c :
  raw_cell c = true <-> c = 1 \/ c = 3 \/ c = 5 \/ c = 7 \/ c = 9.
Proof. unfold raw_cell. lia. Qed.

Lemma scan_run_raw n : forall st,
  scan_inv st -> raw_inv st -> 0 <= s_started st -> s_eof st = false ->
  match scan_run n st with
  | ScanOk st1 => raw_inv st1
  | _ => True
  end.
Proof.
  induction n as [| n IH]; intros st Hinv Hraw Hst Heof; [done |].
  pose proof (scan_run_inv 1 st Hinv Hst Heof) as Hinv2.
  cbn [scan_run] in Hinv2 |- *.
  destruct (scan_symbol st) as [st1 |] eqn:Hs; [| done].
  pose proof (scan_symbol_shape _ _ Hs) as (Hw & Hh & _). cbv zeta in Hw, Hh.
  apply scan_symbol_cells in Hs. cbv zeta in Hs.
  pose proof Hinv as (Hx & Hy & Hxw & Hhr & Hxy & Hpos & Hst0 & Hst01 & Hwh).
  destruct Hraw as [Hcells Hplayer].
  destruct ((s_started st1 <? 0) || s_eof st1) eqn:Hbreak.
  { destruct Hs as [(Hf & Hpx & Hpy & Hcur) | (c0 & v & _ & _ & _ & _ & Hs1 & He1 & _)];
      [| rewrite Hs1, He1, Heof in Hbreak; lia].
    unfold raw_inv. rewrite Hf, Hpx, Hpy, Hw, Hh. split.
    - intros i j c Hc. destruct (Hcells i j c Hc) as (H1 & H2 & H3).
      split; [done |]. split; [done |]. intros Ha. apply H3.
      apply ahead_spec in Ha. apply ahead_spec. unfold ushort in Hcur.
      destruct Hcur as [[Hx1 Hy1] | [Hx1 Hy1]]; rewrite Hx1, Hy1 in *; [| lia].
      destruct (Z.eqb_spec (s_started st) 0); [lia |].
      rewrite Z.mod_small in Ha by lia. lia.
    - intros Hp. destruct (Hplayer Hp) as [Hb Hc]. split; [| done].
      unfold ushort in Hcur. destruct Hcur as [[Hx1 Hy1] | [Hx1 Hy1]]; rewrite Hx1, Hy1 in *; [| lia].
      destruct (Z.eqb_spec (s_started st) 0); [lia |].
      rewrite Z.mod_small by lia. lia. }
  destruct (Z.leb_spec 62 (s_x st1)); [done |].
  destruct (Z.leb_spec 62 (s_y st1)); [done |].
  apply orb_false_iff in Hbreak as [Hs1 He1]. apply Z.ltb_ge in Hs1.
  apply IH; [exact Hinv2 | | cbn [s_started]; case_if; lia | done].
  unfold raw_inv.
  cbn [s_game s_x s_y set_size field_width field_height positionx positiony field].
  rewrite Hw, Hh.
  destruct Hs as [(Hf & Hpx & Hpy & Hcur)
                 | (c0 & v & Hc0 & Hf & Hx1 & Hy1 & _ & _ & Hv)].
  - rewrite Hf, Hpx, Hpy.
    assert ((if field_width (s_game st) <? s_x st1 then s_x st1
             else field_width (s_game st)) = field_width (s_game st)) as ->.
    { destruct Hcur as [[-> _] | [-> _]]; case_if; lia. }
    assert ((if (field_height (s_game st) <=? s_y st1) && (0 <? s_x st1)
             then ushort (s_y st1 + 1) else field_height (s_game st))
            = field_height (s_game st)) as ->.
    { destruct Hcur as [[-> _] | [-> ->]]; case_if; lia. }
    unfold ushort in Hcur. split.
    + intros i j c Hc. destruct (Hcells i j c Hc) as (H1 & H2 & H3).
      split; [done |]. split; [done |]. intros Ha. apply H3.
      apply ahead_spec in Ha. apply ahead_spec.
      destruct Hcur as [[Hx1 Hy1] | [Hx1 Hy1]]; rewrite Hx1, Hy1 in *; [| lia].
      destruct (Z.eqb_spec (s_started st) 0); [lia |].
      rewrite Z.mod_small in Ha by lia. lia.
    + intros Hp. destruct (Hplayer Hp) as [Hb Hc]. split; [| done].
      destruct Hcur as [[Hx1 Hy1] | [Hx1 Hy1]]; rewrite Hx1, Hy1 in *; [| lia].
      destruct (Z.eqb_spec (s_started st) 0); [lia |].
      rewrite Z.mod_small by lia. lia.
  - unfold ushort in Hx1. rewrite Z.mod_small in Hx1 by lia.
    rewrite Hf, Hx1, Hy1.
    pose proof (field_get_in _ _ _ _ Hc0) as Hin.
    destruct (Hcells _ _ _ Hc0) as (_ & _ & Hfresh).
    specialize (Hfresh ltac:(apply ahead_spec; lia)). subst c0.
    assert ((if field_width (s_game st) <? s_x st + 1 then s_x st + 1
             else field_width (s_game st)) >= s_x st + 1) as Hw2 by (case_if; lia).
    assert (field_width (s_game st)
            <= (if field_width (s_game st) <? s_x st + 1 then s_x st + 1
                else field_width (s_game st))) as Hw3 by (case_if; lia).
    unfold ushort. rewrite Z.mod_small by lia.
    assert ((if (field_height (s_game st) <=? s_y st) && (0 <? s_x st + 1)
             then s_y st + 1 else field_height (s_game st)) >= s_y st + 1)
      as Hh2 by (case_if; lia).
    assert (field_height (s_game st)
            <= (if (field_height (s_game st) <=? s_y st) && (0 <? s_x st + 1)
                then s_y st + 1 else field_height (s_game st)))
      as Hh3 by (case_if; lia).
    split.
    + intros i j c Hc.
      destruct (decide ((s_x st + 1, s_y st + 1) = (i, j))) as [[= <- <-] | Hne].
      * rewrite (field_get_put _ _ _ _ _ Hc0) in Hc. injection Hc as <-.
        split.
        { destruct Hv as [(_ & _ & [-> | [-> | [-> | [-> | ->]]]])
                         | (_ & _ & [-> | ->])]; reflexivity. }
        split; [lia |]. rewrite ahead_spec. lia.
      * rewrite field_get_put_ne in Hc by done.
        destruct (Hcells i j c Hc) as (H1 & H2 & H3).
        split; [done |]. split; [intros Hc1; specialize (H2 Hc1); lia |].
        intros Ha. apply H3. apply ahead_spec in Ha. apply ahead_spec. lia.
    + destruct Hv as [(-> & -> & _) | (-> & -> & Hv)].
      * intros Hp. destruct (Hplayer Hp) as [Hb Hc]. split; [lia |].
        rewrite field_get_put_ne; [done | done |]. intros [= ? ?]. lia.
      * intros _. split; [lia |]. rewrite (field_get_put _ _ _ _ _ Hc0).
        destruct Hv as [-> | ->]; auto.
Qed.

Lemma scan_level_raw fuel : forall st,
  scan_inv st -> raw_inv st -> 0 <= s_started st ->
  match scan_level fuel st with
  | ScanOk st1 => raw_inv st1
  | _ => True
  end.
Proof.
  induction fuel as [| fuel IH]; intros st Hinv Hraw Hst; [done |].
  cbn [scan_level].
  destruct (readRLEbyte (s_mem st) (-1)) as [[[rle b] mem'] |]; [| done].
  cbn [s_eof]. destruct (s_eof st || (rle <? 0)) eqn:Heof; [exact Hraw |].
  pose proof (scan_run_inv (Z.to_nat rle)
                (mkscan (s_game st) (s_x st) (s_y st) (s_started st)
                        false b mem') Hinv Hst eq_refl) as Hrun.
  pose proof (scan_run_raw (Z.to_nat rle)
                (mkscan (s_game st) (s_x st) (s_y st) (s_started st)
                        false b mem') Hinv Hraw Hst eq_refl) as Hrun'.
  destruct (scan_run _ _) as [| err st1 | st1]; [done | done |].
  destruct ((s_started st1 <? 0) || s_eof st1) eqn:Hbreak; [done |].
  apply orb_false_iff in Hbreak as [Hs1 _]. apply Z.ltb_ge in Hs1. by apply IH.
Qed.

Lemma raw_inv_start game mem :
  raw_inv (mkscan (mkgame 0 0 (replicate 64 (replicate 64 field_floor)) (-1) (-1)
                          (level game) (crc64 game) (crc32_106 game) None)
                  0 0 0 false 0 mem).
Proof.
  unfold raw_inv. cbn [s_game field positionx]. split; [| lia].
  intros i j c Hc. apply field_get_replicate in Hc as ->. by repeat split.
Qed.

(** The field as the symbols of the text leave it. *)
Lemma load_prepare_raw game mem st filled :
  load_prepare game mem = PrepOk st filled ->
  scan_inv st /\ raw_inv st /\ field_wf (field (s_game st))
  /\ 0 <= positionx (s_game st)
  /\ floodFillField flood_fuel (field (s_game st)) 63 63 = Some filled
  /\ level (s_game st) = level game /\ solution (s_game st) = None.
Proof.
  unfold load_prepare, load_prepare_fuel.
  pose proof (scan_level_inv (S (length mem)) _ (scan_inv_start game mem)) as Hinv.
  pose proof (scan_level_raw (S (length mem)) _ (scan_inv_start game mem)
                (raw_inv_start game mem)) as Hraw.
  cbn [s_started] in Hinv, Hraw.
  specialize (Hinv ltac:(lia)). specialize (Hraw ltac:(lia)).
  destruct (scan_level _ _) as [| err st0 | st0] eqn:Hscan; [done | done |].
  pose proof (scan_level_keeps _ _ _ Hscan) as (Hl & _ & Hsol).
  apply scan_level_wf in Hscan; [| apply field_wf_replicate].
  destruct (Z.ltb_spec (positionx (s_game st0)) 0); [done |].
  destruct (_ <? 1); [done |]. destruct (_ <? 1); [done |].
  destruct (_ =? 0); [done |].
  destruct (floodFillField _ _ _ _) as [f |] eqn:Hfill; [| done].
  intros [= <- <-]. done.
Qed.

(** *** The flood fill and the shift, cell by cell *)

(** The flood fill changes no cell but floor cells, which it empties. *)
Lemma flood_cells fuel : forall f x y f',
  floodFillField fuel f x y = Some f' ->
  forall i j c, field_get f i j = Some c ->
    field_get f' i j = Some c \/ (c = field_floor /\ field_get f' i j = Some 0).
Proof.
  induction fuel as [| fuel IH]; intros f x y f' H i j c Hc; [discriminate |].
  cbn [floodFillField] in H.
  destruct (in_field x y) eqn:Hin; [| injection H as <-; auto].
  destruct (field_get f x y) as [c0 |] eqn:Hc0; [| discriminate].
  destruct (Z.eqb_spec c0 field_floor) as [-> | _]; [| injection H as <-; auto].
  unfold field_modify in H. rewrite Hc0 in H.
  destruct (floodFillField fuel _ (x + 1) y) as [f1 |] eqn:H1; [| discriminate].
  destruct (floodFillField fuel f1 (x - 1) y) as [f2 |] eqn:H2; [| discriminate].
  destruct (floodFillField fuel f2 x (y + 1)) as [f3 |] eqn:H3; [| discriminate].
  assert (forall g g', (forall i j c, field_get g i j = Some c ->
                          field_get g' i j = Some c
                          \/ (c = field_floor /\ field_get g' i j = Some 0)) ->
            (field_get g i j = Some c \/ (c = field_floor /\ field_get g i j = Some 0)) ->
            field_get g' i j = Some c \/ (c = field_floor /\ field_get g' i j = Some 0))
    as Hstep.
  { intros g g' Hg [Hg0 | [-> Hg0]]; [by apply Hg |].
    destruct (Hg _ _ _ Hg0) as [? | [[=] _]]. auto. }
  apply (Hstep f3); [by eapply IH |].
  apply (Hstep f2); [by eapply IH |].
  apply (Hstep f1); [by eapply IH |].
  apply (Hstep (field_put f x y 0)); [by eapply IH |].
  destruct (decide ((x, y) = (i, j))) as [[= <- <-] | Hne].
  - rewrite Hc0 in Hc. injection Hc as <-. right. split; [done |].
    by eapply field_get_put.
  - left. by rewrite field_get_put_ne.
Qed.

Lemma shift_row_cells y : forall n f x f',
  shift_row f y x n = Some f' -> 0 <= x -> 0 <= y ->
  (forall i j, j <> y \/ i < x -> field_get f' i j = field_get f i j)
  /\ (forall i, x <= i < x + Z.of_nat n ->
        field_get f' i y = field_get f (i + 1) (y + 1)).
Proof.
  induction n as [| n IH]; intros f x f' H Hx Hy.
  { injection H as <-. split; [done | lia]. }
  cbn [shift_row] in H.
  destruct (field_get f (x + 1) (y + 1)) as [v |] eqn:Hv; [| discriminate].
  unfold field_modify in H.
  destruct (field_get f x y) as [c0 |] eqn:Hc0; [| discriminate].
  pose proof (field_get_in _ _ _ _ Hc0) as Hin.
  apply IH in H as [Hother Hrow]; [| lia | lia]. split.
  - intros i j Hij. rewrite Hother by lia. apply field_get_put_ne; [done |].
    intros [= ? ?]. lia.
  - intros i Hi. destruct (decide (i = x)) as [-> | Hne].
    + rewrite Hother by lia. rewrite Hv. by eapply field_get_put.
    + rewrite Hrow by lia. apply field_get_put_ne; [done |]. intros [= ? ?]. lia.
Qed.

Lemma shift_rows_cells n : forall f y f',
  shift_rows f y n = Some f' -> 0 <= y ->
  (forall i j, j < y -> field_get f' i j = field_get f i j)
  /\ (forall i j, 0 <= i < 63 -> y <= j < y + Z.of_nat n ->
        field_get f' i j = field_get f (i + 1) (j + 1)).
Proof.
  induction n as [| n IH]; intros f y f' H Hy.
  { injection H as <-. split; [done | lia]. }
  cbn [shift_rows] in H.
  destruct (shift_row f y 0 63) as [f1 |] eqn:Hrow; [| discriminate].
  apply shift_row_cells in Hrow as [Hother Hthis]; [| lia | lia].
  apply IH in H as [Hbefore Hafter]; [| lia]. split.
  - intros i j Hj. rewrite Hbefore by lia. apply Hother. lia.
  - intros i j Hi Hj. destruct (decide (j = y)) as [-> | Hne].
    + rewrite Hbefore by lia. apply Hthis. lia.
    + rewrite Hafter by lia. apply Hother. lia.
Qed.

(** Two full fields with the same cells are the same field. *)
Lemma field_ext f f' :
  field_wf f -> field_wf f' ->
  (forall i j c, field_get f i j = Some c -> field_get f' i j = Some c) ->
  f = f'.
Proof.
  intros [Hl Hc] [Hl' Hc'] Hget.
  apply list_eq_same_length with 64%nat; [done | done |].
  intros i col col' Hi Hcol Hcol'.
  rewrite Forall_forall in Hc, Hc'.
  pose proof (Hc col ltac:(by eapply list_elem_of_lookup_2)) as Hlc.
  pose proof (Hc' col' ltac:(by eapply list_elem_of_lookup_2)) as Hlc'.
  apply list_eq_same_length with 64%nat; [done | done |].
  intros j c c' Hj Hcj Hcj'.
  specialize (Hget (Z.of_nat i) (Z.of_nat j) c).
  unfold field_get, in_field in Hget.
  replace ((0 <=? Z.of_nat i) && (Z.of_nat i <? 64) && (0 <=? Z.of_nat j)
           && (Z.of_nat j <? 64)) with true in Hget by lia.
  rewrite !Nat2Z.id, Hcol, Hcol', Hcj' in Hget.
  specialize (Hget Hcj). congruence.
Qed.

(** ** Reading a text symbol by symbol *)

Lemma cell_symbol_cases b :
  cell_symbol b = true ->
  b = 32 \/ b = 45 \/ b = 95 \/ b = 35 \/ b = 64 \/ b = 42 \/ b = 36 \/ b = 43 \/ b = 46.
Proof.
  unfold cell_symbol.
  change (code " ") with 32. change (code "-") with 45. change (code "_") with 95.
  change (code "#") with 35. change (code "@") with 64. change (code "*") with 42.
  change (code "$") with 36. change (code "+") with 43. change (code ".") with 46.
  lia.
Qed.

(** What the [switch] does with the symbol of a cell. *)
Lemma scan_symbol_cell g x y started eof b mem :
  cell_symbol b = true ->
  scan_symbol (mkscan g x y started eof b mem)
  = match field_get (field g) (x + 1) (y + 1) with
    | None => None
    | Some c0 =>
        Some (mkscan
                (mkgame (field_width g) (field_height g)
                        (field_put (field g) (x + 1) (y + 1)
                                   (Z.lor c0 (symbol_flags b)))
                        (if player_symbol b then x else positionx g)
                        (if player_symbol b then y else positiony g)
                        (level g) (crc64 g) (crc32_106 g) (solution g))
                (ushort (x + 1)) y started eof b mem)
    end.
Proof.
  intros Hb. unfold scan_symbol, symbol_flags, player_symbol. cbn [s_bytebuff].
  change (code " ") with 32. change (code "-") with 45. change (code "_") with 95.
  change (code "#") with 35. change (code "@") with 64. change (code "*") with 42.
  change (code "$") with 36. change (code "+") with 43. change (code ".") with 46.
  destruct (cell_symbol_cases b Hb)
    as [-> | [-> | [-> | [-> | [-> | [-> | [-> | [-> | ->]]]]]]]];
    repeat match goal with
           | |- context [?a =? ?b] =>
               first [change (a =? b) with false | change (a =? b) with true]
           end;
    cbn [orb]; cbv iota;
    unfold mark_cell, field_modify, put_player;
    cbn [s_game s_x s_y s_started s_eof s_bytebuff s_mem field set_position];
    destruct (field_get (field g) (x + 1) (y + 1)) as [c0 |] eqn:Hc0;
    try reflexivity.
  cbn [s_game s_x s_y s_started s_eof s_bytebuff s_mem field set_field].
  rewrite (field_get_put _ _ _ _ _ Hc0).
  cbn [fmap option_fmap option_map next_column s_game s_x s_y s_started s_eof
       s_bytebuff s_mem field set_field field_width field_height positionx positiony
       level crc64 crc32_106 solution].
  rewrite field_put_put. unfold set_flag. by rewrite Z.lor_assoc.
Qed.

(** A byte that is no digit is read as it stands, without repeat count. *)
Lemma readRLEbyte_plain b mem :
  0 < b -> is_digit b = false ->
  readRLEbyte (b :: mem) (-1) = Some (1, b, mem).
Proof.
  intros Hb Hd. unfold is_digit in Hd. cbn [readRLEbyte readbytefrommem].
  destruct (Z.eqb_spec b 0); [lia |].
  destruct (Z.ltb_spec b 0); [lia |].
  by rewrite Hd.
Qed.

Lemma cell_symbol_plain b : cell_symbol b = true -> 0 < b /\ is_digit b = false.
Proof.
  intros Hb.
  destruct (cell_symbol_cases b Hb)
    as [-> | [-> | [-> | [-> | [-> | [-> | [-> | [-> | ->]]]]]]]]; by split.
Qed.

Ltac scan_cbn :=
  cbn [s_started s_eof s_x s_y s_game s_bytebuff s_mem set_size field_width
       field_height field positionx positiony level crc64 crc32_106 solution
       orb andb];
  change (1 <? 0) with false; change (0 <? 0) with false; change (10 <? 0) with false;
  cbn [orb andb].

(** One round of the loop of the loader on the symbol of a cell. *)
Lemma scan_level_cell fuel st b rest c0 :
  cell_symbol b = true -> s_mem st = b :: rest -> s_eof st = false ->
  0 <= s_started st ->
  field_get (field (s_game st)) (s_x st + 1) (s_y st + 1) = Some c0 ->
  0 <= s_x st < 61 -> s_y st < 62 ->
  let g := s_game st in
  let x1 := s_x st + 1 in
  scan_level (S fuel) st
  = scan_level fuel
      (mkscan
         (mkgame (if field_width g <? x1 then x1 else field_width g)
                 (if field_height g <=? s_y st then ushort (s_y st + 1)
                  else field_height g)
                 (field_put (field g) (s_x st + 1) (s_y st + 1)
                            (Z.lor c0 (symbol_flags b)))
                 (if player_symbol b then s_x st else positionx g)
                 (if player_symbol b then s_y st else positiony g)
                 (level g) (crc64 g) (crc32_106 g) (solution g))
         x1 (s_y st) 1 false b rest).
Proof.
  intros Hb Hmem Heof Hst Hc0 Hx Hy g x1.
  destruct (cell_symbol_plain b Hb) as [Hpos Hdig].
  assert (ushort (s_x st + 1) = s_x st + 1) as Hu
    by (unfold ushort; apply Z.mod_small; lia).
  cbn [scan_level]. rewrite Hmem, (readRLEbyte_plain b rest Hpos Hdig), Heof.
  change (1 <? 0) with false. cbn [orb s_eof].
  change (Z.to_nat 1) with 1%nat. cbn [scan_run].
  rewrite (scan_symbol_cell _ _ _ _ _ _ _ Hb), Hc0. rewrite !Hu. scan_cbn.
  replace (s_started st <? 0) with false by lia. scan_cbn.
  replace (62 <=? s_x st + 1) with false by lia.
  replace (62 <=? s_y st) with false by lia.
  replace (0 <? s_x st + 1) with true by lia. scan_cbn.
  rewrite andb_true_r. reflexivity.
Qed.

(** One round on the end of a row. *)
Lemma scan_level_newline fuel st rest :
  s_mem st = 10 :: rest -> s_eof st = false -> 0 <= s_started st ->
  0 <= s_x st < 62 -> 0 <= s_y st < 61 -> 0 <= field_width (s_game st) ->
  scan_level (S fuel) st
  = scan_level fuel
      (mkscan (set_size (s_game st) (field_width (s_game st))
                        (field_height (s_game st)))
              0 (if s_started st =? 0 then s_y st else s_y st + 1)
              (s_started st) false 10 rest).
Proof.
  intros Hmem Heof Hst Hx Hy Hw.
  cbn [scan_level]. rewrite Hmem, (readRLEbyte_plain 10 rest) by done. rewrite Heof.
  change (1 <? 0) with false. cbn [orb s_eof]. change (Z.to_nat 1) with 1%nat. cbn [scan_run].
  unfold scan_symbol. cbn [s_bytebuff].
  change (code " ") with 32. change (code "-") with 45. change (code "_") with 95.
  change (code "#") with 35. change (code "@") with 64. change (code "*") with 42.
  change (code "$") with 36. change (code "+") with 43. change (code ".") with 46.
  repeat match goal with
         | |- context [?a =? ?b] =>
             first [change (a =? b) with false | change (a =? b) with true]
         end.
  cbn [orb]. cbv iota. scan_cbn.
  unfold ushort. rewrite (Z.mod_small (s_y st + 1)) by lia.
  replace (s_started st <? 0) with false by lia. scan_cbn.
  change (62 <=? 0) with false.
  replace (62 <=? (if s_started st =? 0 then s_y st else s_y st + 1))
    with false by (case_if; lia).
  rewrite andb_false_r.
  replace (field_width (s_game st) <? 0) with false by lia. scan_cbn.
  replace (s_started st <? 0) with false by lia. reflexivity.
Qed.

Lemma skip_comment_line cmt rest :
  Forall (fun b => 0 < b /\ b <> 10) cmt ->
  skip_comment (cmt ++ 10 :: rest) = (10, rest).
Proof.
  induction 1 as [| b cmt [Hb Hn] _ IH]; [reflexivity |].
  cbn [app skip_comment readbytefrommem].
  destruct (Z.eqb_spec b 0); [lia |].
  destruct (Z.eqb_spec b 13); [done |].
  destruct (Z.eqb_spec b 10); [done |].
  destruct (Z.ltb_spec b 0); [lia | done].
Qed.

(** One round on a comment line: before the level it is skipped, after
    the first cell it ends the level. *)
Lemma scan_level_comment fuel st cmt rest :
  s_mem st = code ";" :: cmt ++ 10 :: rest ->
  Forall (fun b => 0 < b /\ b <> 10) cmt ->
  s_eof st = false -> 0 <= s_started st ->
  0 <= s_x st < 62 -> 0 <= s_y st < 62 ->
  scan_level (S fuel) st
  = if s_started st =? 0 then
      scan_level fuel
        (mkscan (set_size (s_game st)
                   (if field_width (s_game st) <? s_x st then s_x st
                    else field_width (s_game st))
                   (if (field_height (s_game st) <=? s_y st) && (0 <? s_x st)
                    then ushort (s_y st + 1) else field_height (s_game st)))
                (s_x st) (s_y st) (if 0 <? s_x st then 1 else 0) false 10 rest)
    else ScanOk (mkscan (s_game st) (s_x st) (s_y st) (-1) false 10 rest).
Proof.
  intros Hmem Hcmt Heof Hst Hx Hy.
  cbn [scan_level]. rewrite Hmem, (readRLEbyte_plain (code ";")) by done. rewrite Heof.
  change (1 <? 0) with false. cbn [orb s_eof]. change (Z.to_nat 1) with 1%nat. cbn [scan_run].
  unfold scan_symbol. cbn [s_bytebuff s_mem].
  rewrite (skip_comment_line _ _ Hcmt).
  change (code ";") with 59.
  change (code " ") with 32. change (code "-") with 45. change (code "_") with 95.
  change (code "#") with 35. change (code "@") with 64. change (code "*") with 42.
  change (code "$") with 36. change (code "+") with 43. change (code ".") with 46.
  change (code "|") with 124.
  repeat match goal with
         | |- context [59 =? ?b] => change (59 =? b) with false
         end.
  cbn [orb]. cbv iota. scan_cbn.
  destruct (Z.eqb_spec (s_started st) 0) as [E | E].
  - rewrite E. scan_cbn.
    replace (62 <=? s_x st) with false by lia.
    replace (62 <=? s_y st) with false by lia.
    destruct (0 <? s_x st); reflexivity.
  - reflexivity.
Qed.

(** *** Reading back the rows of a dumped level *)

Lemma raw_symbol_spec c player :
  raw_cell c = true -> (player = true -> c = 1 \/ c = 5) ->
  let b := code (raw_symbol c player) in
  cell_symbol b = true /\ Z.lor field_floor (symbol_flags b) = c
  /\ player_symbol b = player.
Proof.
  intros Hc Hp. apply raw_cell_spec in Hc.
  destruct player; [destruct (Hp eq_refl) as [-> | ->]; by vm_compute |].
  destruct Hc as [-> | [-> | [-> | [-> | ->]]]]; by vm_compute.
Qed.

Lemma dump_cell_raw g x y c c' :
  field_get (field g) x y = Some c' -> raw_cell c = true ->
  c' = c \/ (c = field_floor /\ c' = 0) ->
  dump_cell g x y
  = Some (raw_symbol c ((positionx g =? x) && (positiony g =? y))).
Proof.
  intros Hget Hc Hc'. unfold dump_cell. rewrite Hget. apply raw_cell_spec in Hc.
  destruct Hc' as [-> | [-> ->]]; [| reflexivity].
  destruct Hc as [-> | [-> | [-> | [-> | ->]]]]; reflexivity.
Qed.

Lemma rescan_cell fuel raw w px py x y st c rest :
  rescan raw w px py x y st ->
  field_get raw (x + 1) (y + 1) = Some c -> raw_cell c = true ->
  ((px =? x) && (py =? y) = true -> c = 1 \/ c = 5) ->
  s_mem st = code (raw_symbol c ((px =? x) && (py =? y))) :: rest ->
  0 <= x < w -> w <= 61 -> 0 <= y < 62 -> 0 <= px -> 0 <= py ->
  exists st', scan_level (S fuel) st = scan_level fuel st'
    /\ rescan raw w px py (x + 1) y st' /\ s_mem st' = rest.
Proof.
  intros (Hx & Hy & Heof & Hst & Hw & Hh & Hpos & Hwf & Hcells) Hc Hraw Hpl Hmem
         Hxw Hw61 Hy62 Hpx Hpy.
  destruct (raw_symbol_spec c _ Hraw Hpl) as (Hsym & Hflags & Hplayer).
  cbv zeta in Hsym, Hflags, Hplayer.
  pose proof (Hcells _ _ _ Hc) as Hc0.
  replace (ahead x y (x + 1) (y + 1)) with true in Hc0 by (unfold ahead; lia).
  rewrite <- Hx, <- Hy in Hc0.
  rewrite (scan_level_cell fuel st _ rest field_floor Hsym Hmem Heof);
    [| case_if; lia | exact Hc0 | lia | lia].
  cbv zeta. eexists. split; [reflexivity |]. split; [| reflexivity].
  unfold rescan. scan_cbn. rewrite Hplayer, Hflags, Hx, Hy, Hw, Hh.
  rewrite Hx, Hy in Hc0.
  unfold ushort. rewrite (Z.mod_small (y + 1)) by lia.
  split; [done |]. split; [done |]. split; [done |].
  split; [by replace (0 <? x + 1) with true by lia |].
  split; [case_if; lia |].
  split; [case_if; lia |].
  split.
  { assert ((py <? y) || ((py =? y) && (px <? x + 1))
            = ((py <? y) || ((py =? y) && (px <? x))) || ((px =? x) && (py =? y)))
      as -> by lia.
    destruct ((px =? x) && (py =? y)) eqn:Hp.
    - rewrite orb_true_r. lia.
    - rewrite orb_false_r. exact Hpos. }
  split; [by apply field_put_wf |].
  intros i j c1 Hc1.
  destruct (decide ((x + 1, y + 1) = (i, j))) as [[= <- <-] | Hne].
  - rewrite (field_get_put _ _ _ _ _ Hc0).
    replace (ahead (x + 1) y (x + 1) (y + 1)) with false by (unfold ahead; lia).
    congruence.
  - rewrite field_get_put_ne; [| by eapply field_get_in | done].
    rewrite (Hcells _ _ _ Hc1).
    replace (ahead (x + 1) y i j) with (ahead x y i j); [done |].
    unfold ahead. destruct (Z.eq_dec i (x + 1)), (Z.eq_dec j (y + 1)); [congruence | | |];
      lia.
Qed.

Section ReadBack.

(** The marks [raw] of a level, the field [filled] after the flood fill
    and the game [g] that [loadlevelfromfile] made of them. *)
Variable raw filled : list (list Z).
Variable g : sokgame.

Hypothesis raw_wf : field_wf raw.
Hypothesis raw_cells : forall i j c, field_get raw i j = Some c ->
  raw_cell c = true
  /\ (c <> 1 -> 1 <= i <= field_width g /\ 1 <= j <= field_height g).
Hypothesis raw_player :
  field_get raw (positionx g + 1) (positiony g + 1) = Some 1
  \/ field_get raw (positionx g + 1) (positiony g + 1) = Some 5.
Hypothesis filled_cells : forall i j c, field_get raw i j = Some c ->
  field_get filled i j = Some c \/ (c = field_floor /\ field_get filled i j = Some 0).
Hypothesis shifted_cells : forall i j, 0 <= i < 63 -> 0 <= j < 63 ->
  field_get (field g) i j = field_get filled (i + 1) (j + 1).
Hypothesis width_ok : 1 <= field_width g <= 61.
Hypothesis height_ok : 1 <= field_height g <= 62.
Hypothesis player_ok :
  0 <= positionx g < field_width g /\ 0 <= positiony g < field_height g.

#[local] Abbreviation reads := (rescan raw (field_width g) (positionx g) (positiony g)).

(** The symbol that [dumplevel2clipboard] writes for a cell of the level
    tells how the cell was marked. *)
Lemma dump_cell_mark x y :
  0 <= x < field_width g -> 0 <= y < field_height g ->
  exists c, field_get raw (x + 1) (y + 1) = Some c /\ raw_cell c = true
    /\ ((positionx g =? x) && (positiony g =? y) = true -> c = 1 \/ c = 5)
    /\ dump_cell g x y
       = Some (raw_symbol c ((positionx g =? x) && (positiony g =? y))).
Proof.
  intros Hx Hy.
  destruct (field_get_Some raw (x + 1) (y + 1) raw_wf) as [c Hc];
    [unfold in_field; lia |].
  exists c. destruct (raw_cells _ _ _ Hc) as [Hraw _].
  split; [done |]. split; [done |]. split.
  - intros Hp. apply andb_true_iff in Hp as [Hpx Hpy].
    apply Z.eqb_eq in Hpx, Hpy. rewrite Hpx, Hpy in raw_player.
    destruct raw_player as [H | H]; rewrite Hc in H; injection H as ->; auto.
  - pose proof (shifted_cells x y ltac:(lia) ltac:(lia)) as Hs.
    destruct (filled_cells _ _ _ Hc) as [Hf | [-> Hf]]; rewrite Hf in Hs;
      eapply dump_cell_raw; eauto.
Qed.

Lemma rescan_newline fuel y st rest :
  reads (field_width g) y st -> s_mem st = 10 :: rest ->
  0 <= y < 61 ->
  exists st', scan_level (S fuel) st = scan_level fuel st'
    /\ reads 0 (y + 1) st' /\ s_mem st' = rest.
Proof.
  intros (Hx & Hy & Heof & Hst & Hw & Hh & Hpos & Hwf & Hcells) Hmem Hy61.
  replace ((0 <? field_width g) || (0 <? y)) with true in Hst by lia.
  replace (0 <? field_width g) with true in Hh by lia.
  rewrite (scan_level_newline fuel st rest Hmem Heof); [| lia | lia | lia |].
  2: { rewrite Hw. case_if; lia. }
  eexists. split; [reflexivity |]. split; [| reflexivity].
  unfold rescan. scan_cbn. rewrite Hst, Hy, Hw, Hh. change (1 =? 0) with false.
  cbv iota.
  split; [done |]. split; [done |]. split; [done |].
  split; [by replace (0 <? y + 1) with true by lia |].
  split; [case_if; lia |].
  split; [done |].
  split.
  { replace ((positiony g <? y + 1)
             || ((positiony g =? y + 1) && (positionx g <? 0)))
      with ((positiony g <? y)
            || ((positiony g =? y) && (positionx g <? field_width g))) by lia.
    exact Hpos. }
  split; [done |].
  intros i j c Hc. rewrite (Hcells _ _ _ Hc).
  destruct (raw_cells _ _ _ Hc) as [_ Harea].
  destruct (Z.eq_dec c 1) as [-> | Hne]; [by case_if |].
  specialize (Harea Hne).
  replace (ahead 0 (y + 1) i j) with (ahead (field_width g) y i j); [done |].
  unfold ahead. lia.
Qed.

Lemma rescan_row fuel y rest : forall n x row st,
  dump_row g y x n = Some row -> x + Z.of_nat n = field_width g -> 0 <= x ->
  0 <= y < field_height g ->
  reads x y st -> s_mem st = map code row ++ rest ->
  exists st', scan_level (length row + fuel) st = scan_level fuel st'
    /\ reads (field_width g) y st' /\ s_mem st' = rest.
Proof.
  induction n as [| n IH]; intros x row st Hrow Hxn Hx Hy Hst Hmem.
  { injection Hrow as <-. exists st. rewrite Z.add_0_r in Hxn. by subst x. }
  cbn [dump_row] in Hrow.
  destruct (dump_cell_mark x y ltac:(lia) Hy) as (c & Hc & Hraw & Hpl & Hsym).
  rewrite Hsym in Hrow.
  destruct (dump_row g y (x + 1) n) as [row' |] eqn:Hrow'; [| discriminate].
  injection Hrow as <-. cbn [map app length Nat.add] in Hmem |- *.
  destruct (rescan_cell (length row' + fuel) raw _ _ _ x y st c _ Hst Hc Hraw Hpl Hmem)
    as (st1 & -> & Hst1 & Hmem1); [lia | lia | lia | lia | lia |].
  eapply IH; eauto; lia.
Qed.

Lemma rescan_rows fuel rest top : forall n y rows st,
  dump_rows g y n = Some rows -> y + Z.of_nat n = top -> 0 <= y ->
  top <= field_height g -> top <= 61 ->
  reads 0 y st -> s_mem st = map code rows ++ rest ->
  exists st', scan_level (length rows + fuel) st = scan_level fuel st'
    /\ reads 0 top st' /\ s_mem st' = rest.
Proof.
  induction n as [| n IH]; intros y rows st Hrows Hyn Hy Htop Hh Hst Hmem.
  { injection Hrows as <-. exists st. rewrite Z.add_0_r in Hyn. by subst y. }
  cbn [dump_rows] in Hrows.
  destruct (dump_row g y 0 _) as [row |] eqn:Hrow; [| discriminate].
  destruct (dump_rows g (y + 1) n) as [rows' |] eqn:Hrows'; [| discriminate].
  injection Hrows as <-.
  rewrite !map_app, <- !app_assoc in Hmem. rewrite !length_app.
  cbn [map app length] in Hmem |- *.
  destruct (rescan_row (S (length rows' + fuel)) y (10 :: map code rows' ++ rest)
              _ 0 row st Hrow) as (st1 & Hrun1 & Hst1 & Hmem1);
    [lia | lia | lia | done | done |].
  destruct (rescan_newline (length rows' + fuel) y st1 _ Hst1 Hmem1)
    as (st2 & Hrun2 & Hst2 & Hmem2); [lia |].
  destruct (IH (y + 1) rows' st2 Hrows') as (st3 & Hrun3 & Hst3 & Hmem3);
    [lia | lia | lia | done | done | done |].
  exists st3. split; [| done].
  replace (length row + S (length rows') + fuel)%nat
    with (length row + S (length rows' + fuel))%nat by lia.
  by rewrite Hrun1, Hrun2.
Qed.

(** Before the first row nothing is marked. *)
Lemma reads_start st :
  s_x st = 0 -> s_y st = 0 -> s_eof st = false -> s_started st = 0 ->
  field_width (s_game st) = 0 -> field_height (s_game st) = 0 ->
  positionx (s_game st) = -1 -> positiony (s_game st) = -1 ->
  field (s_game st) = replicate 64 (replicate 64 field_floor) ->
  reads 0 0 st.
Proof.
  intros Hx Hy Heof Hst Hw Hh Hpx Hpy Hf. unfold rescan.
  do 6 (split; [done |]).
  split; [replace (_ || _) with false by lia; done |].
  rewrite Hf. split; [apply field_wf_replicate |].
  intros i j c Hc.
  destruct (field_get_Some (replicate 64 (replicate 64 field_floor)) i j
              (field_wf_replicate _) (field_get_in _ _ _ _ Hc)) as [c1 Hc1].
  rewrite Hc1. apply field_get_replicate in Hc1 as ->.
  destruct (raw_cells _ _ _ Hc) as [_ Harea].
  destruct (Z.eq_dec c 1) as [-> | Hne]; [by case_if |].
  specialize (Harea Hne). replace (ahead 0 0 i j) with true; [done |].
  unfold ahead. lia.
Qed.

(** After the last row the field is marked as the level was. *)
Lemma reads_done st :
  reads 0 (field_height g) st ->
  field (s_game st) = raw
  /\ field_width (s_game st) = field_width g
  /\ field_height (s_game st) = field_height g
  /\ positionx (s_game st) = positionx g /\ positiony (s_game st) = positiony g
  /\ s_started st = 1.
Proof.
  intros (Hx & Hy & Heof & Hst & Hw & Hh & Hpos & Hwf & Hcells).
  replace (0 <? field_height g) with true in Hw by lia.
  replace (_ || _) with true in Hst by lia.
  replace (_ || _) with true in Hpos by lia.
  change (0 <? 0) with false in Hh.
  split; [| tauto]. symmetry. apply field_ext; [done | done |].
  intros i j c Hc. rewrite (Hcells _ _ _ Hc).
  destruct (raw_cells _ _ _ Hc) as [_ Harea].
  destruct (Z.eq_dec c 1) as [-> | Hne]; [by case_if |].
  specialize (Harea Hne). replace (ahead 0 (field_height g) i j) with false; [done |].
  unfold ahead. lia.
Qed.

(** The whole text of a dump: a comment line and an empty line, the rows,
    an empty line, and a comment line that ends the level. *)
Lemma reads_dump rows cmt1 cmt2 rest lev c64 c32 :
  dump_rows g 0 (Z.to_nat (field_height g)) = Some rows ->
  field_height g <= 60 ->
  Forall (fun b => 0 < b /\ b <> 10) cmt1 ->
  Forall (fun b => 0 < b /\ b <> 10) cmt2 ->
  let mem := code ";" :: cmt1 ++ 10 :: 10 :: map code rows
             ++ 10 :: code ";" :: cmt2 ++ 10 :: rest in
  exists st,
    scan_level (S (length mem))
      (mkscan (mkgame 0 0 (replicate 64 (replicate 64 field_floor)) (-1) (-1)
                      lev c64 c32 None) 0 0 0 false 0 mem)
    = ScanOk st
    /\ field (s_game st) = raw
    /\ field_width (s_game st) = field_width g
    /\ field_height (s_game st) = field_height g
    /\ positionx (s_game st) = positionx g /\ positiony (s_game st) = positiony g
    /\ s_started st = -1 /\ s_eof st = false /\ s_mem st = rest.
Proof.
  intros Hrows Hh Hcmt1 Hcmt2 mem.
  set (k := (length cmt1 + length cmt2 + length rest + 3)%nat).
  replace (S (length mem)) with (S (S (length rows + S (S k)))).
  2: { unfold mem, k. cbn [length]. rewrite !length_app. cbn [length].
       rewrite !length_app. cbn [length]. rewrite length_map, !length_app.
       cbn [length]. lia. }
  rewrite (scan_level_comment _ _ cmt1 (10 :: map code rows
             ++ 10 :: code ";" :: cmt2 ++ 10 :: rest));
    [| reflexivity | done | done | done | done | done].
  cbn [s_started s_x s_y s_game field_width field_height].
  change (0 =? 0) with true. change (0 <? 0) with false. cbv iota.
  rewrite (scan_level_newline _ _ (map code rows ++ 10 :: code ";" :: cmt2 ++ 10 :: rest));
    [| reflexivity | done | done | done | done | done].
  cbn [s_started s_x s_y s_game field_width field_height set_size].
  change (0 =? 0) with true. cbv iota.
  match goal with
  | |- context [scan_level (length rows + _) ?s] =>
      destruct (rescan_rows (S (S k)) (10 :: code ";" :: cmt2 ++ 10 :: rest)
                  (field_height g) _ 0 rows s Hrows) as (st1 & -> & Hst1 & Hmem1);
      [lia | lia | lia | lia | by apply reads_start | reflexivity |]
  end.
  destruct (reads_done _ Hst1) as (Hf & Hw & Hh1 & Hpx & Hpy & Hstd).
  destruct Hst1 as (Hx1 & Hy1 & Heof1 & _).
  rewrite (scan_level_newline _ _ _ Hmem1 Heof1); [| lia | lia | lia | lia].
  rewrite Hstd. change (1 =? 0) with false. cbv iota.
  rewrite (scan_level_comment _ _ cmt2 rest);
    [| reflexivity | done | done | done | cbn [s_x]; lia | cbn [s_y]; lia].
  cbn [s_started]. change (1 =? 0) with false. cbv iota.
  eexists. split; [reflexivity |]. by cbn.
Qed.

Lemma dump_rows_app n : forall m y rows,
  dump_rows g y (n + m) = Some rows ->
  exists rows1 rows2,
    dump_rows g y n = Some rows1 /\ dump_rows g (y + Z.of_nat n) m = Some rows2
    /\ rows = rows1 ++ rows2.
Proof.
  induction n as [| n IH]; intros m y rows Hrows.
  { exists [], rows. by rewrite Z.add_0_r. }
  cbn [Nat.add dump_rows] in Hrows |- *.
  destruct (dump_row g y 0 _) as [row |]; [| discriminate].
  destruct (dump_rows g (y + 1) (n + m)) as [rows' |] eqn:Hrows'; [| discriminate].
  injection Hrows as <-.
  destruct (IH m (y + 1) rows' Hrows') as (r1 & r2 & -> & Hr2 & ->).
  exists (row ++ ["010"%char] ++ r1), r2.
  replace (y + Z.of_nat (S n)) with (y + 1 + Z.of_nat n) by lia.
  split; [done |]. split; [done |]. by rewrite <- !app_assoc.
Qed.

(** The end of row 61 is one row too many. *)
Lemma scan_level_newline_high fuel st rest :
  s_mem st = 10 :: rest -> s_eof st = false -> s_started st = 1 ->
  s_y st = 61 -> 0 <= s_x st < 62 ->
  scan_level (S fuel) st
  = ScanErr ERR_LEVEL_TOO_HIGH (mkscan (s_game st) 0 62 1 false 10 rest).
Proof.
  intros Hmem Heof Hst Hy Hx.
  cbn [scan_level]. rewrite Hmem, (readRLEbyte_plain 10 rest) by done. rewrite Heof.
  change (1 <? 0) with false. cbn [orb s_eof].
  change (Z.to_nat 1) with 1%nat. cbn [scan_run].
  unfold scan_symbol. cbn [s_bytebuff].
  change (code " ") with 32. change (code "-") with 45. change (code "_") with 95.
  change (code "#") with 35. change (code "@") with 64. change (code "*") with 42.
  change (code "$") with 36. change (code "+") with 43. change (code ".") with 46.
  repeat match goal with
         | |- context [?a =? ?b] =>
             first [change (a =? b) with false | change (a =? b) with true]
         end.
  cbn [orb]. cbv iota. scan_cbn. rewrite Hst, Hy. reflexivity.
Qed.

(** The text of a dump of a level of 61 or 62 rows: the loader gives up
    at the end of row 61. *)
Lemma reads_tall_dump rows cmt1 rest lev c64 c32 :
  dump_rows g 0 (Z.to_nat (field_height g)) = Some rows ->
  61 <= field_height g ->
  Forall (fun b => 0 < b /\ b <> 10) cmt1 ->
  let mem := code ";" :: cmt1 ++ 10 :: 10 :: map code rows ++ 10 :: rest in
  exists st,
    scan_level (S (length mem))
      (mkscan (mkgame 0 0 (replicate 64 (replicate 64 field_floor)) (-1) (-1)
                      lev c64 c32 None) 0 0 0 false 0 mem)
    = ScanErr ERR_LEVEL_TOO_HIGH st.
Proof.
  intros Hrows Hh Hcmt1 mem.
  replace (Z.to_nat (field_height g)) with (61 + Z.to_nat (field_height g - 61))%nat
    in Hrows by lia.
  apply dump_rows_app in Hrows as (rows1 & rows2 & Hrows1 & Hrows2 & ->).
  assert (exists cells k,
            map code rows2 ++ 10 :: rest = map code cells ++ 10 :: k
            /\ forall fuel st, reads 0 61 st -> s_mem st = map code cells ++ 10 :: k ->
                 exists st', scan_level (length cells + fuel) st = scan_level fuel st'
                   /\ s_mem st' = 10 :: k /\ s_eof st' = false /\ s_started st' = 1
                   /\ s_y st' = 61 /\ 0 <= s_x st' < 62) as (cells & k & Htext & Hcells).
  { destruct (Z.to_nat (field_height g - 61)) as [| [| n]] eqn:Hm; [| | lia].
    - injection Hrows2 as <-. exists [], rest. split; [done |].
      intros fuel st (Hx & Hy & Heof & Hst & _) Hmem. exists st.
      rewrite Hx, Hy, Hst. change (0 <? 61) with true. rewrite orb_true_r.
      by repeat split.
    - cbn [dump_rows] in Hrows2. change (0 + Z.of_nat 61) with 61 in Hrows2.
      destruct (dump_row g 61 0 _) as [row |] eqn:Hrow; [| discriminate].
      injection Hrows2 as <-. exists row, (10 :: rest).
      split; [cbn [fmap option_fmap option_map app]; by rewrite map_app, <- app_assoc |].
      intros fuel st Hst Hmem.
      destruct (rescan_row fuel 61 (10 :: 10 :: rest) _ 0 row st Hrow)
        as (st' & Hrun & (Hx & Hy & Heof & Hstd & _) & Hmem'); [lia | lia | lia | done | done |].
      exists st'. rewrite Hx, Hy, Hstd. change (0 <? 61) with true. rewrite orb_true_r.
      split; [done |]. split; [done |].
      split; [done |]. split; [done |]. split; [done | lia]. }
  unfold mem. rewrite map_app, <- app_assoc, Htext.
  set (f := (length cmt1 + length k + 2)%nat).
  replace (S (length (code ";" :: cmt1 ++ 10 :: 10 :: map code rows1
                      ++ map code cells ++ 10 :: k)))
    with (S (S (length rows1 + (length cells + S f)))).
  2: { unfold f. cbn [length]. rewrite !length_app. cbn [length].
       rewrite !length_app, !length_map. cbn [length]. lia. }
  rewrite (scan_level_comment _ _ cmt1 (10 :: map code rows1 ++ map code cells ++ 10 :: k));
    [| reflexivity | done | done | done | done | done].
  cbn [s_started s_x s_y s_game field_width field_height].
  change (0 =? 0) with true. change (0 <? 0) with false. cbv iota.
  rewrite (scan_level_newline _ _ (map code rows1 ++ map code cells ++ 10 :: k));
    [| reflexivity | done | done | done | done | done].
  cbn [s_started s_x s_y s_game field_width field_height set_size].
  change (0 =? 0) with true. cbv iota.
  match goal with
  | |- context [scan_level (length rows1 + _) ?s] =>
      destruct (rescan_rows (length cells + S f) (map code cells ++ 10 :: k)
                  61 _ 0 rows1 s Hrows1) as (st1 & -> & Hst1 & Hmem1);
      [lia | lia | lia | lia | by apply reads_start | reflexivity |]
  end.
  destruct (Hcells (S f) st1 Hst1 Hmem1) as (st2 & -> & Hmem2 & Heof2 & Hstd2 & Hy2 & Hx2).
  rewrite (scan_level_newline_high f st2 k Hmem2 Heof2 Hstd2 Hy2 Hx2). by eexists.
Qed.

End ReadBack.

(** ** A level copied to the clipboard loads back *)

Lemma hexdigit_comment n : 0 < code (hexdigit n) /\ code (hexdigit n) <> 10.
Proof.
  unfold hexdigit. generalize (Z.to_nat n). intros k.
  do 16 (destruct k as [| k]; [vm_compute; split; [reflexivity | discriminate] |]).
  destruct k; vm_compute; split; reflexivity || discriminate.
Qed.

Lemma hex_digits_comment k : forall n,
  Forall (fun b => 0 < b /\ b <> 10) (map code (hex_digits k n)).
Proof.
  induction k as [| k IH]; intros n; [constructor |].
  cbn [hex_digits]. rewrite map_app. apply Forall_app. split; [apply IH |].
  constructor; [apply hexdigit_comment | constructor].
Qed.

Section DumpLoad.
Variable crc32_init : Z.
Variable crc32_feed : Z -> Z -> Z.
Variable crc32_finish : Z -> Z.
Variable crc64_fn : Z -> list Z -> Z.

#[local] Abbreviation load_level :=
  (loadlevelfromfile crc32_init crc32_feed crc32_finish crc64_fn).

(** What a successful call of the loader went through. *)
Lemma loadlevelfromfile_parts game mem ret g rest :
  load_level game mem = Some (ret, g, rest) -> 0 <= ret ->
  exists st filled c32 c64,
    load_prepare game mem = PrepOk st filled
    /\ shift_rows filled 0 63 = Some (field g)
    /\ crc32_rows crc32_feed (field g) (field_height g) crc32_init 0
                  (Z.to_nat (field_width g)) = Some c32
    /\ crc64_rows crc64_fn (field g) (field_width g)
                  (crc64_fn 0 [positionx g mod 256; positiony g mod 256]) 0
                  (Z.to_nat (field_height g)) = Some c64
    /\ g = set_crcs (set_field (s_game st) (field g)) (crc32_finish c32) c64.
Proof.
  unfold loadlevelfromfile. intros H Hret.
  pose proof (load_prepare_shape game mem) as Hshape.
  destruct (load_prepare game mem) as [| err st | st filled] eqn:Hp; [discriminate | |].
  { injection H as <- _ _.
    unfold ERR_LEVEL_TOO_LARGE, ERR_LEVEL_TOO_HIGH, ERR_PLAYER_POS_UNDEFINED in Hshape.
    lia. }
  destruct (shift_rows filled 0 63) as [f |] eqn:Hshift; [| discriminate].
  destruct (crc32_rows _ f _ _ _ _) as [c32 |] eqn:H32; [| discriminate].
  destruct (crc64_rows _ f _ _ _ _) as [c64 |] eqn:H64; [| discriminate].
  injection H as _ <- _. exists st, filled, c32, c64.
  cbn [set_crcs set_field field field_width field_height positionx positiony].
  done.
Qed.

(** A level that [loadlevelfromfile] has loaded, with at most 60 rows,
    and that [dumplevel2clipboard] has copied to the clipboard, loads back
    from the text of the clipboard as the same level: the same field,
    sizes, player position and checksums, whatever the level number and
    the solution attached to it in between.  The loader stops before the
    line of the moves, if there is one. *)
Theorem dumped_level_loads_back (alloc_ok : Z -> bool) (game0 game1 : sokgame)
    (mem0 rest0 : list Z) (ret lev : Z) (g : sokgame)
    (sol history : option (list ascii)) (txt : list ascii) :
  load_level game0 mem0 = Some (ret, g, rest0) -> 0 <= ret ->
  field_height g <= 60 ->
  dumplevel2clipboard alloc_ok (set_level_solution g lev sol) history = DumpText txt ->
  load_level game1 (map code txt)
  = Some (0, set_level_solution g (level game1) None,
          map code match history with
                   | Some (c :: h) => list_ascii_of_string "; " ++ c :: h ++ ["010"%char]
                   | _ => []
                   end).
Proof.
  intros Hload Hret Hh Hdump.
  destruct (loadlevelfromfile_parts _ _ _ _ _ Hload Hret)
    as (st0 & filled & c32 & c64 & Hprep & Hshift & H32 & H64 & Hg).
  destruct (load_prepare_raw _ _ _ _ Hprep)
    as (Hinv & [Hcells Hplayer] & Hwf & Hpx & Hfill & _ & _).
  pose proof (load_prepare_shape game0 mem0) as Hshape. rewrite Hprep in Hshape.
  cbv zeta in Hshape. destruct Hshape as (Hw & Hh' & Hx & Hy & _ & _).
  pose proof (f_equal field_width Hg) as Hgw.
  pose proof (f_equal field_height Hg) as Hgh.
  pose proof (f_equal positionx Hg) as Hgx.
  pose proof (f_equal positiony Hg) as Hgy.
  cbn [set_crcs set_field field_width field_height positionx positiony] in Hgw, Hgh, Hgx, Hgy.
  rewrite <- Hgw, <- Hgh, <- Hgx, <- Hgy in *.
  unfold dumplevel2clipboard in Hdump.
  remember (hex16 _) as hx eqn:Hhx in Hdump.
  assert (Forall (fun b => 0 < b /\ b <> 10) (map code hx)) as Hhex
    by (rewrite Hhx; apply hex_digits_comment).
  clear Hhx.
  cbn [set_level_solution field_width field_height crc64 solution] in Hdump.
  destruct (INT_MAX <? _); [discriminate |].
  destruct (alloc_ok _); [| discriminate].
  destruct (dump_rows _ 0 _) as [rows |] eqn:Hrows; [| discriminate].
  destruct (_ <? _); [| discriminate]. injection Hdump as <-.
  set (gd := set_level_solution g lev sol) in *.
  set (tail := match history with
               | Some (c :: h) => list_ascii_of_string "; " ++ c :: h ++ ["010"%char]
               | _ => []
               end).
  assert (exists cmt2, Forall (fun b => 0 < b /\ b <> 10) cmt2
            /\ map code match history with
                        | Some (c :: h) =>
                            list_ascii_of_string "; Solution" ++ ["010"%char]
                            ++ list_ascii_of_string "; " ++ (c :: h) ++ ["010"%char]
                        | _ => list_ascii_of_string "; No solution available"
                               ++ ["010"%char]
                        end
               = code ";" :: cmt2 ++ 10 :: map code tail) as (cmt2 & Hcmt2 & Htrail).
  { unfold tail. destruct history as [[| c h] |].
    - exists (map code (list_ascii_of_string " No solution available")).
      split; [| reflexivity]. repeat constructor; by vm_compute.
    - exists (map code (list_ascii_of_string " Solution")).
      split; [| reflexivity]. repeat constructor; by vm_compute.
    - exists (map code (list_ascii_of_string " No solution available")).
      split; [| reflexivity]. repeat constructor; by vm_compute. }
  destruct (reads_dump (field (s_game st0)) filled gd) with
    (rows := rows) (rest := map code tail) (lev := level game1)
    (c64 := crc64 game1) (c32 := crc32_106 game1)
    (cmt1 := map code (list_ascii_of_string " Level id: " ++ hx))
    (cmt2 := cmt2)
    as (st & Hscan & Hf & Hsw & Hsh & Hsx & Hsy & Hstd & Heof & Hmem).
  { done. }
  { intros i j c Hc. destruct (Hcells i j c Hc) as (H1 & H2 & _). done. }
  { by apply Hplayer. }
  { intros i j c Hc. by eapply flood_cells. }
  { intros i j Hi Hj. cbn [gd set_level_solution field].
    by apply (shift_rows_cells 63 filled 0 (field g) Hshift). }
  { done. }
  { cbn [gd set_level_solution field_width field_height]. lia. }
  { done. }
  { done. }
  { cbn [gd set_level_solution field_height]. lia. }
  { rewrite map_app. apply Forall_app. split; [| done].
    repeat constructor; by vm_compute. }
  { done. }
  cbv zeta in Hscan.
  unfold loadlevelfromfile, load_prepare, load_prepare_fuel.
  replace (map code _) with
    (code ";" :: map code (list_ascii_of_string " Level id: " ++ hx)
     ++ 10 :: 10 :: map code rows ++ 10 :: code ";" :: cmt2 ++ 10 :: map code tail).
  2: { rewrite <- Htrail.
       repeat (rewrite !map_app; cbn [list_ascii_of_string map app]).
       rewrite <- ?app_assoc. reflexivity. }
  rewrite Hscan.
  pose proof (scan_level_keeps _ _ _ Hscan) as (Hlev & _ & Hsol).
  cbn [s_game level solution] in Hlev, Hsol.
  cbn [gd set_level_solution field_width field_height positionx positiony] in *.
  cbv beta iota zeta. rewrite Hsx, Hsw, Hsh, Hstd, Hf, Hfill.
  replace (positionx g <? 0) with false by lia.
  replace (field_height g <? 1) with false by lia.
  replace (field_width g <? 1) with false by lia.
  change (-1 =? 0) with false. cbv beta iota zeta.
  rewrite Hshift, Hsx, Hsw, Hsh, Hsy, Heof, Hmem.
  rewrite H32, H64. f_equal. f_equal. f_equal.
  rewrite Hg at 2. unfold set_crcs, set_field, set_level_solution.
  cbn [field_width field_height positionx positiony level crc64 crc32_106 solution field].
  rewrite Hsx, Hsw, Hsh, Hsy, Hlev, Hsol, <- Hgw, <- Hgh, <- Hgx, <- Hgy. reflexivity.
Qed.

End DumpLoad.

(** ** The buffer of the clipboard text *)

Lemma hex_digits_length k : forall n, length (hex_digits k n) = k.
Proof.
  induction k as [| k IH]; intros n; [done |].
  cbn [hex_digits]. rewrite length_app, IH. cbn. lia.
Qed.

Lemma dump_row_length g y : forall n x,
  field_wf (field g) -> 0 <= x -> x + Z.of_nat n <= 64 -> 0 <= y < 64 ->
  exists row, dump_row g y x n = Some row /\ length row = n.
Proof.
  induction n as [| n IH]; intros x Hwf Hx Hxn Hy; [by exists [] |].
  cbn [dump_row]. unfold dump_cell.
  destruct (field_get_Some (field g) x y Hwf) as [c ->]; [unfold in_field; lia |].
  destruct (IH (x + 1) Hwf) as (row & -> & Hlen); [lia | lia | lia |].
  eexists. split; [reflexivity |]. cbn. by rewrite Hlen.
Qed.

Lemma dump_rows_length g : forall n y,
  field_wf (field g) -> 0 <= field_width g <= 64 -> 0 <= y -> y + Z.of_nat n <= 64 ->
  exists rows, dump_rows g y n = Some rows
    /\ Z.of_nat (length rows) = (field_width g + 1) * Z.of_nat n.
Proof.
  induction n as [| n IH]; intros y Hwf Hw Hy Hyn; [exists []; split; [done | cbn; lia] |].
  cbn [dump_rows].
  destruct (dump_row_length g y (Z.to_nat (field_width g)) 0 Hwf) as (row & -> & Hrow);
    [lia | lia | lia |].
  destruct (IH (y + 1) Hwf Hw) as (rows & -> & Hrows); [lia | lia |].
  eexists. split; [reflexivity |]. rewrite length_app. cbn [app length].
  rewrite Hrow. lia.
Qed.

Ltac case_ltb :=
  match goal with
  | |- context [?a <? ?b] => destruct (Z.ltb_spec a b)
  end.

(** [dumplevel2clipboard] sizes its buffer by the solution stored with the
    level, and fills it with the history it is given: the text runs over
    the end of the buffer exactly when that history is more than 4050
    characters longer than the stored solution.  So the copy of a level
    with its own solution always fits. *)
Theorem dump_buffer_overrun (alloc_ok : Z -> bool) (g : sokgame)
    (history : option (list ascii)) :
  game_wf g ->
  dumplevel2clipboard alloc_ok g history = DumpUB
  <-> alloc_ok (sok_history_getlen (solution g)
                + (field_width g + 1) * field_height g + 4096) = true
      /\ sok_history_getlen (solution g) + 4050 < sok_history_getlen history.
Proof.
  intros (Hwf & Hw & Hh). unfold dumplevel2clipboard.
  assert (0 <= sok_history_getlen (solution g)) as Hsl
    by (unfold sok_history_getlen; destruct (solution g); lia).
  replace (INT_MAX <? (field_width g + 1) * field_height g) with false
    by (unfold INT_MAX; nia).
  destruct (alloc_ok _); [| split; [done | intros [[=] _]]].
  destruct (dump_rows_length g (Z.to_nat (field_height g)) 0 Hwf Hw)
    as (rows & -> & Hrows); [lia | lia |].
  rewrite Z2Nat.id in Hrows by lia.
  cbv zeta. unfold hex16. rewrite !length_app, hex_digits_length.
  set (z := (field_width g + 1) * field_height g) in *. clearbody z.
  remember (length rows) as n eqn:Hn. clear Hn.
  destruct history as [[| c h] |]; cbn [length list_ascii_of_string app sok_history_getlen];
    rewrite ?length_app; cbn [length]; (split; [| intros [_ Hlong]]).
  - case_ltb; [done | exfalso; lia].
  - lia.
  - case_ltb; [done |]. intros _. split; [done |]. lia.
  - case_ltb; [exfalso; lia | done].
  - case_ltb; [done | exfalso; lia].
  - lia.
Qed.

(** ** Solutions from the clipboard *)

Lemma legal_loop_01 s : legal_loop s = 0 \/ legal_loop s = 1.
Proof.
  induction s as [| c s IH]; [auto |]. cbn [legal_loop].
  destruct (is_digit (code c)); [destruct s; auto |].
  destruct (solution_letter c); auto.
Qed.

Lemma legal_loop_spec s :
  legal_loop s = 1
  <-> Forall (fun c => is_digit (code c) = true \/ solution_letter c = true) s
      /\ forall c, last s = Some c -> is_digit (code c) = false.
Proof.
  induction s as [| c s IH].
  { split; [| done]. intros _. split; [constructor | done]. }
  cbn [legal_loop]. destruct (is_digit (code c)) eqn:Hd.
  - destruct s as [| c' s].
    + split; [done |]. intros [_ Hlast]. specialize (Hlast c eq_refl). congruence.
    + rewrite IH. rewrite last_cons_cons. split.
      * intros [Hall Hlast]. split; [constructor; auto | done].
      * intros [Hall Hlast]. split; [by apply Forall_cons in Hall as [_ ?] | done].
  - destruct (solution_letter c) eqn:Hl.
    + rewrite IH. rewrite Forall_cons. split.
      * intros [Hall Hlast]. split; [auto |]. intros c0.
        destruct s as [| c' s]; [intros [= <-]; done |]. rewrite last_cons_cons.
        apply Hlast.
      * intros [[_ Hall] Hlast]. split; [done |]. intros c0 Hc0. apply Hlast.
        destruct s as [| c' s]; [done |]. by rewrite last_cons_cons.
    + split; [done |]. intros [Hall _]. apply Forall_cons in Hall as [[? | ?] _];
        congruence.
Qed.

(** [isLegalSokoSolution] returns 0 or 1, and 1 exactly for a string that
    is not empty, is made of digits and of the letters u, r, d, l in
    either case, and does not end in a digit. *)
Theorem legal_solution_iff (solstr : option (list ascii)) :
  (isLegalSokoSolution solstr = 0 \/ isLegalSokoSolution solstr = 1)
  /\ (isLegalSokoSolution solstr = 1
      <-> exists s, solstr = Some s /\ s <> []
            /\ Forall (fun c => is_digit (code c) = true \/ solution_letter c = true) s
            /\ forall c, last s = Some c -> is_digit (code c) = false).
Proof.
  destruct solstr as [s |]; cbn [isLegalSokoSolution].
  2: { split; [auto |]. split; [done | intros (s & [=] & _)]. }
  destruct s as [| c s].
  { split; [auto |]. split; [done | intros (s & [= <-] & Hne & _); done]. }
  destruct (Z.ltb_spec (Z.of_nat (length (c :: s))) 1) as [H | _];
    [cbn [length] in H; lia |].
  split; [apply legal_loop_01 |]. rewrite legal_loop_spec. split.
  - intros [Hall Hlast]. by exists (c :: s).
  - intros (s' & [= <-] & _ & Hall & Hlast). done.
Qed.

(** *** [unRLE] *)

Section UnRLEFacts.

Variable alloc_ok : Z -> bool.

Lemma store_end res c : store res (Z.of_nat (length res)) c = res ++ [c].
Proof. unfold store. by rewrite Z.eqb_refl. Qed.

Lemma count_digit_range k c :
  -1 <= k -> is_digit (code c) = true ->
  0 <= count_digit k c /\ (if k =? -1 then 0 else k) * 10 <= count_digit k c.
Proof.
  unfold count_digit, is_digit. change (code "0") with 48. change (code "9") with 57.
  intros Hk Hd. destruct (Z.eqb_spec k (-1)); lia.
Qed.

Hypothesis alloc_granted : forall n, alloc_ok n = true.

Lemma unrle_run_copies c : forall n res resalloc,
  Z.of_nat (length res) + Z.of_nat n + 4 < 2 ^ 32 ->
  16 <= resalloc < 2 ^ 33 ->
  exists resalloc',
    unrle_run alloc_ok n c res (Z.of_nat (length res)) resalloc
    = Some (res ++ replicate n c, Z.of_nat (length res) + Z.of_nat n, resalloc')
    /\ 16 <= resalloc' < 2 ^ 33.
Proof.
  induction n as [| n IH]; intros res resalloc Hlen Halloc.
  { exists resalloc. cbn [unrle_run replicate]. by rewrite app_nil_r, Z.add_0_r. }
  cbn [unrle_run]. cbv zeta. rewrite alloc_granted, andb_false_r, store_end.
  rewrite !(Z.mod_small (Z.of_nat (length res) + _)) by lia.
  set (resalloc1 := if resalloc <? _ then _ else resalloc).
  assert (16 <= resalloc1 < 2 ^ 33) as Halloc1.
  { unfold resalloc1. destruct (Z.ltb_spec resalloc (Z.of_nat (length res) + 4));
      [rewrite Z.mod_small |]; lia. }
  destruct (IH (res ++ [c]) resalloc1) as (resalloc' & Hrun & Halloc');
    [rewrite length_app; cbn [length]; lia | done |].
  exists resalloc'. split; [| done].
  replace (Z.of_nat (length res) + 1) with (Z.of_nat (length (res ++ [c])))
    by (rewrite length_app; cbn [length]; lia).
  rewrite Hrun, length_app. cbn [length replicate]. rewrite <- app_assoc.
  do 2 f_equal. f_equal. lia.
Qed.

Lemma unrle_loop_expand xsb : forall k res resalloc,
  -1 <= k -> counts_fit xsb k = true ->
  Z.of_nat (length res) + Z.of_nat (length (expand xsb k)) + 4 < 2 ^ 32 ->
  16 <= resalloc < 2 ^ 33 ->
  unrle_loop alloc_ok xsb k res (Z.of_nat (length res)) resalloc
  = UnrleText (res ++ expand xsb k).
Proof.
  induction xsb as [| c xsb IH]; intros k res resalloc Hk Hfit Hlen Halloc.
  { cbn [unrle_loop expand]. by rewrite Nat2Z.id, firstn_all, app_nil_r. }
  cbn [unrle_loop expand counts_fit] in *.
  destruct (is_digit (code c)) eqn:Hd.
  - fold (count_digit k c). apply andb_true_iff in Hfit as [Hmax Hfit].
    destruct (count_digit_range k c Hk Hd) as [H0 Hmul].
    destruct (Z.ltb_spec INT_MAX ((if k =? -1 then 0 else k) * 10)); [lia |].
    destruct (Z.ltb_spec INT_MAX (count_digit k c)); [lia |]. cbn [orb].
    apply IH; [lia | done | done | done].
  - rewrite length_app, length_replicate in Hlen.
    destruct (unrle_run_copies c (Z.to_nat (if k =? -1 then 1 else k)) res resalloc)
      as (resalloc' & -> & Halloc'); [lia | done |].
    replace (Z.of_nat (length res) + Z.of_nat (Z.to_nat (if k =? -1 then 1 else k)))
      with (Z.of_nat (length (res ++ replicate (Z.to_nat (if k =? -1 then 1 else k)) c)))
      by (rewrite length_app, length_replicate; lia).
    rewrite IH; [by rewrite <- app_assoc | lia | done | | done].
    rewrite length_app, length_replicate. lia.
Qed.

Lemma expand_app s1 : forall s2 k,
  (forall c, last s1 = Some c -> is_digit (code c) = false) ->
  (s1 = [] -> k = -1) ->
  expand (s1 ++ s2) k = expand s1 k ++ expand s2 (-1)
  /\ counts_fit (s1 ++ s2) k = counts_fit s1 k && counts_fit s2 (-1).
Proof.
  induction s1 as [| c s1 IH]; intros s2 k Hlast Hk.
  { rewrite (Hk eq_refl). done. }
  cbn [app expand counts_fit].
  assert (forall c', last s1 = Some c' -> is_digit (code c') = false) as Hlast1.
  { intros c' Hc'. apply Hlast. destruct s1; [done |]. by rewrite last_cons_cons. }
  destruct (is_digit (code c)) eqn:Hd.
  - destruct (IH s2 (count_digit k c) Hlast1) as [-> ->].
    + intros ->. specialize (Hlast c eq_refl). congruence.
    + by rewrite andb_assoc.
  - destruct (IH s2 (-1) Hlast1) as [-> ->]; [done |]. by rewrite <- app_assoc.
Qed.

Lemma expand_digits ds : forall c k,
  Forall (fun d => is_digit (code d) = true) ds -> is_digit (code c) = false ->
  -1 <= k ->
  let v := fold_left count_digit ds k in
  expand (ds ++ [c]) k = replicate (Z.to_nat (if v =? -1 then 1 else v)) c
  /\ -1 <= v
  /\ (v <= INT_MAX -> counts_fit (ds ++ [c]) k = true).
Proof.
  induction ds as [| d ds IH]; intros c k Hds Hc Hk.
  { cbn. rewrite Hc. by rewrite app_nil_r. }
  apply Forall_cons in Hds as [Hd Hds].
  destruct (count_digit_range k d Hk Hd) as [H0 _].
  cbn [app expand counts_fit fold_left]. rewrite Hd.
  destruct (IH c (count_digit k d) Hds Hc) as (-> & Hv & Hfit); [lia |].
  cbv zeta. split; [done |]. split; [done |]. intros Hmax.
  rewrite (Hfit Hmax), andb_true_r. apply Z.leb_le.
  assert (forall l a, 0 <= a ->
            Forall (fun d => is_digit (code d) = true) l ->
            a <= fold_left count_digit l a) as Hmono.
  { induction l as [| e l IHl]; intros a Ha Hl; [cbn; lia |].
    apply Forall_cons in Hl as [He Hl].
    destruct (count_digit_range a e ltac:(lia) He) as [H1 H2].
    cbn [fold_left]. specialize (IHl (count_digit a e) H1 Hl).
    destruct (Z.eqb_spec a (-1)); lia. }
  specialize (Hmono ds (count_digit k d) H0 Hds). lia.
Qed.

(** The pair of the digits and the character of a token, as text and as
    what it stands for. *)
Lemma expand_tokens toks :
  Forall (fun tok : list ascii * ascii =>
            Forall (fun d => is_digit (code d) = true) tok.1
            /\ is_digit (code tok.2) = false /\ run_count tok.1 <= INT_MAX) toks ->
  expand (concat (map (fun tok => tok.1 ++ [tok.2]) toks)) (-1)
  = concat (map (fun tok => replicate (Z.to_nat (run_count tok.1)) tok.2) toks)
  /\ counts_fit (concat (map (fun tok => tok.1 ++ [tok.2]) toks)) (-1) = true.
Proof.
  induction 1 as [| [ds c] toks (Hds & Hc & Hmax) _ [IH1 IH2]]; [done |].
  cbn [map concat fst snd] in *.
  destruct (expand_app (ds ++ [c])
              (concat (map (fun tok => tok.1 ++ [tok.2]) toks)) (-1)) as [-> ->].
  { intros c'. rewrite last_snoc. by intros [= <-]. }
  { by destruct ds. }
  destruct (expand_digits ds c (-1) Hds Hc ltac:(lia)) as (-> & Hv & Hfit).
  fold (run_count ds) in *. rewrite IH1, IH2. split; [done |].
  rewrite andb_true_r. apply Hfit. unfold run_count in Hmax.
  destruct (Z.eqb_spec (fold_left count_digit ds (-1)) (-1)) as [-> | _];
    [unfold INT_MAX; lia | done].
Qed.

(** [unRLE] expands a text token by token.  A token is a character that
    is no digit, with the digits of its repeat count before it, if any:
    it becomes that many copies of the character (one without digits, none
    for the count 0).  This holds with all allocations granted, for counts
    within [int] and a result of less than 2^32 - 4 characters. *)
Theorem unRLE_tokens (toks : list (list ascii * ascii)) :
  Forall (fun tok : list ascii * ascii =>
            Forall (fun d => is_digit (code d) = true) tok.1
            /\ is_digit (code tok.2) = false /\ run_count tok.1 <= INT_MAX) toks ->
  Z.of_nat (length (concat (map (fun tok => replicate (Z.to_nat (run_count tok.1)) tok.2)
                                toks))) + 4 < 2 ^ 32 ->
  unRLE alloc_ok (concat (map (fun tok => tok.1 ++ [tok.2]) toks))
  = UnrleText (concat (map (fun tok => replicate (Z.to_nat (run_count tok.1)) tok.2)
                           toks)).
Proof.
  intros Htoks Hlen. destruct (expand_tokens toks Htoks) as [Hexp Hfit].
  unfold unRLE. rewrite alloc_granted.
  rewrite (unrle_loop_expand _ (-1) [] 16); [by rewrite Hexp | lia | done | | lia].
  rewrite Hexp. cbn [length]. lia.
Qed.

End UnRLEFacts.

(** *** Playing back what was pasted *)

Lemma store_Forall (P : ascii -> Prop) res reslen c :
  Forall P res -> P c -> Forall P (store res reslen c).
Proof.
  intros Hres Hc. unfold store. destruct (_ =? _).
  - apply Forall_app. split; [done | by constructor].
  - by apply Forall_insert.
Qed.

Lemma unrle_run_Forall (alloc_ok : Z -> bool) (P : ascii -> Prop) c :
  forall n res reslen resalloc res' reslen' resalloc',
  unrle_run alloc_ok n c res reslen resalloc = Some (res', reslen', resalloc') ->
  Forall P res -> P c -> Forall P res'.
Proof.
  induction n as [| n IH]; intros res reslen resalloc res' reslen' resalloc' H Hres Hc.
  { by injection H as <- _ _. }
  cbn [unrle_run] in H. cbv zeta in H. destruct (_ && _); [discriminate |].
  eapply IH; [exact H | by apply store_Forall | done].
Qed.

(** Whatever [unRLE] returns for a legal solution is made of its letters. *)
Lemma unrle_loop_letters (alloc_ok : Z -> bool) xsb :
  forall k res reslen resalloc t,
  unrle_loop alloc_ok xsb k res reslen resalloc = UnrleText t ->
  Forall (fun c => is_digit (code c) = true \/ solution_letter c = true) xsb ->
  Forall (fun c => solution_letter c = true) res ->
  Forall (fun c => solution_letter c = true) t.
Proof.
  induction xsb as [| c xsb IH]; intros k res reslen resalloc t H Hxsb Hres.
  { injection H as <-. by apply Forall_take. }
  apply Forall_cons in Hxsb as [Hc Hxsb]. cbn [unrle_loop] in H.
  destruct (is_digit (code c)) eqn:Hd.
  - cbv zeta in H. destruct (_ || _); [discriminate |]. by eapply IH.
  - destruct Hc as [Hc | Hc]; [congruence |].
    destruct (unrle_run _ _ _ _ _ _) as [[[res' reslen'] resalloc'] |] eqn:Hrun;
      [| discriminate].
    eapply IH; [exact H | done |].
    eapply (unrle_run_Forall _ (fun c => solution_letter c = true)); eauto.
Qed.

Lemma solution_letter_move c :
  solution_letter c = true -> code c <> 0 /\ playback_move c <> sokmoveNONE.
Proof.
  destruct c as [[] [] [] [] [] [] [] []]; cbn; intros H; try discriminate H;
    split; discriminate.
Qed.

Lemma char_at_lookup s (i : nat) c : s !! i = Some c -> char_at s (Z.of_nat i) = Some c.
Proof.
  intros H. unfold char_at. destruct (Z.ltb_spec (Z.of_nat i) 0); [lia |].
  by rewrite Nat2Z.id, H.
Qed.

Lemma char_at_end s : char_at s (Z.of_nat (length s)) = Some NUL.
Proof.
  unfold char_at. destruct (Z.ltb_spec (Z.of_nat (length s)) 0); [lia |].
  rewrite Nat2Z.id, lookup_ge_None_2 by lia. by rewrite Z.eqb_refl.
Qed.

Lemma autoplay_S fuel playsolution l :
  autoplay (S fuel) playsolution l
  = if 0 <? playsolution then
      match process_autoplayback playsolution l with
      | None => None
      | Some (movedir, playsolution') =>
          cons movedir <$> autoplay fuel playsolution' l
      end
    else Some [].
Proof. reflexivity. Qed.

(** The playback walks through a string of letters, one per call. *)
Lemma autoplay_walk l :
  Forall (fun c => solution_letter c = true) l ->
  Z.of_nat (length l) < INT_MAX ->
  forall n i, (i + n = length l)%nat -> (1 <= n)%nat ->
  autoplay (S n) (Z.of_nat i + 1) l = Some (map playback_move (drop i l)).
Proof.
  intros Hl Hmax. induction n as [| n IH]; intros i Hin Hn; [lia |].
  destruct (lookup_lt_is_Some_2 l i) as [c Hc]; [lia |].
  rewrite (drop_S _ _ _ Hc), autoplay_S. cbn [map].
  destruct (Z.ltb_spec 0 (Z.of_nat i + 1)); [| lia].
  unfold process_autoplayback.
  replace (Z.of_nat i + 1 - 1) with (Z.of_nat i) by lia.
  rewrite (char_at_lookup _ _ _ Hc).
  destruct (Z.leb_spec INT_MAX (Z.of_nat i + 1)); [lia |].
  replace (Z.of_nat i + 1) with (Z.of_nat (S i)) by lia.
  destruct (decide (n = 0%nat)) as [-> | Hn0].
  - replace (S i) with (length l) by lia. rewrite char_at_end.
    change (code NUL =? 0) with true. cbv iota.
    rewrite drop_all, autoplay_S. reflexivity.
  - destruct (lookup_lt_is_Some_2 l (S i)) as [c' Hc']; [lia |].
    rewrite (char_at_lookup _ _ _ Hc').
    rewrite Forall_forall in Hl.
    destruct (solution_letter_move c' (Hl c' ltac:(by eapply list_elem_of_lookup_2)))
      as [Hnz _].
    destruct (Z.eqb_spec (code c') 0); [done |].
    rewrite (IH (S i)) by lia. reflexivity.
Qed.

(** A solution that [isLegalSokoSolution] accepts and that [unRLE] has
    expanded to a string that is not empty is played back letter by
    letter: the calls of [process_autoplayback] give the moves of its
    letters in their order, none of them [sokmoveNONE], and end the
    playback behind the last one.  When the string is empty (all repeat
    counts are 0), the first call reads behind its terminator. *)
Theorem pasted_solution_plays (alloc_ok : Z -> bool) (s t : list ascii) :
  isLegalSokoSolution (Some s) = 1 ->
  unRLE alloc_ok s = UnrleText t ->
  Z.of_nat (length t) < INT_MAX ->
  (t <> [] ->
   autoplay (S (length t)) 1 t = Some (map playback_move t)
   /\ Forall (fun movedir => movedir <> sokmoveNONE) (map playback_move t))
  /\ (t = [] -> process_autoplayback 1 t = None).
Proof.
  intros Hlegal Hun Hmax.
  cbn [isLegalSokoSolution] in Hlegal.
  destruct (_ <? 1); [discriminate |]. apply legal_loop_spec in Hlegal as [Hall _].
  unfold unRLE in Hun. destruct (alloc_ok 16); [| discriminate].
  apply unrle_loop_letters in Hun; [| done | constructor].
  split; [| by intros ->].
  intros Hne. split.
  - apply (autoplay_walk t Hun Hmax (length t) 0); [lia |].
    destruct t; [done | cbn; lia].
  - apply Forall_map. eapply Forall_impl; [exact Hun |].
    intros c Hc. by apply solution_letter_move.
Qed.

(** ** Trimming *)

(** The index that a scan for the last character outside [blank] ends
    with. *)
Lemma last_real_spec (blank : ascii -> bool) (scan : list ascii -> Z -> Z -> Z) :
  (forall c rest x l, scan (c :: rest) x l = scan rest (x + 1) (if blank c then l else x)) ->
  (forall x l, scan [] x l = l) ->
  forall str x l,
    (scan str x l = l /\ Forall (fun c => blank c = true) str)
    \/ (exists (i : nat) c, scan str x l = x + Z.of_nat i /\ str !! i = Some c
          /\ blank c = false /\ Forall (fun c => blank c = true) (drop (S i) str)).
Proof.
  intros Hcons Hnil. induction str as [| c str IH]; intros x l.
  { left. by rewrite Hnil. }
  rewrite Hcons. destruct (blank c) eqn:Hc.
  - destruct (IH (x + 1) l) as [[-> Hall] | (i & c' & -> & Hi & Hc' & Hall)].
    + left. split; [done | by constructor].
    + right. exists (S i), c'. split; [lia | done].
  - destruct (IH (x + 1) x) as [[-> Hall] | (i & c' & -> & Hi & Hc' & Hall)].
    + right. exists 0%nat, c. split; [lia | done].
    + right. exists (S i), c'. split; [lia | done].
Qed.

Lemma last_take_S (s : list ascii) (i : nat) c :
  s !! i = Some c -> last (take (S i) s) = Some c.
Proof.
  intros Hi. rewrite last_lookup, length_take.
  pose proof (lookup_lt_Some _ _ _ Hi).
  replace (Nat.pred (S i `min` length s)) with i by lia.
  by rewrite lookup_take_lt by lia.
Qed.

(** [trimstr] cuts a string behind its last character that is neither a
    space, a tab, a carriage return nor a newline, and nowhere else: what
    it removes is blank, and what it leaves does not end in a blank. *)
Theorem trimstr_cuts_blanks (str : list ascii) :
  Z.of_nat (length str) <= INT_MAX ->
  exists kept blanks,
    trimstr str = Some kept /\ str = kept ++ blanks
    /\ Forall (fun c => trim_blank c = true) blanks
    /\ forall c, last kept = Some c -> trim_blank c = false.
Proof.
  intros Hlen. unfold trimstr.
  destruct (Z.ltb_spec INT_MAX (Z.of_nat (length str))); [lia |].
  destruct (last_real_spec trim_blank trimstr_scan ltac:(done) ltac:(done) str 0 (-1))
    as [[-> Hall] | (i & c & -> & Hi & Hc & Hall)].
  - exists [], str. done.
  - exists (take (S i) str), (drop (S i) str).
    replace (Z.to_nat (0 + Z.of_nat i + 1)) with (S i) by lia.
    split; [done |]. split; [by rewrite take_drop |]. split; [done |].
    intros c'. rewrite (last_take_S _ _ _ Hi). by intros [= <-].
Qed.

Lemma trim_scan_last str : forall x f f' l,
  (trim_scan str x f l).2 = (trim_scan str x f' l).2.
Proof.
  induction str as [| c str IH]; intros x f f' l; [done |].
  cbn [trim_scan]. apply IH.
Qed.

Lemma trim_scan_found str : forall x f l, 0 <= f -> (trim_scan str x f l).1 = f.
Proof.
  induction str as [| c str IH]; intros x f l Hf; [done |].
  cbn [trim_scan]. destruct (Z.ltb_spec f 0); [lia |]. cbn [andb]. by apply IH.
Qed.

Lemma trim_scan_first str : forall x l, 0 <= x ->
  ((trim_scan str x (-1) l).1 = -1 /\ Forall (fun c => is_space c = true) str)
  \/ (exists (i : nat) c, (trim_scan str x (-1) l).1 = x + Z.of_nat i
        /\ str !! i = Some c /\ is_space c = false
        /\ Forall (fun c => is_space c = true) (take i str)).
Proof.
  induction str as [| c str IH]; intros x l Hx; [by left |].
  cbn [trim_scan]. change (-1 <? 0) with true. cbn [andb].
  destruct (is_space c) eqn:Hc; cbn [negb].
  - destruct (IH (x + 1) l) as [[-> Hall] | (i & c' & -> & Hi & Hc' & Hall)]; [lia | |].
    + left. split; [done | by constructor].
    + right. exists (S i), c'. split; [lia |]. split; [done |]. split; [done |].
      by constructor.
  - right. exists 0%nat, c. rewrite trim_scan_found by lia.
    split; [lia |]. split; [done |]. split; [done | constructor].
Qed.

(** The copy loop of [trim] moves the characters down by [f] places. *)
Lemma trim_copy_moves (f : nat) : forall n (x : nat) buf,
  (0 < f)%nat -> (x + n + f <= length buf)%nat ->
  trim_copy buf (Z.of_nat f) (Z.of_nat x) n
  = Some (take x buf ++ take n (drop (x + f) buf) ++ drop (x + n) buf).
Proof.
  induction n as [| n IH]; intros x buf Hf Hlen.
  { cbn [trim_copy]. rewrite take_0, Nat.add_0_r. cbn [app]. by rewrite take_drop. }
  cbn [trim_copy].
  replace (Z.to_nat (Z.of_nat x + Z.of_nat f)) with (x + f)%nat by lia.
  destruct (lookup_lt_is_Some_2 buf (x + f)) as [c Hc]; [lia |]. rewrite Hc.
  rewrite Nat2Z.id. replace (Z.of_nat x + 1) with (Z.of_nat (S x)) by lia.
  rewrite IH; [| done | rewrite length_insert; lia]. f_equal.
  rewrite (take_S_r (<[x:=c]> buf) x c) by (apply list_lookup_insert_eq; lia).
  rewrite take_insert_ge by lia.
  rewrite drop_insert_lt by lia. rewrite drop_insert_lt by lia.
  rewrite (drop_S buf c (x + f) Hc). cbn [take].
  rewrite <- app_assoc. cbn [app].
  replace (S x + f)%nat with (S (x + f)) by lia.
  replace (S x + n)%nat with (x + S n)%nat by lia. reflexivity.
Qed.

(** [trim] strips the spaces at both ends of a comment and nothing else.
    A comment of spaces only is not emptied: its first space stays. *)
Theorem trim_strips_spaces (comment : list ascii) :
  Z.of_nat (length comment) <= INT_MAX ->
  exists kept,
    trim comment = Some kept
    /\ ((Forall (fun c => is_space c = true) comment /\ kept = take 1 comment)
        \/ (exists before behind,
              comment = before ++ kept ++ behind
              /\ Forall (fun c => is_space c = true) before
              /\ Forall (fun c => is_space c = true) behind
              /\ (exists c, head kept = Some c /\ is_space c = false)
              /\ (exists c, last kept = Some c /\ is_space c = false))).
Proof.
  intros Hlen. unfold trim.
  destruct (Z.ltb_spec INT_MAX (Z.of_nat (length comment))); [lia |].
  destruct (trim_scan comment 0 (-1) 0) as [f l] eqn:Hscan.
  pose proof (f_equal fst Hscan) as Hf. pose proof (f_equal snd Hscan) as Hl.
  cbn [fst snd] in Hf, Hl. clear Hscan.
  destruct (trim_scan_first comment 0 0 ltac:(lia))
    as [[Hf1 Hall] | (i & c & Hf1 & Hi & Hc & Hbefore)]; rewrite Hf in Hf1; clear Hf.
  { (* spaces only *)
    subst f. destruct (Z.ltb_spec 0 (-1)); [lia |].
    eexists. split; [reflexivity |]. left. split; [done |].
    destruct (last_real_spec is_space
                (fun str x l => (trim_scan str x (-1) l).2)) with
      (str := comment) (x := 0) (l := 0)
      as [[Hl1 _] | (j & c & _ & Hj & Hc & _)].
    - intros c rest x l0. cbn [trim_scan].
      rewrite (trim_scan_last rest (x + 1) _ (-1)). by destruct (is_space c).
    - done.
    - cbn beta in Hl1. rewrite Hl in Hl1. clear Hl. by subst l.
    - rewrite Forall_forall in Hall.
      rewrite (Hall c) in Hc by (by eapply list_elem_of_lookup_2). done. }
  destruct (last_real_spec is_space
              (fun str x l => (trim_scan str x (-1) l).2)) with
    (str := comment) (x := 0) (l := 0)
    as [[_ Hall] | (j & c' & Hl1 & Hj & Hc' & Hbehind)].
  { intros c0 rest x l0. cbn [trim_scan].
    rewrite (trim_scan_last rest (x + 1) _ (-1)). by destruct (is_space c0). }
  { done. }
  { rewrite Forall_forall in Hall.
    rewrite (Hall c) in Hc by (by eapply list_elem_of_lookup_2). done. }
  cbn beta in Hl1. rewrite Hl in Hl1. clear Hl. subst f l.
  assert (i <= j)%nat as Hij.
  { destruct (decide (i <= j)%nat); [done |].
    rewrite Forall_forall in Hbehind.
    rewrite (Hbehind c) in Hc; [done |].
    apply (list_elem_of_lookup_2 _ (i - S j) c). rewrite lookup_drop.
    by replace (S j + (i - S j))%nat with i by lia. }
  pose proof (lookup_lt_Some _ _ _ Hj) as Hjlen.
  assert (exists kept, (if 0 <? 0 + Z.of_nat i
                        then match trim_copy (take (Z.to_nat (0 + Z.of_nat j + 1)) comment)
                                             (0 + Z.of_nat i) 0
                                             (Z.to_nat (1 + (0 + Z.of_nat j) - (0 + Z.of_nat i)))
                             with
                             | None => None
                             | Some moved =>
                                 Some (take (Z.to_nat (1 + (0 + Z.of_nat j) - (0 + Z.of_nat i)))
                                            moved)
                             end
                        else Some (take (Z.to_nat (0 + Z.of_nat j + 1)) comment))
                       = Some kept
                       /\ kept = drop i (take (S j) comment)) as (kept & -> & Hkept).
  { replace (Z.to_nat (0 + Z.of_nat j + 1)) with (S j) by lia.
    replace (Z.to_nat (1 + (0 + Z.of_nat j) - (0 + Z.of_nat i))) with (S j - i)%nat by lia.
    destruct (Z.ltb_spec 0 (0 + Z.of_nat i)).
    - replace (0 + Z.of_nat i) with (Z.of_nat i) by lia.
      rewrite (trim_copy_moves i (S j - i) 0); [| lia | rewrite length_take; lia].
      eexists. split; [reflexivity |].
      rewrite take_0. cbn [app Nat.add].
      assert (length (drop i (take (S j) comment)) = (S j - i)%nat) as Hd
        by (rewrite length_drop, length_take; lia).
      rewrite (take_ge (drop i (take (S j) comment))) by lia.
      by apply take_app_length'.
    - eexists. split; [reflexivity |]. by replace i with 0%nat by lia. }
  exists kept. split; [done |]. right.
  exists (take i comment), (drop (S j) comment). subst kept.
  split.
  { rewrite <- (take_drop i comment) at 1. f_equal.
    rewrite <- (take_drop (S j - i) (drop i comment)) at 1.
    rewrite drop_drop. replace (i + (S j - i))%nat with (S j) by lia.
    f_equal. rewrite take_drop_commute. by replace (i + (S j - i))%nat with (S j) by lia. }
  split; [done |]. split; [done |]. split.
  - exists c. split; [| done]. rewrite head_lookup, lookup_drop, Nat.add_0_r.
    by rewrite lookup_take_lt by lia.
  - exists c'. split; [| done]. rewrite last_lookup, length_drop, length_take.
    rewrite lookup_drop. rewrite lookup_take_lt by lia.
    by replace (i + Nat.pred (S j `min` length comment - i))%nat with j by lia.
Qed.

(** ** Repeat counts in a level text *)

Lemma plain_symbol_cases b :
  plain_symbol b = true -> cell_symbol b = true \/ b = 10 \/ b = 124.
Proof.
  unfold plain_symbol, row_end. change (code "|") with 124.
  destruct (cell_symbol b); [auto |]. cbn [orb]. lia.
Qed.

Lemma plain_symbol_byte b : plain_symbol b = true -> 0 < b /\ is_digit b = false.
Proof.
  intros Hb. destruct (plain_symbol_cases b Hb) as [Hc | [-> | ->]];
    [by apply cell_symbol_plain | done | done].
Qed.

(** The [switch] on a symbol of a cell or of the end of a row does not
    look at the text. *)
Lemma scan_symbol_plain g x y s e b m :
  plain_symbol b = true ->
  scan_symbol (mkscan g x y s e b m)
  = (fun st => set_mem st m) <$> scan_symbol (mkscan g x y s e b [])
  /\ forall st1, scan_symbol (mkscan g x y s e b m) = Some st1 ->
       s_started st1 = s /\ s_eof st1 = e /\ s_bytebuff st1 = b /\ s_mem st1 = m.
Proof.
  intros Hb. destruct (plain_symbol_cases b Hb) as [Hc | Hnl].
  - rewrite !(scan_symbol_cell _ _ _ _ _ _ _ Hc).
    destruct (field_get _ _ _); [| done]. split; [done |]. by intros st1 [= <-].
  - unfold scan_symbol. cbn [s_bytebuff].
    change (code " ") with 32. change (code "-") with 45. change (code "_") with 95.
    change (code "#") with 35. change (code "@") with 64. change (code "*") with 42.
    change (code "$") with 36. change (code "+") with 43. change (code ".") with 46.
    change (code "|") with 124.
    destruct Hnl as [-> | ->];
      repeat match goal with
             | |- context [?a =? ?b] =>
                 first [change (a =? b) with false | change (a =? b) with true]
             end;
      cbn [orb]; cbv iota; (split; [done |]); by intros st1 [= <-].
Qed.

Lemma scan_run_plain n : forall g x y s b m,
  plain_symbol b = true -> 0 <= s ->
  scan_run n (mkscan g x y s false b m)
  = match scan_run n (mkscan g x y s false b []) with
    | ScanUB => ScanUB
    | ScanErr e st => ScanErr e (set_mem st m)
    | ScanOk st => ScanOk (set_mem st m)
    end
  /\ forall st, scan_run n (mkscan g x y s false b m) = ScanOk st ->
       0 <= s_started st /\ s_eof st = false /\ s_bytebuff st = b /\ s_mem st = m.
Proof.
  induction n as [| n IH]; intros g x y s b m Hb Hs.
  { cbn [scan_run]. split; [done |]. by intros st [= <-]. }
  cbn [scan_run].
  destruct (scan_symbol_plain g x y s false b m Hb) as [-> Hst1].
  destruct (scan_symbol_plain g x y s false b [] Hb) as [_ Hst0].
  destruct (scan_symbol (mkscan g x y s false b [])) as [st0 |]; [| done].
  destruct (Hst0 st0 eq_refl) as (Hs0 & He0 & Hb0 & Hm0).
  destruct st0 as [g0 x0 y0 s0 e0 b0 m0]. cbn in Hs0, He0, Hb0, Hm0. subst s0 e0 b0 m0.
  cbn [fmap option_fmap option_map set_mem s_game s_x s_y s_started s_eof s_bytebuff
       s_mem].
  replace (s <? 0) with false by lia. cbn [orb].
  destruct (62 <=? x0); [by split |]. destruct (62 <=? y0); [by split |].
  apply IH; [done |]. destruct (0 <? x0); lia.
Qed.

(** One more round of the repeat loop is one round of its own. *)
Lemma scan_run_S n g x y s b m :
  plain_symbol b = true -> 0 <= s ->
  scan_run (S n) (mkscan g x y s false b m)
  = match scan_run 1 (mkscan g x y s false b m) with
    | ScanOk st => scan_run n st
    | r => r
    end.
Proof.
  intros Hb Hs. cbn [scan_run].
  destruct (scan_symbol_plain g x y s false b m Hb) as [_ Hst1].
  destruct (scan_symbol (mkscan g x y s false b m)) as [st1 |]; [| done].
  destruct (Hst1 st1 eq_refl) as (Hs1 & He1 & _). rewrite Hs1, He1.
  replace (s <? 0) with false by lia. cbn [orb].
  destruct (62 <=? _); [done |]. by destruct (62 <=? _).
Qed.

Lemma rle_digit_range k d :
  -1 <= k -> is_digit d = true -> 0 <= rle_digit k d /\ k <= rle_digit k d.
Proof.
  unfold rle_digit, is_digit. change (code "0") with 48. change (code "9") with 57.
  intros Hk Hd. destruct (Z.ltb_spec 0 k); lia.
Qed.

Lemma rle_value_mono ds : forall k,
  -1 <= k -> Forall (fun d => is_digit d = true) ds ->
  k <= fold_left rle_digit ds k.
Proof.
  induction ds as [| d ds IH]; intros k Hk Hds; [cbn; lia |].
  apply Forall_cons in Hds as [Hd Hds]. cbn [fold_left].
  destruct (rle_digit_range k d Hk Hd). specialize (IH (rle_digit k d) ltac:(lia) Hds).
  lia.
Qed.

(** [readRLEbyte] on the digits of a count and the symbol behind them. *)
Lemma readRLEbyte_digits ds : forall k b m,
  Forall (fun d => is_digit d = true) ds -> plain_symbol b = true ->
  -1 <= k -> fold_left rle_digit ds k <= INT_MAX ->
  readRLEbyte (ds ++ b :: m) k
  = Some (if fold_left rle_digit ds k <? 0 then 1 else fold_left rle_digit ds k, b, m).
Proof.
  induction ds as [| d ds IH]; intros k b m Hds Hb Hk Hmax.
  { destruct (plain_symbol_byte b Hb) as [Hpos Hdig]. unfold is_digit in Hdig.
    cbn [app fold_left readRLEbyte readbytefrommem].
    destruct (Z.eqb_spec b 0); [lia |]. destruct (Z.ltb_spec b 0); [lia |].
    by rewrite Hdig. }
  apply Forall_cons in Hds as [Hd Hds].
  destruct (rle_digit_range k d Hk Hd) as [H0 _].
  pose proof (rle_value_mono ds (rle_digit k d) ltac:(lia) Hds) as Hmono.
  cbn [fold_left] in Hmax. cbn [app fold_left readRLEbyte readbytefrommem].
  pose proof Hd as Hd'. unfold is_digit in Hd'. change (code "0") with 48 in *.
  change (code "9") with 57 in *.
  destruct (Z.eqb_spec d 0); [lia |]. destruct (Z.ltb_spec d 0); [lia |].
  rewrite Hd'. change ((if 0 <? k then k * 10 else 0) + (d - 48)) with (rle_digit k d).
  destruct (Z.ltb_spec INT_MAX (rle_digit k d)); [lia |].
  apply IH; [done | done | lia | done].
Qed.

(** One round of the loop of the loader on a token. *)
Lemma scan_level_token fuel st ds b m :
  Forall (fun d => is_digit d = true) ds -> plain_symbol b = true ->
  rle_value ds <= INT_MAX -> s_eof st = false -> 0 <= s_started st ->
  scan_level (S fuel) (set_mem st (ds ++ b :: m))
  = match scan_run (Z.to_nat (token_count ds))
                   (mkscan (s_game st) (s_x st) (s_y st) (s_started st) false b m) with
    | ScanOk st1 => scan_level fuel st1
    | r => r
    end.
Proof.
  intros Hds Hb Hmax Heof Hst. cbn [scan_level set_mem s_mem].
  rewrite (readRLEbyte_digits ds (-1) b m Hds Hb ltac:(lia) Hmax).
  fold (rle_value ds). fold (token_count ds).
  unfold set_mem. cbn [s_game s_x s_y s_started s_eof]. rewrite Heof.
  assert (0 <= token_count ds) as Hn by (unfold token_count; destruct (Z.ltb_spec (rle_value ds) 0); lia).
  replace (token_count ds <? 0) with false by lia. cbn [orb].
  destruct (scan_run_plain (Z.to_nat (token_count ds)) (s_game st) (s_x st) (s_y st)
              (s_started st) b m Hb Hst) as [_ Hok].
  destruct (scan_run _ _) as [| e st1 | st1]; [done | done |].
  destruct (Hok st1 eq_refl) as (Hs1 & He1 & _). rewrite He1.
  by replace (s_started st1 <? 0) with false by lia.
Qed.

Lemma scan_level_bytebuff fuel g x y s e b b' m :
  scan_level fuel (mkscan g x y s e b m) = scan_level fuel (mkscan g x y s e b' m).
Proof. by destruct fuel. Qed.

Lemma same_result_refl r : same_result r r.
Proof. by destruct r. Qed.

(** Tokens are read without a look at the text behind them. *)
Lemma scan_tokens_same toks : forall st m1 m2 f1 f2,
  Forall rle_token toks -> s_eof st = false -> 0 <= s_started st ->
  (forall st', s_eof st' = false -> 0 <= s_started st' ->
     same_result (scan_level f1 (set_mem st' m1)) (scan_level f2 (set_mem st' m2))) ->
  same_result (scan_level (length toks + f1) (set_mem st (token_text toks ++ m1)))
              (scan_level (length toks + f2) (set_mem st (token_text toks ++ m2))).
Proof.
  induction toks as [| [ds b] toks IH]; intros st m1 m2 f1 f2 Htoks Heof Hst Hrest.
  { by apply Hrest. }
  apply Forall_cons in Htoks as [(Hds & Hb & Hmax) Htoks]. cbn [fst snd] in Hds, Hb, Hmax.
  unfold token_text. cbn [map concat length Nat.add fst snd]. fold (token_text toks).
  rewrite <- !app_assoc. cbn [app].
  rewrite !(scan_level_token _ st ds b _ Hds Hb Hmax Heof Hst).
  destruct (scan_run_plain (Z.to_nat (token_count ds)) (s_game st) (s_x st) (s_y st)
              (s_started st) b (token_text toks ++ m1) Hb Hst) as [-> Hok].
  destruct (scan_run_plain (Z.to_nat (token_count ds)) (s_game st) (s_x st) (s_y st)
              (s_started st) b (token_text toks ++ m2) Hb Hst) as [-> _].
  destruct (scan_run _ _) as [| e st1 | st1]; [done | done |].
  destruct (Hok _ eq_refl) as (Hs1 & He1 & _).
  by apply IH.
Qed.

(** The rounds that a repeat count asks for are the rounds of as many
    symbols. *)
Lemma scan_rounds c post f : forall n g x y s b,
  plain_symbol c = true -> 0 <= s ->
  same_result
    match scan_run n (mkscan g x y s false c post) with
    | ScanOk st1 => scan_level f st1
    | r => r
    end
    (scan_level (n + f) (mkscan g x y s false b (replicate n c ++ post))).
Proof.
  induction n as [| n IH]; intros g x y s b Hc Hs.
  { cbn [scan_run replicate app Nat.add]. rewrite (scan_level_bytebuff f _ _ _ _ _ c b).
    apply same_result_refl. }
  rewrite (scan_run_S n _ _ _ _ _ _ Hc Hs).
  cbn [replicate app Nat.add].
  pose proof (scan_level_token (n + f) (mkscan g x y s false b []) [] c
                (replicate n c ++ post) ltac:(constructor) Hc
                ltac:(by vm_compute) eq_refl Hs) as Htok.
  unfold set_mem in Htok. cbn [app s_game s_x s_y s_started s_eof s_bytebuff] in Htok.
  rewrite Htok.
  change (Z.to_nat (token_count [])) with 1%nat.
  destruct (scan_run_plain 1 g x y s c post Hc Hs) as [-> _].
  destruct (scan_run_plain 1 g x y s c (replicate n c ++ post) Hc Hs) as [-> Hok].
  destruct (scan_run 1 _) as [| e st1 | st1]; [done | done |].
  destruct (Hok _ eq_refl) as (Hs1 & He1 & Hb1 & _).
  destruct st1 as [g1 x1 y1 s1 e1 b1 m1]. cbn in Hs1, He1, Hb1. subst e1 b1.
  unfold set_mem. cbn [s_game s_x s_y s_started s_eof s_bytebuff]. by apply IH.
Qed.

Lemma rle_value_nonneg ds :
  ds <> [] -> Forall (fun d => is_digit d = true) ds -> 0 <= rle_value ds.
Proof.
  destruct ds as [| d ds]; [done |]. intros _ Hds.
  apply Forall_cons in Hds as [Hd Hds]. unfold rle_value. cbn [fold_left].
  destruct (rle_digit_range (-1) d ltac:(lia) Hd) as [H0 _].
  pose proof (rle_value_mono ds (rle_digit (-1) d) ltac:(lia) Hds). lia.
Qed.

Section RepeatCounts.
Variable crc32_init : Z.
Variable crc32_feed : Z -> Z -> Z.
Variable crc32_finish : Z -> Z.
Variable crc64_fn : Z -> list Z -> Z.

#[local] Abbreviation load_level :=
  (loadlevelfromfile crc32_init crc32_feed crc32_finish crc64_fn).

(** In the text of a level, a repeat count before the symbol of a cell or
    of the end of a row stands for that many symbols: [loadlevelfromfile]
    gives the same result, the same level and the same place in the text
    for the symbol with the digits of [n] before it and for [n] copies of
    the symbol, whatever comes behind, when what stands before is made of
    such symbols, with or without counts of their own. *)
Theorem rle_count_repeats (game : sokgame) (toks : list (list Z * Z))
    (ds : list Z) (c : Z) (post : list Z) :
  Forall rle_token toks -> rle_token (ds, c) -> ds <> [] ->
  load_outcome (load_level game (token_text toks ++ ds ++ c :: post))
  = load_outcome
      (load_level game
         (token_text toks ++ replicate (Z.to_nat (rle_value ds)) c ++ post)).
Proof.
  intros Htoks (Hds & Hc & Hmax) Hne. cbn [fst snd] in Hds, Hc, Hmax.
  pose proof (rle_value_nonneg ds Hne Hds) as Hn.
  set (n := Z.to_nat (rle_value ds)).
  set (mem1 := token_text toks ++ ds ++ c :: post).
  set (mem2 := token_text toks ++ replicate n c ++ post).
  set (f := (length mem1 + length mem2)%nat).
  assert (1 <= length mem1)%nat as Hlen1.
  { unfold mem1. rewrite !length_app. cbn [length]. lia. }
  unfold loadlevelfromfile, load_prepare, load_prepare_fuel.
  set (g0 := mkgame 0 0 _ _ _ _ _ _ _).
  rewrite <- (scan_level_fuel (length mem1) (length toks + length mem2)
                (mkscan g0 0 0 0 false 0 mem1)) by done.
  rewrite <- (scan_level_fuel (length mem2) (length toks + n + length mem1 - 1)
                (mkscan g0 0 0 0 false 0 mem2)) by done.
  replace (S (length mem1) + (length toks + length mem2))%nat
    with (length toks + S f)%nat by lia.
  replace (S (length mem2) + (length toks + n + length mem1 - 1))%nat
    with (length toks + (n + f))%nat by lia.
  pose proof (scan_tokens_same toks (mkscan g0 0 0 0 false 0 []) (ds ++ c :: post)
                (replicate n c ++ post) (S f) (n + f) Htoks eq_refl ltac:(done))
    as Hsame.
  assert (same_result (scan_level (length toks + S f) (mkscan g0 0 0 0 false 0 mem1))
                      (scan_level (length toks + (n + f)) (mkscan g0 0 0 0 false 0 mem2)))
    as Hres.
  { refine (Hsame _). intros st' Heof' Hst'.
    rewrite (scan_level_token f st' ds c post Hds Hc Hmax Heof' Hst').
    replace (Z.to_nat (token_count ds)) with n
      by (unfold token_count, n; destruct (Z.ltb_spec (rle_value ds) 0); [lia | done]).
    unfold set_mem. rewrite Heof'. apply (scan_rounds c post f n); [done | done]. }
  clear Hsame.
  destruct (scan_level _ (mkscan g0 0 0 0 false 0 mem1)) as [| e1 st1 | st1] eqn:H1;
    destruct (scan_level _ (mkscan g0 0 0 0 false 0 mem2)) as [| e2 st2 | st2] eqn:H2;
    try (exfalso; exact Hres).
  - reflexivity.
  - destruct Hres as [<- Hg]. apply scan_level_err in H1 as [He1 _].
    cbn [load_outcome fmap option_fmap option_map]. rewrite Hg.
    by replace (e1 <? 0) with true by lia.
  - cbn in Hres. by subst st2.
Qed.

End RepeatCounts.

(** ** The playfield in the window *)

Lemma int_of_fits z : - INT_MAX - 1 <= z <= INT_MAX -> int_of z = Some z.
Proof.
  intros Hz. unfold int_of.
  destruct (Z.leb_spec (- INT_MAX - 1) z); [| lia].
  destruct (Z.leb_spec z INT_MAX); [done | lia].
Qed.

Lemma getoffset_spec size pos win tilesize :
  0 <= pos < size -> size <= 64 ->
  0 < tilesize <= win -> tilesize <= 65535 -> win <= 2 ^ 30 ->
  exists off,
    getoffset size pos win tilesize = Some off
    /\ 0 <= off + pos * tilesize /\ off + pos * tilesize + tilesize <= win
    /\ (size * tilesize <= win -> 0 <= off /\ off + size * tilesize <= win)
    /\ (win < size * tilesize -> off <= 0 /\ win <= off + size * tilesize).
Proof.
  intros Hpos Hsize Htile Hshort Hwin. unfold getoffset, INT_MAX in *.
  assert (0 <= pos * tilesize /\ pos * tilesize + tilesize <= size * tilesize
          /\ size * tilesize <= 64 * 65535) as (HP0 & HP & HW) by nia.
  set (W := size * tilesize) in *. set (P := pos * tilesize) in *.
  clearbody W P.
  rewrite !Z.quot_div_nonneg by lia.
  pose proof (Z.div_mod win 2 ltac:(lia)). pose proof (Z.mod_pos_bound win 2 ltac:(lia)).
  pose proof (Z.div_mod W 2 ltac:(lia)). pose proof (Z.mod_pos_bound W 2 ltac:(lia)).
  pose proof (Z.div_mod tilesize 2 ltac:(lia)).
  pose proof (Z.mod_pos_bound tilesize 2 ltac:(lia)).
  change (2 ^ 30) with 1073741824 in *.
  rewrite (int_of_fits W) by (unfold INT_MAX; lia). cbn [mbind option_bind].
  rewrite ?Z.quot_div_nonneg by lia.
  destruct (Z.leb_spec W win).
  { rewrite int_of_fits by (unfold INT_MAX; lia). eexists. split; [reflexivity |]. lia. }
  rewrite (int_of_fits P) by (unfold INT_MAX; lia). cbn [mbind option_bind].
  rewrite (int_of_fits (P + _)) by (unfold INT_MAX; lia). cbn [mbind option_bind].
  destruct (Z.ltb_spec (win / 2) (P + tilesize / 2)).
  - rewrite (int_of_fits (win / 2 - _)) by (unfold INT_MAX; lia). cbn [mbind option_bind].
    rewrite (int_of_fits (W + _)) by (unfold INT_MAX; lia). cbn [mbind option_bind].
    destruct (Z.ltb_spec (W + (win / 2 - (P + tilesize / 2))) win).
    + rewrite int_of_fits by (unfold INT_MAX; lia). eexists. split; [reflexivity |]. lia.
    + eexists. split; [reflexivity |]. lia.
  - eexists. split; [reflexivity |]. lia.
Qed.

(** Wherever the player stands in a level, their tile lies inside the
    window, for every tile size that the window has room for; a level
    that fits in the window is shown whole, and a larger one fills the
    window from edge to edge.  [getoffseth] and [getoffsetv] give the
    offsets for this without an overflow. *)
Theorem player_in_window (game : sokgame) (winw winh tilesize : Z) :
  0 <= positionx game < field_width game -> field_width game <= 64 ->
  0 <= positiony game < field_height game -> field_height game <= 64 ->
  0 < tilesize <= 65535 -> tilesize <= winw <= 2 ^ 30 -> tilesize <= winh <= 2 ^ 30 ->
  exists offx offy,
    getoffseth game winw tilesize = Some offx
    /\ getoffsetv game winh tilesize = Some offy
    /\ 0 <= offx + positionx game * tilesize
    /\ offx + positionx game * tilesize + tilesize <= winw
    /\ 0 <= offy + positiony game * tilesize
    /\ offy + positiony game * tilesize + tilesize <= winh
    /\ (field_width game * tilesize <= winw ->
        0 <= offx /\ offx + field_width game * tilesize <= winw)
    /\ (winw < field_width game * tilesize ->
        offx <= 0 /\ winw <= offx + field_width game * tilesize)
    /\ (field_height game * tilesize <= winh ->
        0 <= offy /\ offy + field_height game * tilesize <= winh)
    /\ (winh < field_height game * tilesize ->
        offy <= 0 /\ winh <= offy + field_height game * tilesize).
Proof.
  intros Hx Hw Hy Hh Ht Hwinw Hwinh.
  destruct (getoffset_spec (field_width game) (positionx game) winw tilesize)
    as (offx & Hoffx & ? & ? & ? & ?); [lia | lia | lia | lia | lia |].
  destruct (getoffset_spec (field_height game) (positiony game) winh tilesize)
    as (offy & Hoffy & ? & ? & ? & ?); [lia | lia | lia | lia | lia |].
  exists offx, offy. unfold getoffseth, getoffsetv. tauto.
Qed.

(** ** The text of a comment line *)

Lemma comment_loop_spec mem : forall buf written,
  (written = [] \/ buf = Some written) -> (length written <= 127)%nat ->
  comment_loop mem buf (Z.of_nat (length written))
  = (if decide (written ++ comment_line mem = []) then buf
     else Some (take 127 (written ++ comment_line mem)),
     (skip_comment mem).1, (skip_comment mem).2).
Proof.
  induction mem as [| b mem IH]; intros buf written Hbuf Hlen.
  { cbn [comment_loop skip_comment readbytefrommem comment_line].
    change (-1 =? 13) with false. change (-1 =? 10) with false.
    change (-1 <? 0) with true. cbv iota. rewrite app_nil_r. cbn [fst snd].
    case_decide as Hw; [done |]. destruct Hbuf as [-> | ->]; [done |].
    by rewrite take_ge by lia. }
  cbn [comment_loop skip_comment readbytefrommem comment_line].
  destruct (Z.eqb_spec b 0) as [-> | Hb0].
  { change (-1 =? 13) with false. change (-1 =? 10) with false.
    change (-1 <? 0) with true. change (0 =? 13) with false. cbv iota.
    change ((0 =? 10) || (0 <=? 0)) with true. cbv iota. rewrite app_nil_r. cbn [fst snd].
    case_decide as Hw; [done |]. destruct Hbuf as [-> | ->]; [done |].
    by rewrite take_ge by lia. }
  destruct (Z.eqb_spec b 13) as [-> | Hb13]; [by apply IH |].
  destruct (Z.eqb_spec b 10) as [-> | Hb10].
  { cbn [orb]. rewrite app_nil_r. cbn [fst snd].
    case_decide as Hw; [done |]. destruct Hbuf as [-> | ->]; [done |].
    by rewrite take_ge by lia. }
  destruct (Z.ltb_spec b 0) as [Hneg | Hpos].
  { replace ((false || (b <=? 0))) with true by lia. rewrite app_nil_r. cbn [fst snd].
    case_decide as Hw; [done |]. destruct Hbuf as [-> | ->]; [done |].
    by rewrite take_ge by lia. }
  replace (false || (b <=? 0)) with false by lia.
  destruct (Z.ltb_spec (Z.of_nat (length written)) 127) as [Hroom | Hfull].
  - rewrite Nat2Z.id.
    assert (take (length written) (default [] buf) = written) as ->.
    { destruct Hbuf as [-> | ->]; [done | by rewrite take_ge]. }
    replace (Z.of_nat (length written) + 1) with (Z.of_nat (length (written ++ [b])))
      by (rewrite length_app; cbn [length]; lia).
    rewrite IH; [| by right | rewrite length_app; cbn [length]; lia].
    rewrite <- app_assoc. cbn [app].
    case_decide as H1; [by destruct written | done].
  - assert (length written = 127%nat) as Hw127 by lia.
    destruct Hbuf as [-> | ->]; [done |].
    rewrite IH; [| by right | lia].
    assert (written <> []) as Hne by (by intros ->).
    rewrite !decide_False by (intros Happ; by apply app_eq_nil in Happ as [? _]).
    by rewrite !take_app_le by lia.
Qed.

(** The comment loop of [loadlevelfromfile] leaves in its buffer the first
    127 characters of the line, without the carriage returns.  On a line
    without a character it leaves the buffer as it was: with the comment
    read before, or not initialised when the line is the first comment of
    the call, and it is in this state that [trim] and [snprintf] get it.
    The byte and the place in the text that the loop ends with are those
    of [skip_comment]. *)
Theorem comment_buffer (mem : list Z) (commentbuf : option (list Z)) :
  comment_loop mem commentbuf 0
  = (if decide (comment_line mem = []) then commentbuf
     else Some (take 127 (comment_line mem)),
     (skip_comment mem).1, (skip_comment mem).2).
Proof. apply (comment_loop_spec mem commentbuf []); [by left | cbn; lia]. Qed.

(** ** Levels too tall for the clipboard *)

Section TallDump.
Variable crc32_init : Z.
Variable crc32_feed : Z -> Z -> Z.
Variable crc32_finish : Z -> Z.
Variable crc64_fn : Z -> list Z -> Z.

#[local] Abbreviation load_level :=
  (loadlevelfromfile crc32_init crc32_feed crc32_finish crc64_fn).

(** A loaded level of 61 or 62 rows does not come back from the
    clipboard: the text that [dumplevel2clipboard] makes of it ends every
    row with a newline and adds an empty line, and [loadlevelfromfile]
    turns it down with [ERR_LEVEL_TOO_HIGH]. *)
Theorem tall_dump_too_high (alloc_ok : Z -> bool) (game0 game1 : sokgame)
    (mem0 rest0 : list Z) (ret lev : Z) (g : sokgame)
    (sol history : option (list ascii)) (txt : list ascii) :
  load_level game0 mem0 = Some (ret, g, rest0) -> 0 <= ret ->
  61 <= field_height g ->
  dumplevel2clipboard alloc_ok (set_level_solution g lev sol) history = DumpText txt ->
  exists g' rest, load_level game1 (map code txt) = Some (ERR_LEVEL_TOO_HIGH, g', rest).
Proof.
  intros Hload Hret Hh Hdump.
  destruct (loadlevelfromfile_parts _ _ _ _ _ _ _ _ _ Hload Hret)
    as (st0 & filled & c32 & c64 & Hprep & Hshift & H32 & H64 & Hg).
  destruct (load_prepare_raw _ _ _ _ Hprep)
    as (Hinv & [Hcells Hplayer] & Hwf & Hpx & Hfill & _ & _).
  pose proof (load_prepare_shape game0 mem0) as Hshape. rewrite Hprep in Hshape.
  cbv zeta in Hshape. destruct Hshape as (Hw & Hh' & Hx & Hy & _ & _).
  pose proof (f_equal field_width Hg) as Hgw.
  pose proof (f_equal field_height Hg) as Hgh.
  pose proof (f_equal positionx Hg) as Hgx.
  pose proof (f_equal positiony Hg) as Hgy.
  cbn [set_crcs set_field field_width field_height positionx positiony] in Hgw, Hgh, Hgx, Hgy.
  rewrite <- Hgw, <- Hgh, <- Hgx, <- Hgy in *.
  unfold dumplevel2clipboard in Hdump.
  remember (hex16 _) as hx eqn:Hhx in Hdump.
  assert (Forall (fun b => 0 < b /\ b <> 10) (map code hx)) as Hhex
    by (rewrite Hhx; apply hex_digits_comment).
  clear Hhx.
  cbn [set_level_solution field_width field_height crc64 solution] in Hdump.
  destruct (INT_MAX <? _); [discriminate |].
  destruct (alloc_ok _); [| discriminate].
  destruct (dump_rows _ 0 _) as [rows |] eqn:Hrows; [| discriminate].
  destruct (_ <? _); [| discriminate]. injection Hdump as <-.
  set (gd := set_level_solution g lev sol) in *.
  set (trailer := match history with
                  | Some (c :: h) => _
                  | _ => _
                  end).
  destruct (reads_tall_dump (field (s_game st0)) filled gd) with
    (rows := rows) (rest := map code trailer) (lev := level game1)
    (c64 := crc64 game1) (c32 := crc32_106 game1)
    (cmt1 := map code (list_ascii_of_string " Level id: " ++ hx))
    as (st & Hscan).
  { done. }
  { intros i j c Hc. destruct (Hcells i j c Hc) as (H1 & H2 & _). done. }
  { by apply Hplayer. }
  { intros i j c Hc. by eapply flood_cells. }
  { intros i j Hi Hj. cbn [gd set_level_solution field].
    by apply (shift_rows_cells 63 filled 0 (field g) Hshift). }
  { done. }
  { cbn [gd set_level_solution field_width field_height]. lia. }
  { done. }
  { done. }
  { cbn [gd set_level_solution field_height]. lia. }
  { rewrite map_app. apply Forall_app. split; [| done].
    repeat constructor; by vm_compute. }
  cbv zeta in Hscan.
  unfold loadlevelfromfile, load_prepare, load_prepare_fuel.
  replace (map code _) with
    (code ";" :: map code (list_ascii_of_string " Level id: " ++ hx)
     ++ 10 :: 10 :: map code rows ++ 10 :: map code trailer).
  2: { repeat (rewrite !map_app; cbn [list_ascii_of_string map app]).
       rewrite <- ?app_assoc. reflexivity. }
  rewrite Hscan. by eexists _, _.
Qed.

End TallDump.

(** ** Instances of the further properties *)

Lemma denied_move_changes_nothing_witness :
  sok_move (fun _ => false) open_game sokmoveUP 1
           (mkstates 0 (replicate 61 "u"%char) 64) = MoveNoMem
  /\ -1 = -1
  /\ mkgame 3 1 row0_field 0 0 1 0 0 None = mkgame 3 1 row0_field 0 0 1 0 0 None
  /\ history (mkstates 90 [] 64) = history sok_newstates
  /\ @None (Z * list ascii) = None.
Proof.
  split.
  - apply (proj2 (proj1 (denied_move_changes_nothing (fun _ => false) open_game
                           sokmoveUP 1 (mkstates 0 (replicate 61 "u"%char) 64)))).
    split; [vm_compute; discriminate | reflexivity].
  - apply (proj2 (denied_move_changes_nothing (fun _ => true)
                    (mkgame 3 1 row0_field 0 0 1 0 0 None) sokmoveRIGHT 0 sok_newstates)
                 (-1) _ (mkstates 90 [] 64) None).
    + vm_compute. reflexivity.
    + lia.
Defined.

Lemma move_scores_witness :
  sok_history_getlen (Some (history (mkstates 90 ["R"%char] 64)))
  = sok_history_getlen (Some (history sok_newstates)) + 1
  /\ sok_history_getpushes (Some (history (mkstates 90 ["R"%char] 64)))
     = sok_history_getpushes (Some (history sok_newstates)) + Z.land 7 sokmove_pushed.
Proof.
  apply (move_scores (fun _ => true) row1_game sokmoveRIGHT sok_newstates 7 row1_solved
           (mkstates 90 ["R"%char] 64) (Some (0, ["R"%char]))).
  - vm_compute. reflexivity.
  - lia.
Defined.

Lemma move_flags_witness :
  Z.land 7 sokmove_solved <> 0 <->
  goals_filled row1_solved
  /\ Exists (fun c => is_upper c = true) (history (mkstates 90 ["R"%char] 64)).
Proof.
  apply (move_flags (fun _ => true) row1_game sokmoveRIGHT sok_newstates 7 row1_solved
           (mkstates 90 ["R"%char] 64) (Some (0, ["R"%char]))).
  - vm_compute. reflexivity.
  - lia.
Defined.

Lemma history_buffer_kept_witness : history_fits (mkstates 90 ["R"%char] 64).
Proof.
  apply (proj1 (proj2 (history_buffer_kept (fun _ => true)))
               row1_game sokmoveRIGHT 0 sok_newstates 7 row1_solved
               (mkstates 90 ["R"%char] 64) (Some (0, ["R"%char]))).
  - apply (proj1 (history_buffer_kept (fun _ => true))).
  - vm_compute. reflexivity.
  - vm_compute. reflexivity.
Defined.

Lemma sok_move_in_bounds_witness :
  sok_move (fun _ => true) open_game sokmoveUP 0 sok_newstates <> MoveUB.
Proof.
  apply (sok_move_in_bounds (fun _ => true) open_game sokmoveUP 0 sok_newstates).
  - split; [split; [reflexivity | repeat constructor] | cbn; lia].
  - cbn. lia.
  - cbn. lia.
  - unfold history_fits. cbn. lia.
Defined.

Lemma moves_keep_atoms_witness :
  count_flag field_atom (field row1_solved) = count_flag field_atom (field row1_game).
Proof.
  apply (moves_keep_atoms (fun _ => true) row1_game sokmoveRIGHT sok_newstates 7
           row1_solved (mkstates 90 ["R"%char] 64) (Some (0, ["R"%char]))).
  vm_compute. reflexivity.
Defined.

Lemma player_cell_free_witness :
  exists c, field_get (field row1_solved) (positionx row1_solved) (positiony row1_solved)
            = Some c
            /\ has_flag c field_wall = false /\ has_flag c field_atom = false.
Proof.
  apply (player_cell_free (fun _ => true) row1_game sokmoveRIGHT sok_newstates 7
           row1_solved (mkstates 90 ["R"%char] 64) (Some (0, ["R"%char]))).
  - vm_compute. reflexivity.
  - lia.
Defined.

Lemma best_solution_saved_witness :
  (0, ["R"%char]) = (crc64 row1_game, history (mkstates 90 ["R"%char] 64)).
Proof.
  apply (proj2 (best_solution_saved (fun _ => true) row1_game sokmoveRIGHT sok_newstates 7
                  row1_solved (mkstates 90 ["R"%char] 64) (Some (0, ["R"%char]))
                  ltac:(vm_compute; reflexivity) ltac:(lia))
               (0, ["R"%char])).
  reflexivity.
Defined.

Lemma save_stops_at_foreign_char_witness :
  Save.solution_save (Some (["l"; "l"; "D"; "u"; "R"] ++ "x" :: ["d"]))%char
  = Save.solution_save (Some ["l"; "l"; "D"; "u"; "R"])%char
  /\ Save.solution_load (fun _ => true)
       (Save.solution_save (Some (["l"; "l"; "D"; "u"; "R"] ++ "x" :: ["d"]))%char)
     = Some ["l"; "l"; "D"; "u"; "R"]%char.
Proof.
  apply (save_stops_at_foreign_char (fun _ => true)
           ["l"; "l"; "D"; "u"; "R"]%char "x"%char ["d"%char]).
  - reflexivity.
  - repeat (constructor; [cbn; auto 10 |]). constructor.
  - cbn. intros H. repeat (destruct H as [H | H]; [discriminate H |]). destruct H.
Defined.

Lemma solution_file_size_witness :
  (length [33; 38; 21; 18] <= length ["l"; "l"; "D"; "D"; "L"; "d"]%char)%nat
  /\ (length ["l"; "l"; "D"; "D"; "L"; "d"]%char <= 15 * length [33; 38; 21; 18])%nat.
Proof.
  apply (solution_file_size ["l"; "l"; "D"; "D"; "L"; "d"]%char [33; 38; 21; 18]).
  - repeat (constructor; [cbn; auto 10 |]). constructor.
  - vm_compute. reflexivity.
Defined.

Lemma history_replays_witness :
  exists st' saved,
    sok_play (fun _ => true) row1_game sok_newstates
             (Some (history (mkstates 270 ["R"; "l"]%char 64)))
    = PlayDone (set_position row1_solved 0 1) st' saved
    /\ history st' = history (mkstates 270 ["R"; "l"]%char 64).
Proof.
  apply (history_replays (fun _ => true) row1_game
           [EvMove sokmoveRIGHT; EvMove sokmoveUP; EvUndo; EvMove sokmoveLEFT]).
  - reflexivity.
  - vm_compute. reflexivity.
  - vm_compute. reflexivity.
Defined.

Lemma saved_game_restores_witness :
  exists st' saved,
    sok_play (fun _ => true) (loadlevel row1_game).1 (loadlevel row1_game).2
             (Save.solution_load (fun _ => true)
                (Save.solution_save (Some (history (mkstates 270 ["R"; "l"]%char 64)))))
    = PlayDone (set_position row1_solved 0 1) st' saved
    /\ history st' = history (mkstates 270 ["R"; "l"]%char 64).
Proof.
  apply (saved_game_restores (fun _ => true) row1_game
           [EvMove sokmoveRIGHT; EvMove sokmoveUP; EvUndo; EvMove sokmoveLEFT]).
  - reflexivity.
  - vm_compute. reflexivity.
  - vm_compute. reflexivity.
Defined.

Lemma loadfile_row0 :
  sok_loadfile 0 feed_bytes (fun crc => crc) no_crc64 (fun _ => true)
               (fun _ => Some open_game) (fun _ => None) (fun _ => None)
               1 (Some (mem_of_string row0_text))
  = Some (mkloaded 1 [Some 0%nat] [Some (mkgame 3 1 row0_field 0 0 1 0 0 None)]).
Proof. vm_compute. reflexivity. Qed.

Lemma loader_return_values_witness :
  (1 = 0 \/ 1 = 1 \/ 1 = ERR_LEVEL_TOO_LARGE \/ 1 = ERR_LEVEL_TOO_HIGH
   \/ 1 = ERR_PLAYER_POS_UNDEFINED)
  /\ 1 <> ERR_LEVEL_TOO_SMALL /\ 1 <> ERR_NO_LEVEL_DATA_FOUND.
Proof.
  apply (loader_return_values 0 feed_bytes (fun crc => crc) no_crc64 open_game
           (mem_of_string row0_text) 1 _ []
           (load_row0 0 feed_bytes (fun crc => crc) no_crc64 open_game)).
Defined.

Lemma loaded_level_shape_witness :
  1 <= 3 <= 61 /\ 1 <= 1 <= 62 /\ 0 <= 0 < 3 /\ 0 <= 0 < 1
  /\ field_wf row0_field
  /\ @None (list ascii) = None /\ level open_game = level open_game.
Proof.
  apply (loaded_level_shape 0 feed_bytes (fun crc => crc) no_crc64 open_game
           (mem_of_string row0_text) 1 _ []
           (load_row0 0 feed_bytes (fun crc => crc) no_crc64 open_game)).
  lia.
Defined.

Lemma sok_loadfile_return_witness :
  1 <= 1 <= 1
  \/ ((1 = ERR_UNABLE_TO_OPEN_FILE \/ 1 = ERR_MEM_ALLOC_FAILED
       \/ 1 = ERR_TOO_MANY_LEVELS_IN_SET \/ 1 = ERR_LEVEL_TOO_LARGE
       \/ 1 = ERR_LEVEL_TOO_HIGH \/ 1 = ERR_PLAYER_POS_UNDEFINED)
      /\ sok_strerr 1 <> "Unknown error"%string
      /\ Forall (fun cell => cell = None)
                [Some (mkgame 3 1 row0_field 0 0 1 0 0 None)]).
Proof.
  apply (sok_loadfile_return 0 feed_bytes (fun crc => crc) no_crc64 (fun _ => true)
           (fun _ => Some open_game) (fun _ => None) (fun _ => None)
           1 (Some (mem_of_string row0_text))
           (mkloaded 1 [Some 0%nat] [Some (mkgame 3 1 row0_field 0 0 1 0 0 None)])).
  - lia.
  - apply loadfile_row0.
Defined.

Lemma sok_loadfile_levels_witness :
  levels_ok (fun _ => true) (fun _ => None) 1 [Some 0%nat]
            [Some (mkgame 3 1 row0_field 0 0 1 0 0 None)].
Proof.
  apply (sok_loadfile_levels 0 feed_bytes (fun crc => crc) no_crc64 (fun _ => true)
           (fun _ => Some open_game) (fun _ => None) (fun _ => None)
           1 (Some (mem_of_string row0_text))
           (mkloaded 1 [Some 0%nat] [Some (mkgame 3 1 row0_field 0 0 1 0 0 None)])).
  - lia.
  - apply loadfile_row0.
  - cbn. lia.
Defined.

Lemma loader_reads_any_text_witness :
  is_Some (loadlevelfromfile 0 feed_bytes (fun crc => crc) no_crc64 open_game
                             (mem_of_string row0_text)).
Proof.
  apply (loader_reads_any_text 0 feed_bytes (fun crc => crc) no_crc64 open_game
           (mem_of_string row0_text)).
  reflexivity.
Defined.

Lemma sok_loadfile_reads_any_text_witness :
  is_Some (sok_loadfile 0 feed_bytes (fun crc => crc) no_crc64 (fun _ => true)
                        (fun _ => Some open_game) (fun _ => None) (fun _ => None)
                        1 (Some (mem_of_string row0_text))).
Proof.
  apply (sok_loadfile_reads_any_text 0 feed_bytes (fun crc => crc) no_crc64
           (fun _ => true) (fun _ => Some open_game) (fun _ => None) (fun _ => None)
           1 (mem_of_string row0_text)).
  - lia.
  - intros text H. vm_compute in H. injection H as <-. reflexivity.
Defined.

Lemma dumped_level_loads_back_witness :
  loadlevelfromfile 0 feed_bytes (fun crc => crc) no_crc64 open_game
                    (map code row0_dump)
  = Some (0, set_level_solution (mkgame 3 1 row0_field 0 0 1 0 0 None)
                                (level open_game) None,
          map code []).
Proof.
  apply (dumped_level_loads_back 0 feed_bytes (fun crc => crc) no_crc64
           (fun _ => true) open_game open_game (mem_of_string row0_text) [] 1 1
           (mkgame 3 1 row0_field 0 0 1 0 0 None) None None row0_dump).
  - apply (load_row0 0 feed_bytes (fun crc => crc) no_crc64 open_game).
  - lia.
  - cbn. lia.
  - vm_compute. reflexivity.
Defined.

Lemma dump_buffer_overrun_witness :
  dumplevel2clipboard (fun _ => true) open_game None = DumpUB
  <-> true = true
      /\ sok_history_getlen (solution open_game) + 4050 < sok_history_getlen None.
Proof.
  apply (dump_buffer_overrun (fun _ => true) open_game None).
  split; [split; [reflexivity | repeat constructor] | cbn; lia].
Defined.

Lemma unRLE_tokens_witness :
  unRLE (fun _ => true) (list_ascii_of_string "3uR")
  = UnrleText (list_ascii_of_string "uuuR").
Proof.
  apply (unRLE_tokens (fun _ => true) (fun _ => eq_refl)
           [(["3"%char], "u"%char); ([], "R"%char)]).
  - constructor; [| constructor; [| constructor]];
      (split; [repeat constructor | split; [reflexivity | vm_compute; discriminate]]).
  - vm_compute. reflexivity.
Defined.

Lemma pasted_solution_plays_witness :
  (list_ascii_of_string "uuR" <> [] ->
   autoplay 4 1 (list_ascii_of_string "uuR")
   = Some [sokmoveUP; sokmoveUP; sokmoveRIGHT]
   /\ Forall (fun movedir => movedir <> sokmoveNONE)
             [sokmoveUP; sokmoveUP; sokmoveRIGHT])
  /\ (list_ascii_of_string "uuR" = [] ->
      process_autoplayback 1 (list_ascii_of_string "uuR") = None).
Proof.
  apply (pasted_solution_plays (fun _ => true) (list_ascii_of_string "2uR")
           (list_ascii_of_string "uuR")).
  - reflexivity.
  - reflexivity.
  - cbn. unfold INT_MAX. lia.
Defined.

Lemma trimstr_cuts_blanks_witness :
  exists kept blanks,
    trimstr (list_ascii_of_string "u l ") = Some kept
    /\ list_ascii_of_string "u l " = kept ++ blanks
    /\ Forall (fun c => trim_blank c = true) blanks
    /\ forall c, last kept = Some c -> trim_blank c = false.
Proof.
  apply (trimstr_cuts_blanks (list_ascii_of_string "u l ")).
  cbn. unfold INT_MAX. lia.
Defined.

Lemma trim_strips_spaces_witness :
  exists kept,
    trim (list_ascii_of_string " a b ") = Some kept
    /\ ((Forall (fun c => is_space c = true) (list_ascii_of_string " a b ")
         /\ kept = take 1 (list_ascii_of_string " a b "))
        \/ (exists before behind,
              list_ascii_of_string " a b " = before ++ kept ++ behind
              /\ Forall (fun c => is_space c = true) before
              /\ Forall (fun c => is_space c = true) behind
              /\ (exists c, head kept = Some c /\ is_space c = false)
              /\ (exists c, last kept = Some c /\ is_space c = false))).
Proof.
  apply (trim_strips_spaces (list_ascii_of_string " a b ")).
  cbn. unfold INT_MAX. lia.
Defined.

Lemma rle_count_repeats_witness :
  load_outcome (loadlevelfromfile 0 feed_bytes (fun crc => crc) no_crc64 open_game
                                  (mem_of_string "#2@"))
  = load_outcome (loadlevelfromfile 0 feed_bytes (fun crc => crc) no_crc64 open_game
                                    (mem_of_string "#@@")).
Proof.
  apply (rle_count_repeats 0 feed_bytes (fun crc => crc) no_crc64 open_game
           [([], code "#"%char)] [code "2"%char] (code "@"%char) []).
  - constructor; [| constructor].
    split; [constructor | split; [reflexivity | vm_compute; discriminate]].
  - split; [repeat constructor | split; [reflexivity | vm_compute; discriminate]].
  - discriminate.
Defined.

Lemma player_in_window_witness :
  exists offx offy,
    getoffseth open_game 800 32 = Some offx
    /\ getoffsetv open_game 600 32 = Some offy
    /\ 0 <= offx + positionx open_game * 32
    /\ offx + positionx open_game * 32 + 32 <= 800
    /\ 0 <= offy + positiony open_game * 32
    /\ offy + positiony open_game * 32 + 32 <= 600
    /\ (field_width open_game * 32 <= 800 ->
        0 <= offx /\ offx + field_width open_game * 32 <= 800)
    /\ (800 < field_width open_game * 32 ->
        offx <= 0 /\ 800 <= offx + field_width open_game * 32)
    /\ (field_height open_game * 32 <= 600 ->
        0 <= offy /\ offy + field_height open_game * 32 <= 600)
    /\ (600 < field_height open_game * 32 ->
        offy <= 0 /\ 600 <= offy + field_height open_game * 32).
Proof.
  apply (player_in_window open_game 800 600 32); cbn; lia.
Defined.

Lemma load_tall :
  loadlevelfromfile 0 feed_bytes (fun crc => crc) no_crc64 open_game tall_text
  = Some (1, tall_level, []).
Proof. vm_compute. reflexivity. Qed.

Lemma tall_dump_too_high_witness :
  exists g' rest,
    loadlevelfromfile 0 feed_bytes (fun crc => crc) no_crc64 open_game
                      (map code tall_dump)
    = Some (ERR_LEVEL_TOO_HIGH, g', rest).
Proof.
  apply (tall_dump_too_high 0 feed_bytes (fun crc => crc) no_crc64 (fun _ => true)
           open_game open_game tall_text [] 1 1 tall_level None None tall_dump).
  - apply load_tall.
  - lia.
  - vm_compute. discriminate.
  - vm_compute. reflexivity.
Defined.
